(* ===== verification/_CoqProject ===== *)
-Q . S2P
Prelude.v
Float64.v
Text.v
Version.v
Process.v
Scheduler.v
MultiLevel.v
Lottery.v
Simulator.v
SimInvariant.v
SimSteps.v
SimTick.v
SimReach.v
SimPolicy.v
SimCpu.v
SimEvents.v
SimAccounting.v
SimProgress.v
SimReset.v
SimMlq.v
SimFair.v
SimOptimal.v
SimMorphism.v
SimArrivals.v
SimInTurn.v
SimRoundRobin.v
SimCfs.v
SimAging.v
RunLoop.v
Store.v
Logging.v
Config.v
Metrics.v
Middleware.v
Api.v
Interface.v
Web.v
WsConn.v
Rest.v
Server.v
ServerRaces.v
Main.v
