(* ===== verification/Prelude.v ===== *)
(** * Verification of the process scheduler simulator

    ** The program

    A discrete-time simulator of CPU scheduling, written in Go. The engine
    ([internal/simulator/simulator.go]) owns the processes and advances them one
    time unit per tick; at each tick it asks a policy behind the [Scheduler]
    interface ([internal/scheduler/scheduler.go]) which process runs. Processes
    ([internal/process/process.go]) keep their own bookkeeping. A REST API, a
    WebSocket server, an in-memory store, configuration, middleware, logging and
    Prometheus metrics surround the engine.

    ** The files

    - [Prelude]: 64-bit integers, sums over lists, removal of the first
      occurrence, the best-element scan the policies share, tactics and hints.
    - [Float64]: the few float64 operations the code performs, on the standard
      library's [SpecFloat] at binary64.
    - [Process]: [process.go]. The struct as a record with one setter per field,
      [Execute], [Clone], [SetNice] with its float64 weight loop, the palette.
    - [Scheduler]: the interface as the class [Scheduler], what the engine
      relies on as the class [SchedulerLaws], and FCFS, SJF, SRTF, Round-Robin,
      Priority (with aging) and CFS as instances of both.
    - [MultiLevel]: MLFQ and MLQ, whose maps from process pointers to levels are
      finite maps; same classes.
    - [Lottery]: the lottery policy, its xorshift generator, and an injected
      generator as a parameter ([ExternalRNG]).
    - [Simulator]: [simulator.go]. The struct as a record over an arbitrary
      scheduler type, one definition per method of the tick path, [Reset]'s
      state part, snapshots, metrics and [Step].
    - [SimInvariant], [SimSteps], [SimTick]: the invariant of the engine, its
      preservation by every step, and the effect of a whole tick.
    - [SimReach]: the states the program reaches by construction, adding
      processes, setters, ticks, control state changes and reset.
    - [SimPolicy]: the interface [RunsBest] of a preemptive policy (a rank of the
      ready processes and a mark, the rank with its tolerance, of the running one) and
      what the engine makes of it, for SRTF, preemptive Priority and MLFQ.
    - [SimMlq]: MLQ's map of levels agrees with the priorities of the processes that
      wait or run, so that nobody runs while a higher queue has a process.
    - [SimCpu]: the fields only the CPU changes (the class [CpuField]) and what a tick
      does to them.
    - [SimEvents]: the event log against the life cycle of a process.
    - [SimAccounting]: clock, idle time, Gantt chart and metrics.
    - [SimProgress]: completion of every run, makespan, policy independence.
    - [SimReset]: reset and replay.
    - [SimFair]: the interface [Rotates] of Round-Robin and its bounded waiting.
    - [SimOptimal]: a policy that serves the least remaining work first (the interface
      [LeastFirst], SRTF is an instance) beside any other, and that its turnaround is
      least.
    - [SimArrivals]: what a tick does about arrivals under any policy.
    - [SimRoundRobin]: the engine under Round-Robin against the textbook algorithm,
      which serves whole slices ([round_robin], by well-founded recursion).
    - [SimInTurn]: policies that never take the CPU away (the interface [RunsOut]): FCFS
      against the textbook recurrence; SJF as a [LeastFirst] policy for batches.
    - [SimMorphism]: maps between schedulers that commute with their methods ([Morphism])
      commute with every operation of the engine.
    - [SimCfs]: CFS in virtual time, an instance of [RunsBest]: shares by weight, no
      starvation.
    - [SimAging]: the Priority policy with aging: no starvation.
    - [RunLoop]: the run goroutine of [simulator.go] and the control methods
      [Start], [Stop], [Pause], [Resume] and [Step] as an interleaving transition
      system over the engine's state, its channels and their pending tokens.
    - [Store]: [internal/store/store.go], the bounded history of finished
      simulations, oldest first.
    - [Api]: [internal/api/api.go]: request validation, scheduler construction
      ([AnyScheduler] is the interface value, again an instance of the classes),
      the handlers' decisions as status and body, the concurrency guard and the
      identifiers.
    - [Interface]: an engine over an interface value is the engine over the policy's own
      type, so the answers of the API keep what the theorems on policies promise.
    - [Text]: what the program uses of Go's [strings], [strconv.Atoi] and
      [time.ParseDuration]; case and space outside ASCII are the class [GoUnicode].
    - [Logging]: [internal/logging/logging.go]: base-36 request identifiers, the
      settings, the identifier in the request's context.
    - [Config]: [internal/config/config.go]: defaults, the overrides from the
      environment, validation.
    - [Metrics]: [internal/metrics/metrics.go]: the declared metrics, their
      registration, the functions as the calls they make, and what the metrics ask of
      a call ([accepted]).
    - [Middleware]: [internal/middleware/middleware.go]: handlers as transformers
      of the world of one request (response writer, log, metric calls), the
      middlewares over them, and the rate limiter over a token bucket given as a
      parameter.
    - [Web]: the pure half of [web/server.go]: messages as JSON values, parsing
      and validation, and each handler as the script of effects it performs.
    - [Rest]: the handlers of [Api] on the response writer of [Middleware]: bodies with
      a limit, JSON answers through the whole stack, and sequences of requests against the metrics.
    - [Version]: [internal/version/version.go] and the build version of the entry point.
    - [WsConn]: [wsConn] of [web/server.go]: the goroutines that write to a connection
      over its mutex; a write of the library is an interval.
    - [Server]: the concurrent half of [web/server.go]: connections running the
      scripts, with their pingers, every simulator installed with its run goroutines
      ([RunLoop]), the broadcast queue, the calls on the metrics and [Shutdown], as one
      interleaving transition system.
    - [ServerRaces]: what its interleavings lead to, by explicit runs.
    - [Main]: [cmd/server/main.go]: what is built from the environment, the routes,
      the health probe, and the life of the process over [Server]'s transition system,
      with its exit codes.

    ** How state is modelled

    [*process.Process] is a location in the heap [mem] of the simulator; queues,
    the process list and the current process hold locations, so aliasing is the
    code's. The I/O queue is filtered in place over its backing array, as the
    code does it ([tickIO_loop]); [tickIOQueue_eq] proves that this equals the
    plain filter. [int] and [int64] wrap at 64 bits: every addition, subtraction
    and product of the code is [+i], [-i], [*i] (the [go_scope] notations), and
    the theorems show where it is exact. A run-time panic is [None] (division by
    a zero weight, an index out of range), and the engine is proved free of
    them. [sort.Slice] is the class [GoSort] with the contract of its
    documentation; the insertion sort the library uses on short slices is an
    instance. The map iteration order of Go never matters in the modelled code.

    The admissible configuration of a process ([config_ok]) is a burst of at least
    1, a non-negative arrival, a positive weight and integers in range; processes
    built by [NewProcess] and [SetNice] have one ([NewProcess_admissible],
    [SetNice_admissible]).

    ** What the theorems show

    - Policies: each [Schedule] returns the least element of the ready queue for
      the policy's key; preemption, demotion, aging, the CFS granule and the
      lottery's proportions are characterised exactly; the generator never
      leaves its range.
    - Engine safety: in every reachable state each process is in exactly one
      container, and a tick never panics, advances the clock by one and is work
      conserving, for every scheduler that satisfies [SchedulerLaws].
    - Log: the events of each process are a path of its life cycle; the context
      switches reported are the preemptions and quantum expiries.
    - Accounting: the clock is idle time plus service; the Gantt chart tiles it
      exactly; completed processes satisfy the textbook time relations; the
      metrics are the averages of exact sums.
    - Progress: every simulation completes, with explicit bounds; without I/O
      the makespan does not depend on the policy.
    - Decisions: under a preemptive policy no ready process outranks the one
      that a tick puts on the CPU ([SimPolicy], [SimMlq]).
    - Fairness: under Round-Robin every ready process gets the CPU within a quantum
      per process ([SimFair]).
      Under CFS the lead of a process over one that stays runnable, in time weighted
      by their shares, is bounded by two of its units, and a runnable process gets the
      CPU within a computed bound, whatever arrives ([SimCfs]). Under Priority with
      aging it gets the CPU within the time its priority needs to reach the top, the
      remaining time of the processes that arrived no later, and one burst, whatever
      arrives ([SimAging]).
    - Optimality: without I/O no policy has a smaller total turnaround or waiting
      time than SRTF, whatever the arrival times ([SimOptimal]), nor than SJF when all
      arrive together ([SimInTurn]); both hold of the answers of the API ([Interface]).
    - Order: without I/O every process completes under FCFS exactly where the textbook
      recurrence over the arrivals puts it ([SimInTurn]), and under Round-Robin where
      the textbook algorithm puts it ([SimRoundRobin]).
    - Reset: a reset after a run gives back the state the run started from.
    - Run loop: no interleaving of the control methods with the run goroutine
      leaves the reachable states of the engine, and a stop can return whenever
      at most one run goroutine is alive. Three behaviours are proved as the code has
      them: a pause followed by a resume before the loop looks leaves the loop
      frozen; a start while paused makes a later stop wait for ever; a resume
      after a single step runs nothing.
    - Store and API: the store keeps the last records and nothing else; a
      request is simulated exactly if it passes every check; the answer of a
      simulation is the record of the completed run and is found again under its
      identifier; the guard admits exactly as many runs as its bound.
    - WebSocket server: a message is parsed exactly if it is well-formed, an
      [init] replaces the simulator or changes nothing, every message is answered
      once; under every interleaving of clients, goroutines and shutdown each
      simulator stays in a reachable state of the engine, and clients and queue
      stay within the configured limits, and no pinger outlives its connection by more
      than one ping. The writes to a connection are atomic and always return
      ([WsConn]), which is why [Server] takes a write as one step. Three races are proved as the code has
      them: simultaneous [init]s leave a run that nothing stops, a [start]
      during a shutdown leaves one that sends on a closed channel, and a client that
      connects during a shutdown holds it up.
    - HTTP: every response written through the response writer carries the security
      headers and a clean request identifier, also after a panic (a hijacked
      connection, that of a WebSocket upgrade, gets its handler's reply alone); what the
      access log and the metrics record; every REST answer arrives with its status, its
      headers and its size (no body for HEAD), and the simulation counters account for
      the answers;
      clients of the rate limiter do not influence each other.
    - Configuration and entry point: the configuration of any environment is
      well-formed, validation is characterised exactly (a port with a host is refused),
      and a program that starts serves what it was configured to, with a history of
      100 simulations; its health probe asks the port it serves; it
      exits with 0 only after the whole shutdown.

    ** Fuel

    [runToCompletion] is the run loop without its clock; [run_terminates] shows
    that remaining CPU time plus I/O time plus the time to the last arrival is
    fuel enough. [checkIO_loop] runs once per I/O burst at most, so the number
    of bursts is fuel enough: its index grows in every iteration and
    stops at that number. [preempt]'s and [Schedule]'s loops are structural.

    [fmt_loop] is given one step more than the identifier's buffer has bytes; the
    round trip shows that every counter value needs at most the buffer.
    [durationLoop] consumes at least one character per round. [round_robin] needs no
    fuel: a slice takes at least one unit of the work that is left.

    ** What is not modelled

    Sockets, deadlines, tickers and the JSON codec: a connection or a ping may fail at
    any moment, a ping may come at any moment, and messages are decoded values. The
    HTTP library (listening, routing, draining; the route table is modelled, its
    matching is a parameter; of the listener only how it ends), the logging back ends,
    the storage and exposition of the metrics, the token bucket, file serving and
    Unicode tables are libraries. The browser client is not written in Go. *)

From stdpp Require Export base list numbers option strings sets.
From Stdlib Require Export ZArith Lia.
From Stdlib Require Import Ascii DecimalString DecimalZ DecimalPos.

#[global] Open Scope Z_scope.

(** ** Machine integers

    Go's [int] and [int64] are 64-bit two's complement on every platform the
    program is built for; arithmetic wraps silently. *)

Definition min_int : Z := - 2 ^ 63.
Definition max_int : Z := 2 ^ 63 - 1.
Definition in_int (z : Z) : Prop := min_int <= z <= max_int.
Definition wrap64 (z : Z) : Z := (z + 2 ^ 63) mod 2 ^ 64 - 2 ^ 63.
Definition wrapU64 (z : Z) : Z := z mod 2 ^ 64.

Declare Scope go_scope.
Delimit Scope go_scope with go.
Notation "x +ᵢ y" := (wrap64 (x + y)) (at level 50, left associativity) : go_scope.
Notation "x -ᵢ y" := (wrap64 (x - y)) (at level 50, left associativity) : go_scope.
Notation "x *ᵢ y" := (wrap64 (x * y)) (at level 40, left associativity) : go_scope.
(** Truncated division; [min_int / -1] wraps to [min_int]. Only used where the
    code has already excluded a zero divisor. *)
Notation "x /ᵢ y" := (wrap64 (Z.quot x y)) (at level 40, left associativity) : go_scope.
#[global] Open Scope go_scope.

(** Division as the code performs it: a zero divisor is a run-time panic. *)
Definition idiv_checked (x y : Z) : option Z :=
  if y =? 0 then None else Some (x /ᵢ y).

(** ** Decimal printing ([%d]) *)
Definition itoa (z : Z) : string := NilZero.string_of_int (Z.to_int z).

(** ** Lists *)

(** Sum of [f] over a list. *)
Fixpoint zsum {A} (f : A -> Z) (l : list A) : Z :=
  match l with
  | [] => 0
  | x :: l => f x + zsum f l
  end.

(** Removal of the first element equal to [x]: the effect of the code's
    [for i, p := range q { if p == x { q = append(q[:i], q[i+1:]...); break } }]. *)
Fixpoint remove_first {A} `{EqDecision A} (x : A) (l : list A) : list A :=
  match l with
  | [] => []
  | y :: l => if decide (y = x) then l else y :: remove_first x l
  end.

(** Lexicographic order on keys. *)
Fixpoint lex_ltb (k1 k2 : list Z) : bool :=
  match k1, k2 with
  | [], [] => false
  | [], _ :: _ => true
  | _ :: _, [] => false
  | x :: k1, y :: k2 => (x <? y) || ((x =? y) && lex_ltb k1 k2)
  end.

(** [r] is the earliest element of [q] with a minimal key: strictly better than
    everything before it, and not worse than anything after it. *)
Definition first_min {A} (key : A -> list Z) (q : list A) (r : A) : Prop :=
  exists q1 q2, q = q1 ++ r :: q2 /\
    (forall x, x ∈ q1 -> lex_ltb (key r) (key x) = true) /\
    (forall x, x ∈ q2 -> lex_ltb (key x) (key r) = false).

(** The scan the policies share: keep the best element so far, replace it only
    by a strictly better one. *)
Definition scan_best {A} (better : A -> A -> bool) (best : A) (q : list A) : A :=
  fold_left (fun best p => if better p best then p else best) q best.

(** ** Automation *)

Create HintDb go.

Ltac deex :=
  repeat match goal with
         | H : ex _ |- _ => destruct H
         | H : _ /\ _ |- _ => destruct H
         end.

(** Turn boolean tests of the code into propositions. *)
Ltac bool_prop :=
  repeat match goal with
         | H : (_ && _)%bool = true |- _ => apply andb_true_iff in H; destruct H
         | H : (_ || _)%bool = false |- _ => apply orb_false_iff in H; destruct H
         | H : negb _ = true |- _ => apply negb_true_iff in H
         | H : negb _ = false |- _ => apply negb_false_iff in H
         | H : (_ =? _) = true |- _ => apply Z.eqb_eq in H
         | H : (_ =? _) = false |- _ => apply Z.eqb_neq in H
         | H : (_ <? _) = true |- _ => apply Z.ltb_lt in H
         | H : (_ <? _) = false |- _ => apply Z.ltb_ge in H
         | H : (_ <=? _) = true |- _ => apply Z.leb_le in H
         | H : (_ <=? _) = false |- _ => apply Z.leb_gt in H
         end.

(** Decide the integer tests of the goal that follow from the hypotheses. *)
Ltac ztest :=
  repeat (match goal with
         | |- context [?a <? ?b] =>
             first [ rewrite (proj2 (Z.ltb_lt a b)) by lia
                   | rewrite (proj2 (Z.ltb_ge a b)) by lia ]
         | |- context [?a <=? ?b] =>
             first [ rewrite (proj2 (Z.leb_le a b)) by lia
                   | rewrite (proj2 (Z.leb_gt a b)) by lia ]
         | |- context [?a =? ?b] =>
             first [ rewrite (proj2 (Z.eqb_eq a b)) by lia
                   | rewrite (proj2 (Z.eqb_neq a b)) by lia ]
         end; cbn [andb orb negb]).

Arguments wrap64 : simpl never.
Arguments wrapU64 : simpl never.
Arguments itoa : simpl never.

Lemma and_wlog_r (P Q : Prop) : P -> (P -> Q) -> P /\ Q.
Proof. auto. Qed.

(** ** Machine integer lemmas *)

Lemma wrap64_small z : in_int z -> wrap64 z = z.
Proof. unfold in_int, wrap64, min_int, max_int. intros. rewrite Z.mod_small; lia. Qed.

Lemma wrap64_range z : in_int (wrap64 z).
Proof.
  unfold in_int, wrap64, min_int, max_int.
  pose proof (Z.mod_pos_bound (z + 2 ^ 63) (2 ^ 64)). lia.
Qed.

Lemma wrap64_add_l a b : wrap64 (wrap64 a + b) = wrap64 (a + b).
Proof.
  unfold wrap64. f_equal.
  replace ((a + 2 ^ 63) mod 2 ^ 64 - 2 ^ 63 + b + 2 ^ 63)
    with ((a + 2 ^ 63) mod 2 ^ 64 + b) by lia.
  rewrite Z.add_mod_idemp_l by lia. f_equal. lia.
Qed.

Lemma wrapU64_range z : 0 <= wrapU64 z < 2 ^ 64.
Proof. apply Z.mod_pos_bound. lia. Qed.

(** A division by a non-zero divisor does not panic. *)
Lemma idiv_checked_Some x y : y <> 0 -> idiv_checked x y = Some (x /ᵢ y).
Proof. intros Hy. unfold idiv_checked. by destruct (Z.eqb_spec y 0). Qed.

(** Erase the wrap-around of every operation whose exact result is in range. *)
Ltac unwrap :=
  repeat match goal with
         | |- context [wrap64 ?z] =>
             rewrite (wrap64_small z) by (unfold in_int, min_int, max_int in *; lia)
         | H : context [wrap64 ?z] |- _ =>
             rewrite (wrap64_small z) in H by (unfold in_int, min_int, max_int in *; lia)
         end.

(** ** Printing lemmas *)

(** A string without the character [c]. *)
Fixpoint lacks (c : Ascii.ascii) (s : string) : bool :=
  match s with
  | EmptyString => true
  | String x s => negb (Ascii.eqb x c) && lacks c s
  end.

Lemma lacks_app c s t : lacks c (s ++ t) = lacks c s && lacks c t.
Proof. induction s as [|x s IH]; simpl; [done|]. by rewrite IH, andb_assoc. Qed.

Lemma itoa_inj x y : itoa x = itoa y -> x = y.
Proof.
  intros E. rewrite <-(DecimalZ.of_to x), <-(DecimalZ.of_to y). f_equal.
  assert (Hnn : forall z, Z.to_int z <> Decimal.Pos Decimal.Nil /\
                          Z.to_int z <> Decimal.Neg Decimal.Nil).
  { intros [|p|p]; simpl; split; try done; intros [= H]; by apply Unsigned.to_uint_nonnil in H. }
  pose proof (NilZero.isi (Z.to_int x) (proj1 (Hnn x)) (proj2 (Hnn x))) as Hx.
  pose proof (NilZero.isi (Z.to_int y) (proj1 (Hnn y)) (proj2 (Hnn y))) as Hy.
  unfold itoa in E. rewrite E, Hy in Hx. congruence.
Qed.

(** A non-negative number prints as digits only. *)
Lemma itoa_digits z : 0 <= z -> lacks "-"%char (itoa z) = true.
Proof.
  intros Hz. unfold itoa.
  assert (Hu : exists u, Z.to_int z = Decimal.Pos u) by (destruct z; simpl; [eauto..|lia]).
  destruct Hu as [u ->]. unfold NilZero.string_of_int, NilZero.string_of_uint.
  assert (H : lacks "-"%char (NilEmpty.string_of_uint u) = true) by (by induction u).
  by destruct u.
Qed.

(** The part after the last separator determines itself. *)
Lemma after_last_separator c a b s t :
  lacks c s = true -> lacks c t = true ->
  (a ++ String c s)%string = (b ++ String c t)%string -> s = t.
Proof.
  assert (Hno : forall x y, lacks c (x ++ String c y) = false).
  { intros x y. rewrite lacks_app. simpl. rewrite Ascii.eqb_refl. by rewrite andb_false_r. }
  intros Hs Ht. revert b. induction a as [|x a IH]; intros [|y b]; simpl; intros E.
  - by injection E.
  - injection E as _ ->. by rewrite Hno in Hs.
  - injection E as _ <-. by rewrite Hno in Ht.
  - injection E as _ E. by eapply IH.
Qed.

(** ** Sums over lists *)
Section zsum.
Context {A : Type}.
Implicit Types (f g : A -> Z) (l : list A).

Lemma zsum_map {B} (f : A -> Z) (g : B -> A) (l : list B) : zsum f (map g l) = zsum (fun x => f (g x)) l.
Proof. induction l as [|x l IH]; simpl; [done|]. by rewrite IH. Qed.

Lemma zsum_app f l1 l2 : zsum f (l1 ++ l2) = zsum f l1 + zsum f l2.
Proof. induction l1; simpl; lia. Qed.

Lemma zsum_ext f g l : (forall x, x ∈ l -> f x = g x) -> zsum f l = zsum g l.
Proof.
  induction l as [|a l IH]; intros H; simpl; [done|].
  rewrite H by left. rewrite IH; [done|]. intros; apply H; by right.
Qed.

Lemma zsum_le f g l : (forall x, x ∈ l -> f x <= g x) -> zsum f l <= zsum g l.
Proof.
  induction l as [|a l IH]; intros H; simpl; [done|].
  assert (f a <= g a) by (apply H; left).
  assert (zsum f l <= zsum g l) by (apply IH; intros; apply H; by right). lia.
Qed.

Lemma zsum_nonneg f l : (forall x, x ∈ l -> 0 <= f x) -> 0 <= zsum f l.
Proof.
  intros H. transitivity (zsum (fun _ => 0) l); [|by apply zsum_le].
  clear H. induction l; simpl; lia.
Qed.

Lemma zsum_zero f l : (forall x, x ∈ l -> f x = 0) -> zsum f l = 0.
Proof. intros H. rewrite (zsum_ext _ (fun _ => 0)) by done. clear; induction l; simpl; lia. Qed.

(** A non-negative sum dominates each of its terms. *)
Lemma zsum_elem f l x : (forall y, y ∈ l -> 0 <= f y) -> x ∈ l -> f x <= zsum f l.
Proof.
  induction l as [|a l IH]; intros Hpos Hx; [by inversion Hx|]; simpl.
  assert (0 <= f a) by (apply Hpos; left).
  assert (0 <= zsum f l) by (apply zsum_nonneg; intros; apply Hpos; by right).
  apply elem_of_cons in Hx as [->|Hx]; [lia|].
  assert (f x <= zsum f l) by (apply IH; [intros; apply Hpos; by right|done]). lia.
Qed.

(** Two functions that differ at one element of a duplicate-free list. *)
Lemma zsum_change f g l x :
  NoDup l -> x ∈ l -> (forall y, y ∈ l -> y <> x -> f y = g y) ->
  zsum f l = zsum g l - g x + f x.
Proof.
  induction 1 as [|a l Ha Hnd IH]; intros Hx Heq; [by inversion Hx|]; simpl.
  apply elem_of_cons in Hx as [->|Hx].
  - rewrite (zsum_ext f g l); [lia|]. intros y Hy. apply Heq; [by right|]. by intros ->.
  - rewrite IH; [|done|by intros y Hy Hne; apply Heq; [right|]].
    rewrite (Heq a); [lia|left|]. by intros ->.
Qed.

Lemma zsum_perm f l1 l2 : l1 ≡ₚ l2 -> zsum f l1 = zsum f l2.
Proof. induction 1; simpl; lia. Qed.
End zsum.

#[export] Instance zsum_proper {A} (f : A -> Z) : Proper ((≡ₚ) ==> (=)) (zsum f).
Proof. intros l1 l2 H. by apply zsum_perm. Qed.

Lemma NoDup_map_inj {A B} (f : A -> B) l x y :
  NoDup (map f l) -> x ∈ l -> y ∈ l -> f x = f y -> x = y.
Proof.
  induction l as [|a l IH]; simpl; intros Hnd Hx Hy Hf; [by apply elem_of_nil in Hx|].
  apply NoDup_cons in Hnd as [Ha Hnd].
  assert (Hin : forall z, z ∈ l -> f z ∈ map f l) by (intros z Hz; apply list_elem_of_fmap; eauto).
  apply elem_of_cons in Hx as [->|Hx], Hy as [->|Hy]; auto.
  - exfalso. apply Ha. rewrite Hf. auto.
  - exfalso. apply Ha. rewrite <-Hf. auto.
Qed.

(** ** Removal of the first occurrence *)
Section remove_first.
Context {A : Type} `{EqDecision A}.
Implicit Types (x y : A) (l : list A).

Lemma remove_first_perm x l : x ∈ l -> l ≡ₚ x :: remove_first x l.
Proof.
  induction l as [|a l IH]; intros Hx; [by inversion Hx|]; simpl.
  case_decide as Ha; [by subst|].
  apply elem_of_cons in Hx as [->|Hx]; [done|].
  rewrite (IH Hx) at 1. apply Permutation_swap.
Qed.

Lemma remove_first_nodup x l : NoDup l -> NoDup (remove_first x l).
Proof.
  induction 1 as [|a l Ha Hnd IH]; simpl; [constructor|].
  case_decide; [done|]. constructor; [|done].
  intros Hin. apply Ha. clear -Hin. induction l as [|b l IH]; simpl in *; [done|].
  case_decide; [by right|]. apply elem_of_cons in Hin as [->|Hin]; [left|right; auto].
Qed.

Lemma elem_of_remove_first x y l :
  NoDup l -> y ∈ remove_first x l <-> y ∈ l /\ y <> x.
Proof.
  induction 1 as [|a l Ha Hnd IH]; simpl; [split; [by intros ?%elem_of_nil|by intros [?%elem_of_nil _]]|].
  case_decide as Hax; subst.
  - rewrite elem_of_cons. split; [intros Hy; split; [by right|by intros ->]|].
    intros [[->|?] ?]; done.
  - rewrite !elem_of_cons, IH. split; [intros [->|[? ?]]; auto|intros [[->|?] ?]; auto].
Qed.
End remove_first.

(** ** Selection of a best element *)
Section selection.
Context {A : Type}.
Implicit Types (k : list Z) (q : list A).

Lemma lex_ltb_irrefl k : lex_ltb k k = false.
Proof. induction k; simpl; [done|]. rewrite Z.ltb_irrefl, Z.eqb_refl. done. Qed.

Lemma lex_ltb_trans k1 k2 k3 :
  lex_ltb k1 k2 = true -> lex_ltb k2 k3 = true -> lex_ltb k1 k3 = true.
Proof.
  revert k2 k3. induction k1 as [|x k1 IH]; intros [|y k2] [|z k3]; simpl; try done.
  intros H1 H2. apply orb_true_iff in H1, H2. apply orb_true_iff.
  destruct H1 as [H1|H1], H2 as [H2|H2]; bool_prop.
  1-3: left; apply Z.ltb_lt; lia.
  right. apply andb_true_iff. split; [apply Z.eqb_eq; lia|eauto].
Qed.

Lemma lex_ltb_total k1 k2 : lex_ltb k1 k2 = false -> k1 = k2 \/ lex_ltb k2 k1 = true.
Proof.
  revert k2. induction k1 as [|x k1 IH]; intros [|y k2]; simpl; auto.
  intros [H1 H2]%orb_false_iff. apply Z.ltb_ge in H1.
  destruct (Z.eqb_spec x y) as [->|Hne]; simpl in H2.
  - destruct (IH _ H2) as [->|Hlt]; [by left|right].
    apply orb_true_iff. right. by rewrite Z.eqb_refl.
  - right. apply orb_true_iff. left. apply Z.ltb_lt. lia.
Qed.

(** A strictly better element beats everything the old best was not beaten by. *)
Lemma lex_ltb_le_trans k1 k2 k3 :
  lex_ltb k1 k2 = true -> lex_ltb k3 k2 = false -> lex_ltb k1 k3 = true.
Proof. intros H1 [->|H]%lex_ltb_total; [done|]. by eapply lex_ltb_trans. Qed.

Variable (key : A -> list Z).
Lemma first_min_elem q r : first_min key q r -> r ∈ q.
Proof. intros (q1 & q2 & -> & _). set_solver. Qed.

(** Nothing in the queue has a strictly smaller key. *)
Lemma first_min_le q r x : first_min key q r -> x ∈ q -> lex_ltb (key x) (key r) = false.
Proof.
  intros (q1 & q2 & -> & H1 & H2) Hx.
  apply elem_of_app in Hx as [Hx|[->|Hx]%elem_of_cons]; [|apply lex_ltb_irrefl|auto].
  destruct (lex_ltb (key x) (key r)) eqn:E; [|done].
  specialize (H1 x Hx). pose proof (lex_ltb_trans _ _ _ H1 E) as C.
  by rewrite lex_ltb_irrefl in C.
Qed.
Variable (better : A -> A -> bool).

Lemma scan_best_spec q pre best :
  (forall x y, x ∈ pre ++ q -> y ∈ pre ++ q -> better x y = lex_ltb (key x) (key y)) ->
  first_min key pre best -> first_min key (pre ++ q) (scan_best better best q).
Proof.
  revert pre best. induction q as [|p q IH]; intros pre best Hb Hmin.
  { by rewrite app_nil_r. }
  replace (pre ++ p :: q) with ((pre ++ [p]) ++ q) in * by (by rewrite <-app_assoc).
  apply IH; [done|].
  destruct Hmin as (q1 & q2 & -> & Hq1 & Hq2). simpl.
  rewrite Hb by set_solver. destruct (lex_ltb (key p) (key best)) eqn:Hp.
  - exists (q1 ++ best :: q2), []. split; [done|]. split; [|by intros x ?%elem_of_nil].
    intros x Hx. apply elem_of_app in Hx as [Hx|Hx].
    + eapply lex_ltb_trans; eauto.
    + apply elem_of_cons in Hx as [->|Hx]; [done|]. eapply lex_ltb_le_trans; eauto.
  - exists q1, (q2 ++ [p]). split; [by rewrite <-app_assoc|]. split; [done|].
    intros x Hx. apply elem_of_app in Hx as [Hx| ->%list_elem_of_singleton]; auto.
Qed.

Lemma scan_best_first_min b q :
  (forall x y, x ∈ b :: q -> y ∈ b :: q -> better x y = lex_ltb (key x) (key y)) ->
  first_min key (b :: q) (scan_best better b q).
Proof.
  intros Hb. apply (scan_best_spec q [b] b); [done|].
  exists [], []. split; [done|]. split; intros x ?%elem_of_nil; done.
Qed.

Lemma scan_best_elem b q : scan_best better b q ∈ b :: q.
Proof.
  unfold scan_best. revert b. induction q as [|p q IH]; intros b; simpl; [left|].
  destruct (better p b); [right; apply IH|].
  pose proof (IH b) as H. apply elem_of_cons in H as [->|H]; [left|right; by right].
Qed.

End selection.

#[export] Hint Resolve zsum_nonneg remove_first_nodup wrap64_range : go.
