(* ===== verification/Float64.v ===== *)
(** * IEEE 754 binary64 arithmetic

    The [float64] operations the program uses, as computable functions on the
    Standard Library's [spec_float] (correctly rounded, no axioms): conversion
    from an integer, product, quotient, and Go's truncating conversion to
    [int]. *)

From S2P Require Import Prelude.
From Stdlib Require Export SpecFloat.

Module Float64.

(** float64(z) *)
Definition of_int (z : Z) : spec_float := binary_normalize 53 1024 z 0 false.

Definition mul : spec_float -> spec_float -> spec_float := SFmul 53 1024.
Definition div : spec_float -> spec_float -> spec_float := SFdiv 53 1024.

(** The literal [a/b]: the double nearest to the rational. *)
Definition lit (a b : Z) : spec_float := div (of_int a) (of_int b).

(** [int(f)] truncates toward zero. Outside the range of the integer type the
    result is implementation-specific: [None]. *)
Definition to_int (f : spec_float) : option Z :=
  match f with
  | S754_zero _ => Some 0
  | S754_finite s m e =>
      let a := if 0 <=? e then Z.pos m * 2 ^ e else Z.pos m / 2 ^ (- e) in
      let v := if s then - a else a in
      if (min_int <=? v) && (v <=? max_int) then Some v else None
  | _ => None
  end.

(** Neither a NaN nor an infinity. *)
Definition finite (f : spec_float) : bool :=
  match f with
  | S754_zero _ | S754_finite _ _ _ => true
  | _ => false
  end.

End Float64.
