(* ===== verification/Text.v ===== *)
(** * Strings of the Go standard library

    The functions of [strings], [strconv] and [time] the program calls, on byte
    strings. What they do to text outside ASCII depends on Unicode tables: that
    part is the class [GoUnicode]. *)

From Stdlib Require Import Ascii.
From S2P Require Import Prelude.
From S2P Require Import Float64.

(** ** Bytes *)

Definition byteZ (c : ascii) : Z := Z.of_nat (nat_of_ascii c).

Fixpoint chars (s : string) : list ascii :=
  match s with
  | EmptyString => []
  | String c s => c :: chars s
  end.
Fixpoint ofChars (l : list ascii) : string :=
  match l with
  | [] => EmptyString
  | c :: l => String c (ofChars l)
  end.

Definition isDigit (c : ascii) : bool := (48 <=? byteZ c) && (byteZ c <=? 57).
Definition digitZ (c : ascii) : Z := byteZ c - 48.
Definition isAscii (c : ascii) : bool := byteZ c <? 128.
Definition printable (c : ascii) : bool := (32 <=? byteZ c) && (byteZ c <=? 126).

(** The lower case of an ASCII letter. *)
Definition lowerByte (c : ascii) : ascii :=
  if (65 <=? byteZ c) && (byteZ c <=? 90) then ascii_of_nat (nat_of_ascii c + 32) else c.

(** [\t \n \v \f \r] and the space. *)
Definition isSpace (c : ascii) : bool := ((9 <=? byteZ c) && (byteZ c <=? 13)) || (byteZ c =? 32).

(** ** [strings] *)

Class GoUnicode := {
  lowerUnicode : string -> string;
  trimUnicode : string -> string
}.

Definition ToLower `{GoUnicode} (s : string) : string :=
  if forallb isAscii (chars s) then ofChars (map lowerByte (chars s)) else lowerUnicode s.

Fixpoint dropSpace (l : list ascii) : list ascii :=
  match l with
  | [] => []
  | c :: l' => if isSpace c then dropSpace l' else l
  end.

Definition TrimSpace `{GoUnicode} (s : string) : string :=
  if forallb isAscii (chars s) then ofChars (rev (dropSpace (rev (dropSpace (chars s)))))
  else trimUnicode s.

(** [strings.EqualFold(v, w)] for an ASCII [w] without [k] or [s], the only
    letters that something outside ASCII folds to. *)
Definition EqualFold (v w : string) : bool :=
  (ofChars (map lowerByte (chars v)) =? ofChars (map lowerByte (chars w)))%string.

Definition HasPrefix (s p : string) : bool := String.prefix p s.

(** [strings.TrimPrefix] for a prefix of one byte. *)
Definition TrimByte (s : string) (c : ascii) : string :=
  match s with
  | String d s' => if Ascii.eqb d c then s' else s
  | EmptyString => s
  end.

(** [strings.Split] at a separator of one byte. *)
Fixpoint Split (s : string) (sep : ascii) : list string :=
  match s with
  | EmptyString => [EmptyString]
  | String c s =>
      if Ascii.eqb c sep then EmptyString :: Split s sep
      else match Split s sep with
           | w :: ws => String c w :: ws
           | [] => [String c EmptyString]
           end
  end.

(** ** [strconv] *)

(** A non-empty run of digits to the end of the string. *)
Fixpoint digitsValue (l : list ascii) (acc : Z) : option Z :=
  match l with
  | [] => Some acc
  | c :: l => if isDigit c then digitsValue l (acc * 10 + digitZ c) else None
  end.

(** [strconv.Atoi], and [strconv.ParseInt] at base 10 and 64 bits: [None] is an
    error, of syntax or of range. *)
Definition Atoi (s : string) : option Z :=
  let '(neg, ds) := match chars s with
                    | c :: l => if Ascii.eqb c "-" then (true, l)
                                else if Ascii.eqb c "+" then (false, l) else (false, c :: l)
                    | [] => (false, [])
                    end in
  match ds with
  | [] => None
  | _ => v ← digitsValue ds 0;
         let v := if neg : bool then - v else v in
         if (min_int <=? v) && (v <=? max_int) then Some v else None
  end.

(** ** [time.ParseDuration]

    As in the library: integers in [uint64] with explicit overflow tests, the
    fraction and the unit multiplied in [float64]. *)

(** The value of the leading digits and the rest; [None] is an overflow. *)
Fixpoint leadingInt (l : list ascii) (x : Z) : option (Z * list ascii) :=
  match l with
  | c :: l' =>
      if isDigit c then
        if 2 ^ 63 / 10 <? x then None else
        let x := x * 10 + digitZ c in
        if 2 ^ 63 <? x then None else leadingInt l' x
      else Some (x, l)
  | [] => Some (x, [])
  end.

(** Digits after the point: value, scale and rest; digits past an overflow are
    skipped. *)
Fixpoint leadingFraction (l : list ascii) (x : Z) (scale : spec_float) (overflow : bool)
    : Z * spec_float * list ascii :=
  match l with
  | c :: l' =>
      if isDigit c then
        if overflow then leadingFraction l' x scale true
        else if (2 ^ 63 - 1) / 10 <? x then leadingFraction l' x scale true
        else let y := x * 10 + digitZ c in
             if 2 ^ 63 <? y then leadingFraction l' x scale true
             else leadingFraction l' y (Float64.mul scale (Float64.of_int 10)) false
      else (x, scale, l)
  | [] => (x, scale, [])
  end.

Definition isUnitByte (c : ascii) : bool := negb (Ascii.eqb c "." || isDigit c).

Fixpoint takeUnit (l : list ascii) : list ascii * list ascii :=
  match l with
  | c :: l' => if isUnitByte c then let '(u, r) := takeUnit l' in (c :: u, r) else ([], l)
  | [] => ([], [])
  end.

(** The map of units, in nanoseconds; the micro sign and the letter mu in UTF-8. *)
Definition unitMap : list (list ascii * Z) :=
  [(chars "ns", 1); (chars "us", 1000);
   ([ascii_of_nat 194; ascii_of_nat 181; "s"%char], 1000);
   ([ascii_of_nat 206; ascii_of_nat 188; "s"%char], 1000);
   (chars "ms", 1000000); (chars "s", 1000000000);
   (chars "m", 60000000000); (chars "h", 3600000000000)].

Definition unitOf (u : list ascii) : option Z :=
  snd <$> List.find (fun x => bool_decide (fst x = u)) unitMap.

(** One [number unit] group: its nanoseconds and the rest. *)
Definition durationGroup (l : list ascii) : option (Z * list ascii) :=
  match l with
  | [] => None
  | c :: _ =>
      if Ascii.eqb c "." || isDigit c then
        '(v, r) ← leadingInt l 0;
        let pre := negb (length l =? length r)%nat in
        let '(f, scale, r', post) :=
          match r with
          | d :: r1 =>
              if Ascii.eqb d "." then
                let '(f, scale, r2) := leadingFraction r1 0 (Float64.of_int 1) false in
                (f, scale, r2, negb (length r1 =? length r2)%nat)
              else (0, Float64.of_int 1, r, false)
          | [] => (0, Float64.of_int 1, r, false)
          end in
        if negb pre && negb post then None else
        let '(u, rest) := takeUnit r' in
        match u with
        | [] => None
        | _ =>
            unit ← unitOf u;
            if 2 ^ 63 / unit <? v then None else
            let v := v * unit in
            if 0 <? f then
              let v := wrapU64 (v + default 0 (Float64.to_int
                (Float64.mul (Float64.of_int f) (Float64.div (Float64.of_int unit) scale)))) in
              if 2 ^ 63 <? v then None else Some (v, rest)
            else Some (v, rest)
        end
      else None
  end.

(** The loop over the groups; every group consumes a byte, so the length of the
    string is fuel enough. *)
Fixpoint durationLoop (fuel : nat) (l : list ascii) (d : Z) : option Z :=
  match l, fuel with
  | [], _ => Some d
  | _, O => None
  | _, S fuel =>
      '(v, rest) ← durationGroup l;
      let d := wrapU64 (d + v) in
      if 2 ^ 63 <? d then None else durationLoop fuel rest d
  end.

Definition ParseDuration (s : string) : option Z :=
  let '(neg, l) := match chars s with
                   | c :: l => if Ascii.eqb c "-" then (true, l)
                               else if Ascii.eqb c "+" then (false, l) else (false, c :: l)
                   | [] => (false, [])
                   end in
  if bool_decide (l = chars "0") then Some 0 else
  match l with
  | [] => None
  | _ => d ← durationLoop (length l) l 0;
         if neg : bool then Some (- d) else if 2 ^ 63 - 1 <? d then None else Some d
  end.

Example ParseDuration_90m : ParseDuration "1h30m" = Some 5400000000000.
Proof. vm_compute. reflexivity. Qed.
Example ParseDuration_1500ms : ParseDuration "1.5s" = Some 1500000000.
Proof. vm_compute. reflexivity. Qed.
Example ParseDuration_no_unit : ParseDuration "30" = None.
Proof. vm_compute. reflexivity. Qed.

(** ** Lemmas *)

Lemma chars_ofChars l : chars (ofChars l) = l.
Proof. induction l as [|c l IH]; simpl; [done|by rewrite IH]. Qed.

Lemma ofChars_chars s : ofChars (chars s) = s.
Proof. induction s as [|c s IH]; simpl; [done|by rewrite IH]. Qed.

Lemma length_chars s : length (chars s) = String.length s.
Proof. induction s as [|c s IH]; simpl; [done|by rewrite IH]. Qed.

Lemma chars_inj s t : chars s = chars t -> s = t.
Proof. intros E. by rewrite <-(ofChars_chars s), <-(ofChars_chars t), E. Qed.

Lemma chars_app s t : chars (s ++ t)%string = chars s ++ chars t.
Proof. induction s as [|c s IH]; [done|]. cbn [String.append]. exact (f_equal (cons c) IH). Qed.

Lemma Atoi_range s z : Atoi s = Some z -> in_int z.
Proof.
  unfold Atoi. destruct (match chars s with [] => _ | _ => _ end) as [neg [|c ds]]; [done|].
  destruct (digitsValue _ _); [|done]. cbn [mbind option_bind].
  destruct (_ && _) eqn:E; [|done]. intros [= <-]. unfold in_int. lia.
Qed.

Lemma digitsValue_digits l : forall acc v, digitsValue l acc = Some v -> Forall (fun c => isDigit c = true) l.
Proof.
  induction l as [|c l IH]; intros acc v; [constructor|]. cbn [digitsValue].
  destruct (isDigit c) eqn:E; [|done]. intros Hv. constructor; [done|]. by eapply IH.
Qed.

(** No number has a colon in it. *)
Lemma Atoi_colon s : ":"%char ∈ chars s -> Atoi s = None.
Proof.
  intros Hc. destruct (Atoi s) as [z|] eqn:E; [exfalso|done]. revert E. unfold Atoi.
  assert (Hd : forall l v, digitsValue l 0 = Some v -> ":"%char ∈ l -> False).
  { intros l v Hl%digitsValue_digits Hin. rewrite Forall_forall in Hl. by specialize (Hl _ Hin). }
  destruct (chars s) as [|c l]; [by apply elem_of_nil in Hc|].
  apply elem_of_cons in Hc. destruct (Ascii.eqb_spec c "-") as [->|Hm]; [|destruct (Ascii.eqb_spec c "+") as [->|Hp]].
  - destruct Hc as [?|Hc]; [done|]. destruct l; [done|]. destruct (digitsValue _ 0) eqn:Ev; [|done]. by destruct (Hd _ _ Ev).
  - destruct Hc as [?|Hc]; [done|]. destruct l; [done|]. destruct (digitsValue _ 0) eqn:Ev; [|done]. by destruct (Hd _ _ Ev).
  - destruct (digitsValue (c :: l) 0) eqn:Ev; [|done]. intros _. apply (Hd _ _ Ev). by apply elem_of_cons.
Qed.

Lemma durationLoop_range fuel : forall l d z, 0 <= d <= 2 ^ 63 ->
  durationLoop fuel l d = Some z -> 0 <= z <= 2 ^ 63.
Proof.
  induction fuel as [|fuel IH]; intros [|c l] d z Hd; cbn [durationLoop]; try (by intros [= <-]).
  destruct (durationGroup (c :: l)) as [[v rest]|]; [|done]. cbn [mbind option_bind].
  destruct (Z.ltb_spec (2 ^ 63) (wrapU64 (d + v))); [done|]. apply IH.
  split; [|done]. apply Z.mod_pos_bound. lia.
Qed.

Lemma ParseDuration_range s z : ParseDuration s = Some z -> in_int z.
Proof.
  unfold ParseDuration, in_int, min_int, max_int.
  destruct (match chars s with [] => _ | _ => _ end) as [neg l].
  case_bool_decide; [intros [= <-]; lia|]. destruct l as [|c l]; [done|].
  destruct (durationLoop _ _ 0) as [d|] eqn:E; [|done]. cbn [mbind option_bind].
  apply durationLoop_range in E; [|lia].
  destruct neg; [intros [= <-]; lia|]. destruct (Z.ltb_spec (2 ^ 63 - 1) d); [done|].
  intros [= <-]. lia.
Qed.
