(* ===== verification/Version.v ===== *)
(** * Versions (src/internal/version/version.go)

    The two version strings of the program and what the linker makes of them. *)

From S2P Require Import Prelude.

(** How a package variable of type string is initialised: by a constant, or at the
    start of the program by an expression that refers to other variables. *)
Inductive Initializer := Constant (s : string) | Expression (value : string).

(** Its value in the running program; [X]: the value of a linker flag [-X name=value],
    which replaces a constant and is overwritten by an expression. *)
Definition initialised (X : option string) (i : Initializer) : string :=
  match i with
  | Constant s => default s X
  | Expression value => value
  end.

Section versions.
Variable X : string -> option string.   (* the linker's flags, by variable *)

(** [version.Version] and, in the server's main package, [main.buildVersion]. *)
Definition Version : string := initialised (X "internal/version.Version") (Constant "dev").
Definition buildVersion : string := initialised (X "main.buildVersion") (Expression Version).

(** The builds set [main.buildVersion] only: whatever the release, the running program
    calls itself "dev". *)
Lemma release_builds_are_dev : X "internal/version.Version"%string = None ->
  Version = "dev"%string /\ buildVersion = "dev"%string.
Proof. intros E. unfold buildVersion, Version. cbn. by rewrite E. Qed.
End versions.
