(* ===== verification/Process.v ===== *)
(** * Processes (src/internal/process/process.go)

    The process control block with every field of the source, its constructor,
    [Clone], [Execute], [IsComplete] and the nice-to-weight conversion, the
    records of the event log and the Gantt chart, and what they guarantee: one
    [Execute] consumes exactly its duration of CPU time, stamps the response
    and turnaround times once, and cannot panic for a process with a weight. *)

From S2P Require Import Prelude.
From S2P Require Import Float64.

(** ** Definitions *)

(** [const VRuntimeScale = 1 << 20] *)
Definition VRuntimeScale : Z := Z.shiftl 1 20.

Inductive ProcessState :=
| StateNew | StateReady | StateRunning | StateWaiting | StateTerminated.

#[export] Instance ProcessState_eq_dec : EqDecision ProcessState.
Proof. solve_decision. Defined.

Definition ProcessState_String (s : ProcessState) : string :=
  match s with
  | StateNew => "New"
  | StateReady => "Ready"
  | StateRunning => "Running"
  | StateWaiting => "Waiting"
  | StateTerminated => "Terminated"
  end.

Record IOBurst := {
  AfterCPUTime : Z;
  Duration : Z;
  Completed : bool
}.

Record Process := mkProcess {
  PID : Z;
  Name : string;
  ArrivalTime : Z;
  BurstTime : Z;
  RemainingTime : Z;
  Priority : Z;
  State : ProcessState;
  StartTime : Z;
  CompletionTime : Z;
  WaitingTime : Z;
  TurnaroundTime : Z;
  ResponseTime : Z;
  LastExecuted : Z;
  TimeQuantum : Z;
  VRuntime : Z;
  Nice : Z;
  Weight : Z;
  IOBursts : list IOBurst;
  CurrentIOIndex : Z;
  IORemaining : Z;
  Color : string;
  HasStarted : bool
}.

(** Field updates ([p.F = v]). *)
Definition set_RemainingTime (v : Z) (p : Process) : Process :=
  mkProcess p.(PID) p.(Name) p.(ArrivalTime) p.(BurstTime) v p.(Priority)
    p.(State) p.(StartTime) p.(CompletionTime) p.(WaitingTime)
    p.(TurnaroundTime) p.(ResponseTime) p.(LastExecuted) p.(TimeQuantum)
    p.(VRuntime) p.(Nice) p.(Weight) p.(IOBursts) p.(CurrentIOIndex)
    p.(IORemaining) p.(Color) p.(HasStarted).
Definition set_State (v : ProcessState) (p : Process) : Process :=
  mkProcess p.(PID) p.(Name) p.(ArrivalTime) p.(BurstTime) p.(RemainingTime)
    p.(Priority) v p.(StartTime) p.(CompletionTime) p.(WaitingTime)
    p.(TurnaroundTime) p.(ResponseTime) p.(LastExecuted) p.(TimeQuantum)
    p.(VRuntime) p.(Nice) p.(Weight) p.(IOBursts) p.(CurrentIOIndex)
    p.(IORemaining) p.(Color) p.(HasStarted).
Definition set_StartTime (v : Z) (p : Process) : Process :=
  mkProcess p.(PID) p.(Name) p.(ArrivalTime) p.(BurstTime) p.(RemainingTime)
    p.(Priority) p.(State) v p.(CompletionTime) p.(WaitingTime)
    p.(TurnaroundTime) p.(ResponseTime) p.(LastExecuted) p.(TimeQuantum)
    p.(VRuntime) p.(Nice) p.(Weight) p.(IOBursts) p.(CurrentIOIndex)
    p.(IORemaining) p.(Color) p.(HasStarted).
Definition set_CompletionTime (v : Z) (p : Process) : Process :=
  mkProcess p.(PID) p.(Name) p.(ArrivalTime) p.(BurstTime) p.(RemainingTime)
    p.(Priority) p.(State) p.(StartTime) v p.(WaitingTime) p.(TurnaroundTime)
    p.(ResponseTime) p.(LastExecuted) p.(TimeQuantum) p.(VRuntime) p.(Nice)
    p.(Weight) p.(IOBursts) p.(CurrentIOIndex) p.(IORemaining) p.(Color)
    p.(HasStarted).
Definition set_WaitingTime (v : Z) (p : Process) : Process :=
  mkProcess p.(PID) p.(Name) p.(ArrivalTime) p.(BurstTime) p.(RemainingTime)
    p.(Priority) p.(State) p.(StartTime) p.(CompletionTime) v
    p.(TurnaroundTime) p.(ResponseTime) p.(LastExecuted) p.(TimeQuantum)
    p.(VRuntime) p.(Nice) p.(Weight) p.(IOBursts) p.(CurrentIOIndex)
    p.(IORemaining) p.(Color) p.(HasStarted).
Definition set_TurnaroundTime (v : Z) (p : Process) : Process :=
  mkProcess p.(PID) p.(Name) p.(ArrivalTime) p.(BurstTime) p.(RemainingTime)
    p.(Priority) p.(State) p.(StartTime) p.(CompletionTime) p.(WaitingTime) v
    p.(ResponseTime) p.(LastExecuted) p.(TimeQuantum) p.(VRuntime) p.(Nice)
    p.(Weight) p.(IOBursts) p.(CurrentIOIndex) p.(IORemaining) p.(Color)
    p.(HasStarted).
Definition set_ResponseTime (v : Z) (p : Process) : Process :=
  mkProcess p.(PID) p.(Name) p.(ArrivalTime) p.(BurstTime) p.(RemainingTime)
    p.(Priority) p.(State) p.(StartTime) p.(CompletionTime) p.(WaitingTime)
    p.(TurnaroundTime) v p.(LastExecuted) p.(TimeQuantum) p.(VRuntime)
    p.(Nice) p.(Weight) p.(IOBursts) p.(CurrentIOIndex) p.(IORemaining)
    p.(Color) p.(HasStarted).
Definition set_LastExecuted (v : Z) (p : Process) : Process :=
  mkProcess p.(PID) p.(Name) p.(ArrivalTime) p.(BurstTime) p.(RemainingTime)
    p.(Priority) p.(State) p.(StartTime) p.(CompletionTime) p.(WaitingTime)
    p.(TurnaroundTime) p.(ResponseTime) v p.(TimeQuantum) p.(VRuntime)
    p.(Nice) p.(Weight) p.(IOBursts) p.(CurrentIOIndex) p.(IORemaining)
    p.(Color) p.(HasStarted).
Definition set_TimeQuantum (v : Z) (p : Process) : Process :=
  mkProcess p.(PID) p.(Name) p.(ArrivalTime) p.(BurstTime) p.(RemainingTime)
    p.(Priority) p.(State) p.(StartTime) p.(CompletionTime) p.(WaitingTime)
    p.(TurnaroundTime) p.(ResponseTime) p.(LastExecuted) v p.(VRuntime)
    p.(Nice) p.(Weight) p.(IOBursts) p.(CurrentIOIndex) p.(IORemaining)
    p.(Color) p.(HasStarted).
Definition set_VRuntime (v : Z) (p : Process) : Process :=
  mkProcess p.(PID) p.(Name) p.(ArrivalTime) p.(BurstTime) p.(RemainingTime)
    p.(Priority) p.(State) p.(StartTime) p.(CompletionTime) p.(WaitingTime)
    p.(TurnaroundTime) p.(ResponseTime) p.(LastExecuted) p.(TimeQuantum) v
    p.(Nice) p.(Weight) p.(IOBursts) p.(CurrentIOIndex) p.(IORemaining)
    p.(Color) p.(HasStarted).
Definition set_Nice (v : Z) (p : Process) : Process :=
  mkProcess p.(PID) p.(Name) p.(ArrivalTime) p.(BurstTime) p.(RemainingTime)
    p.(Priority) p.(State) p.(StartTime) p.(CompletionTime) p.(WaitingTime)
    p.(TurnaroundTime) p.(ResponseTime) p.(LastExecuted) p.(TimeQuantum)
    p.(VRuntime) v p.(Weight) p.(IOBursts) p.(CurrentIOIndex) p.(IORemaining)
    p.(Color) p.(HasStarted).
Definition set_Weight (v : Z) (p : Process) : Process :=
  mkProcess p.(PID) p.(Name) p.(ArrivalTime) p.(BurstTime) p.(RemainingTime)
    p.(Priority) p.(State) p.(StartTime) p.(CompletionTime) p.(WaitingTime)
    p.(TurnaroundTime) p.(ResponseTime) p.(LastExecuted) p.(TimeQuantum)
    p.(VRuntime) p.(Nice) v p.(IOBursts) p.(CurrentIOIndex) p.(IORemaining)
    p.(Color) p.(HasStarted).
Definition set_IOBursts (v : list IOBurst) (p : Process) : Process :=
  mkProcess p.(PID) p.(Name) p.(ArrivalTime) p.(BurstTime) p.(RemainingTime)
    p.(Priority) p.(State) p.(StartTime) p.(CompletionTime) p.(WaitingTime)
    p.(TurnaroundTime) p.(ResponseTime) p.(LastExecuted) p.(TimeQuantum)
    p.(VRuntime) p.(Nice) p.(Weight) v p.(CurrentIOIndex) p.(IORemaining)
    p.(Color) p.(HasStarted).
Definition set_CurrentIOIndex (v : Z) (p : Process) : Process :=
  mkProcess p.(PID) p.(Name) p.(ArrivalTime) p.(BurstTime) p.(RemainingTime)
    p.(Priority) p.(State) p.(StartTime) p.(CompletionTime) p.(WaitingTime)
    p.(TurnaroundTime) p.(ResponseTime) p.(LastExecuted) p.(TimeQuantum)
    p.(VRuntime) p.(Nice) p.(Weight) p.(IOBursts) v p.(IORemaining) p.(Color)
    p.(HasStarted).
Definition set_IORemaining (v : Z) (p : Process) : Process :=
  mkProcess p.(PID) p.(Name) p.(ArrivalTime) p.(BurstTime) p.(RemainingTime)
    p.(Priority) p.(State) p.(StartTime) p.(CompletionTime) p.(WaitingTime)
    p.(TurnaroundTime) p.(ResponseTime) p.(LastExecuted) p.(TimeQuantum)
    p.(VRuntime) p.(Nice) p.(Weight) p.(IOBursts) p.(CurrentIOIndex) v
    p.(Color) p.(HasStarted).
Definition set_HasStarted (v : bool) (p : Process) : Process :=
  mkProcess p.(PID) p.(Name) p.(ArrivalTime) p.(BurstTime) p.(RemainingTime)
    p.(Priority) p.(State) p.(StartTime) p.(CompletionTime) p.(WaitingTime)
    p.(TurnaroundTime) p.(ResponseTime) p.(LastExecuted) p.(TimeQuantum)
    p.(VRuntime) p.(Nice) p.(Weight) p.(IOBursts) p.(CurrentIOIndex)
    p.(IORemaining) p.(Color) v.

Definition set_Completed (v : bool) (b : IOBurst) : IOBurst :=
  {| AfterCPUTime := AfterCPUTime b; Duration := Duration b; Completed := v |}.

(** Event log and Gantt chart entries. *)
Record ProcessEvent := {
  eTime : Z;
  ePID : Z;
  eEventType : string;
  eDescription : string;
  eState : ProcessState
}.

Record GanttEntry := mkGantt {
  gPID : Z;
  gName : string;
  gStartTime : Z;
  gEndTime : Z;
  gColor : string
}.

(** The palette of [generateColor]. *)
Definition colors : list string :=
  [ "#4A90E2"; "#50C878"; "#E74C3C"; "#F39C12"; "#9B59B6";
    "#1ABC9C"; "#E67E22"; "#3498DB"; "#2ECC71"; "#E91E63";
    "#00BCD4"; "#FF5722"; "#795548"; "#607D8B"; "#CDDC39" ]%string.

(** [None] is an index out of range. *)
Definition generateColor (pid : Z) : option string :=
  let idx := pid -ᵢ 1 in
  let idx := if idx <? 0 then 0 else idx in
  let i := Z.rem idx (Z.of_nat (length colors)) in
  if i <? 0 then None else colors !! Z.to_nat i.

(** [NewProcess]; fields the literal leaves out have Go's zero value. *)
Definition NewProcess (pid : Z) (name : string) (arrivalTime burstTime priority : Z)
    : option Process :=
  color ← generateColor pid;
  Some {| PID := pid; Name := name; ArrivalTime := arrivalTime;
          BurstTime := burstTime; RemainingTime := burstTime; Priority := priority;
          State := StateNew; StartTime := -1; CompletionTime := 0; WaitingTime := 0;
          TurnaroundTime := 0; ResponseTime := 0; LastExecuted := 0; TimeQuantum := 0;
          VRuntime := 0; Nice := 0; Weight := 1024; IOBursts := [];
          CurrentIOIndex := 0; IORemaining := 0; Color := color; HasStarted := false |}.

(** [copy(dst, src)] into a slice made with [len(src)] zero elements. *)
Definition copy_into {A} (zero : A) (src : list A) : list A :=
  let dst := replicate (length src) zero in
  take (length dst) src ++ drop (length src) dst.

Definition Clone (p : Process) : Process :=
  let ioBursts :=
    copy_into {| AfterCPUTime := 0; Duration := 0; Completed := false |} (IOBursts p) in
  {| PID := PID p; Name := Name p; ArrivalTime := ArrivalTime p;
     BurstTime := BurstTime p; RemainingTime := RemainingTime p; Priority := Priority p;
     State := State p; StartTime := StartTime p; CompletionTime := CompletionTime p;
     WaitingTime := WaitingTime p; TurnaroundTime := TurnaroundTime p;
     ResponseTime := ResponseTime p; LastExecuted := LastExecuted p;
     TimeQuantum := TimeQuantum p; VRuntime := VRuntime p; Nice := Nice p;
     Weight := Weight p; IOBursts := ioBursts; CurrentIOIndex := CurrentIOIndex p;
     IORemaining := IORemaining p; Color := Color p; HasStarted := HasStarted p |}.

(** Bookkeeping of the first dispatch. *)
Definition markStarted (currentTime : Z) (p : Process) : Process :=
  if HasStarted p then p else
  set_ResponseTime (currentTime -ᵢ ArrivalTime p)
    (set_StartTime currentTime (set_HasStarted true p)).

(** Bookkeeping of completion. *)
Definition markTerminated (currentTime duration : Z) (p : Process) : Process :=
  if RemainingTime p <=? 0 then
    let p := set_State StateTerminated p in
    let p := set_CompletionTime (currentTime +ᵢ duration) p in
    let p := set_TurnaroundTime (CompletionTime p -ᵢ ArrivalTime p) p in
    let p := set_WaitingTime (TurnaroundTime p -ᵢ BurstTime p) p in
    set_RemainingTime 0 p
  else p.

(** [Execute]; [None] is the panic of an integer division by a zero weight. *)
Definition Execute (currentTime duration : Z) (p : Process) : option Process :=
  let p := if decide (State p = StateRunning) then p else set_State StateRunning p in
  let p := markStarted currentTime p in
  let p := set_RemainingTime (RemainingTime p -ᵢ duration) p in
  let p := set_LastExecuted (currentTime +ᵢ duration) p in
  advance ← idiv_checked (duration *ᵢ VRuntimeScale) (Weight p);
  let p := set_VRuntime (VRuntime p +ᵢ advance) p in
  Some (markTerminated currentTime duration p).

Definition IsComplete (p : Process) : bool :=
  bool_decide (State p = StateTerminated) || (RemainingTime p <=? 0).

Definition abs (x : Z) : Z := if x <? 0 then wrap64 (- x) else x.

(** [niceToWeight]: the product is taken in [float64]; [None] is a conversion
    outside the range of [int]. *)
Definition niceToWeight (nice : Z) : option Z :=
  let baseWeight := 1024 in
  if nice =? 0 then Some baseWeight else
  let factor := if nice <? 0 then Float64.lit 125 100 else Float64.lit 80 100 in
  Float64.to_int
    (Nat.iter (Z.to_nat (abs nice)) (fun w => Float64.mul w factor)
       (Float64.of_int baseWeight)).

Definition clampNice (nice : Z) : Z :=
  if nice <? -20 then -20 else if 19 <? nice then 19 else nice.

Definition SetNice (nice : Z) (p : Process) : option Process :=
  let nice := clampNice nice in
  let p := set_Nice nice p in
  w ← niceToWeight nice;
  Some (set_Weight w p).

Definition Process_String (p : Process) : string :=
  ("P" ++ itoa (PID p) ++ "[" ++ Name p ++ "] Arr:" ++ itoa (ArrivalTime p)
   ++ " Burst:" ++ itoa (BurstTime p) ++ " Rem:" ++ itoa (RemainingTime p)
   ++ " Pri:" ++ itoa (Priority p) ++ " State:" ++ ProcessState_String (State p))%string.

(** The zero value of the struct. *)
#[export] Instance Process_inhabited : Inhabited Process :=
  populate {| PID := 0; Name := ""; ArrivalTime := 0; BurstTime := 0;
     RemainingTime := 0; Priority := 0; State := StateNew; StartTime := 0;
     CompletionTime := 0; WaitingTime := 0; TurnaroundTime := 0; ResponseTime := 0;
     LastExecuted := 0; TimeQuantum := 0; VRuntime := 0; Nice := 0; Weight := 0;
     IOBursts := []; CurrentIOIndex := 0; IORemaining := 0; Color := "";
     HasStarted := false |}.

(** The configuration of a process: what no operation of the engine changes. *)
Definition burst_config (b : IOBurst) : Z * Z := (AfterCPUTime b, Duration b).
Definition config (p : Process) :=
  (PID p, Name p, (ArrivalTime p, BurstTime p, Priority p), (Nice p, Weight p), Color p,
   map burst_config (IOBursts p)).

(** ** Lemmas *)

Lemma copy_into_eq {A} (z : A) l : copy_into z l = l.
Proof.
  unfold copy_into. rewrite length_replicate, firstn_all, drop_ge; [apply app_nil_r|].
  by rewrite length_replicate.
Qed.

(** [Clone] copies every field, I/O bursts included. *)
Lemma Clone_eq p : Clone p = p.
Proof. destruct p. unfold Clone. simpl. by rewrite copy_into_eq. Qed.

(** What one tick of [Execute] does to a process that still needs the CPU. *)
Lemma Execute_tick t p :
  Weight p <> 0 -> 1 <= RemainingTime p <= max_int -> 0 <= t < max_int ->
  exists p', Execute t 1 p = Some p' /\
    config p' = config p /\ IOBursts p' = IOBursts p /\
    CurrentIOIndex p' = CurrentIOIndex p /\ IORemaining p' = IORemaining p /\
    TimeQuantum p' = TimeQuantum p /\
    HasStarted p' = true /\ LastExecuted p' = t + 1 /\
    RemainingTime p' = RemainingTime p - 1 /\
    VRuntime p' = VRuntime p +ᵢ (VRuntimeScale /ᵢ Weight p) /\
    (if HasStarted p
     then StartTime p' = StartTime p /\ ResponseTime p' = ResponseTime p
     else StartTime p' = t /\ ResponseTime p' = t -ᵢ ArrivalTime p) /\
    (if RemainingTime p =? 1
     then State p' = StateTerminated /\ CompletionTime p' = t + 1 /\
          TurnaroundTime p' = t + 1 -ᵢ ArrivalTime p /\
          WaitingTime p' = (t + 1 -ᵢ ArrivalTime p) -ᵢ BurstTime p
     else State p' = StateRunning /\ CompletionTime p' = CompletionTime p /\
          TurnaroundTime p' = TurnaroundTime p /\ WaitingTime p' = WaitingTime p).
Proof.
  intros Hw Hr Ht. destruct p. unfold Execute, markStarted, markTerminated. simpl in *.
  rewrite idiv_checked_Some by (destruct (decide _), HasStarted0; done). simpl.
  change (1 *ᵢ VRuntimeScale) with VRuntimeScale.
  assert (Hrem : RemainingTime0 -ᵢ 1 = RemainingTime0 - 1) by (unwrap; lia).
  assert (Ht1 : t +ᵢ 1 = t + 1) by (unwrap; lia).
  eexists. split; [reflexivity|].
  destruct (decide _) as [Hd|Hd], HasStarted0; simpl in *; subst;
    rewrite ?Hrem, ?Ht1; destruct (Z.eqb_spec RemainingTime0 1); ztest; unfold config; simpl;
    rewrite ?Hrem, ?Ht1; repeat split; lia.
Qed.

Lemma generateColor_total pid : in_int pid -> is_Some (generateColor pid).
Proof.
  intros Hpid. unfold generateColor.
  set (idx := if pid -ᵢ 1 <? 0 then 0 else pid -ᵢ 1).
  assert (Hidx : 0 <= idx) by (unfold idx; destruct (Z.ltb_spec (pid -ᵢ 1) 0); lia).
  clearbody idx. rewrite Z.rem_mod_nonneg by (simpl; lia).
  pose proof (Z.mod_pos_bound idx (Z.of_nat (length colors)) ltac:(simpl; lia)) as Hm.
  ztest. apply lookup_lt_is_Some. simpl length in *. lia.
Qed.

Lemma clampNice_range n : -20 <= clampNice n <= 19.
Proof.
  unfold clampNice. destruct (Z.ltb_spec n (-20)); [lia|].
  destruct (Z.ltb_spec 19 n); lia.
Qed.

(** Case analysis over the nice values by computation. *)
Lemma nice_cases (P : Z -> bool) :
  forallb (fun i => P (Z.of_nat i - 20)) (seq 0 40) = true ->
  forall n, -20 <= n <= 19 -> P n = true.
Proof.
  intros H n Hn. rewrite forallb_forall in H.
  specialize (H (Z.to_nat (n + 20))). replace n with (Z.of_nat (Z.to_nat (n + 20)) - 20) by lia.
  apply H. apply in_seq. lia.
Qed.

Definition weight_in_range (n : Z) : bool :=
  match niceToWeight n with
  | Some w => (14 <=? w) && (w <=? 88817)
  | None => false
  end.

Definition weight_decreases (n : Z) : bool :=
  match niceToWeight n, niceToWeight (n + 1) with
  | Some w, Some w' => (19 <=? n) || (w' <? w)
  | _, _ => false
  end.

Lemma niceToWeight_range n : -20 <= n <= 19 ->
  exists w, niceToWeight n = Some w /\ 14 <= w <= 88817.
Proof.
  intros Hn.
  pose proof (nice_cases weight_in_range ltac:(vm_compute; reflexivity) n Hn) as H.
  unfold weight_in_range in H.
  destruct (niceToWeight n) as [w|]; [|done]. exists w. bool_prop. auto.
Qed.

Lemma niceToWeight_step n : -20 <= n < 19 ->
  exists w w', niceToWeight n = Some w /\ niceToWeight (n + 1) = Some w' /\ w' < w.
Proof.
  intros Hn.
  pose proof (nice_cases weight_decreases ltac:(vm_compute; reflexivity) n ltac:(lia)) as H.
  unfold weight_decreases in H.
  destruct (niceToWeight n) as [w|]; [|done]. destruct (niceToWeight (n + 1)) as [w'|]; [|done].
  exists w, w'. apply orb_true_iff in H as [H|H]; bool_prop; [lia|auto].
Qed.

(** ** Properties *)

(** One tick of [Execute] on a process with a weight that still needs the CPU
    does not panic, consumes exactly one unit of remaining time and changes no
    configuration; the first dispatch, and only it, records start and response
    time; exhausting the remaining time, and only that, terminates the process
    and fixes completion, turnaround (completion minus arrival) and waiting
    (turnaround minus burst). *)
Theorem Execute_one_tick t p :
  Weight p <> 0 -> 1 <= RemainingTime p <= BurstTime p -> BurstTime p <= max_int ->
  0 <= ArrivalTime p <= t -> t < max_int ->
  exists p', Execute t 1 p = Some p' /\ config p' = config p /\
    RemainingTime p' = RemainingTime p - 1 /\ HasStarted p' = true /\
    (HasStarted p = true -> StartTime p' = StartTime p /\ ResponseTime p' = ResponseTime p) /\
    (HasStarted p = false -> StartTime p' = t /\ ResponseTime p' = t - ArrivalTime p) /\
    (RemainingTime p = 1 <-> IsComplete p' = true) /\
    (IsComplete p' = true ->
       CompletionTime p' = t + 1 /\
       TurnaroundTime p' = CompletionTime p' - ArrivalTime p /\
       WaitingTime p' = TurnaroundTime p' - BurstTime p) /\
    (IsComplete p' = false -> State p' = StateRunning /\ WaitingTime p' = WaitingTime p).
Proof.
  intros Hw Hr Hb Ha Ht.
  destruct (Execute_tick t p) as (p' & He & Hcfg & _ & _ & _ & _ & Hs & _ & Hrem & _ & Hst & Hfin);
    [done|unfold max_int in *; lia|lia|].
  exists p'. split; [done|]. split; [done|]. split; [done|]. split; [done|].
  assert (Hc : IsComplete p' = (RemainingTime p =? 1)).
  { unfold IsComplete. destruct (Z.eqb_spec (RemainingTime p) 1) as [H1|H1];
      destruct Hfin as (-> & _); rewrite Hrem; ztest; by case_bool_decide. }
  rewrite Hc, Z.eqb_eq, Z.eqb_neq.
  destruct (HasStarted p), (Z.eqb_spec (RemainingTime p) 1); deex; unwrap;
    repeat split; (done || lia || intros; repeat split; try done; try lia; congruence).
Qed.

(** P1 arrived at 2 with one unit of work; dispatched at 4 it completes at 5
    having waited for 2. *)
Lemma Execute_one_tick_witness :
  exists p', Execute 4 1 (default inhabitant (NewProcess 1 "P1" 2 1 0)) = Some p' /\
    WaitingTime p' = 2.
Proof.
  destruct (Execute_one_tick 4 (default inhabitant (NewProcess 1 "P1" 2 1 0)))
    as (p' & He & _ & _ & _ & _ & _ & Hc & Hd & _).
  1-5: vm_compute; repeat split; discriminate.
  exists p'. split; [exact He|].
  destruct (Hd (proj1 Hc eq_refl)) as (Hcomp & Hturn & Hwait).
  rewrite Hwait, Hturn, Hcomp. reflexivity.
Defined.

(** [Execute] panics exactly for a weight of zero, and no process the program
    builds has one: [NewProcess] succeeds for every [int] PID with weight 1024,
    and [SetNice] always yields a weight between 14 and 88817. *)
Theorem Execute_panics_only_weightless :
  (forall t d p, Execute t d p = None <-> Weight p = 0) /\
  (forall pid name arrival burst priority, in_int pid ->
     exists p, NewProcess pid name arrival burst priority = Some p /\
       Weight p = 1024 /\ State p = StateNew /\ RemainingTime p = burst) /\
  (forall nice p, exists p', SetNice nice p = Some p' /\
     -20 <= Nice p' <= 19 /\ 14 <= Weight p' <= 88817).
Proof.
  split; [|split].
  - intros t d p. unfold Execute, markStarted, idiv_checked.
    destruct (decide _), (HasStarted _); simpl;
      destruct (Z.eqb_spec (Weight p) 0) as [He|He]; simpl; split; done || congruence.
  - intros pid name arrival burst priority Hpid. unfold NewProcess.
    destruct (generateColor_total pid Hpid) as [c ->]. simpl. by eexists.
  - intros nice p. unfold SetNice. pose proof (clampNice_range nice) as Hn.
    destruct (niceToWeight_range _ Hn) as (w & -> & Hw). simpl. eexists. split; [done|].
    destruct p; simpl. lia.
Qed.

(** The float64 weight table is strictly decreasing over the nice values, is
    1024 at nice 0, and its largest weight still advances virtual runtime by at
    least 11 units per tick, which is what the scale 1<<20 is for: with the scale
    1024 of the kernel every weight above 1024 would not advance at all. *)
Theorem nice_weights_order_cpu_share n m :
  -20 <= n < m -> m <= 19 ->
  exists w w', niceToWeight n = Some w /\ niceToWeight m = Some w' /\ w' < w /\
    niceToWeight 0 = Some 1024 /\
    11 <= VRuntimeScale / w <= VRuntimeScale / w' /\
    (n < 0 -> 1024 / w = 0).
Proof.
  intros Hn Hm.
  assert (Hmono : forall k : nat, n + 1 + Z.of_nat k <= 19 ->
    exists w w', niceToWeight n = Some w /\ niceToWeight (n + 1 + Z.of_nat k) = Some w' /\ w' < w).
  { induction k as [|k IH]; intros Hk.
    - rewrite Z.add_0_r. apply niceToWeight_step. lia.
    - destruct IH as (w & w1 & H1 & H2 & H3); [lia|].
      destruct (niceToWeight_step (n + 1 + Z.of_nat k)) as (w2 & w3 & H4 & H5 & H6); [lia|].
      exists w, w3. replace (n + 1 + Z.of_nat (S k)) with (n + 1 + Z.of_nat k + 1) by lia.
      simplify_eq. split; [done|]. split; [done|lia]. }
  destruct (Hmono (Z.to_nat (m - n - 1))) as (w & w' & H1 & H2 & H3); [lia|].
  replace (n + 1 + Z.of_nat (Z.to_nat (m - n - 1))) with m in H2 by lia.
  destruct (niceToWeight_range n) as (w0 & Hw0 & Hr0); [lia|].
  destruct (niceToWeight_range m) as (w1 & Hw1 & Hr1); [lia|]. simplify_eq.
  exists w, w'. repeat split; try done.
  - apply Z.div_le_lower_bound; [lia|]. change VRuntimeScale with 1048576. lia.
  - apply Z.div_le_compat_l; [change VRuntimeScale with 1048576; lia|lia].
  - intros Hneg. apply Z.div_small. split; [done|].
    destruct (Hmono (Z.to_nat (- n - 1))) as (wn & wz & H4 & H5 & H6); [lia|].
    replace (n + 1 + Z.of_nat (Z.to_nat (- n - 1))) with 0 in H5 by lia.
    change (niceToWeight 0) with (Some 1024) in H5. simplify_eq. lia.
Qed.

Lemma nice_weights_order_cpu_share_witness :
  exists w w', niceToWeight (-20) = Some w /\ niceToWeight 19 = Some w' /\ w' < w.
Proof.
  destruct (nice_weights_order_cpu_share (-20) 19) as (w & w' & H1 & H2 & H3 & _); [lia|lia|].
  eauto.
Defined.
