(* ===== verification/Scheduler.v ===== *)
(** * The scheduler interface and the policies without state
    (src/internal/scheduler/scheduler.go)

    [*process.Process] is a location into a heap of processes; the interface of
    the source is the class [Scheduler], the laws the engine relies on are the
    class [SchedulerLaws]. FCFS, SJF, SRTF, Round-Robin, Priority and CFS are
    instances, each with the theorem that its [Schedule] returns the earliest
    queue element with the least key of the policy. *)

From S2P Require Import Prelude.
From S2P Require Import Float64.
From S2P Require Import Process.

(** ** The process heap *)

Abbreviation loc := nat (only parsing).
Abbreviation heap := (list Process) (only parsing).

(** [*p]; every pointer the program holds is allocated. *)
Definition deref (h : heap) (l : loc) : Process := h !!! l.

(** [readyQueue[0]]; the callers have checked [len(readyQueue) > 0]. *)
Definition head_of (q : list loc) : option loc := q !! 0%nat.

(** ** The interface *)

(** A method that can panic returns [None] in that case. *)
Class Scheduler (S : Type) := {
  Schedule : S -> heap -> list loc -> Z -> option loc * S;
  sched_AddProcess : S -> heap -> loc -> S;
  sched_RemoveProcess : S -> loc -> S;
  Preempt : S -> heap -> option loc -> list loc -> Z -> option bool;
  sched_Name : S -> string;
  QuantumFor : S -> option loc -> option Z;
  OnQuantumExpired : S -> option loc -> S;
  sched_Reset : S -> S
}.

(** What the engine relies on: a representation invariant every method keeps,
    work conservation (a non-empty queue yields one of its members, an empty
    one nothing), and no panics for processes with a weight. *)
Class SchedulerLaws (S : Type) `{Scheduler S} := {
  sched_ok : S -> Prop;
  ok_Schedule : forall s h q t, sched_ok s -> sched_ok (snd (Schedule s h q t));
  ok_AddProcess : forall s h l, sched_ok s -> sched_ok (sched_AddProcess s h l);
  ok_RemoveProcess : forall s l, sched_ok s -> sched_ok (sched_RemoveProcess s l);
  ok_OnQuantumExpired : forall s l, sched_ok s -> sched_ok (OnQuantumExpired s l);
  ok_Reset : forall s, sched_ok s -> sched_ok (sched_Reset s);
  Schedule_empty : forall s h t, fst (Schedule s h [] t) = None;
  Schedule_member : forall s h q t, sched_ok s -> q <> [] ->
    exists l, fst (Schedule s h q t) = Some l /\ l ∈ q;
  Preempt_total : forall s h cur q t, sched_ok s ->
    (forall l, cur = Some l -> Weight (deref h l) <> 0) ->
    is_Some (Preempt s h cur q t);
  QuantumFor_total : forall s cur, sched_ok s -> is_Some (QuantumFor s cur)
}.

(** The shape the selecting policies share: [best := q[0]], then replace it by
    every strictly better element of [q[1:]]. *)
Definition select (better : loc -> loc -> bool) (q : list loc) : option loc :=
  match q with
  | [] => None
  | l :: q => Some (scan_best better l q)
  end.

(** ** FCFS *)
Module FCFS.
Record FCFSScheduler := { name : string }.

Definition NewFCFSScheduler : FCFSScheduler :=
  {| name := "FCFS (First-Come-First-Served)" |}.

Definition better (h : heap) (p earliest : loc) : bool :=
  ArrivalTime (deref h p) <? ArrivalTime (deref h earliest).

Definition key (h : heap) (l : loc) : list Z := [ArrivalTime (deref h l)].

#[global] Instance FCFS_Scheduler : Scheduler FCFSScheduler := {
  Schedule s h readyQueue _ := (select (better h) readyQueue, s);
  sched_AddProcess s _ _ := s;
  sched_RemoveProcess s _ := s;
  Preempt _ _ _ _ _ := Some false;
  sched_Name s := name s;
  QuantumFor _ _ := Some 0;
  OnQuantumExpired s _ := s;
  sched_Reset s := s
}.
End FCFS.

(** ** SJF *)
Module SJF.
Record SJFScheduler := { name : string }.

Definition NewSJFScheduler : SJFScheduler := {| name := "SJF (Shortest Job First)" |}.

Definition better (h : heap) (p shortest : loc) : bool :=
  if BurstTime (deref h p) <? BurstTime (deref h shortest) then true
  else (BurstTime (deref h p) =? BurstTime (deref h shortest))
       && (ArrivalTime (deref h p) <? ArrivalTime (deref h shortest)).

Definition key (h : heap) (l : loc) : list Z :=
  [BurstTime (deref h l); ArrivalTime (deref h l)].

#[global] Instance SJF_Scheduler : Scheduler SJFScheduler := {
  Schedule s h readyQueue _ := (select (better h) readyQueue, s);
  sched_AddProcess s _ _ := s;
  sched_RemoveProcess s _ := s;
  Preempt _ _ _ _ _ := Some false;
  sched_Name s := name s;
  QuantumFor _ _ := Some 0;
  OnQuantumExpired s _ := s;
  sched_Reset s := s
}.
End SJF.

(** ** SRTF *)
Module SRTF.
Record SRTFScheduler := { name : string }.

Definition NewSRTFScheduler : SRTFScheduler :=
  {| name := "SRTF (Shortest Remaining Time First)" |}.

Definition better (h : heap) (p shortest : loc) : bool :=
  if RemainingTime (deref h p) <? RemainingTime (deref h shortest) then true
  else (RemainingTime (deref h p) =? RemainingTime (deref h shortest))
       && (ArrivalTime (deref h p) <? ArrivalTime (deref h shortest)).

Definition key (h : heap) (l : loc) : list Z :=
  [RemainingTime (deref h l); ArrivalTime (deref h l)].

Definition SRTF_Preempt (h : heap) (current : option loc) (readyQueue : list loc) : bool :=
  match current with
  | None => false
  | Some c =>
      existsb (fun p => negb (PID (deref h p) =? PID (deref h c))
                        && (RemainingTime (deref h p) <? RemainingTime (deref h c)))
        readyQueue
  end.

#[global] Instance SRTF_Scheduler : Scheduler SRTFScheduler := {
  Schedule s h readyQueue _ := (select (better h) readyQueue, s);
  sched_AddProcess s _ _ := s;
  sched_RemoveProcess s _ := s;
  Preempt _ h current readyQueue _ := Some (SRTF_Preempt h current readyQueue);
  sched_Name s := name s;
  QuantumFor _ _ := Some 0;
  OnQuantumExpired s _ := s;
  sched_Reset s := s
}.
End SRTF.

(** ** Round-Robin *)
Module RoundRobin.
Record RoundRobinScheduler := { name : string; timeQuantum : Z }.

Definition NewRoundRobinScheduler (timeQuantum : Z) : RoundRobinScheduler :=
  let timeQuantum := if timeQuantum <? 1 then 1 else timeQuantum in
  {| name := ("Round-Robin (Quantum=" ++ itoa timeQuantum ++ ")")%string;
     timeQuantum := timeQuantum |}.

#[global] Instance RoundRobin_Scheduler : Scheduler RoundRobinScheduler := {
  Schedule s _ readyQueue _ :=
    (if (length readyQueue =? 0)%nat then None else head_of readyQueue, s);
  sched_AddProcess s _ _ := s;
  sched_RemoveProcess s _ := s;
  Preempt _ _ _ _ _ := Some false;
  sched_Name s := name s;
  QuantumFor s _ := Some (timeQuantum s);
  OnQuantumExpired s _ := s;
  sched_Reset s := s
}.
End RoundRobin.

(** ** Priority, preemptive or not, with aging *)
Module PriorityPolicy.
Record PriorityScheduler := {
  name : string;
  preemptive : bool;
  agingInterval : Z
}.

Definition newPriorityScheduler (preemptive : bool) (agingInterval : Z) : PriorityScheduler :=
  let mode := if preemptive then "Preemptive" else "Non-Preemptive" in
  {| name := ("Priority (" ++ mode ++ ")")%string;
     preemptive := preemptive;
     agingInterval := agingInterval |}.

Definition NewPriorityScheduler (preemptive : bool) : PriorityScheduler :=
  newPriorityScheduler preemptive 10.

Definition NewPrioritySchedulerWithAging (preemptive : bool) (agingInterval : Z)
    : PriorityScheduler :=
  newPriorityScheduler preemptive agingInterval.

Definition effectivePriority (s : PriorityScheduler) (p : Process) (currentTime : Z) : Z :=
  if agingInterval s <=? 0 then Priority p else
  let lastActivity := ArrivalTime p in
  let lastActivity := if lastActivity <? LastExecuted p then LastExecuted p else lastActivity in
  let waited := currentTime -ᵢ lastActivity in
  let waited := if waited <? 0 then 0 else waited in
  let eff := Priority p -ᵢ (waited /ᵢ agingInterval s) in
  if eff <? 0 then 0 else eff.

Definition better (s : PriorityScheduler) (h : heap) (currentTime : Z) (p highest : loc) : bool :=
  let eff := effectivePriority s (deref h p) currentTime in
  let highestEff := effectivePriority s (deref h highest) currentTime in
  (eff <? highestEff)
  || ((eff =? highestEff) && (ArrivalTime (deref h p) <? ArrivalTime (deref h highest))).

Definition key (s : PriorityScheduler) (h : heap) (currentTime : Z) (l : loc) : list Z :=
  [effectivePriority s (deref h l) currentTime; ArrivalTime (deref h l)].

Definition Priority_Preempt (s : PriorityScheduler) (h : heap) (current : option loc)
    (readyQueue : list loc) (currentTime : Z) : bool :=
  match current with
  | None => false
  | Some c =>
      if negb (preemptive s) then false else
      let currentEff := effectivePriority s (deref h c) currentTime in
      existsb (fun p => negb (PID (deref h p) =? PID (deref h c))
                        && (effectivePriority s (deref h p) currentTime <? currentEff))
        readyQueue
  end.

#[global] Instance Priority_Scheduler : Scheduler PriorityScheduler := {
  Schedule s h readyQueue currentTime := (select (better s h currentTime) readyQueue, s);
  sched_AddProcess s _ _ := s;
  sched_RemoveProcess s _ := s;
  Preempt s h current readyQueue currentTime :=
    Some (Priority_Preempt s h current readyQueue currentTime);
  sched_Name s := name s;
  QuantumFor _ _ := Some 0;
  OnQuantumExpired s _ := s;
  sched_Reset s := s
}.
End PriorityPolicy.

(** ** CFS *)
Module CFS.
Record CFSScheduler := { name : string; minGranularity : Z }.

Definition NewCFSScheduler : CFSScheduler :=
  {| name := "CFS (Completely Fair Scheduler)"; minGranularity := 1 |}.

Definition better (h : heap) (p minVruntime : loc) : bool :=
  (VRuntime (deref h p) <? VRuntime (deref h minVruntime))
  || ((VRuntime (deref h p) =? VRuntime (deref h minVruntime))
      && (PID (deref h p) <? PID (deref h minVruntime))).

Definition key (h : heap) (l : loc) : list Z := [VRuntime (deref h l); PID (deref h l)].

(** The least virtual runtime among the other processes, [max_int] if none. *)
Definition minOther (h : heap) (c : loc) (readyQueue : list loc) : Z :=
  fold_left (fun m p =>
    if negb (PID (deref h p) =? PID (deref h c)) && (VRuntime (deref h p) <? m)
    then VRuntime (deref h p) else m) readyQueue max_int.

(** [None] is the panic of a division by a zero weight. *)
Definition CFS_Preempt (s : CFSScheduler) (h : heap) (current : option loc)
    (readyQueue : list loc) : option bool :=
  match current with
  | None => Some false
  | Some c =>
      if (length readyQueue =? 0)%nat then Some false else
      let minVruntime := minOther h c readyQueue in
      granularity ← idiv_checked (minGranularity s *ᵢ VRuntimeScale) (Weight (deref h c));
      Some (minVruntime <? VRuntime (deref h c) -ᵢ granularity)
  end.

#[global] Instance CFS_Scheduler : Scheduler CFSScheduler := {
  Schedule s h readyQueue _ := (select (better h) readyQueue, s);
  sched_AddProcess s _ _ := s;
  sched_RemoveProcess s _ := s;
  Preempt s h current readyQueue _ := CFS_Preempt s h current readyQueue;
  sched_Name s := name s;
  QuantumFor s _ := Some (minGranularity s);
  OnQuantumExpired s _ := s;
  sched_Reset s := s
}.
End CFS.

(** ** Specifications *)

(** The abstract contract of a selecting policy: without touching its own state
    it returns nothing for an empty queue and otherwise the earliest element of
    the queue whose key is lexicographically least. *)
Definition selects_by {S} `{Scheduler S} (key : S -> heap -> Z -> loc -> list Z) : Prop :=
  forall s h q t,
    match q with
    | [] => Schedule s h q t = (None, s)
    | _ => exists l, Schedule s h q t = (Some l, s) /\ first_min (key s h t) q l
    end.

(** ** Lemmas shared by the policies *)

Lemma select_empty better : select better [] = None.
Proof. done. Qed.

Lemma select_member better q : q <> [] -> exists l, select better q = Some l /\ l ∈ q.
Proof. destruct q as [|l q]; [done|]. intros _. eexists. split; [done|]. apply scan_best_elem. Qed.

Lemma head_member (q : list loc) : q <> [] -> exists l, head_of q = Some l /\ l ∈ q.
Proof. destruct q as [|l q]; [done|]. intros _. exists l. split; [done|left]. Qed.

Lemma existsb_elem {A} (f : A -> bool) (l : list A) :
  existsb f l = true <-> exists x, x ∈ l /\ f x = true.
Proof.
  rewrite existsb_exists. split; intros (x & Hx & Hf); exists x; split; try done;
    by apply list_elem_of_In.
Qed.

(** [better] written with tests on fields is the lexicographic test on keys. *)
Ltac better_lex :=
  intros; cbn [lex_ltb]; rewrite ?andb_false_r, ?orb_false_r;
  repeat match goal with |- context [if ?b then _ else _] => destruct b end; done.

Lemma FCFS_better_lex h x y : FCFS.better h x y = lex_ltb (FCFS.key h x) (FCFS.key h y).
Proof. unfold FCFS.better, FCFS.key. better_lex. Qed.

Lemma SJF_better_lex h x y : SJF.better h x y = lex_ltb (SJF.key h x) (SJF.key h y).
Proof. unfold SJF.better, SJF.key. better_lex. Qed.

Lemma SRTF_better_lex h x y : SRTF.better h x y = lex_ltb (SRTF.key h x) (SRTF.key h y).
Proof. unfold SRTF.better, SRTF.key. better_lex. Qed.

Lemma Priority_better_lex s h t x y :
  PriorityPolicy.better s h t x y
  = lex_ltb (PriorityPolicy.key s h t x) (PriorityPolicy.key s h t y).
Proof. unfold PriorityPolicy.better, PriorityPolicy.key. better_lex. Qed.

Lemma CFS_better_lex h x y : CFS.better h x y = lex_ltb (CFS.key h x) (CFS.key h y).
Proof. unfold CFS.better, CFS.key. better_lex. Qed.

Ltac selects lem :=
  intros s h [|l q] t; [done|];
  eexists; split; [reflexivity|];
  apply scan_best_first_min; intros; apply lem.

Lemma FCFS_selects : selects_by (S := FCFS.FCFSScheduler) (fun _ h _ => FCFS.key h).
Proof. selects FCFS_better_lex. Qed.

Lemma SJF_selects : selects_by (S := SJF.SJFScheduler) (fun _ h _ => SJF.key h).
Proof. selects SJF_better_lex. Qed.

Lemma SRTF_selects : selects_by (S := SRTF.SRTFScheduler) (fun _ h _ => SRTF.key h).
Proof. selects SRTF_better_lex. Qed.

Lemma Priority_selects : selects_by (S := PriorityPolicy.PriorityScheduler) (fun s h t => PriorityPolicy.key s h t).
Proof. selects Priority_better_lex. Qed.

Lemma CFS_selects : selects_by (S := CFS.CFSScheduler) (fun _ h _ => CFS.key h).
Proof. selects CFS_better_lex. Qed.

Lemma CFS_Preempt_total s h cur q :
  (forall l, cur = Some l -> Weight (deref h l) <> 0) -> is_Some (CFS.CFS_Preempt s h cur q).
Proof.
  intros Hw. destruct cur as [c|]; simpl; [|eauto].
  destruct (length q =? 0)%nat; [eauto|]. rewrite idiv_checked_Some by auto. simpl. eauto.
Qed.

(** ** The policies obey the laws of the interface *)
Ltac policy_laws :=
  intros; simpl; eauto using select_member, CFS_Preempt_total.

#[export] Instance FCFS_laws : SchedulerLaws FCFS.FCFSScheduler.
Proof. refine {| sched_ok := fun _ => True |}; policy_laws. Defined.

#[export] Instance SJF_laws : SchedulerLaws SJF.SJFScheduler.
Proof. refine {| sched_ok := fun _ => True |}; policy_laws. Defined.

#[export] Instance SRTF_laws : SchedulerLaws SRTF.SRTFScheduler.
Proof. refine {| sched_ok := fun _ => True |}; policy_laws. Defined.

(** Round-Robin carries a positive quantum. *)
#[export] Instance RoundRobin_laws : SchedulerLaws RoundRobin.RoundRobinScheduler.
Proof.
  refine {| sched_ok := fun s => 1 <= RoundRobin.timeQuantum s |}; policy_laws.
  destruct q as [|l q]; [done|]. by apply head_member.
Defined.

#[export] Instance Priority_laws : SchedulerLaws PriorityPolicy.PriorityScheduler.
Proof. refine {| sched_ok := fun _ => True |}; policy_laws. Defined.

#[export] Instance CFS_laws : SchedulerLaws CFS.CFSScheduler.
Proof. refine {| sched_ok := fun _ => True |}; policy_laws. Defined.

(** ** Preemption tests *)

Lemma SRTF_Preempt_iff h c q :
  SRTF.SRTF_Preempt h (Some c) q = true <->
  exists p, p ∈ q /\ PID (deref h p) <> PID (deref h c) /\
            RemainingTime (deref h p) < RemainingTime (deref h c).
Proof.
  unfold SRTF.SRTF_Preempt. rewrite existsb_elem.
  split; intros (p & Hp & H); exists p.
  - bool_prop. auto.
  - rewrite (proj2 (Z.eqb_neq _ _)), (proj2 (Z.ltb_lt _ _)) by tauto. auto.
Qed.

Lemma Priority_Preempt_iff s h c q t :
  PriorityPolicy.Priority_Preempt s h (Some c) q t = true <->
  PriorityPolicy.preemptive s = true /\
  exists p, p ∈ q /\ PID (deref h p) <> PID (deref h c) /\
            PriorityPolicy.effectivePriority s (deref h p) t
            < PriorityPolicy.effectivePriority s (deref h c) t.
Proof.
  unfold PriorityPolicy.Priority_Preempt.
  destruct (PriorityPolicy.preemptive s); simpl; [|by split; [|intros []]].
  rewrite existsb_elem. split.
  - intros (p & Hp & H). split; [done|]. exists p. bool_prop. auto.
  - intros (_ & p & Hp & Hne & Hlt). exists p.
    rewrite (proj2 (Z.eqb_neq _ _)), (proj2 (Z.ltb_lt _ _)) by done. auto.
Qed.

Lemma minOther_lt h c q x :
  x <= max_int ->
  CFS.minOther h c q < x <->
  exists p, p ∈ q /\ PID (deref h p) <> PID (deref h c) /\ VRuntime (deref h p) < x.
Proof.
  intros Hx. unfold CFS.minOther.
  assert (forall m, fold_left (fun m p =>
      if negb (PID (deref h p) =? PID (deref h c)) && (VRuntime (deref h p) <? m)
      then VRuntime (deref h p) else m) q m < x <->
    m < x \/ exists p, p ∈ q /\ PID (deref h p) <> PID (deref h c) /\ VRuntime (deref h p) < x)
    as Hgen; [|rewrite Hgen; intuition lia].
  induction q as [|p q IH]; intros m; simpl.
  { split; [auto|]. intros [?|(p & ?%elem_of_nil & _)]; done. }
  rewrite IH. setoid_rewrite elem_of_cons.
  destruct (Z.eqb_spec (PID (deref h p)) (PID (deref h c))) as [He|He]; simpl.
  - split; [intros [?|(y & ? & ?)]; [auto|right; exists y; auto]|].
    intros [?|(y & [->|?] & ? & ?)]; [auto|done|right; eauto].
  - destruct (Z.ltb_spec (VRuntime (deref h p)) m).
    + split; [intros [?|(y & ? & ?)]; right; [exists p; auto|exists y; tauto]|].
      intros [?|(y & [->|?] & ? & ?)]; [left; lia|auto|right; eauto].
    + split; [intros [?|(y & ? & ?)]; [auto|right; exists y; tauto]|].
      intros [?|(y & [->|?] & ? & ?)]; [auto|left; lia|right; eauto].
Qed.

(** With aging the effective priority is the base priority, improved by one per
    interval waited since the later of arrival and last execution, and never
    below zero. *)
Lemma effectivePriority_eq s p t :
  0 < PriorityPolicy.agingInterval s -> 0 <= Priority p <= max_int ->
  0 <= ArrivalTime p <= max_int -> LastExecuted p <= max_int -> 0 <= t <= max_int ->
  PriorityPolicy.effectivePriority s p t =
    Z.max 0 (Priority p
             - Z.max 0 (t - Z.max (ArrivalTime p) (LastExecuted p))
               / PriorityPolicy.agingInterval s).
Proof.
  intros Ha Hp Harr Hle Ht. unfold PriorityPolicy.effectivePriority.
  destruct (Z.leb_spec (PriorityPolicy.agingInterval s) 0); [lia|].
  set (last := if ArrivalTime p <? LastExecuted p then _ else _).
  assert (Hlast : last = Z.max (ArrivalTime p) (LastExecuted p)).
  { unfold last. destruct (Z.ltb_spec (ArrivalTime p) (LastExecuted p)); lia. }
  rewrite Hlast. clearbody last. subst last.
  set (m := Z.max _ _). assert (0 <= m <= max_int) by lia. clearbody m. unwrap.
  set (w := if t - m <? 0 then 0 else t - m).
  assert (Hw : w = Z.max 0 (t - m)) by (unfold w; destruct (Z.ltb_spec (t - m) 0); lia).
  rewrite Hw. clearbody w. subst w.
  set (w := Z.max 0 (t - m)). assert (0 <= w <= max_int) by (unfold max_int in *; lia).
  rewrite Z.quot_div_nonneg by lia.
  assert (0 <= w / PriorityPolicy.agingInterval s <= w).
  { split; [apply Z.div_pos; lia|]. apply Z.div_le_upper_bound; nia. }
  set (b := w / _) in *. clearbody b. unwrap.
  destruct (Z.ltb_spec (Priority p - b) 0); lia.
Qed.

(** ** Properties of the policies *)

(** The preemptive policies preempt exactly for a strictly better competitor
    with another PID: SRTF for one with less remaining time, Priority (when it
    was built preemptive) for one with a smaller effective priority; without a
    current process neither preempts. *)
Theorem preempt_iff_strictly_better :
  (forall h c q,
    SRTF.SRTF_Preempt h (Some c) q = true <->
    exists p, p ∈ q /\ PID (deref h p) <> PID (deref h c) /\
              RemainingTime (deref h p) < RemainingTime (deref h c)) /\
  (forall s h c q t,
    PriorityPolicy.Priority_Preempt s h (Some c) q t = true <->
    PriorityPolicy.preemptive s = true /\
    exists p, p ∈ q /\ PID (deref h p) <> PID (deref h c) /\
              PriorityPolicy.effectivePriority s (deref h p) t
              < PriorityPolicy.effectivePriority s (deref h c) t) /\
  (forall h q, SRTF.SRTF_Preempt h None q = false) /\
  (forall s h q t, PriorityPolicy.Priority_Preempt s h None q t = false).
Proof.
  split; [apply SRTF_Preempt_iff|]. split; [apply Priority_Preempt_iff|]. done.
Qed.

(** CFS preempts, without panicking, exactly when some other process lags the
    current one by more than the virtual time of one minimum granularity at the
    current process's weight. *)
Theorem CFS_preempts_beyond_granularity s h c q :
  0 < Weight (deref h c) -> 0 <= CFS.minGranularity s < 2 ^ 40 ->
  0 <= VRuntime (deref h c) <= max_int ->
  exists b, CFS.CFS_Preempt s h (Some c) q = Some b /\
    (b = true <->
     exists p, p ∈ q /\ PID (deref h p) <> PID (deref h c) /\
       VRuntime (deref h p)
       < VRuntime (deref h c)
         - (CFS.minGranularity s * VRuntimeScale) / Weight (deref h c)).
Proof.
  intros Hw Hg Hv. unfold CFS.CFS_Preempt.
  destruct q as [|l q].
  { exists false. split; [done|]. split; [done|]. by intros (p & ?%elem_of_nil & _). }
  simpl (length _ =? 0)%nat. rewrite idiv_checked_Some by lia. simpl mbind.
  eexists. split; [done|]. change VRuntimeScale with (2 ^ 20). unwrap.
  set (gw := Weight (deref h c)) in *.
  rewrite Z.quot_div_nonneg by lia.
  assert (0 <= CFS.minGranularity s * 2 ^ 20 / gw <= CFS.minGranularity s * 2 ^ 20).
  { split; [apply Z.div_pos; lia|]. apply Z.div_le_upper_bound; nia. }
  unwrap. rewrite Z.ltb_lt. apply minOther_lt. lia.
Qed.

(** Aging of the Priority policy: the effective priority is the base priority
    less one per aging interval waited, clamped at zero; it never increases
    while the process waits, and reaches the top priority 0 after at most
    [Priority * agingInterval] ticks of waiting, so no base priority is so low
    that a waiting process is never promoted to the front. *)
Theorem priority_aging s p t :
  0 < PriorityPolicy.agingInterval s -> 0 <= Priority p <= max_int ->
  0 <= ArrivalTime p <= max_int -> LastExecuted p <= max_int -> 0 <= t <= max_int ->
  PriorityPolicy.effectivePriority s p t =
    Z.max 0 (Priority p
             - Z.max 0 (t - Z.max (ArrivalTime p) (LastExecuted p))
               / PriorityPolicy.agingInterval s) /\
  (forall t', t <= t' <= max_int ->
    PriorityPolicy.effectivePriority s p t' <= PriorityPolicy.effectivePriority s p t) /\
  (Z.max (ArrivalTime p) (LastExecuted p)
     + Priority p * PriorityPolicy.agingInterval s <= t ->
   PriorityPolicy.effectivePriority s p t = 0).
Proof.
  intros Ha Hp Harr Hl Ht. set (a := PriorityPolicy.agingInterval s) in *.
  split; [by apply effectivePriority_eq|]. split.
  - intros t' Ht'. rewrite !effectivePriority_eq by (done || lia). fold a.
    set (m := Z.max (ArrivalTime p) (LastExecuted p)).
    assert (Z.max 0 (t - m) / a <= Z.max 0 (t' - m) / a) by (apply Z.div_le_mono; lia). lia.
  - intros Hw. rewrite effectivePriority_eq by done. fold a.
    set (m := Z.max (ArrivalTime p) (LastExecuted p)) in *.
    assert (Priority p <= Z.max 0 (t - m) / a) by (apply Z.div_le_lower_bound; lia). lia.
Qed.

(** Two processes of the default weight, whose granule is 1024: the competitor
    lags by more. *)
Lemma CFS_preempts_beyond_granularity_witness :
  let h := [set_VRuntime 5000 (default inhabitant (NewProcess 1 "P1" 0 9 0));
            set_VRuntime 3000 (default inhabitant (NewProcess 2 "P2" 0 9 0))] in
  CFS.CFS_Preempt CFS.NewCFSScheduler h (Some 0%nat) [1%nat] = Some true.
Proof.
  intros h.
  destruct (CFS_preempts_beyond_granularity CFS.NewCFSScheduler h 0%nat [1%nat])
    as (b & -> & Hb).
  - vm_compute. reflexivity.
  - vm_compute. split; [discriminate|reflexivity].
  - vm_compute. split; discriminate.
  - f_equal. apply Hb. exists 1%nat. split; [left|].
    split; [vm_compute; discriminate|vm_compute; reflexivity].
Defined.

(** Priority 3 with the default interval: at the top after 30 ticks of waiting. *)
Lemma priority_aging_witness :
  PriorityPolicy.effectivePriority (PriorityPolicy.NewPriorityScheduler true)
    (default inhabitant (NewProcess 1 "P1" 5 9 3)) 35 = 0.
Proof.
  destruct (priority_aging (PriorityPolicy.NewPriorityScheduler true)
    (default inhabitant (NewProcess 1 "P1" 5 9 3)) 35) as (_ & _ & H).
  1-5: vm_compute; intuition discriminate.
  apply H. vm_compute. discriminate.
Defined.
