(* ===== verification/MultiLevel.v ===== *)
(** * Multi-level schedulers: MLFQ and MLQ
    (src/internal/scheduler/scheduler.go)

    Both keep a map from process pointers to queue levels and share the scan
    that picks the lowest level, then the earliest arrival, then the lowest PID.
    MLFQ demotes a process one level per exhausted quantum; MLQ derives the
    level from the priority. *)

From stdpp Require Import gmap.
From S2P Require Import Prelude.
From S2P Require Import Float64.
From S2P Require Import Process.
From S2P Require Import Scheduler.

(** The loop of both [Schedule] methods, over the level of each process. *)
Definition scan_step (lvl : loc -> Z) (h : heap) (acc : option loc * Z) (p : loc)
    : option loc * Z :=
  let '(best, bestLevel) := acc in
  if (lvl p <? bestLevel)
     || ((lvl p =? bestLevel)
         && match best with
            | None => false
            | Some b =>
                (ArrivalTime (deref h p) <? ArrivalTime (deref h b))
                || ((ArrivalTime (deref h p) =? ArrivalTime (deref h b))
                    && (PID (deref h p) <? PID (deref h b)))
            end)
  then (Some p, lvl p) else (best, bestLevel).

Definition scan_levels (lvl : loc -> Z) (numLevels : Z) (h : heap) (readyQueue : list loc)
    : option loc :=
  if (length readyQueue =? 0)%nat then None else
  match fst (fold_left (scan_step lvl h) readyQueue (None, numLevels)) with
  | Some best => Some best
  | None => head_of readyQueue
  end.

(** [levels[p]]: a missing key reads as zero. *)
Definition level_of (levels : gmap nat Z) (l : loc) : Z := default 0 (levels !! l).

(** The loop of both [Preempt] methods. *)
Definition preempt_lower (levels : gmap nat Z) (current : option loc) (readyQueue : list loc)
    : bool :=
  match current with
  | None => false
  | Some c =>
      existsb (fun p => negb (p =? c)%nat && (level_of levels p <? level_of levels c)) readyQueue
  end.

Definition level_key (lvl : loc -> Z) (h : heap) (l : loc) : list Z :=
  [lvl l; ArrivalTime (deref h l); PID (deref h l)].

(** ** MLFQ *)
Module MLFQ.
Record MLFQScheduler := {
  name : string;
  timeQuantums : list Z;
  numLevels : Z;
  levels : gmap nat Z
}.

Definition set_levels (m : gmap nat Z) (s : MLFQScheduler) : MLFQScheduler :=
  {| name := name s; timeQuantums := timeQuantums s; numLevels := numLevels s; levels := m |}.

Definition NewMLFQScheduler : MLFQScheduler :=
  {| name := "MLFQ (Multi-Level Feedback Queue)";
     timeQuantums := [2; 4; 8];
     numLevels := 3;
     levels := ∅ |}.

Definition MLFQ_Schedule (s : MLFQScheduler) (h : heap) (readyQueue : list loc) : option loc :=
  scan_levels (level_of (levels s)) (numLevels s) h readyQueue.

Definition MLFQ_AddProcess (s : MLFQScheduler) (p : loc) : MLFQScheduler :=
  match levels s !! p with
  | Some _ => s
  | None => set_levels (<[p := 0]> (levels s)) s
  end.

Definition MLFQ_RemoveProcess (s : MLFQScheduler) (p : loc) : MLFQScheduler :=
  set_levels (delete p (levels s)) s.

(** [None] is an index out of range. *)
Definition MLFQ_QuantumFor (s : MLFQScheduler) (p : option loc) : option Z :=
  match p with
  | None => timeQuantums s !! 0%nat
  | Some p =>
      let lvl := level_of (levels s) p in
      let lvl := if (lvl <? 0) || (numLevels s <=? lvl) then numLevels s -ᵢ 1 else lvl in
      if lvl <? 0 then None else timeQuantums s !! Z.to_nat lvl
  end.

Definition MLFQ_OnQuantumExpired (s : MLFQScheduler) (p : option loc) : MLFQScheduler :=
  match p with
  | None => s
  | Some p =>
      let lvl := level_of (levels s) p in
      if lvl <? numLevels s -ᵢ 1 then set_levels (<[p := lvl +ᵢ 1]> (levels s)) s else s
  end.

#[global] Instance MLFQ_Scheduler : Scheduler MLFQScheduler := {
  Schedule s h readyQueue _ := (MLFQ_Schedule s h readyQueue, s);
  sched_AddProcess s _ p := MLFQ_AddProcess s p;
  sched_RemoveProcess s p := MLFQ_RemoveProcess s p;
  Preempt s _ current readyQueue _ := Some (preempt_lower (levels s) current readyQueue);
  sched_Name s := name s;
  QuantumFor s p := MLFQ_QuantumFor s p;
  OnQuantumExpired s p := MLFQ_OnQuantumExpired s p;
  sched_Reset s := set_levels ∅ s
}.

(** Representation invariant: one quantum per level, quanta at least one tick,
    and every recorded level is a level. *)
Definition ok (s : MLFQScheduler) : Prop :=
  1 <= numLevels s < max_int /\
  Z.of_nat (length (timeQuantums s)) = numLevels s /\
  Forall (fun q => 1 <= q) (timeQuantums s) /\
  map_Forall (fun _ lvl => 0 <= lvl < numLevels s) (levels s).
End MLFQ.

(** ** MLQ *)
Module MLQ.
Record MLQScheduler := {
  name : string;
  numLevels : Z;
  quantum : Z;
  levels : gmap nat Z
}.

Definition set_levels (m : gmap nat Z) (s : MLQScheduler) : MLQScheduler :=
  {| name := name s; numLevels := numLevels s; quantum := quantum s; levels := m |}.

Definition NewMLQScheduler (numLevels quantum : Z) : MLQScheduler :=
  let numLevels := if numLevels <? 1 then 1 else numLevels in
  let quantum := if quantum <? 1 then 1 else quantum in
  {| name := ("MLQ (Multi-Level Queue, " ++ itoa numLevels ++ " levels)")%string;
     numLevels := numLevels;
     quantum := quantum;
     levels := ∅ |}.

Definition levelFor (s : MLQScheduler) (p : Process) : Z :=
  let lvl := Priority p in
  if lvl <? 0 then 0
  else if numLevels s <=? lvl then numLevels s -ᵢ 1
  else lvl.

Definition MLQ_Schedule (s : MLQScheduler) (h : heap) (readyQueue : list loc) : option loc :=
  scan_levels (fun l => levelFor s (deref h l)) (numLevels s) h readyQueue.

#[global] Instance MLQ_Scheduler : Scheduler MLQScheduler := {
  Schedule s h readyQueue _ := (MLQ_Schedule s h readyQueue, s);
  sched_AddProcess s h p := set_levels (<[p := levelFor s (deref h p)]> (levels s)) s;
  sched_RemoveProcess s p := set_levels (delete p (levels s)) s;
  Preempt s _ current readyQueue _ := Some (preempt_lower (levels s) current readyQueue);
  sched_Name s := name s;
  QuantumFor s _ := Some (quantum s);
  OnQuantumExpired s _ := s;
  sched_Reset s := set_levels ∅ s
}.

Definition ok (s : MLQScheduler) : Prop :=
  1 <= numLevels s <= max_int /\ 1 <= quantum s.
End MLQ.

(** ** Lemmas *)

(** Once a best element is held, the scan is the selection by level, arrival and
    PID. *)
Lemma scan_step_fold lvl h b q :
  fold_left (scan_step lvl h) q (Some b, lvl b)
  = let r := scan_best (fun p c => lex_ltb (level_key lvl h p) (level_key lvl h c)) b q in
    (Some r, lvl r).
Proof.
  revert b. induction q as [|p q IH]; intros b; [done|].
  assert (Hs : scan_step lvl h (Some b, lvl b) p
    = if lex_ltb (level_key lvl h p) (level_key lvl h b) then (Some p, lvl p)
      else (Some b, lvl b)).
  { unfold scan_step, level_key. cbn [lex_ltb].
    by rewrite andb_false_r, orb_false_r. }
  cbn [fold_left]. rewrite Hs. unfold scan_best in *. cbn [fold_left].
  destruct (lex_ltb _ _); apply IH.
Qed.

Lemma scan_levels_first_min lvl n h q :
  (forall l, l ∈ q -> lvl l < n) -> q <> [] ->
  exists l, scan_levels lvl n h q = Some l /\ first_min (level_key lvl h) q l.
Proof.
  intros Hn. destruct q as [|p q]; [done|]. intros _.
  unfold scan_levels. cbn [length Nat.eqb fold_left].
  assert (Hs : scan_step lvl h (None, n) p = (Some p, lvl p)).
  { unfold scan_step. rewrite (proj2 (Z.ltb_lt _ _)); [done|]. apply Hn. left. }
  rewrite Hs, scan_step_fold. cbn [fst]. eexists. split; [done|].
  by apply scan_best_first_min.
Qed.

Lemma level_of_range levels n l :
  0 < n -> map_Forall (fun _ lvl => 0 <= lvl < n) levels -> 0 <= level_of levels l < n.
Proof.
  intros Hn Hm. unfold level_of. destruct (levels !! l) as [v|] eqn:E; simpl; [|lia].
  exact (Hm _ _ E).
Qed.

Lemma preempt_lower_iff levels c q :
  preempt_lower levels (Some c) q = true <->
  exists p, p ∈ q /\ level_of levels p < level_of levels c.
Proof.
  unfold preempt_lower. rewrite existsb_elem. split; intros (p & Hp & H); exists p.
  - bool_prop. auto.
  - split; [done|]. rewrite (proj2 (Z.ltb_lt _ _)) by done. rewrite andb_true_r.
    apply negb_true_iff, Nat.eqb_neq. intros ->. lia.
Qed.

Lemma MLQ_levelFor_range s p : MLQ.ok s -> 0 <= MLQ.levelFor s p < MLQ.numLevels s.
Proof.
  intros [Hn _]. unfold MLQ.levelFor. unwrap.
  destruct (Z.ltb_spec (Priority p) 0); [lia|].
  destruct (Z.leb_spec (MLQ.numLevels s) (Priority p)); lia.
Qed.

Lemma MLFQ_quantum s cur :
  MLFQ.ok s -> exists q, MLFQ.MLFQ_QuantumFor s cur = Some q /\ q ∈ MLFQ.timeQuantums s.
Proof.
  intros (Hn & Hlen & Hq & Hl).
  assert (Hlook : forall i, (i < length (MLFQ.timeQuantums s))%nat ->
    exists q, MLFQ.timeQuantums s !! i = Some q /\ q ∈ MLFQ.timeQuantums s).
  { intros i Hi. destruct (lookup_lt_is_Some_2 _ _ Hi) as [q Hq'].
    exists q. split; [done|]. by eapply list_elem_of_lookup_2. }
  destruct cur as [c|]; simpl; [|apply Hlook; lia].
  pose proof (level_of_range _ (MLFQ.numLevels s) c ltac:(lia) Hl) as Hr.
  ztest. apply Hlook. lia.
Qed.

Lemma MLFQ_ok_set_levels s m :
  MLFQ.ok s -> map_Forall (fun _ lvl => 0 <= lvl < MLFQ.numLevels s) m ->
  MLFQ.ok (MLFQ.set_levels m s).
Proof. intros (? & ? & ? & ?) ?. unfold MLFQ.ok. simpl. auto. Qed.

Lemma MLFQ_ok_add s p : MLFQ.ok s -> MLFQ.ok (MLFQ.MLFQ_AddProcess s p).
Proof.
  intros Hok. unfold MLFQ.MLFQ_AddProcess. destruct (_ !! _); [done|].
  apply MLFQ_ok_set_levels; [done|]. destruct Hok as (? & _ & _ & ?).
  apply map_Forall_insert_2; [lia|done].
Qed.

Lemma MLFQ_ok_expire s p : MLFQ.ok s -> MLFQ.ok (MLFQ.MLFQ_OnQuantumExpired s p).
Proof.
  intros Hok. destruct p as [p|]; simpl; [|done].
  destruct (Z.ltb_spec (level_of (MLFQ.levels s) p) (MLFQ.numLevels s -ᵢ 1)) as [Hlt|]; [|done].
  apply MLFQ_ok_set_levels; [done|]. destruct Hok as (? & _ & _ & Hl).
  pose proof (level_of_range _ (MLFQ.numLevels s) p ltac:(lia) Hl). unwrap.
  apply map_Forall_insert_2; [lia|done].
Qed.

Lemma MLFQ_Schedule_first_min s h q :
  MLFQ.ok s -> q <> [] ->
  exists l, MLFQ.MLFQ_Schedule s h q = Some l /\
            first_min (level_key (level_of (MLFQ.levels s)) h) q l.
Proof.
  intros (Hn & _ & _ & Hl) Hq. apply scan_levels_first_min; [|done].
  intros l _. apply level_of_range; [lia|done].
Qed.

Lemma MLQ_Schedule_first_min s h q :
  MLQ.ok s -> q <> [] ->
  exists l, MLQ.MLQ_Schedule s h q = Some l /\
            first_min (level_key (fun l => MLQ.levelFor s (deref h l)) h) q l.
Proof.
  intros Hok Hq. apply scan_levels_first_min; [|done].
  intros l _. by apply MLQ_levelFor_range.
Qed.

#[export] Instance MLFQ_laws : SchedulerLaws MLFQ.MLFQScheduler.
Proof.
  refine {| sched_ok := MLFQ.ok |}; simpl; try done.
  - intros s _ p. apply MLFQ_ok_add.
  - intros s p Hok. apply MLFQ_ok_set_levels; [done|]. apply map_Forall_delete, Hok.
  - intros s p. apply MLFQ_ok_expire.
  - intros s Hok. apply MLFQ_ok_set_levels; [done|]. apply map_Forall_empty.
  - intros s h q _ Hok Hq. destruct (MLFQ_Schedule_first_min s h q Hok Hq) as (l & -> & Hl).
    exists l. split; [done|]. eapply first_min_elem, Hl.
  - intros s cur Hok. destruct (MLFQ_quantum s cur Hok) as (q & -> & _). eauto.
Defined.

#[export] Instance MLQ_laws : SchedulerLaws MLQ.MLQScheduler.
Proof.
  refine {| sched_ok := MLQ.ok |}; simpl; try done.
  - intros s h q _ Hok Hq. destruct (MLQ_Schedule_first_min s h q Hok Hq) as (l & -> & Hl).
    exists l. split; [done|]. eapply first_min_elem, Hl.
Defined.

Lemma NewMLFQ_ok : MLFQ.ok MLFQ.NewMLFQScheduler.
Proof.
  unfold MLFQ.ok, max_int; simpl. split; [lia|]. split; [done|].
  split; [|apply map_Forall_empty]. rewrite !Forall_cons. repeat split; lia || constructor.
Qed.

Lemma NewMLQ_ok n q : n <= max_int -> MLQ.ok (MLQ.NewMLQScheduler n q).
Proof.
  unfold MLQ.ok, max_int. simpl. intros.
  destruct (Z.ltb_spec n 1), (Z.ltb_spec q 1); lia.
Qed.

(** ** Properties *)

(** The level of a process after an expired quantum. *)
Lemma MLFQ_expire_level s p l :
  MLFQ.ok s ->
  level_of (MLFQ.levels (MLFQ.MLFQ_OnQuantumExpired s (Some p))) l =
    if decide (l = p) then Z.min (level_of (MLFQ.levels s) p + 1) (MLFQ.numLevels s - 1)
    else level_of (MLFQ.levels s) l.
Proof.
  intros (Hn & _ & _ & Hl).
  pose proof (level_of_range _ (MLFQ.numLevels s) p ltac:(lia) Hl) as Hr.
  simpl. unwrap.
  destruct (Z.ltb_spec (level_of (MLFQ.levels s) p) (MLFQ.numLevels s - 1)); simpl.
  - unwrap. unfold level_of at 1. case_decide as Hd.
    + subst. rewrite lookup_insert_eq. simpl. lia.
    + rewrite lookup_insert_ne by done. done.
  - case_decide; [subst; lia|done].
Qed.

Lemma MLFQ_expire_numLevels s p :
  MLFQ.numLevels (MLFQ.MLFQ_OnQuantumExpired s p) = MLFQ.numLevels s.
Proof. destruct p as [p|]; simpl; [|done]. by case_match. Qed.

(** C19: Every policy but the lottery chooses by a key: nothing from an empty ready
    queue, and from a non-empty one the earliest process whose key is least, where the
    keys are the arrival time (FCFS), burst then arrival (SJF), remaining time then
    arrival (SRTF), aging-adjusted priority then arrival (Priority), virtual runtime
    then PID (CFS), and the level, then arrival, then PID (MLFQ and MLQ). The
    multi-level policies preempt exactly when a ready process sits at a strictly lower
    level than the current one. *)
Theorem policies_select_least_key :
  selects_by (S := FCFS.FCFSScheduler) (fun _ h _ => FCFS.key h) /\
  selects_by (S := SJF.SJFScheduler) (fun _ h _ => SJF.key h) /\
  selects_by (S := SRTF.SRTFScheduler) (fun _ h _ => SRTF.key h) /\
  selects_by (S := PriorityPolicy.PriorityScheduler) (fun s h t => PriorityPolicy.key s h t) /\
  selects_by (S := CFS.CFSScheduler) (fun _ h _ => CFS.key h) /\
  (forall s h q, MLFQ.ok s -> q <> [] ->
     exists l, MLFQ.MLFQ_Schedule s h q = Some l /\
               first_min (level_key (level_of (MLFQ.levels s)) h) q l) /\
  (forall s h q, MLQ.ok s -> q <> [] ->
     exists l, MLQ.MLQ_Schedule s h q = Some l /\
               first_min (level_key (fun l => MLQ.levelFor s (deref h l)) h) q l) /\
  (forall levels c q,
     preempt_lower levels (Some c) q = true <->
     exists p, p ∈ q /\ level_of levels p < level_of levels c).
Proof.
  repeat split_and; [apply FCFS_selects|apply SJF_selects|apply SRTF_selects
    |apply Priority_selects|apply CFS_selects|exact MLFQ_Schedule_first_min
    |exact MLQ_Schedule_first_min|exact preempt_lower_iff].
Qed.

(** MLFQ demotion: a process that has exhausted [k] quanta since it was added
    is at level [min k (numLevels-1)]; no other process's level changes; and
    being added again (on return from I/O) does not change any level, so an I/O
    burst neither demotes nor promotes. *)
Theorem MLFQ_demotion s p k :
  MLFQ.ok s -> MLFQ.levels s !! p = None ->
  let s1 := MLFQ.MLFQ_AddProcess s p in
  let sk := Nat.iter k (fun s => MLFQ.MLFQ_OnQuantumExpired s (Some p)) s1 in
  level_of (MLFQ.levels sk) p = Z.min (Z.of_nat k) (MLFQ.numLevels s - 1) /\
  (forall l, l <> p -> level_of (MLFQ.levels sk) l = level_of (MLFQ.levels s) l) /\
  (forall l, level_of (MLFQ.levels (MLFQ.MLFQ_AddProcess sk p)) l
             = level_of (MLFQ.levels sk) l).
Proof.
  intros Hok Hnone s1 sk.
  assert (Hs1 : s1 = MLFQ.set_levels (<[p := 0]> (MLFQ.levels s)) s)
    by (unfold s1, MLFQ.MLFQ_AddProcess; by rewrite Hnone).
  assert (Hok1 : MLFQ.ok s1) by (by apply MLFQ_ok_add).
  assert (Hn1 : MLFQ.numLevels s1 = MLFQ.numLevels s) by (by rewrite Hs1).
  assert (Hind : MLFQ.ok sk /\ MLFQ.numLevels sk = MLFQ.numLevels s /\
    level_of (MLFQ.levels sk) p = Z.min (Z.of_nat k) (MLFQ.numLevels s - 1) /\
    forall l, l <> p -> level_of (MLFQ.levels sk) l = level_of (MLFQ.levels s) l).
  { unfold sk. clear sk. induction k as [|k (IHok & IHn & IHp & IHo)];
      [change (Nat.iter 0 _ s1) with s1|rewrite !Nat.iter_succ].
    - split; [done|]. split; [done|]. rewrite Hs1. simpl. unfold level_of. split.
      + rewrite lookup_insert_eq. destruct Hok as (? & _). simpl. lia.
      + intros l Hl. by rewrite lookup_insert_ne.
    - split; [by apply MLFQ_ok_expire|]. rewrite MLFQ_expire_numLevels.
      split; [done|]. split.
      + rewrite MLFQ_expire_level by done. rewrite decide_True by done. rewrite IHp, IHn. lia.
      + intros l Hl. rewrite MLFQ_expire_level by done. rewrite decide_False by done. auto. }
  destruct Hind as (Hokk & _ & Hp & Ho). split; [done|]. split; [done|].
  intros l. unfold MLFQ.MLFQ_AddProcess. destruct (MLFQ.levels sk !! p) eqn:E; [done|]. simpl.
  unfold level_of. destruct (decide (l = p)) as [->|Hl].
  - by rewrite lookup_insert_eq, E.
  - by rewrite lookup_insert_ne.
Qed.

Lemma MLFQ_demotion_witness :
  level_of (MLFQ.levels (Nat.iter 5 (fun s => MLFQ.MLFQ_OnQuantumExpired s (Some 7%nat))
     (MLFQ.MLFQ_AddProcess MLFQ.NewMLFQScheduler 7%nat))) 7%nat = 2.
Proof.
  refine (proj1 (MLFQ_demotion MLFQ.NewMLFQScheduler 7%nat 5 NewMLFQ_ok _)).
  reflexivity.
Defined.

(** Within one MLQ queue there is no rotation: a process that arrived before
    every other ready process of its level (and no level above is occupied) is
    chosen again even after its quantum expired and it was moved to the tail of
    the ready queue. *)
Theorem MLQ_no_rotation s h q l :
  MLQ.ok s ->
  (forall x, x ∈ q -> MLQ.levelFor s (deref h l) <= MLQ.levelFor s (deref h x) /\
                      ArrivalTime (deref h l) < ArrivalTime (deref h x)) ->
  MLQ.MLQ_Schedule s h (q ++ [l]) = Some l.
Proof.
  intros Hok Hbest.
  destruct (MLQ_Schedule_first_min s h (q ++ [l]) Hok) as (r & -> & Hr).
  { by destruct q. }
  f_equal. pose proof (first_min_elem _ _ _ Hr) as Hin.
  apply elem_of_app in Hin as [Hin|Hin%list_elem_of_singleton]; [|done].
  pose proof (Hbest _ Hin) as [Hlev Harr]. exfalso.
  assert (Hl : l ∈ q ++ [l]) by (apply elem_of_app; right; by apply list_elem_of_singleton).
  pose proof (first_min_le _ _ _ l Hr Hl) as Hle. unfold level_key in Hle. simpl in Hle.
  bool_prop.
  assert (MLQ.levelFor s (deref h l) = MLQ.levelFor s (deref h r)) as Heq by lia.
  rewrite Heq, Z.eqb_refl in *. simpl in *. bool_prop. lia.
Qed.

(** P1 (arrived at 0) keeps the CPU although P2 (arrived at 1) has been waiting. *)
Lemma MLQ_no_rotation_witness :
  MLQ.MLQ_Schedule (MLQ.NewMLQScheduler 3 1)
    (omap id [NewProcess 1 "P1" 0 5 0; NewProcess 2 "P2" 1 5 0]) ([1%nat] ++ [0%nat])
  = Some 0%nat.
Proof.
  apply MLQ_no_rotation.
  - apply NewMLQ_ok. unfold max_int. lia.
  - intros x ->%list_elem_of_singleton. vm_compute. split; [intros H; discriminate|done].
Defined.
