(* ===== verification/Lottery.v ===== *)
(** * Lottery scheduling and its random source
    (src/internal/scheduler/scheduler.go)

    The xorshift generator, the ticket draw and the policy. A random source
    injected by a caller is a parameter: any state with any [Intn]. *)

From S2P Require Import Prelude.
From S2P Require Import Float64.
From S2P Require Import Process.
From S2P Require Import Scheduler.

(** ** The default generator *)
Record deterministicRNG := { state : Z; seed : Z }.

Definition golden : Z := 0x9E3779B97F4A7C15.

(** The body of [NewRNG]. *)
Definition newDeterministic (seed : Z) : deterministicRNG :=
  let seed := if seed =? 0 then golden else seed in
  {| state := seed; seed := seed |}.

(** xorshift64: [x ^= x << 13; x ^= x >> 7; x ^= x << 17]. *)
Definition xorshift (x : Z) : Z :=
  let x := Z.lxor x (wrapU64 (Z.shiftl x 13)) in
  let x := Z.lxor x (Z.shiftr x 7) in
  Z.lxor x (wrapU64 (Z.shiftl x 17)).

(** [int(x % uint64(n))]. *)
Definition det_Intn (r : deterministicRNG) (n : Z) : Z * deterministicRNG :=
  if n <=? 0 then (0, r) else
  let x := xorshift (state r) in
  (wrap64 (x mod wrapU64 n), {| state := x; seed := seed r |}).

(** [w := p.Weight; if w <= 0 { w = 1 }] *)
Definition tickets (h : heap) (p : loc) : Z :=
  let w := Weight (deref h p) in if w <=? 0 then 1 else w.

Definition totalTickets (h : heap) (readyQueue : list loc) : Z :=
  fold_left (fun total p => total +ᵢ tickets h p) readyQueue 0.

(** The loop that walks the queue until the running total passes the draw. *)
Fixpoint find_winner (h : heap) (winner running : Z) (q : list loc) : option loc :=
  match q with
  | [] => None
  | p :: q =>
      let running := running +ᵢ tickets h p in
      if winner <? running then Some p else find_winner h winner running q
  end.

(** The draw: the queue must not be empty. *)
Definition draw (h : heap) (winner : Z) (readyQueue : list loc) : option loc :=
  match find_winner h winner 0 readyQueue with
  | Some p => Some p
  | None => last readyQueue
  end.

(** A random source a caller injects: its state and its [Intn]. *)
Class ExternalRNG (Ext : Type) := ext_Intn : Ext -> Z -> Z * Ext.

(** No source injected. *)
#[export] Instance no_external_rng : ExternalRNG Empty_set :=
  fun e _ => match e with end.

Section lottery.
Context {Ext : Type} {ext : ExternalRNG Ext}.

(** The dynamic value of the [RNG] interface. *)
Inductive RNG :=
| Deterministic (r : deterministicRNG)
| Injected (x : Ext).

Definition NewRNG (seed : Z) : RNG := Deterministic (newDeterministic seed).

Definition Intn (r : RNG) (n : Z) : Z * RNG :=
  match r with
  | Deterministic r => let '(v, r) := det_Intn r n in (v, Deterministic r)
  | Injected x => let '(v, x) := ext_Intn x n in (v, Injected x)
  end.

Record LotteryScheduler := { name : string; rng : RNG; quantum : Z }.

Definition set_rng (r : RNG) (s : LotteryScheduler) : LotteryScheduler :=
  {| name := name s; rng := r; quantum := quantum s |}.

Definition NewLotteryScheduler (quantum : Z) (rng : option RNG) : LotteryScheduler :=
  let quantum := if quantum <? 1 then 1 else quantum in
  let rng := match rng with Some r => r | None => NewRNG 0xC0FFEE end in
  {| name := "Lottery (Proportional Share)"; rng := rng; quantum := quantum |}.

Definition Lottery_Schedule (s : LotteryScheduler) (h : heap) (readyQueue : list loc)
    : option loc * LotteryScheduler :=
  if (length readyQueue =? 0)%nat then (None, s) else
  let totalTickets := totalTickets h readyQueue in
  if totalTickets <=? 0 then (head_of readyQueue, s) else
  let '(winner, r) := Intn (rng s) totalTickets in
  (draw h winner readyQueue, set_rng r s).

Definition Lottery_Reset (s : LotteryScheduler) : LotteryScheduler :=
  match rng s with
  | Deterministic r => set_rng (Deterministic {| state := seed r; seed := seed r |}) s
  | Injected _ => s
  end.

#[global] Instance Lottery_Scheduler : Scheduler LotteryScheduler := {
  Schedule s h readyQueue _ := Lottery_Schedule s h readyQueue;
  sched_AddProcess s _ _ := s;
  sched_RemoveProcess s _ := s;
  Preempt _ _ _ _ _ := Some false;
  sched_Name s := name s;
  QuantumFor s _ := Some (quantum s);
  OnQuantumExpired s _ := s;
  sched_Reset := Lottery_Reset
}.

(** Lemmas *)

Lemma find_winner_elem h w r q l : find_winner h w r q = Some l -> l ∈ q.
Proof.
  revert r. induction q as [|p q IH]; intros r; simpl; [done|].
  destruct (_ <? _); [intros [= ->]; left|]. intros H. right. eauto.
Qed.

Lemma draw_member h w q : q <> [] -> exists l, draw h w q = Some l /\ l ∈ q.
Proof.
  intros Hq. unfold draw. destruct (find_winner h w 0 q) as [l|] eqn:E.
  - exists l. split; [done|]. by eapply find_winner_elem.
  - destruct (last q) as [l|] eqn:El; [|by apply last_None in El].
    exists l. split; [done|]. apply last_Some in El as [q' ->]. set_solver.
Qed.

Lemma Lottery_member s h q :
  q <> [] -> exists l, fst (Lottery_Schedule s h q) = Some l /\ l ∈ q.
Proof.
  intros Hq. unfold Lottery_Schedule. destruct q as [|p q]; [done|]. cbn [length Nat.eqb].
  destruct (_ <=? 0); simpl fst; [by apply head_member|].
  destruct (Intn _ _). by apply draw_member.
Qed.

Lemma Lottery_quantum s h q :
  quantum (snd (Lottery_Schedule s h q)) = quantum s.
Proof.
  unfold Lottery_Schedule. repeat case_match; try done; by destruct (Intn _ _).
Qed.

#[export] Instance Lottery_laws : SchedulerLaws LotteryScheduler.
Proof.
  refine {| sched_ok := fun s => 1 <= quantum s |}; simpl; intros; eauto.
  - by rewrite Lottery_quantum.
  - unfold Lottery_Reset. by case_match.
  - by apply Lottery_member.
Defined.

Lemma NewLottery_ok q r : 1 <= quantum (NewLotteryScheduler q r).
Proof. simpl. destruct (Z.ltb_spec q 1); lia. Qed.
End lottery.

(** ** The generator *)

Lemma u64_bits x : 0 <= x < 2 ^ 64 <-> 0 <= x /\ forall n, 64 <= n -> Z.testbit x n = false.
Proof.
  split.
  - intros [Hx0 Hx]. split; [done|]. intros n Hn.
    destruct (Z.eq_dec x 0) as [->|Hne]; [by rewrite Z.bits_0|].
    apply Z.bits_above_log2; [done|].
    apply Z.log2_lt_pow2; [lia|]. eapply Z.lt_le_trans; [exact Hx|].
    apply Z.pow_le_mono_r; lia.
  - intros [Hx0 Hb]. split; [done|].
    destruct (Z.eq_dec x 0) as [->|Hne]; [lia|].
    apply Z.log2_lt_pow2; [lia|]. destruct (Z.lt_ge_cases (Z.log2 x) 64); [done|].
    pose proof (Z.bit_log2 x ltac:(lia)) as Hc. by rewrite Hb in Hc.
Qed.

Lemma lxor_u64 x y : 0 <= x < 2 ^ 64 -> 0 <= y < 2 ^ 64 -> 0 <= Z.lxor x y < 2 ^ 64.
Proof.
  rewrite !u64_bits. intros [Hx Hxb] [Hy Hyb]. split; [by apply Z.lxor_nonneg|].
  intros n Hn. by rewrite Z.lxor_spec, Hxb, Hyb.
Qed.

(** A left shift in 64 bits moves every bit up: a number that equals its own
    shift has no lowest bit. *)
Lemma shiftl_fixpoint_zero x k :
  0 < k -> 0 <= x < 2 ^ 64 -> x = wrapU64 (Z.shiftl x k) -> x = 0.
Proof.
  intros Hk Hx Heq.
  assert (Hbits : forall m : nat, Z.testbit x (Z.of_nat m) = false).
  { intros m. induction m as [m IH] using lt_wf_ind.
    destruct (Z.lt_ge_cases (Z.of_nat m) 64) as [Hm|Hm];
      [|by apply (proj1 (u64_bits x) Hx)].
    rewrite Heq. unfold wrapU64. rewrite Z.mod_pow2_bits_low, Z.shiftl_spec by lia.
    destruct (Z.lt_ge_cases (Z.of_nat m) k); [apply Z.testbit_neg_r; lia|].
    replace (Z.of_nat m - k) with (Z.of_nat (m - Z.to_nat k)) by lia. apply IH. lia. }
  apply Z.bits_inj_0. intros n. destruct (Z.lt_ge_cases n 0); [by apply Z.testbit_neg_r|].
  rewrite <-(Z2Nat.id n) by done. apply Hbits.
Qed.

Lemma shift_left_step x k :
  0 < k -> 0 < x < 2 ^ 64 -> 0 < Z.lxor x (wrapU64 (Z.shiftl x k)) < 2 ^ 64.
Proof.
  intros Hk Hx. pose proof (lxor_u64 x (wrapU64 (Z.shiftl x k)) ltac:(lia)
    (wrapU64_range _)) as Hr.
  destruct (Z.eq_dec (Z.lxor x (wrapU64 (Z.shiftl x k))) 0) as [H0|]; [|lia].
  apply Z.lxor_eq in H0. apply shiftl_fixpoint_zero in H0; lia.
Qed.

Lemma shift_right_step x k :
  0 < k -> 0 < x < 2 ^ 64 -> 0 < Z.lxor x (Z.shiftr x k) < 2 ^ 64.
Proof.
  intros Hk Hx.
  assert (Hs : 0 <= Z.shiftr x k < x).
  { rewrite Z.shiftr_div_pow2 by lia. split; [apply Z.div_pos; lia|].
    apply Z.div_lt; [lia|]. apply Z.pow_gt_1; lia. }
  pose proof (lxor_u64 x (Z.shiftr x k) ltac:(lia) ltac:(lia)) as Hr.
  destruct (Z.eq_dec (Z.lxor x (Z.shiftr x k)) 0) as [H0|]; [|lia].
  apply Z.lxor_eq in H0. lia.
Qed.

Lemma xorshift_range x : 0 < x < 2 ^ 64 -> 0 < xorshift x < 2 ^ 64.
Proof.
  intros Hx. unfold xorshift.
  apply shift_left_step; [lia|]. apply shift_right_step; [lia|].
  apply shift_left_step; [lia|done].
Qed.

(** The state of the generator and the numbers it yields. *)
Definition draws (k : nat) (r : deterministicRNG) (n : Z) : deterministicRNG :=
  Nat.iter k (fun r => snd (det_Intn r n)) r.

Lemma det_Intn_state r n :
  0 < state r < 2 ^ 64 ->
  0 < state (snd (det_Intn r n)) < 2 ^ 64 /\ seed (snd (det_Intn r n)) = seed r.
Proof.
  intros Hr. unfold det_Intn. destruct (n <=? 0); [by split|].
  split; [by apply xorshift_range|done].
Qed.

Lemma draws_state k r n :
  0 < state r < 2 ^ 64 -> 0 < state (draws k r n) < 2 ^ 64 /\ seed (draws k r n) = seed r.
Proof.
  intros Hr. unfold draws. induction k as [|k [IH1 IH2]]; [by split|].
  rewrite Nat.iter_succ. destruct (det_Intn_state _ n IH1). split; [done|congruence].
Qed.

Lemma det_Intn_range r n : 0 < n <= max_int -> 0 <= fst (det_Intn r n) < n.
Proof.
  intros Hn. unfold det_Intn. ztest. simpl fst.
  assert (Hw : wrapU64 n = n) by (apply Z.mod_small; unfold max_int in *; lia).
  rewrite Hw. pose proof (Z.mod_pos_bound (xorshift (state r)) n ltac:(lia)).
  unwrap. lia.
Qed.

(** ** The draw *)

Lemma tickets_pos h l : 1 <= tickets h l.
Proof. unfold tickets. destruct (Z.leb_spec (Weight (deref h l)) 0); lia. Qed.

Lemma tickets_sum_nonneg h q : 0 <= zsum (tickets h) q.
Proof. apply zsum_nonneg. intros l _. pose proof (tickets_pos h l). lia. Qed.

Lemma totalTickets_sum h q : zsum (tickets h) q <= max_int -> totalTickets h q = zsum (tickets h) q.
Proof.
  intros Hmax. unfold totalTickets.
  enough (forall acc, 0 <= acc -> acc + zsum (tickets h) q <= max_int ->
    fold_left (fun total p => total +ᵢ tickets h p) q acc = acc + zsum (tickets h) q)
    as Hgen by (rewrite Hgen; lia).
  clear Hmax. induction q as [|p q IH]; intros acc Hacc Hsum; simpl in *; [lia|].
  pose proof (tickets_pos h p). pose proof (tickets_sum_nonneg h q).
  unwrap. rewrite IH; lia.
Qed.

Lemma find_winner_interval h q1 l q2 w acc :
  0 <= acc -> acc + zsum (tickets h) (q1 ++ l :: q2) <= max_int ->
  acc + zsum (tickets h) q1 <= w < acc + zsum (tickets h) q1 + tickets h l ->
  find_winner h w acc (q1 ++ l :: q2) = Some l.
Proof.
  revert acc. induction q1 as [|p q1 IH]; intros acc Hacc Hmax Hw; simpl in *.
  - pose proof (tickets_pos h l). pose proof (tickets_sum_nonneg h q2).
    unwrap. by ztest.
  - pose proof (tickets_pos h p). pose proof (tickets_sum_nonneg h (q1 ++ l :: q2)).
    pose proof (tickets_sum_nonneg h q1).
    unwrap. ztest. apply IH; lia.
Qed.

(** ** Properties *)

(** The default random source: from a non-zero seed the 64-bit xorshift state
    never becomes zero (so the generator never gets stuck), every draw of
    [Intn n] lies in [0, n), the zero seed is replaced by a non-zero one, and
    the original seed survives any number of draws. *)
Theorem rng_sound sd n k :
  0 <= sd < 2 ^ 64 -> 0 < n <= max_int ->
  let r := draws k (newDeterministic sd) n in
  0 < state r < 2 ^ 64 /\ 0 <= fst (det_Intn r n) < n /\
  seed r = seed (newDeterministic sd).
Proof.
  intros Hs Hn r. pose proof (det_Intn_range r n Hn).
  destruct (draws_state k (newDeterministic sd) n) as [? ?].
  { unfold newDeterministic, golden; simpl. destruct (Z.eqb_spec sd 0); lia. }
  auto.
Qed.

Lemma rng_sound_witness :
  let r := draws 3 (newDeterministic 0) 10 in
  0 < state r < 2 ^ 64 /\ 0 <= fst (det_Intn r 10) < 10 /\ seed r = golden.
Proof. apply (rng_sound 0 10 3); unfold max_int; lia. Defined.

(** C39: Proportional share: as long as the ticket total fits an [int], the draw is
    taken uniformly from [0, total) by the default source, and the draws that
    elect a process are exactly an interval as long as its number of tickets
    (its weight, at least one), whatever its position in the ready queue. *)
Theorem lottery_proportional {Ext} {ext : ExternalRNG Ext} s r h q1 l q2 :
  rng s = Deterministic r ->
  zsum (tickets h) (q1 ++ l :: q2) <= max_int ->
  let q := q1 ++ l :: q2 in
  let w := fst (det_Intn r (zsum (tickets h) q)) in
  fst (Lottery_Schedule s h q) = draw h w q /\
  0 <= w < zsum (tickets h) q /\
  (forall w, zsum (tickets h) q1 <= w < zsum (tickets h) q1 + tickets h l ->
     draw h w q = Some l).
Proof.
  intros Hr Hmax q w.
  assert (Hpos : 0 < zsum (tickets h) q).
  { unfold q. rewrite zsum_app. simpl. pose proof (tickets_pos h l).
    pose proof (tickets_sum_nonneg h q1). pose proof (tickets_sum_nonneg h q2). lia. }
  split; [|split].
  - unfold Lottery_Schedule. rewrite totalTickets_sum by done. fold q.
    destruct (length q =? 0)%nat eqn:E; [|].
    { apply Nat.eqb_eq in E. unfold q in E. rewrite length_app in E. simpl in E. lia. }
    ztest. unfold w. rewrite Hr. simpl. destruct (det_Intn _ _) as [v r']. done.
  - apply det_Intn_range. split; [done|exact Hmax].
  - intros w' Hw'. unfold draw.
    assert (find_winner h w' 0 q = Some l) as -> by (apply find_winner_interval; lia). done.
Qed.

(** The scheduler after a sequence of decisions. *)
Definition schedule_all {Ext} {ext : ExternalRNG Ext}
    (queues : list (heap * list loc)) (s : LotteryScheduler) : LotteryScheduler :=
  fold_left (fun s '(h, q) => snd (Lottery_Schedule s h q)) queues s.

Lemma Lottery_Schedule_rng {Ext} {ext : ExternalRNG Ext} s h q :
  exists r, snd (Lottery_Schedule s h q) = set_rng r s /\
    match rng s, r with
    | Deterministic r0, Deterministic r => seed r = seed r0
    | Injected _, Injected _ => True
    | _, _ => False
    end.
Proof.
  destruct s as [nm rg qt]. unfold Lottery_Schedule. simpl rng.
  destruct (_ =? _)%nat; [exists rg; by destruct rg|].
  destruct (_ <=? 0); [exists rg; by destruct rg|].
  destruct rg as [r|x]; simpl.
  - unfold det_Intn. destruct (_ <=? 0); simpl; eexists; by split.
  - destruct (ext_Intn _ _) as [v y]. simpl. by exists (Injected y).
Qed.

Lemma schedule_all_rng {Ext} {ext : ExternalRNG Ext} queues s :
  exists r, schedule_all queues s = set_rng r s /\
    match rng s, r with
    | Deterministic r0, Deterministic r => seed r = seed r0
    | Injected _, Injected _ => True
    | _, _ => False
    end.
Proof.
  unfold schedule_all. revert s. induction queues as [|[h q] qs IH]; intros s; simpl.
  - exists (rng s). destruct s as [nm rg qt]; simpl. by destruct rg.
  - destruct (Lottery_Schedule_rng s h q) as (r1 & -> & H1).
    destruct (IH (set_rng r1 s)) as (r2 & -> & H2). exists r2. split; [done|].
    simpl in H2. destruct (rng s), r1, r2; try done; congruence.
Qed.

(** Resetting a lottery scheduler over the default source after any number of
    scheduling decisions restores the state it was created with, so a reset
    simulation replays the same draws; an injected source is left untouched. *)
Theorem lottery_reset_replays {Ext} {ext : ExternalRNG Ext} quantum0 queues :
  Lottery_Reset (schedule_all queues (NewLotteryScheduler quantum0 None))
  = NewLotteryScheduler quantum0 None /\
  (forall x, let s := schedule_all queues
                        (NewLotteryScheduler quantum0 (Some (Injected x))) in
     Lottery_Reset s = s).
Proof.
  split.
  - destruct (schedule_all_rng queues (NewLotteryScheduler quantum0 None))
      as ([r|y] & -> & Hr); [|done].
    unfold Lottery_Reset. simpl in *. by rewrite Hr.
  - intros x s. unfold s.
    destruct (schedule_all_rng queues (NewLotteryScheduler quantum0 (Some (Injected x))))
      as ([r|y] & -> & Hr); done.
Qed.

(** A process of weight 3 behind one of weight 1 wins the draws 1, 2 and 3. *)
Lemma lottery_proportional_witness :
  let h := omap (fun w => set_Weight w <$> NewProcess 1 "P" 0 5 0) [1; 3; 2] in
  let s := NewLotteryScheduler (Ext := Empty_set) 1 None in
  let q := [0; 1; 2]%nat in
  draw h 3 q = Some 1%nat.
Proof.
  intros h s q.
  destruct (lottery_proportional s
    (newDeterministic 0xC0FFEE) h [0%nat] 1%nat [2%nat]) as (_ & _ & H).
  - reflexivity.
  - vm_compute. discriminate.
  - apply H. vm_compute. split; [discriminate|reflexivity].
Defined.
