(* ===== verification/Simulator.v ===== *)
(** * The simulation engine (src/internal/simulator/simulator.go)

    The state of the [Simulator] struct and one definition per method of the
    tick path: arrivals, I/O countdown, dispatch, preemption, execution, I/O
    bursts, quantum expiry, the Gantt chart and event log, snapshots and
    metrics. [None] is a run-time panic. The goroutine, its channels and the
    control methods are not in this file. *)

From Stdlib Require Import Sorted.
From S2P Require Import Prelude.
From S2P Require Import Float64.
From S2P Require Import Process.
From S2P Require Import Scheduler.

(** ** Go's [sort.Slice]

    Only its contract is used: the result is a permutation, sorted for the
    order given; it need not be stable. *)
Class GoSort := sort_slice : (loc -> loc -> bool) -> list loc -> list loc.

Class GoSortLaws `{GoSort} : Prop := {
  sort_slice_perm : forall less l, sort_slice less l ≡ₚ l;
  sort_slice_sorted : forall (key : loc -> Z) l,
    StronglySorted (fun a b => key a <= key b)
      (sort_slice (fun a b => key a <? key b) l)
}.

(** ** State *)

Inductive SimulationState :=
| SimStateIdle | SimStateRunning | SimStatePaused | SimStateComplete.

#[export] Instance SimulationState_eq_dec : EqDecision SimulationState.
Proof. solve_decision. Defined.

(** [mem] is the heap the process pointers of the other fields point into;
    [updateCallback] records whether a callback is set. *)
Record Simulator (Sd : Type) := mkSimulator {
  scheduler : Sd;
  mem : heap;
  processes : list loc;
  readyQueue : list loc;
  ioQueue : list loc;
  currentProcess : option loc;
  currentTime : Z;
  ganttChart : list GanttEntry;
  events : list ProcessEvent;
  contextSwitches : Z;
  state : SimulationState;
  speed : Z;
  updateCallback : bool;
  lastGanttUpdate : Z;
  totalIdleTime : Z;
  timeQuantumUsed : Z
}.

Arguments mkSimulator {Sd}.
Arguments scheduler {Sd} _.
Arguments mem {Sd} _.
Arguments processes {Sd} _.
Arguments readyQueue {Sd} _.
Arguments ioQueue {Sd} _.
Arguments currentProcess {Sd} _.
Arguments currentTime {Sd} _.
Arguments ganttChart {Sd} _.
Arguments events {Sd} _.
Arguments contextSwitches {Sd} _.
Arguments state {Sd} _.
Arguments speed {Sd} _.
Arguments updateCallback {Sd} _.
Arguments lastGanttUpdate {Sd} _.
Arguments totalIdleTime {Sd} _.
Arguments timeQuantumUsed {Sd} _.

Section engine.
Context {Sd : Type} `{Scheduler Sd}.
Implicit Types (s : Simulator Sd) (p : loc).

(** Field updates ([s.f = v]). *)
Definition set_scheduler (v : Sd) (s : Simulator Sd) : Simulator Sd :=
  mkSimulator v s.(mem) s.(processes) s.(readyQueue) s.(ioQueue)
    s.(currentProcess) s.(currentTime) s.(ganttChart) s.(events)
    s.(contextSwitches) s.(state) s.(speed) s.(updateCallback)
    s.(lastGanttUpdate) s.(totalIdleTime) s.(timeQuantumUsed).
Definition set_mem (v : heap) (s : Simulator Sd) : Simulator Sd :=
  mkSimulator s.(scheduler) v s.(processes) s.(readyQueue) s.(ioQueue)
    s.(currentProcess) s.(currentTime) s.(ganttChart) s.(events)
    s.(contextSwitches) s.(state) s.(speed) s.(updateCallback)
    s.(lastGanttUpdate) s.(totalIdleTime) s.(timeQuantumUsed).
Definition set_processes (v : list loc) (s : Simulator Sd) : Simulator Sd :=
  mkSimulator s.(scheduler) s.(mem) v s.(readyQueue) s.(ioQueue)
    s.(currentProcess) s.(currentTime) s.(ganttChart) s.(events)
    s.(contextSwitches) s.(state) s.(speed) s.(updateCallback)
    s.(lastGanttUpdate) s.(totalIdleTime) s.(timeQuantumUsed).
Definition set_readyQueue (v : list loc) (s : Simulator Sd) : Simulator Sd :=
  mkSimulator s.(scheduler) s.(mem) s.(processes) v s.(ioQueue)
    s.(currentProcess) s.(currentTime) s.(ganttChart) s.(events)
    s.(contextSwitches) s.(state) s.(speed) s.(updateCallback)
    s.(lastGanttUpdate) s.(totalIdleTime) s.(timeQuantumUsed).
Definition set_ioQueue (v : list loc) (s : Simulator Sd) : Simulator Sd :=
  mkSimulator s.(scheduler) s.(mem) s.(processes) s.(readyQueue) v
    s.(currentProcess) s.(currentTime) s.(ganttChart) s.(events)
    s.(contextSwitches) s.(state) s.(speed) s.(updateCallback)
    s.(lastGanttUpdate) s.(totalIdleTime) s.(timeQuantumUsed).
Definition set_currentProcess (v : option loc) (s : Simulator Sd) : Simulator Sd :=
  mkSimulator s.(scheduler) s.(mem) s.(processes) s.(readyQueue) s.(ioQueue) v
    s.(currentTime) s.(ganttChart) s.(events) s.(contextSwitches) s.(state)
    s.(speed) s.(updateCallback) s.(lastGanttUpdate) s.(totalIdleTime)
    s.(timeQuantumUsed).
Definition set_currentTime (v : Z) (s : Simulator Sd) : Simulator Sd :=
  mkSimulator s.(scheduler) s.(mem) s.(processes) s.(readyQueue) s.(ioQueue)
    s.(currentProcess) v s.(ganttChart) s.(events) s.(contextSwitches)
    s.(state) s.(speed) s.(updateCallback) s.(lastGanttUpdate)
    s.(totalIdleTime) s.(timeQuantumUsed).
Definition set_ganttChart (v : list GanttEntry) (s : Simulator Sd) : Simulator Sd :=
  mkSimulator s.(scheduler) s.(mem) s.(processes) s.(readyQueue) s.(ioQueue)
    s.(currentProcess) s.(currentTime) v s.(events) s.(contextSwitches)
    s.(state) s.(speed) s.(updateCallback) s.(lastGanttUpdate)
    s.(totalIdleTime) s.(timeQuantumUsed).
Definition set_events (v : list ProcessEvent) (s : Simulator Sd) : Simulator Sd :=
  mkSimulator s.(scheduler) s.(mem) s.(processes) s.(readyQueue) s.(ioQueue)
    s.(currentProcess) s.(currentTime) s.(ganttChart) v s.(contextSwitches)
    s.(state) s.(speed) s.(updateCallback) s.(lastGanttUpdate)
    s.(totalIdleTime) s.(timeQuantumUsed).
Definition set_contextSwitches (v : Z) (s : Simulator Sd) : Simulator Sd :=
  mkSimulator s.(scheduler) s.(mem) s.(processes) s.(readyQueue) s.(ioQueue)
    s.(currentProcess) s.(currentTime) s.(ganttChart) s.(events) v s.(state)
    s.(speed) s.(updateCallback) s.(lastGanttUpdate) s.(totalIdleTime)
    s.(timeQuantumUsed).
Definition set_state (v : SimulationState) (s : Simulator Sd) : Simulator Sd :=
  mkSimulator s.(scheduler) s.(mem) s.(processes) s.(readyQueue) s.(ioQueue)
    s.(currentProcess) s.(currentTime) s.(ganttChart) s.(events)
    s.(contextSwitches) v s.(speed) s.(updateCallback) s.(lastGanttUpdate)
    s.(totalIdleTime) s.(timeQuantumUsed).
Definition set_speed (v : Z) (s : Simulator Sd) : Simulator Sd :=
  mkSimulator s.(scheduler) s.(mem) s.(processes) s.(readyQueue) s.(ioQueue)
    s.(currentProcess) s.(currentTime) s.(ganttChart) s.(events)
    s.(contextSwitches) s.(state) v s.(updateCallback) s.(lastGanttUpdate)
    s.(totalIdleTime) s.(timeQuantumUsed).
Definition set_updateCallback (v : bool) (s : Simulator Sd) : Simulator Sd :=
  mkSimulator s.(scheduler) s.(mem) s.(processes) s.(readyQueue) s.(ioQueue)
    s.(currentProcess) s.(currentTime) s.(ganttChart) s.(events)
    s.(contextSwitches) s.(state) s.(speed) v s.(lastGanttUpdate)
    s.(totalIdleTime) s.(timeQuantumUsed).
Definition set_lastGanttUpdate (v : Z) (s : Simulator Sd) : Simulator Sd :=
  mkSimulator s.(scheduler) s.(mem) s.(processes) s.(readyQueue) s.(ioQueue)
    s.(currentProcess) s.(currentTime) s.(ganttChart) s.(events)
    s.(contextSwitches) s.(state) s.(speed) s.(updateCallback) v
    s.(totalIdleTime) s.(timeQuantumUsed).
Definition set_totalIdleTime (v : Z) (s : Simulator Sd) : Simulator Sd :=
  mkSimulator s.(scheduler) s.(mem) s.(processes) s.(readyQueue) s.(ioQueue)
    s.(currentProcess) s.(currentTime) s.(ganttChart) s.(events)
    s.(contextSwitches) s.(state) s.(speed) s.(updateCallback)
    s.(lastGanttUpdate) v s.(timeQuantumUsed).
Definition set_timeQuantumUsed (v : Z) (s : Simulator Sd) : Simulator Sd :=
  mkSimulator s.(scheduler) s.(mem) s.(processes) s.(readyQueue) s.(ioQueue)
    s.(currentProcess) s.(currentTime) s.(ganttChart) s.(events)
    s.(contextSwitches) s.(state) s.(speed) s.(updateCallback)
    s.(lastGanttUpdate) s.(totalIdleTime) v.

(** Assignment through a process pointer. *)
Definition upd (l : loc) (f : Process -> Process) (s : Simulator Sd) : Simulator Sd :=
  set_mem (<[l := f (deref (mem s) l)]> (mem s)) s.

(** ** Construction *)

Definition NewSimulator (sched : Sd) : Simulator Sd :=
  {| scheduler := sched; mem := []; processes := []; readyQueue := []; ioQueue := [];
     currentProcess := None; currentTime := 0; ganttChart := []; events := [];
     contextSwitches := 0; state := SimStateIdle; speed := 100; updateCallback := false;
     lastGanttUpdate := 0; totalIdleTime := 0; timeQuantumUsed := 0 |}.

(** The clone is a fresh heap cell; the slice is sorted by arrival time. *)
Definition AddProcess `{GoSort} (p : Process) (s : Simulator Sd) : Simulator Sd :=
  let clone := length (mem s) in
  let s := set_mem (mem s ++ [Clone p]) s in
  let s := set_processes (processes s ++ [clone]) s in
  set_processes
    (sort_slice (fun i j => ArrivalTime (deref (mem s) i) <? ArrivalTime (deref (mem s) j))
       (processes s)) s.

Definition AddProcesses `{GoSort} (ps : list Process) (s : Simulator Sd) : Simulator Sd :=
  fold_left (fun s (p : Process) => AddProcess p s) ps s.

Definition SetUpdateCallback (isSet : bool) (s : Simulator Sd) : Simulator Sd :=
  set_updateCallback isSet s.

Definition SetSpeed (v : Z) (s : Simulator Sd) : Simulator Sd :=
  let v := if v <? 1 then 1 else v in
  let v := if 5000 <? v then 5000 else v in
  set_speed v s.

(** ** Event log and Gantt chart *)

(** The state recorded is that of the first process with this PID. *)
Definition addEvent (eventType : string) (pid : Z) (description : string)
    (s : Simulator Sd) : Simulator Sd :=
  let st := match List.find (fun p => PID (deref (mem s) p) =? pid) (processes s) with
            | Some p => State (deref (mem s) p)
            | None => StateNew
            end in
  set_events (events s ++ [{| eTime := currentTime s; ePID := pid; eEventType := eventType;
                              eDescription := description; eState := st |}]) s.

(** Merge with the last entry when it is the same process without a gap. *)
Fixpoint appendGantt (e : GanttEntry) (g : list GanttEntry) : list GanttEntry :=
  match g with
  | [] => [e]
  | [l] =>
      if (gPID l =? gPID e) && (gEndTime l =? gStartTime e)
      then [mkGantt (gPID l) (gName l) (gStartTime l) (gEndTime e) (gColor l)]
      else [l; e]
  | x :: g => x :: appendGantt e g
  end.

Definition addGanttEntry (pid : Z) (name : string) (start stop : Z) (color : string)
    (s : Simulator Sd) : Simulator Sd :=
  set_ganttChart (appendGantt (mkGantt pid name start stop color) (ganttChart s)) s.

(** ** Arrivals *)

Definition arrive (s : Simulator Sd) (p : loc) : Simulator Sd :=
  if (ArrivalTime (deref (mem s) p) <=? currentTime s)
     && bool_decide (State (deref (mem s) p) = StateNew)
  then
    let s := upd p (set_State StateReady) s in
    let s := set_readyQueue (readyQueue s ++ [p]) s in
    let s := set_scheduler (sched_AddProcess (scheduler s) (mem s) p) s in
    let pid := PID (deref (mem s) p) in
    addEvent "arrival" pid ("Process " ++ itoa pid ++ " arrived") s
  else s.

Definition checkArrivals (s : Simulator Sd) : Simulator Sd :=
  fold_left arrive (processes s) s.

(** ** I/O *)

(** A process whose countdown reached zero returns to the ready queue. *)
Definition ioComplete (p : loc) (s : Simulator Sd) : Simulator Sd :=
  let s := upd p (fun q => set_State StateReady (set_IORemaining 0 q)) s in
  let s := set_readyQueue (readyQueue s ++ [p]) s in
  let s := set_scheduler (sched_AddProcess (scheduler s) (mem s) p) s in
  let pid := PID (deref (mem s) p) in
  addEvent "io_complete" pid
    ("Process " ++ itoa pid ++ " I/O complete, returning to ready queue") s.

Definition ioCountdown (p : loc) (s : Simulator Sd) : Simulator Sd :=
  upd p (fun q => set_IORemaining (IORemaining q -ᵢ 1) q) s.

(** The loop of [tickIOQueue]: [live] shares the backing array [arr] of the
    queue, so appending its [k]-th element overwrites [arr[k]] while the range
    still reads [arr[i]]; [n] iterations are left. *)
Fixpoint tickIO_loop (n i k : nat) (arr : list loc) (s : Simulator Sd)
    : list loc * nat * Simulator Sd :=
  match n with
  | O => (arr, k, s)
  | S n =>
      let p := arr !!! i in
      let s := ioCountdown p s in
      if IORemaining (deref (mem s) p) <=? 0
      then tickIO_loop n (S i) k arr (ioComplete p s)
      else tickIO_loop n (S i) (S k) (<[k := p]> arr) s
  end.

Definition tickIOQueue (s : Simulator Sd) : Simulator Sd :=
  let '(arr, k, s) := tickIO_loop (length (ioQueue s)) 0 0 (ioQueue s) s in
  set_ioQueue (take k arr) s.

(** The burst that fires. *)
Definition startIO (p : loc) (idx : Z) (burst : IOBurst) (s : Simulator Sd) : Simulator Sd :=
  let s := upd p (fun q => set_IOBursts
             (<[Z.to_nat idx := set_Completed true burst]> (IOBursts q)) q) s in
  let s := upd p (set_IORemaining (Duration burst)) s in
  let s := upd p (fun q => set_CurrentIOIndex (CurrentIOIndex q +ᵢ 1) q) s in
  let s := upd p (set_State StateWaiting) s in
  let s := set_ioQueue (ioQueue s ++ [p]) s in
  let pid := PID (deref (mem s) p) in
  let s := addEvent "io_start" pid
             ("Process " ++ itoa pid ++ " started I/O (duration=" ++ itoa (Duration burst) ++ ")") s in
  set_timeQuantumUsed 0 (set_currentProcess None s).

(** The loop of [checkIOBurst]; it runs at most once per burst, so the number of
    bursts is fuel enough. A negative index would panic. *)
Fixpoint checkIO_loop (fuel : nat) (p : loc) (cpuUsed : Z) (s : Simulator Sd)
    : option (Simulator Sd) :=
  match fuel with
  | O => Some s
  | S fuel =>
      let q := deref (mem s) p in
      let idx := CurrentIOIndex q in
      if idx <? Z.of_nat (length (IOBursts q)) then
        if idx <? 0 then None else
        burst ← IOBursts q !! Z.to_nat idx;
        if Completed burst then
          checkIO_loop fuel p cpuUsed
            (upd p (fun q => set_CurrentIOIndex (CurrentIOIndex q +ᵢ 1) q) s)
        else if (AfterCPUTime burst <=? cpuUsed) && (0 <? Duration burst)
        then Some (startIO p idx burst s)
        else Some s
      else Some s
  end.

Definition checkIOBurst (s : Simulator Sd) : option (Simulator Sd) :=
  match currentProcess s with
  | None => Some s
  | Some p =>
      let q := deref (mem s) p in
      if IsComplete q then Some s else
      checkIO_loop (length (IOBursts q)) p (BurstTime q -ᵢ RemainingTime q) s
  end.

(** ** Dispatch *)

Definition scheduleNextProcess (s : Simulator Sd) : Simulator Sd :=
  if (length (readyQueue s) =? 0)%nat then set_currentProcess None s else
  let '(next, sched) := Schedule (scheduler s) (mem s) (readyQueue s) (currentTime s) in
  let s := set_scheduler sched s in
  match next with
  | None => set_currentProcess None s
  | Some next =>
      let s := set_readyQueue (remove_first next (readyQueue s)) s in
      let s := match currentProcess s with
               | Some c =>
                   if PID (deref (mem s) c) =? PID (deref (mem s) next) then s
                   else set_contextSwitches (contextSwitches s +ᵢ 1) s
               | None => s
               end in
      let wasStarted := HasStarted (deref (mem s) next) in
      let s := set_currentProcess (Some next) s in
      let s := upd next (set_State StateRunning) s in
      let s := set_timeQuantumUsed 0 s in
      let pid := PID (deref (mem s) next) in
      if negb wasStarted
      then addEvent "start" pid ("Process " ++ itoa pid ++ " started execution") s
      else addEvent "resume" pid ("Process " ++ itoa pid ++ " resumed execution") s
  end.

Definition shouldPreempt (s : Simulator Sd) : option bool :=
  Preempt (scheduler s) (mem s) (currentProcess s) (readyQueue s) (currentTime s).

Definition preemptCurrentProcess (s : Simulator Sd) : Simulator Sd :=
  match currentProcess s with
  | None => s
  | Some c =>
      let pid := PID (deref (mem s) c) in
      let s := addEvent "preempt" pid ("Process " ++ itoa pid ++ " preempted") s in
      let s := set_contextSwitches (contextSwitches s +ᵢ 1) s in
      let s := upd c (set_State StateReady) s in
      let s := set_readyQueue (readyQueue s ++ [c]) s in
      set_currentProcess None s
  end.

(** ** Execution *)

Definition executeProcess (duration : Z) (s : Simulator Sd) : option (Simulator Sd) :=
  match currentProcess s with
  | None => Some s
  | Some c =>
      let startTime := currentTime s in
      p ← Execute (currentTime s) duration (deref (mem s) c);
      let s := upd c (fun _ => p) s in
      let s := addGanttEntry (PID p) (Name p) startTime (currentTime s +ᵢ duration) (Color p) s in
      if IsComplete p then
        let s := addEvent "complete" (PID p) ("Process " ++ itoa (PID p) ++ " completed") s in
        let s := set_scheduler (sched_RemoveProcess (scheduler s) c) s in
        Some (set_currentProcess None s)
      else Some s
  end.

(** A process whose quantum expired goes to the tail of the ready queue. *)
Definition expired (c : loc) (s : Simulator Sd) : Simulator Sd :=
  let s := set_scheduler (OnQuantumExpired (scheduler s) (Some c)) s in
  let pid := PID (deref (mem s) c) in
  let s := addEvent "quantum_expire" pid ("Process " ++ itoa pid ++ " time quantum expired") s in
  let s := set_contextSwitches (contextSwitches s +ᵢ 1) s in
  let s := upd c (set_State StateReady) s in
  let s := set_readyQueue (readyQueue s ++ [c]) s in
  let s := set_currentProcess None s in
  set_timeQuantumUsed 0 s.

Definition expireQuantum (c : loc) (s : Simulator Sd) : Simulator Sd :=
  scheduleNextProcess (expired c s).

Definition checkQuantum (s : Simulator Sd) : option (Simulator Sd) :=
  match currentProcess s with
  | None => Some s
  | Some c =>
      timeQuantum ← QuantumFor (scheduler s) (Some c);
      if (0 <? timeQuantum) && (timeQuantum <=? timeQuantumUsed s)
         && negb (IsComplete (deref (mem s) c))
      then Some (expireQuantum c s)
      else Some s
  end.

(** The decision part of [executeTimeUnit]. *)
Definition dispatch (s : Simulator Sd) : option (Simulator Sd) :=
  match currentProcess s with
  | None => Some (scheduleNextProcess s)
  | Some c =>
      if IsComplete (deref (mem s) c) then Some (scheduleNextProcess s) else
      preempt ← shouldPreempt s;
      if (preempt : bool) then Some (scheduleNextProcess (preemptCurrentProcess s)) else Some s
  end.

(** The execution part. *)
Definition runCurrent (s : Simulator Sd) : option (Simulator Sd) :=
  match currentProcess s with
  | Some _ =>
      s ← executeProcess 1 s;
      let s := set_timeQuantumUsed (timeQuantumUsed s +ᵢ 1) s in
      s ← checkIOBurst s;
      checkQuantum s
  | None =>
      let s := set_totalIdleTime (totalIdleTime s +ᵢ 1) s in
      Some (addGanttEntry (-1) "IDLE" (currentTime s) (currentTime s +ᵢ 1) "#2C3E50" s)
  end.

Definition countWaiting (s : Simulator Sd) (p : loc) : Simulator Sd :=
  if bool_decide (State (deref (mem s) p) = StateReady)
     && match currentProcess s with
        | None => true
        | Some c => negb (PID (deref (mem s) p) =? PID (deref (mem s) c))
        end
  then upd p (fun q => set_WaitingTime (WaitingTime q +ᵢ 1) q) s
  else s.

(** The clock and the waiting times. *)
Definition advanceClock (s : Simulator Sd) : Simulator Sd :=
  let s := set_currentTime (currentTime s +ᵢ 1) s in
  fold_left countWaiting (readyQueue s) s.

Definition executeTimeUnit (s : Simulator Sd) : option (Simulator Sd) :=
  let s := checkArrivals s in
  let s := tickIOQueue s in
  s ← dispatch s;
  s ← runCurrent s;
  Some (advanceClock s).

Definition isComplete (s : Simulator Sd) : bool :=
  forallb (fun p => IsComplete (deref (mem s) p)) (processes s).

(** ** Reset of the simulation state (the body of [Reset] after [Stop]) *)

Definition resetProcess (p : Process) : Process :=
  let p := set_State StateNew p in
  let p := set_RemainingTime (BurstTime p) p in
  let p := set_StartTime (-1) p in
  let p := set_CompletionTime 0 p in
  let p := set_WaitingTime 0 p in
  let p := set_TurnaroundTime 0 p in
  let p := set_ResponseTime 0 p in
  let p := set_VRuntime 0 p in
  let p := set_HasStarted false p in
  let p := set_LastExecuted 0 p in
  let p := set_TimeQuantum 0 p in
  let p := set_CurrentIOIndex 0 p in
  let p := set_IORemaining 0 p in
  set_IOBursts (map (set_Completed false) (IOBursts p)) p.

Definition resetState (s : Simulator Sd) : Simulator Sd :=
  let s := set_currentTime 0 s in
  let s := set_currentProcess None s in
  let s := set_readyQueue [] s in
  let s := set_ioQueue [] s in
  let s := set_ganttChart [] s in
  let s := set_events [] s in
  let s := set_contextSwitches 0 s in
  let s := set_state SimStateIdle s in
  let s := set_lastGanttUpdate 0 s in
  let s := set_totalIdleTime 0 s in
  let s := set_timeQuantumUsed 0 s in
  let s := set_scheduler (sched_Reset (scheduler s)) s in
  fold_left (fun s p => upd p resetProcess s) (processes s) s.

(** ** Metrics and snapshots *)

Record SchedulingMetrics := {
  TotalProcesses : Z;
  CompletedProcesses : Z;
  AverageTurnaroundTime : spec_float;
  AverageWaitingTime : spec_float;
  AverageResponseTime : spec_float;
  CPUUtilization : spec_float;
  Throughput : spec_float;
  ContextSwitches : Z;
  TotalTime : Z;
  Algorithm : string;
  Timestamp : Z
}.

(** The four accumulators of the loop of [calculateMetrics]. *)
Record Totals := mkTotals {
  completedCount : Z;
  totalTurnaround : Z;
  totalWaiting : Z;
  totalResponse : Z
}.

Definition addTotals (s : Simulator Sd) (a : Totals) (p : loc) : Totals :=
  let q := deref (mem s) p in
  if IsComplete q then
    mkTotals (completedCount a +ᵢ 1) (totalTurnaround a +ᵢ TurnaroundTime q)
             (totalWaiting a +ᵢ WaitingTime q) (totalResponse a +ᵢ ResponseTime q)
  else mkTotals (completedCount a) (totalTurnaround a)
                (totalWaiting a +ᵢ WaitingTime q) (totalResponse a).

Definition totals (s : Simulator Sd) : Totals :=
  fold_left (addTotals s) (processes s) (mkTotals 0 0 0 0).

(** [now] is what [time.Now()] returned. *)
Definition calculateMetrics (now : Z) (s : Simulator Sd) : SchedulingMetrics :=
  let totalProcesses := Z.of_nat (length (processes s)) in
  let a := totals s in
  let f := Float64.of_int in
  let avgWaiting :=
    if 0 <? totalProcesses then Float64.div (f (totalWaiting a)) (f totalProcesses) else f 0 in
  let avgTurnaround :=
    if 0 <? completedCount a then Float64.div (f (totalTurnaround a)) (f (completedCount a))
    else f 0 in
  let avgResponse :=
    if 0 <? completedCount a then Float64.div (f (totalResponse a)) (f (completedCount a))
    else f 0 in
  let cpuUtil :=
    if 0 <? currentTime s
    then Float64.mul (Float64.div (f (currentTime s -ᵢ totalIdleTime s)) (f (currentTime s))) (f 100)
    else f 0 in
  let throughput :=
    if 0 <? currentTime s then Float64.div (f (completedCount a)) (f (currentTime s)) else f 0 in
  {| TotalProcesses := totalProcesses; CompletedProcesses := completedCount a;
     AverageTurnaroundTime := avgTurnaround; AverageWaitingTime := avgWaiting;
     AverageResponseTime := avgResponse; CPUUtilization := cpuUtil; Throughput := throughput;
     ContextSwitches := contextSwitches s; TotalTime := currentTime s;
     Algorithm := sched_Name (scheduler s); Timestamp := now |}.

(** The clones the consumer receives are values: nothing it does reaches the
    heap of the engine. *)
Record SimulationUpdate := {
  uCurrentTime : Z;
  uCurrentProcess : option Process;
  uReadyQueue : list Process;
  uWaitingQueue : list Process;
  uCompletedProcesses : list Process;
  uGanttChart : list GanttEntry;
  uEvents : list ProcessEvent;
  uMetrics : SchedulingMetrics;
  uState : SimulationState;
  uAlgorithm : string
}.

Definition snapshotState (now : Z) (s : Simulator Sd) : SimulationUpdate :=
  let clone := fun p => Clone (deref (mem s) p) in
  {| uCurrentTime := currentTime s;
     uCurrentProcess := clone <$> currentProcess s;
     uReadyQueue := map clone (readyQueue s);
     uWaitingQueue := map clone (ioQueue s);
     uCompletedProcesses :=
       map clone (List.filter (fun p => IsComplete (deref (mem s) p)) (processes s));
     uGanttChart := ganttChart s;
     uEvents := events s;
     uMetrics := calculateMetrics now s;
     uState := state s;
     uAlgorithm := sched_Name (scheduler s) |}.

Definition GetCurrentState : Z -> Simulator Sd -> SimulationUpdate := snapshotState.

(** The updates handed to the callback, if one is set. *)
Definition sendUpdate (now : Z) (s : Simulator Sd) : list SimulationUpdate :=
  if updateCallback s then [snapshotState now s] else [].

(** ** Synchronous stepping *)

(** A tick as [Step] and the run loop perform it: one unit, an update, and on
    completion the final state with a second update. *)
Definition tickAndReport (now : Z) (s : Simulator Sd)
    : option (Simulator Sd * list SimulationUpdate) :=
  s ← executeTimeUnit s;
  let out := sendUpdate now s in
  if isComplete s then
    let s := set_state SimStateComplete s in
    Some (s, out ++ sendUpdate now s)
  else Some (s, out).

Definition Step (now : Z) (s : Simulator Sd) : option (Simulator Sd * list SimulationUpdate) :=
  match state s with
  | SimStateRunning | SimStateComplete => Some (s, [])
  | SimStateIdle => tickAndReport now (set_state SimStatePaused s)
  | SimStatePaused => tickAndReport now s
  end.

(** The ticks of a run until every process is complete, at most [fuel]. *)
Fixpoint runToCompletion (fuel : nat) (s : Simulator Sd) : option (Simulator Sd) :=
  match fuel with
  | O => None
  | S fuel =>
      s ← executeTimeUnit s;
      if isComplete s then Some s else runToCompletion fuel s
  end.
End engine.

(** [insertionSort_func] of the Go standard library, which [sort.Slice] uses on
    up to twelve elements: an instance of the contract. *)
Fixpoint insert_by (less : loc -> loc -> bool) (x : loc) (l : list loc) : list loc :=
  match l with
  | [] => [x]
  | y :: l => if less x y then x :: y :: l else y :: insert_by less x l
  end.

Definition insertion_sort (less : loc -> loc -> bool) (l : list loc) : list loc :=
  fold_left (fun acc x => insert_by less x acc) l [].

#[export] Instance insertion_sort_impl : GoSort | 10 := insertion_sort.

Lemma insert_by_perm less x l : insert_by less x l ≡ₚ x :: l.
Proof.
  induction l as [|y l IH]; simpl; [done|]. destruct (less x y); [done|].
  rewrite IH. apply Permutation_swap.
Qed.

Lemma insertion_sort_perm less l : insertion_sort less l ≡ₚ l.
Proof.
  unfold insertion_sort.
  assert (Hgen : forall acc, fold_left (fun acc x => insert_by less x acc) l acc ≡ₚ l ++ acc).
  { induction l as [|x l IH]; intros acc; simpl; [done|].
    rewrite IH, insert_by_perm. symmetry. apply Permutation_middle. }
  by rewrite Hgen, app_nil_r.
Qed.

Lemma insert_by_sorted (key : loc -> Z) x l :
  StronglySorted (fun a b => key a <= key b) l ->
  StronglySorted (fun a b => key a <= key b) (insert_by (fun a b => key a <? key b) x l).
Proof.
  induction 1 as [|y l Hs IH Hall]; simpl; [by repeat constructor|].
  destruct (Z.ltb_spec (key x) (key y)).
  - constructor; [by constructor|]. constructor; [lia|].
    eapply Forall_impl; [exact Hall|]. simpl. lia.
  - constructor; [done|]. rewrite insert_by_perm. constructor; [lia|done].
Qed.

#[export] Instance insertion_sort_laws : GoSortLaws.
Proof.
  split; [exact insertion_sort_perm|]. intros key l.
  unfold sort_slice, insertion_sort_impl, insertion_sort.
  assert (Hgen : forall acc, StronglySorted (fun a b => key a <= key b) acc ->
    StronglySorted (fun a b => key a <= key b)
      (fold_left (fun acc x => insert_by (fun a b => key a <? key b) x acc) l acc)).
  { induction l as [|x l IH]; intros acc Hacc; simpl; [done|].
    by apply IH, insert_by_sorted. }
  apply Hgen. constructor.
Qed.
