(* ===== verification/SimInvariant.v ===== *)
(** * Well-formed simulation states

    The invariant of the engine: every process is in exactly the container its
    state says (the ready queue, the I/O queue, the CPU, or none), no container
    holds a process twice, and every process satisfies its own bookkeeping
    invariant. Every step of a tick preserves it, and with it a tick cannot
    panic. *)

From Stdlib Require Import Sorted.
From S2P Require Import Prelude.
From S2P Require Import Float64.
From S2P Require Import Process.
From S2P Require Import Scheduler.
From S2P Require Import Simulator.

(** ** The invariant of one process *)

(** What a configuration must satisfy for the engine's arithmetic to be exact;
    it depends on the configuration only. *)
Record config_ok (p : Process) : Prop := {
  co_burst : 1 <= BurstTime p <= max_int;
  co_weight : 0 < Weight p;
  co_arrival : 0 <= ArrivalTime p <= max_int;
  co_bursts : Forall (fun b => Duration b <= max_int) (IOBursts p);
  co_length : Z.of_nat (length (IOBursts p)) <= max_int
}.

(** A process that may be handed to [AddProcess]: a usable configuration, and
    every other field as [Reset] would leave it. *)
Definition admissible (p : Process) : Prop := config_ok p /\ resetProcess p = p.

(** [now] is the time up to which the CPU has run. *)
Record proc_wf (now : Z) (p : Process) : Prop := {
  pw_config : config_ok p;
  pw_remaining : 0 <= RemainingTime p <= BurstTime p;
  pw_done : RemainingTime p = 0 <-> State p = StateTerminated;
  pw_started : HasStarted p = true <-> RemainingTime p < BurstTime p;
  pw_new : State p = StateNew -> RemainingTime p = BurstTime p;
  pw_arrived : State p <> StateNew -> ArrivalTime p + (BurstTime p - RemainingTime p) <= now;
  pw_response : HasStarted p = true ->
    ArrivalTime p <= StartTime p /\
    StartTime p + (BurstTime p - RemainingTime p) <= now /\
    ResponseTime p = StartTime p - ArrivalTime p;
  pw_final : State p = StateTerminated ->
    StartTime p + BurstTime p <= CompletionTime p <= now /\
    TurnaroundTime p = CompletionTime p - ArrivalTime p /\
    WaitingTime p = TurnaroundTime p - BurstTime p;
  pw_io_none : State p <> StateWaiting -> IORemaining p = 0;
  pw_io_some : State p = StateWaiting -> 1 <= IORemaining p <= max_int;
  pw_index : 0 <= CurrentIOIndex p <= Z.of_nat (length (IOBursts p))
}.

(** ** The invariant of the engine *)

(** The part about processes and containers. *)
Record wf_core (now : Z) (m : heap) (procs ready io : list loc) (cur : option loc) : Prop := {
  wf_nodup : NoDup procs;
  wf_dom : forall l, l ∈ procs <-> (l < length m)%nat;
  wf_ready_nodup : NoDup ready;
  wf_io_nodup : NoDup io;
  wf_ready : forall l, l ∈ ready <-> l ∈ procs /\ State (deref m l) = StateReady;
  wf_io : forall l, l ∈ io <-> l ∈ procs /\ State (deref m l) = StateWaiting;
  wf_cur : forall l, cur = Some l <-> l ∈ procs /\ State (deref m l) = StateRunning;
  wf_procs : forall l, l ∈ procs -> proc_wf now (deref m l)
}.

Definition sim_wf {Sd} `{SchedulerLaws Sd} (now : Z) (s : Simulator Sd) : Prop :=
  wf_core now (mem s) (processes s) (readyQueue s) (ioQueue s) (currentProcess s) /\
  sched_ok (scheduler s).

(** I/O time a process still has to spend: the countdown of the burst it is in
    and the durations of the bursts that have not fired. *)
Definition burst_work (b : IOBurst) : Z := if Completed b then 0 else Z.max 0 (Duration b).
Definition io_work (p : Process) : Z :=
  IORemaining p + zsum burst_work (drop (Z.to_nat (CurrentIOIndex p)) (IOBursts p)).

(** What the steps that do not consume CPU time leave alone; they never add I/O
    work. *)
Record frame {Sd} (s s' : Simulator Sd) : Prop := {
  fr_procs : processes s' = processes s;
  fr_length : length (mem s') = length (mem s);
  fr_time : currentTime s' = currentTime s;
  fr_gantt : ganttChart s' = ganttChart s;
  fr_idle : totalIdleTime s' = totalIdleTime s;
  fr_config : forall l, config (deref (mem s') l) = config (deref (mem s) l);
  fr_remaining : forall l, RemainingTime (deref (mem s') l) = RemainingTime (deref (mem s) l);
  fr_io : forall l, io_work (deref (mem s') l) <= io_work (deref (mem s) l);
  fr_new : forall l, State (deref (mem s') l) = StateNew -> State (deref (mem s) l) = StateNew;
  fr_state : state s' = state s
}.

#[export] Instance frame_preorder {Sd} : PreOrder (@frame Sd).
Proof.
  split; [done|]. intros s1 s2 s3 [] []. split; try congruence.
  - intros l. etransitivity; eauto.
  - auto.
Qed.

(** A step that keeps the invariant and the frame. *)
Definition keeps {Sd} `{SchedulerLaws Sd} (now : Z) (s s' : Simulator Sd) : Prop :=
  sim_wf now s' /\ frame s s'.

(** ** The heap *)

Lemma deref_insert (m : heap) l p x :
  (l < length m)%nat -> deref (<[l := p]> m) x = if decide (x = l) then p else deref m x.
Proof.
  intros Hl. unfold deref. rewrite !list_lookup_total_alt. case_decide as Hx.
  - subst. by rewrite list_lookup_insert_eq.
  - by rewrite list_lookup_insert_ne.
Qed.

Lemma deref_insert_eq (m : heap) l p : (l < length m)%nat -> deref (<[l := p]> m) l = p.
Proof. intros Hl. rewrite deref_insert by done. by rewrite decide_True. Qed.

Lemma deref_app (m : heap) p x :
  deref (m ++ [p]) x = if decide (x = length m) then p else deref m x.
Proof.
  unfold deref. rewrite !list_lookup_total_alt. case_decide as Hx.
  - subst. by rewrite lookup_app_r, Nat.sub_diag by lia.
  - destruct (decide (x < length m)%nat).
    + by rewrite lookup_app_l.
    + rewrite (lookup_ge_None_2 m) by lia. rewrite lookup_ge_None_2; [done|].
      rewrite length_app. simpl. lia.
Qed.

(** Updating a field that is not observed. *)
Lemma upd_observe {A} (f : Process -> A) (m : heap) l p x :
  f p = f (deref m l) -> f (deref (<[l := p]> m) x) = f (deref m x).
Proof.
  intros Hf. destruct (decide (l < length m)%nat).
  - rewrite deref_insert by done. case_decide; [by subst|done].
  - by rewrite list_insert_ge by lia.
Qed.

(** ** Process facts *)

Lemma proc_wf_mono now now' p : now <= now' -> proc_wf now p -> proc_wf now' p.
Proof.
  intros Hle [? ? ? ? ? Ha Hr Hf ? ? ?]. split; try done.
  - intros H. specialize (Ha H). lia.
  - intros H. specialize (Hr H). lia.
  - intros H. specialize (Hf H). lia.
Qed.

Lemma config_eq_inv p q :
  config p = config q ->
  PID p = PID q /\ Name p = Name q /\ ArrivalTime p = ArrivalTime q /\
  BurstTime p = BurstTime q /\ Priority p = Priority q /\ Nice p = Nice q /\
  Weight p = Weight q /\ Color p = Color q /\
  map burst_config (IOBursts p) = map burst_config (IOBursts q).
Proof. unfold config. intros [= ]. repeat split; done. Qed.

Lemma config_ok_eq p q : config p = config q -> config_ok q -> config_ok p.
Proof.
  intros (_ & _ & Ha & Hb & _ & _ & Hw & _ & Hio)%config_eq_inv [? ? ? Hdur Hlen].
  split; try congruence.
  - assert (Forall (fun d => d.2 <= max_int) (map burst_config (IOBursts p))) as Hp.
    { rewrite Hio, Forall_map. exact Hdur. }
    rewrite Forall_map in Hp. exact Hp.
  - apply (f_equal length) in Hio. rewrite !length_map in Hio. congruence.
Qed.

Lemma IsComplete_wf now p :
  proc_wf now p -> IsComplete p = bool_decide (State p = StateTerminated).
Proof.
  intros [_ Hr Hd _ _ _ _ _ _ _ _]. unfold IsComplete.
  case_bool_decide as Hs; [done|]. simpl. apply Z.leb_gt.
  destruct (Z.eq_dec (RemainingTime p) 0) as [He|]; [|lia]. by apply Hd in He.
Qed.

(** How the transitions of a process keep its invariant. *)
Ltac proc_case :=
  intros; repeat match goal with H : proc_wf _ ?p |- _ => destruct H as [[? ? ? ? ?] ? ? ? ? ? ? ? ? ? ?] end;
  match goal with p : Process |- _ => destruct p end; simpl in *; subst;
  split; [split; simpl; assumption|..]; simpl;
  try assumption; try (intros; discriminate); try lia; try tauto;
  try (split; intros; (discriminate || lia || tauto)).

Lemma proc_wf_arrive now p :
  proc_wf now p -> State p = StateNew -> ArrivalTime p <= now ->
  proc_wf now (set_State StateReady p).
Proof. proc_case; intros; naive_solver lia. Qed.

Lemma proc_wf_wake now p :
  proc_wf now p -> State p = StateWaiting ->
  proc_wf now (set_State StateReady (set_IORemaining 0 p)).
Proof. proc_case; intuition congruence. Qed.

Lemma proc_wf_countdown now p n :
  proc_wf now p -> State p = StateWaiting -> 1 <= n <= max_int ->
  proc_wf now (set_IORemaining n p).
Proof. proc_case. Qed.

Lemma proc_wf_dispatch now p :
  proc_wf now p -> State p = StateReady -> proc_wf now (set_State StateRunning p).
Proof. proc_case; intuition congruence. Qed.

Lemma proc_wf_yield now p :
  proc_wf now p -> State p = StateRunning -> proc_wf now (set_State StateReady p).
Proof. proc_case; intuition congruence. Qed.

Lemma proc_wf_waited now p n :
  proc_wf now p -> State p = StateReady -> proc_wf now (set_WaitingTime n p).
Proof. proc_case; intuition congruence. Qed.

Lemma proc_wf_running now p :
  proc_wf now p -> State p = StateRunning -> 1 <= RemainingTime p <= max_int.
Proof.
  intros [Hcfg Hr Hd _ _ _ _ _ _ _ _] Hs. pose proof (co_burst _ Hcfg).
  assert (RemainingTime p <> 0) by (intros E; apply Hd in E; congruence). lia.
Qed.

Lemma proc_wf_execute t p :
  proc_wf t p -> State p = StateRunning -> 0 <= t < max_int ->
  exists p', Execute t 1 p = Some p' /\ proc_wf (t + 1) p' /\
    config p' = config p /\ RemainingTime p' = RemainingTime p - 1 /\
    io_work p' = io_work p /\
    (IsComplete p' = true /\ State p' = StateTerminated \/
     IsComplete p' = false /\ State p' = StateRunning).
Proof.
  intros Hwf Hs Ht. pose proof (proc_wf_running _ _ Hwf Hs) as Hr1.
  destruct Hwf as [Hcfg Hr Hd Hst Hn Ha Hre Hfin Hio0 Hio1 Hidx].
  pose proof (co_weight _ Hcfg). pose proof (co_arrival _ Hcfg). pose proof (co_burst _ Hcfg).
  specialize (Ha ltac:(congruence)). specialize (Hio0 ltac:(congruence)).
  destruct (Execute_tick t p) as (p' & He & Hc & Hb & Hi & Hior & _ & Hst' & _ & Hrem & _ & Hstart & Hend);
    [lia|lia|lia|].
  pose proof (config_eq_inv _ _ Hc) as (_ & _ & Harr & Hburst & _).
  assert (Hstart' : ArrivalTime p <= StartTime p' /\
    StartTime p' + (BurstTime p - RemainingTime p) <= t /\
    ResponseTime p' = StartTime p' - ArrivalTime p).
  { destruct (HasStarted p).
    - destruct Hstart as [-> ->]. auto.
    - destruct Hstart as [-> ->].
      assert (RemainingTime p = BurstTime p)
        by (destruct (decide (RemainingTime p < BurstTime p)) as [Hlt|]; [|lia];
            by apply Hst in Hlt).
      unwrap. lia. }
  assert (HC : IsComplete p' = (RemainingTime p =? 1)).
  { unfold IsComplete. rewrite Hrem.
    destruct (Z.eqb_spec (RemainingTime p) 1) as [E|E]; destruct Hend as [-> _]; ztest; done. }
  exists p'. split; [done|]. split; [|split; [done|split; [done|split]]].
  - destruct (Z.eqb_spec (RemainingTime p) 1) as [E|E]; destruct Hend as (HsX & Hend);
      (split; [by eapply config_ok_eq|..]);
      rewrite ?Hrem, ?Harr, ?Hburst, ?Hb, ?Hi, ?Hior, ?Hst', ?HsX; try lia; try done.
    + split; [done|lia].
    + intros _. destruct Hend as (-> & -> & ->). unwrap. lia.
    + split; [lia|done].
  - unfold io_work. by rewrite Hb, Hi, Hior.
  - rewrite HC. destruct (Z.eqb_spec (RemainingTime p) 1) as [E|E]; destruct Hend as (-> & _); auto.
Qed.

(** The next burst of a process. *)
Section next_burst.
Context {now : Z} {p : Process} {b : IOBurst}.
Hypothesis Hwf : proc_wf now p.
Hypothesis Hs : State p = StateRunning.
Hypothesis Hb : IOBursts p !! Z.to_nat (CurrentIOIndex p) = Some b.

Lemma next_index : CurrentIOIndex p +ᵢ 1 = CurrentIOIndex p + 1 /\
  Z.to_nat (CurrentIOIndex p + 1) = S (Z.to_nat (CurrentIOIndex p)) /\
  0 <= CurrentIOIndex p + 1 <= Z.of_nat (length (IOBursts p)).
Proof using Hwf Hb.
  apply lookup_lt_Some in Hb. pose proof (pw_index _ _ Hwf).
  pose proof (co_length _ (pw_config _ _ Hwf)). unwrap. lia.
Qed.

(** Skipping a burst that has fired. *)
Lemma proc_wf_skip :
  let p' := set_CurrentIOIndex (CurrentIOIndex p +ᵢ 1) p in
  proc_wf now p' /\ (Completed b = true -> io_work p' = io_work p).
Proof using Hwf Hb Hs.
  destruct next_index as (E1 & E2 & E3). simpl. rewrite E1. split.
  - clear E1 E2 Hb Hs. destruct Hwf as [[] ? ? ? ? ? ? ? ? ? ?], p. simpl in *.
    split; [by split|done..].
  - intros Hd. unfold io_work. simpl.
    rewrite E2, (drop_S _ _ _ Hb). simpl. unfold burst_work at 2. by rewrite Hd.
Qed.

(** Firing a burst. *)
Definition fired (p : Process) : Process :=
  set_State StateWaiting (set_CurrentIOIndex (CurrentIOIndex p +ᵢ 1)
    (set_IORemaining (Duration b)
      (set_IOBursts (<[Z.to_nat (CurrentIOIndex p) := set_Completed true b]> (IOBursts p)) p))).

Lemma fired_config : config (fired p) = config p.
Proof using Hb.
  clear Hwf Hs. unfold fired, config. destruct p. simpl in *. f_equal.
  change (map burst_config) with (fmap (M := list) burst_config).
  rewrite list_fmap_insert. apply list_insert_id.
  by rewrite list_lookup_fmap, Hb.
Qed.

Lemma proc_wf_fired : 0 < Duration b -> Completed b = false ->
  proc_wf now (fired p) /\ io_work (fired p) = io_work p.
Proof using Hwf Hb Hs.
  intros Hd Hc. destruct next_index as (E1 & E2 & E3).
  pose proof (co_bursts _ (pw_config _ _ Hwf)) as Hmax.
  rewrite Forall_lookup in Hmax. specialize (Hmax _ _ Hb). simpl in Hmax.
  pose proof (config_ok_eq _ _ fired_config (pw_config _ _ Hwf)) as Hcfg.
  pose proof (pw_io_none _ _ Hwf ltac:(congruence)) as Hz. split.
  - revert Hcfg. unfold fired. rewrite E1. clear E1 E2.
    destruct Hwf as [_ ? ? ? ? ? ? ? ? ? ?], p. simpl in *. subst.
    intros Hcfg. split; simpl; try done; try lia; try (intros; discriminate).
    + intuition congruence.
    + intros _. auto with congruence.
    + by rewrite length_insert.
  - unfold fired, io_work. rewrite E1. revert E2 Hz. clear Hcfg E1 E3 Hwf.
    destruct p. simpl in *. intros E2 ->. rewrite E2, drop_insert_lt, (drop_S _ _ _ Hb) by lia.
    simpl. unfold burst_work at 2. rewrite Hc. lia.
Qed.
End next_burst.

(** ** Moving one process between containers *)

Section moves.
Context {now : Z} {m : heap} {procs ready io : list loc} {cur : option loc}.
Hypothesis Hwf : wf_core now m procs ready io cur.
Variables (l : loc) (p' : Process).
Hypothesis Hl : l ∈ procs.
Hypothesis Hp' : proc_wf now p'.

Lemma wf_lt : (l < length m)%nat.
Proof using Hwf Hl. by apply (wf_dom _ _ _ _ _ _ Hwf). Qed.

Lemma wf_move ready' io' cur' :
  NoDup ready' -> NoDup io' ->
  (forall x, x ∈ ready' <-> (x ∈ ready /\ x <> l) \/ (x = l /\ State p' = StateReady)) ->
  (forall x, x ∈ io' <-> (x ∈ io /\ x <> l) \/ (x = l /\ State p' = StateWaiting)) ->
  (forall x, cur' = Some x <-> (cur = Some x /\ x <> l) \/ (x = l /\ State p' = StateRunning)) ->
  wf_core now (<[l := p']> m) procs ready' io' cur'.
Proof using All.
  intros Hnr Hni Hr Hi Hc. pose proof wf_lt as Hlt.
  destruct Hwf as [Hnd Hdom _ _ Hready Hio Hcur Hprocs].
  split; try done.
  - intros x. by rewrite length_insert.
  - intros x. rewrite Hr, Hready, deref_insert by done. case_decide as Hx; [subst|]; naive_solver.
  - intros x. rewrite Hi, Hio, deref_insert by done. case_decide as Hx; [subst|]; naive_solver.
  - intros x. rewrite Hc, Hcur, deref_insert by done. case_decide as Hx; [subst|]; naive_solver.
  - intros x Hx. rewrite deref_insert by done. case_decide; auto.
Qed.

(** The containers [l] is not in, by its state. *)
Lemma not_ready : State (deref m l) <> StateReady -> l ∉ ready.
Proof using Hwf. intros Hs [_ ?]%(wf_ready _ _ _ _ _ _ Hwf). done. Qed.
Lemma not_io : State (deref m l) <> StateWaiting -> l ∉ io.
Proof using Hwf. intros Hs [_ ?]%(wf_io _ _ _ _ _ _ Hwf). done. Qed.
Lemma not_cur : State (deref m l) <> StateRunning -> cur <> Some l.
Proof using Hwf. intros Hs [_ ?]%(wf_cur _ _ _ _ _ _ Hwf). done. Qed.

Lemma ready_snoc_nodup : State (deref m l) <> StateReady -> NoDup (ready ++ [l]).
Proof using Hwf.
  intros Hs. apply NoDup_app. split; [apply (wf_ready_nodup _ _ _ _ _ _ Hwf)|].
  split; [|apply NoDup_singleton].
  intros x Hx ->%list_elem_of_singleton. by apply not_ready in Hs.
Qed.

Ltac membership :=
  intros x; rewrite ?elem_of_app, ?list_elem_of_singleton;
  destruct (decide (x = l)); subst; naive_solver.

(** The process keeps its state. *)
Lemma wf_stay :
  State p' = State (deref m l) -> wf_core now (<[l := p']> m) procs ready io cur.
Proof using All.
  intros Hs. destruct Hwf as [? ? Hnr Hni Hready Hio Hcur ?].
  apply wf_move; try done; intros x; rewrite Hs;
    destruct (decide (x = l)); subst; naive_solver.
Qed.

(** New to ready. *)
Lemma wf_arrive :
  State (deref m l) = StateNew -> State p' = StateReady ->
  wf_core now (<[l := p']> m) procs (ready ++ [l]) io cur.
Proof using All.
  intros Hs Hs'.
  assert (l ∉ io) by (apply not_io; congruence).
  assert (cur <> Some l) by (apply not_cur; congruence).
  assert (NoDup (ready ++ [l])) by (apply ready_snoc_nodup; congruence).
  apply wf_move; try done; [apply (wf_io_nodup _ _ _ _ _ _ Hwf)|..]; rewrite Hs'; membership.
Qed.

(** Waiting to ready. *)
Lemma wf_wake io1 io2 :
  io = io1 ++ l :: io2 -> State p' = StateReady ->
  wf_core now (<[l := p']> m) procs (ready ++ [l]) (io1 ++ io2) cur.
Proof using All.
  intros Hio Hs'.
  assert (Hin : l ∈ io) by (rewrite Hio; set_solver).
  apply (wf_io _ _ _ _ _ _ Hwf) in Hin as [_ Hs].
  assert (cur <> Some l) by (apply not_cur; congruence).
  assert (NoDup (ready ++ [l])) by (apply ready_snoc_nodup; congruence).
  pose proof (wf_io_nodup _ _ _ _ _ _ Hwf) as Hnd. rewrite Hio in Hnd.
  assert (Hperm : io1 ++ l :: io2 ≡ₚ l :: io1 ++ io2) by (symmetry; apply Permutation_middle).
  rewrite Hperm in Hnd. apply NoDup_cons in Hnd as [Hnl Hnd].
  apply wf_move; try done; rewrite Hs'; [membership| |membership].
  intros x. rewrite Hio, Hperm, elem_of_cons. destruct (decide (x = l)); subst; naive_solver.
Qed.

(** Running to ready. *)
Lemma wf_yield :
  cur = Some l -> State p' = StateReady ->
  wf_core now (<[l := p']> m) procs (ready ++ [l]) io None.
Proof using All.
  intros Hc Hs'. pose proof (proj1 (wf_cur _ _ _ _ _ _ Hwf l) Hc) as [_ Hs].
  assert (l ∉ io) by (apply not_io; congruence).
  assert (NoDup (ready ++ [l])) by (apply ready_snoc_nodup; congruence).
  apply wf_move; try done; [apply (wf_io_nodup _ _ _ _ _ _ Hwf)|..]; rewrite Hs'; membership.
Qed.

(** Ready to running. *)
Lemma wf_dispatch :
  l ∈ ready -> cur = None -> State p' = StateRunning ->
  wf_core now (<[l := p']> m) procs (remove_first l ready) io (Some l).
Proof using All.
  intros Hin Hc Hs'. pose proof (proj1 (wf_ready _ _ _ _ _ _ Hwf l) Hin) as [_ Hs].
  assert (l ∉ io) by (apply not_io; congruence).
  pose proof (wf_ready_nodup _ _ _ _ _ _ Hwf) as Hnd.
  apply wf_move; auto with go; [apply (wf_io_nodup _ _ _ _ _ _ Hwf)|..]; rewrite Hs'.
  - intros x. rewrite elem_of_remove_first by done. naive_solver.
  - membership.
  - intros x. rewrite Hc. naive_solver.
Qed.

(** Running to waiting. *)
Lemma wf_block :
  cur = Some l -> State p' = StateWaiting ->
  wf_core now (<[l := p']> m) procs ready (io ++ [l]) None.
Proof using All.
  intros Hc Hs'. pose proof (proj1 (wf_cur _ _ _ _ _ _ Hwf l) Hc) as [_ Hs].
  assert (l ∉ ready) by (apply not_ready; congruence).
  assert (Hni : l ∉ io) by (apply not_io; congruence).
  apply wf_move; try done; [apply (wf_ready_nodup _ _ _ _ _ _ Hwf)|..].
  - apply NoDup_app. split; [apply (wf_io_nodup _ _ _ _ _ _ Hwf)|].
    split; [|apply NoDup_singleton]. intros x Hx ->%list_elem_of_singleton. done.
  - rewrite Hs'. membership.
  - rewrite Hs'. membership.
  - rewrite Hs'. membership.
Qed.

(** Running to terminated. *)
Lemma wf_finish :
  cur = Some l -> State p' = StateTerminated ->
  wf_core now (<[l := p']> m) procs ready io None.
Proof using All.
  intros Hc Hs'. pose proof (proj1 (wf_cur _ _ _ _ _ _ Hwf l) Hc) as [_ Hs].
  assert (l ∉ ready) by (apply not_ready; congruence).
  assert (l ∉ io) by (apply not_io; congruence).
  apply wf_move; try done;
    [apply (wf_ready_nodup _ _ _ _ _ _ Hwf)|apply (wf_io_nodup _ _ _ _ _ _ Hwf)|..];
    rewrite Hs'; membership.
Qed.
End moves.

Lemma wf_core_mono now now' m procs ready io cur :
  now <= now' -> wf_core now m procs ready io cur -> wf_core now' m procs ready io cur.
Proof. intros Hle []. split; try done. eauto using proc_wf_mono. Qed.
