(* ===== verification/SimSteps.v ===== *)
(** * The steps of a tick keep the invariant

    One lemma per step of [executeTimeUnit]: it keeps [sim_wf] and, except for
    the execution of the current process, the frame. *)

From S2P Require Import Prelude.
From S2P Require Import Float64.
From S2P Require Import Process.
From S2P Require Import Scheduler.
From S2P Require Import Simulator.
From S2P Require Import SimInvariant.

Section steps.
Context {Sd : Type} `{SchedulerLaws Sd}.
Implicit Types (s : Simulator Sd) (l : loc).

Lemma keeps_trans now s1 s2 s3 : keeps now s1 s2 -> keeps now s2 s3 -> keeps now s1 s3.
Proof. intros [_ Hf1] [Hw Hf2]. split; [done|]. by transitivity s2. Qed.

Lemma keeps_refl now s : sim_wf now s -> keeps now s s.
Proof. by split. Qed.

(** A record of the same projections as one for which the frame is known. *)
Ltac frame_of F := destruct F; split; assumption.

Lemma frame_upd l f s :
  config (f (deref (mem s) l)) = config (deref (mem s) l) ->
  RemainingTime (f (deref (mem s) l)) = RemainingTime (deref (mem s) l) ->
  io_work (f (deref (mem s) l)) <= io_work (deref (mem s) l) ->
  (State (f (deref (mem s) l)) = StateNew -> State (deref (mem s) l) = StateNew) ->
  frame s (upd l f s).
Proof.
  intros Hc Hr Hi Hn. unfold upd. split; simpl; try done.
  - apply length_insert.
  - intros x. by apply (upd_observe config).
  - intros x. by apply (upd_observe RemainingTime).
  - intros x. destruct (decide (l < length (mem s))%nat).
    + rewrite deref_insert by done. case_decide; [by subst|done].
    + by rewrite list_insert_ge by lia.
  - intros x. destruct (decide (l < length (mem s))%nat).
    + rewrite deref_insert by done. case_decide; [by subst|done].
    + by rewrite list_insert_ge by lia.
Qed.

Lemma deref_upd l f s x :
  (l < length (mem s))%nat ->
  deref (mem (upd l f s)) x =
  if decide (x = l) then f (deref (mem s) l) else deref (mem s) x.
Proof. intros Hl. simpl. by rewrite deref_insert. Qed.

(** ** Arrivals *)

Lemma arrive_keeps s l :
  sim_wf (currentTime s) s -> l ∈ processes s -> keeps (currentTime s) s (arrive s l).
Proof.
  intros [Hwf Hok] Hl. unfold arrive.
  destruct (_ && _) eqn:Hg; [|by apply keeps_refl].
  apply andb_true_iff in Hg as [Ha%Z.leb_le Hs%bool_decide_eq_true].
  pose proof (wf_procs _ _ _ _ _ _ Hwf l Hl) as Hp.
  assert (F : frame s (upd l (set_State StateReady) s)) by (by apply frame_upd; destruct (deref _ l)).
  split; [|frame_of F].
  split; [|by apply ok_AddProcess].
  apply (wf_arrive Hwf); try done; try (by destruct (deref (mem s) l)).
  by apply proc_wf_arrive.
Qed.

Lemma fold_keeps {A} (f : Simulator Sd -> A -> Simulator Sd) now (P : A -> Simulator Sd -> Prop) xs s :
  (forall x s', P x s' -> sim_wf now s' -> keeps now s' (f s' x)) ->
  (forall x s1 s2, frame s1 s2 -> P x s1 -> P x s2) ->
  sim_wf now s -> (forall x, x ∈ xs -> P x s) -> keeps now s (fold_left f xs s).
Proof.
  intros Hstep Hframe. revert s. induction xs as [|x xs IH]; intros s Hwf HP; simpl.
  { by apply keeps_refl. }
  assert (K : keeps now s (f s x)) by (apply Hstep; [apply HP; left|done]).
  eapply keeps_trans; [done|]. destruct K as [Hwf' F].
  apply IH; [done|]. intros y Hy. eapply Hframe; [done|]. apply HP. by right.
Qed.

Lemma checkArrivals_keeps s : sim_wf (currentTime s) s -> keeps (currentTime s) s (checkArrivals s).
Proof.
  intros Hwf. unfold checkArrivals.
  apply (fold_keeps arrive (currentTime s)
           (fun l s' => currentTime s' = currentTime s /\ l ∈ processes s')); [|..|done|done].
  - intros x s' [Ht Hx] Hwf'. rewrite <-Ht in *. by apply arrive_keeps.
  - intros x s1 s2 F [Ht Hx]. split; [by rewrite (fr_time _ _ F)|by rewrite (fr_procs _ _ F)].
Qed.

(** ** I/O countdown *)

(** [tickIOQueue] without the shared backing array: [live] collects the
    processes still waiting. *)
Fixpoint tickIO_ref (todo live : list loc) (s : Simulator Sd) : list loc * Simulator Sd :=
  match todo with
  | [] => (live, s)
  | p :: todo =>
      let s := ioCountdown p s in
      if IORemaining (deref (mem s) p) <=? 0
      then tickIO_ref todo live (ioComplete p s)
      else tickIO_ref todo (live ++ [p]) s
  end.

Lemma tickIO_loop_ref todo : forall i k arr live s,
  drop i arr = todo -> take k arr = live -> (k <= i)%nat -> (k <= length arr)%nat ->
  let '(arr', k', s') := tickIO_loop (length todo) i k arr s in
  (take k' arr', s') = tickIO_ref todo live s.
Proof.
  induction todo as [|p todo IH]; intros i k arr live s Hd Hl Hk Hlen; simpl; [by subst|].
  assert (Hp : arr !! i = Some p).
  { rewrite <-(Nat.add_0_r i), <-lookup_drop, Hd. done. }
  assert (Hd' : drop (S i) arr = todo) by (rewrite (drop_S _ _ _ Hp) in Hd; congruence).
  pose proof (lookup_lt_Some _ _ _ Hp).
  rewrite (list_lookup_total_correct _ _ _ Hp).
  destruct (_ <=? 0).
  - apply IH; auto.
  - apply IH; [|..|lia|rewrite length_insert; lia].
    + by rewrite drop_insert_lt by lia.
    + subst live. rewrite (take_S_r _ _ p) by (by rewrite list_lookup_insert_eq by lia).
      by rewrite take_insert_ge by lia.
Qed.

(** The in-place filter computes the plain one: overwriting a slot never hits a
    slot the range has still to read. *)
Lemma tickIOQueue_eq s :
  tickIOQueue s =
  let '(live, s') := tickIO_ref (ioQueue s) [] s in set_ioQueue live s'.
Proof.
  unfold tickIOQueue.
  pose proof (tickIO_loop_ref (ioQueue s) 0 0 (ioQueue s) [] s eq_refl eq_refl) as E.
  destruct (tickIO_loop _ _ _ _ _) as [[arr k] s']. rewrite <-E by lia. done.
Qed.

(** I/O time the whole simulation still has to spend. *)
Definition io_total s : Z := zsum (fun l => io_work (deref (mem s) l)) (processes s).

Lemma frame_io_total s s' : frame s s' -> io_total s' <= io_total s.
Proof.
  intros F. unfold io_total. rewrite (fr_procs _ _ F). apply zsum_le.
  intros l _. apply (fr_io _ _ F).
Qed.

Lemma frame_io_total_lt s s' l :
  frame s s' -> NoDup (processes s) -> l ∈ processes s ->
  io_work (deref (mem s') l) < io_work (deref (mem s) l) -> io_total s' < io_total s.
Proof.
  intros F Hnd Hl Hlt. unfold io_total. rewrite (fr_procs _ _ F).
  set (g := fun x => if decide (x = l) then io_work (deref (mem s) x) - 1
                     else io_work (deref (mem s) x)).
  assert (zsum (fun x => io_work (deref (mem s') x)) (processes s) <= zsum g (processes s)).
  { apply zsum_le. intros x _. unfold g. case_decide; [subst; lia|apply (fr_io _ _ F)]. }
  rewrite (zsum_change g (fun x => io_work (deref (mem s) x)) _ l) in *; try done.
  - unfold g in *. rewrite decide_True in * by done. lia.
  - intros y _ Hy. unfold g. by rewrite decide_False.
Qed.

(** One countdown: the process stays, or wakes. *)
Definition io_wf (now : Z) (waiting : list loc) s : Prop :=
  wf_core now (mem s) (processes s) (readyQueue s) waiting (currentProcess s) /\
  sched_ok (scheduler s).

Lemma ioCountdown_step now s p live todo :
  io_wf now (live ++ p :: todo) s ->
  let s1 := ioCountdown p s in
  IORemaining (deref (mem s1) p) = IORemaining (deref (mem s) p) - 1 /\
  if IORemaining (deref (mem s1) p) <=? 0
  then io_wf now (live ++ todo) (ioComplete p s1) /\ frame s (ioComplete p s1) /\
       io_total (ioComplete p s1) < io_total s
  else io_wf now (live ++ p :: todo) s1 /\ frame s s1 /\ io_total s1 < io_total s.
Proof.
  intros [Hwf Hok] s1. subst s1. unfold ioCountdown.
  assert (Hin : p ∈ live ++ p :: todo) by set_solver.
  apply (wf_io _ _ _ _ _ _ Hwf) in Hin as [Hp Hs].
  pose proof (wf_procs _ _ _ _ _ _ Hwf p Hp) as Hpw.
  pose proof (pw_io_some _ _ Hpw Hs) as Hio.
  pose proof (wf_lt Hwf p Hp) as Hlt.
  rewrite deref_upd, decide_True by done.
  set (q := deref (mem s) p) in *.
  assert (Hq : IORemaining (set_IORemaining (IORemaining q -ᵢ 1) q) = IORemaining q - 1)
    by (destruct q; simpl in *; unwrap; done).
  rewrite Hq. split; [done|].
  set (c := fun q => set_IORemaining (IORemaining q -ᵢ 1) q).
  destruct (Z.leb_spec (IORemaining q - 1) 0) as [Hz|Hz].
  - set (w := fun q => set_State StateReady (set_IORemaining 0 q)).
    assert (E : mem (ioComplete p (upd p c s)) = <[p := w q]> (mem s)).
    { unfold ioComplete. simpl. rewrite deref_insert_eq by done. fold q.
      by rewrite list_insert_insert_eq. }
    split; [|apply and_wlog_r].
    + split; [|by apply ok_AddProcess]. rewrite E.
      change (processes (ioComplete p (upd p c s))) with (processes s).
      apply (wf_wake Hwf); [done|by apply proc_wf_wake|done|unfold w; by destruct q].
    + assert (F : frame s (upd p w s)).
      { apply frame_upd; fold q; unfold w, io_work; destruct q; simpl in *; try done. lia. }
      change (mem (upd p w s)) with (<[p := w q]> (mem s)) in F.
      destruct F. split; rewrite ?E; assumption.
    + intros F. apply (frame_io_total_lt _ _ p F); [apply (wf_nodup _ _ _ _ _ _ Hwf)|done|].
      rewrite E, deref_insert_eq by done. fold q. unfold w, io_work. destruct q; simpl in *; lia.
  - split; [|apply and_wlog_r].
    + split; [|done]. apply (wf_stay Hwf); [done| |fold q; unfold c; by destruct q].
      fold q. unfold c. replace (IORemaining q -ᵢ 1) with (IORemaining q - 1) by (unwrap; done).
      apply proc_wf_countdown; auto with lia.
    + apply frame_upd; fold q; unfold c, io_work; destruct q; simpl in *; try done. lia.
    + intros F. apply (frame_io_total_lt _ _ p F); [apply (wf_nodup _ _ _ _ _ _ Hwf)|done|].
      rewrite deref_upd, decide_True by done. fold q. unfold c, io_work.
      destruct q; simpl in *; lia.
Qed.

Lemma tickIO_ref_spec now todo : forall live s,
  io_wf now (live ++ todo) s ->
  let '(live', s') := tickIO_ref todo live s in
  io_wf now live' s' /\ frame s s' /\ currentProcess s' = currentProcess s /\
  (todo <> [] -> io_total s' < io_total s).
Proof.
  induction todo as [|p todo IH]; intros live s Hwf; simpl.
  { rewrite app_nil_r in Hwf. done. }
  pose proof (ioCountdown_step _ _ _ _ _ Hwf) as [_ Hstep]. simpl in Hstep.
  assert (Hrest : forall live1 s1,
    io_wf now (live1 ++ todo) s1 -> frame s s1 -> io_total s1 < io_total s ->
    currentProcess s1 = currentProcess s ->
    let '(live', s') := tickIO_ref todo live1 s1 in
    io_wf now live' s' /\ frame s s' /\ currentProcess s' = currentProcess s /\
    (p :: todo <> [] -> io_total s' < io_total s)).
  { intros live1 s1 Hwf1 F1 Hlt Hc. specialize (IH live1 s1 Hwf1).
    destruct (tickIO_ref todo live1 s1) as [live' s']. destruct IH as (? & F2 & ? & _).
    split; [done|]. split; [by transitivity s1|]. split; [congruence|].
    intros _. apply frame_io_total in F2. lia. }
  destruct (_ <=? 0); destruct Hstep as (Hwf1 & F1 & Hlt).
  - by apply Hrest.
  - apply Hrest; [|done..]. by rewrite <-app_assoc.
Qed.

Lemma tickIOQueue_keeps now s :
  sim_wf now s ->
  keeps now s (tickIOQueue s) /\ currentProcess (tickIOQueue s) = currentProcess s /\
  (ioQueue s <> [] -> io_total (tickIOQueue s) < io_total s).
Proof.
  intros Hwf. rewrite tickIOQueue_eq.
  pose proof (tickIO_ref_spec now (ioQueue s) [] s Hwf) as Hspec.
  destruct (tickIO_ref _ _ _) as [live s']. destruct Hspec as (Hwf' & F & Hc & Hlt).
  split; [|done]. split; [done|frame_of F].
Qed.

(** ** Dispatch *)

(** What a dispatch from an idle CPU does: with an empty ready queue nothing
    runs, otherwise the policy's choice runs and leaves the queue. *)
Record dispatched (s s' : Simulator Sd) : Prop := {
  di_empty : readyQueue s = [] -> currentProcess s' = None /\ readyQueue s' = [];
  di_choice : readyQueue s <> [] -> exists l, l ∈ readyQueue s /\
    fst (Schedule (scheduler s) (mem s) (readyQueue s) (currentTime s)) = Some l /\
    currentProcess s' = Some l /\ readyQueue s' = remove_first l (readyQueue s)
}.

Lemma scheduleNextProcess_keeps now s :
  sim_wf now s -> currentProcess s = None ->
  keeps now s (scheduleNextProcess s) /\ dispatched s (scheduleNextProcess s).
Proof.
  intros [Hwf Hok] Hc. unfold scheduleNextProcess.
  destruct (Nat.eqb_spec (length (readyQueue s)) 0) as [He|He].
  - apply nil_length_inv in He. split; [|split; [done|congruence]].
    split; [|done]. split; [|done]. simpl. by rewrite <-Hc.
  - assert (Hne : readyQueue s <> []) by (intros E; by rewrite E in He).
    destruct (Schedule_member (scheduler s) (mem s) (readyQueue s) (currentTime s) Hok Hne)
      as (l & Hs & Hl).
    pose proof (ok_Schedule (scheduler s) (mem s) (readyQueue s) (currentTime s) Hok) as Hok'.
    destruct (Schedule _ _ _ _) as [next sched] eqn:E. simpl in Hs, Hok'. subst next.
    change (currentProcess (set_readyQueue _ _)) with (currentProcess s). rewrite Hc.
    pose proof (proj1 (wf_ready _ _ _ _ _ _ Hwf l) Hl) as [Hlp Hls].
    assert (F : frame s (upd l (set_State StateRunning) s))
      by (by apply frame_upd; destruct (deref _ l)).
    assert (W : wf_core now (<[l := set_State StateRunning (deref (mem s) l)]> (mem s))
                  (processes s) (remove_first l (readyQueue s)) (ioQueue s) (Some l)).
    { apply (wf_dispatch Hwf); try done; try (by destruct (deref (mem s) l)).
      apply proc_wf_dispatch; [by apply (wf_procs _ _ _ _ _ _ Hwf)|done]. }
    destruct (negb _); (split; [split; [by split|frame_of F]|]);
      (split; [by intros ?|]); intros _; exists l; by rewrite E.
Qed.

Lemma preemptCurrentProcess_keeps now s c :
  sim_wf now s -> currentProcess s = Some c ->
  keeps now s (preemptCurrentProcess s) /\ currentProcess (preemptCurrentProcess s) = None /\
  readyQueue (preemptCurrentProcess s) = readyQueue s ++ [c].
Proof.
  intros [Hwf Hok] Hc. unfold preemptCurrentProcess. rewrite Hc.
  pose proof (proj1 (wf_cur _ _ _ _ _ _ Hwf c) Hc) as [Hp Hs].
  assert (F : frame s (upd c (set_State StateReady) s))
    by (by apply frame_upd; destruct (deref _ c)).
  split; [|done]. split; [|frame_of F]. split; [|done].
  apply (wf_yield Hwf); try done; try (by destruct (deref (mem s) c)).
  apply proc_wf_yield; [by apply (wf_procs _ _ _ _ _ _ Hwf)|done].
Qed.

Lemma shouldPreempt_total now s :
  sim_wf now s -> is_Some (shouldPreempt s).
Proof.
  intros [Hwf Hok]. unfold shouldPreempt. apply Preempt_total; [done|].
  intros c Hc. apply (wf_cur _ _ _ _ _ _ Hwf) in Hc as [Hc _].
  apply (wf_procs _ _ _ _ _ _ Hwf), pw_config, co_weight in Hc. lia.
Qed.

Lemma running_not_complete now s c :
  sim_wf now s -> currentProcess s = Some c -> IsComplete (deref (mem s) c) = false.
Proof.
  intros [Hwf _] Hc. apply (wf_cur _ _ _ _ _ _ Hwf) in Hc as [Hc Hs].
  rewrite (IsComplete_wf now) by (by apply (wf_procs _ _ _ _ _ _ Hwf)).
  rewrite Hs. done.
Qed.

(** After the decision part the CPU is idle only if nobody is ready. *)
Lemma dispatch_keeps now s :
  sim_wf now s -> exists s', dispatch s = Some s' /\ keeps now s s' /\
  (currentProcess s' = None -> readyQueue s' = []).
Proof.
  intros Hwf. unfold dispatch. destruct (currentProcess s) as [c|] eqn:Hc.
  - rewrite (running_not_complete _ _ _ Hwf Hc).
    destruct (shouldPreempt_total _ _ Hwf) as [[] ->]; simpl.
    + destruct (preemptCurrentProcess_keeps _ _ _ Hwf Hc) as (K1 & Hn & Hr).
      destruct (scheduleNextProcess_keeps now _ (proj1 K1) Hn) as (K2 & D).
      eexists. split; [done|]. split; [by eapply keeps_trans|].
      destruct (di_choice _ _ D) as (l & _ & _ & -> & _); [|done].
      rewrite Hr. by destruct (readyQueue s).
    + eexists. split; [done|]. split; [by apply keeps_refl|]. by rewrite Hc.
  - destruct (scheduleNextProcess_keeps now _ Hwf Hc) as (K & D).
    eexists. split; [done|]. split; [done|]. intros Hn.
    destruct (decide (readyQueue s = [])) as [He|He].
    + by apply (di_empty _ _ D).
    + destruct (di_choice _ _ D He) as (l & _ & _ & Hs & _). congruence.
Qed.

(** ** Execution *)

(** The effect of running process [c] for one unit at time [t]. *)
Record executed (t : Z) (c : loc) (s s' : Simulator Sd) : Prop := {
  ex_procs : processes s' = processes s;
  ex_length : length (mem s') = length (mem s);
  ex_time : currentTime s' = t;
  ex_gantt : ganttChart s' =
    appendGantt (mkGantt (PID (deref (mem s) c)) (Name (deref (mem s) c)) t (t + 1)
                   (Color (deref (mem s) c))) (ganttChart s);
  ex_idle : totalIdleTime s' = totalIdleTime s;
  ex_config : forall l, config (deref (mem s') l) = config (deref (mem s) l);
  ex_remaining : RemainingTime (deref (mem s') c) = RemainingTime (deref (mem s) c) - 1;
  ex_others : forall l, l <> c -> RemainingTime (deref (mem s') l) = RemainingTime (deref (mem s) l);
  ex_io : forall l, io_work (deref (mem s') l) <= io_work (deref (mem s) l);
  ex_new : forall l, State (deref (mem s') l) = StateNew -> State (deref (mem s) l) = StateNew;
  ex_state : state s' = state s
}.

Lemma executed_frame t c s s1 s2 : executed t c s s1 -> frame s1 s2 -> executed t c s s2.
Proof.
  intros [Ep El Et Eg Ei Ec Er Eo Eio En Es] [Fp Fl Ft Fg Fi Fc Fr Fio Fn Fs].
  split; try congruence; auto.
  - intros l Hl. rewrite Fr. auto.
  - intros l. etransitivity; eauto.
Qed.

Lemma executeProcess_executed s c :
  sim_wf (currentTime s) s -> 0 <= currentTime s < max_int -> currentProcess s = Some c ->
  exists s', executeProcess 1 s = Some s' /\ sim_wf (currentTime s + 1) s' /\
    executed (currentTime s) c s s' /\ readyQueue s' = readyQueue s /\
    (currentProcess s' = Some c \/
     currentProcess s' = None /\ IsComplete (deref (mem s') c) = true).
Proof.
  intros [Hwf Hok] Ht Hc. unfold executeProcess. rewrite Hc.
  pose proof (proj1 (wf_cur _ _ _ _ _ _ Hwf c) Hc) as [Hp Hs].
  pose proof (wf_lt Hwf c Hp) as Hlt.
  destruct (proc_wf_execute _ _ (wf_procs _ _ _ _ _ _ Hwf c Hp) Hs Ht)
    as (p' & -> & Hp' & Hcfg & Hrem & Hio & Hcase). cbn [option_bind mbind].
  change (currentTime (upd _ _ _)) with (currentTime s).
  replace (currentTime s +ᵢ 1) with (currentTime s + 1) by (unwrap; lia).
  pose proof (config_eq_inv _ _ Hcfg) as (EPid & EName & _ & _ & _ & _ & _ & EColor & _).
  set (s1 := addGanttEntry _ _ _ _ _ _).
  assert (EX : executed (currentTime s) c s s1).
  { subst s1. split; simpl; rewrite ?length_insert; try congruence;
      intros; rewrite ?deref_insert by done; try (case_decide; subst; done || lia).
    revert select (State _ = StateNew). rewrite deref_insert by done.
    case_decide; [|done]. destruct Hcase as [[_ ->]|[_ ->]]; done. }
  pose proof (wf_core_mono (currentTime s) (currentTime s + 1) _ _ _ _ _ ltac:(lia) Hwf) as Hwf1.
  destruct Hcase as [[-> Hst]|[-> Hst]].
  - eexists. split; [done|]. split; [|split; [|split; [done|right]]].
    + split; [by apply (wf_finish Hwf1)|by apply ok_RemoveProcess].
    + destruct EX. split; assumption.
    + split; [done|]. simpl. rewrite deref_insert_eq by done.
      rewrite (IsComplete_wf _ _ Hp'), Hst. done.
  - eexists. split; [done|]. split; [|split; [done|split; [done|by left]]].
    split; [|done]. apply (wf_stay Hwf1); [done..|congruence].
Qed.

(** ** The start of an I/O burst *)

(** The current process stays on the CPU, or leaves it for I/O. *)
Definition io_outcome (c : loc) (s s' : Simulator Sd) : Prop :=
  readyQueue s' = readyQueue s /\
  (currentProcess s' = Some c \/
   currentProcess s' = None /\ State (deref (mem s') c) = StateWaiting).

(** The four assignments through the pointer amount to one. *)
Lemma startIO_mem s c b : (c < length (mem s))%nat ->
  let q := deref (mem s) c in
  mem (startIO c (CurrentIOIndex q) b s) = <[c := fired (b := b) q]> (mem s).
Proof.
  intros Hlt q. unfold startIO, addEvent, fired. cbn -[deref wrap64]. fold q.
  repeat (rewrite ?list_insert_insert_eq, ?deref_insert_eq
            by (rewrite ?length_insert; done); cbn -[deref wrap64]).
  fold q. reflexivity.
Qed.

Lemma startIO_keeps now s c b :
  sim_wf now s -> currentProcess s = Some c ->
  let q := deref (mem s) c in
  IOBursts q !! Z.to_nat (CurrentIOIndex q) = Some b ->
  0 < Duration b -> Completed b = false ->
  let s' := startIO c (CurrentIOIndex q) b s in keeps now s s' /\ io_outcome c s s'.
Proof.
  intros [Hwf Hok] Hc q Hb Hd Hcp s'.
  pose proof (proj1 (wf_cur _ _ _ _ _ _ Hwf c) Hc) as [Hp Hs].
  pose proof (wf_lt Hwf c Hp) as Hlt.
  pose proof (wf_procs _ _ _ _ _ _ Hwf c Hp) as Hq. fold q in Hs, Hq.
  destruct (proc_wf_fired Hq Hs Hb Hd Hcp) as [Hq' Hio].
  pose proof (fired_config Hb) as Hcfg.
  assert (E : mem s' = <[c := fired (b := b) q]> (mem s)) by (by apply startIO_mem).
  assert (F : frame s (upd c (fun q => fired (b := b) q) s)).
  { apply frame_upd; fold q; [done|done|lia|done]. }
  split; [split|].
  - split; [|done]. rewrite E. by apply (wf_block Hwf).
  - change (mem (upd c (fun q => fired (b := b) q) s))
      with (<[c := fired (b := b) q]> (mem s)) in F.
    destruct F. split; rewrite ?E; assumption.
  - split; [done|]. right. split; [done|]. rewrite E. by rewrite deref_insert_eq.
Qed.

Lemma checkIO_loop_keeps now c cpu fuel : forall s,
  sim_wf now s -> currentProcess s = Some c ->
  exists s', checkIO_loop fuel c cpu s = Some s' /\ keeps now s s' /\ io_outcome c s s'.
Proof.
  induction fuel as [|fuel IH]; intros s Hwf Hc; simpl.
  { eexists. split; [done|]. split; [by apply keeps_refl|]. split; auto. }
  pose proof (proj1 (wf_cur _ _ _ _ _ _ (proj1 Hwf) c) Hc) as [Hp Hs].
  pose proof (wf_lt (proj1 Hwf) c Hp) as Hlt.
  pose proof (wf_procs _ _ _ _ _ _ (proj1 Hwf) c Hp) as Hq.
  set (q := deref (mem s) c) in *. pose proof (pw_index _ _ Hq) as Hidx.
  destruct (Z.ltb_spec (CurrentIOIndex q) (Z.of_nat (length (IOBursts q)))) as [Hlen|Hlen];
    [|eexists; split; [done|]; split; [by apply keeps_refl|split; auto]].
  ztest. destruct (lookup_lt_is_Some_2 (IOBursts q) (Z.to_nat (CurrentIOIndex q))) as [b Hb]; [lia|].
  rewrite Hb. simpl. destruct (Completed b) eqn:Hcp.
  - destruct (proc_wf_skip Hq Hs Hb) as [Hq' Hio]. specialize (Hio Hcp).
    set (s1 := upd _ _ _).
    assert (K : keeps now s s1).
    { split.
      - destruct Hwf as [Hwf Hok]. split; [|done]. apply (wf_stay Hwf); [done|done|done].
      - apply frame_upd; fold q; [done|done|simpl in *; lia|done]. }
    destruct (IH s1 (proj1 K) Hc) as (s' & -> & K' & [Hr Ho]).
    exists s'. split; [done|]. split; [by eapply keeps_trans|]. by split.
  - destruct (Z.ltb_spec 0 (Duration b)); rewrite ?andb_true_r, ?andb_false_r.
    + destruct (_ <=? _).
      * destruct (startIO_keeps now s c b) as [K Ho]; try done. eauto.
      * eexists. split; [done|]. split; [by apply keeps_refl|]. split; auto.
    + eexists. split; [done|]. split; [by apply keeps_refl|]. split; auto.
Qed.

Lemma checkIOBurst_keeps now s c :
  sim_wf now s -> currentProcess s = Some c ->
  exists s', checkIOBurst s = Some s' /\ keeps now s s' /\ io_outcome c s s'.
Proof.
  intros Hwf Hc. unfold checkIOBurst. rewrite Hc, (running_not_complete _ _ _ Hwf Hc).
  by apply checkIO_loop_keeps.
Qed.

Lemma checkIOBurst_wf now s s' : sim_wf now s -> checkIOBurst s = Some s' -> keeps now s s'.
Proof.
  intros Hwf He. destruct (currentProcess s) as [c|] eqn:Hc.
  - destruct (checkIOBurst_keeps now s c Hwf Hc) as (s1 & E & K & _). congruence.
  - unfold checkIOBurst in He. rewrite Hc in He. simplify_eq. by apply keeps_refl.
Qed.

(** ** Quantum expiry *)

Lemma expired_keeps now s c :
  sim_wf now s -> currentProcess s = Some c -> keeps now s (expired c s).
Proof.
  intros [Hwf Hok] Hc. pose proof (proj1 (wf_cur _ _ _ _ _ _ Hwf c) Hc) as [Hp Hs].
  assert (F : frame s (upd c (set_State StateReady) s))
    by (by apply frame_upd; destruct (deref _ c)).
  split; [|frame_of F]. split; [|by apply ok_OnQuantumExpired].
  apply (wf_yield Hwf); try done.
  apply proc_wf_yield; [by apply (wf_procs _ _ _ _ _ _ Hwf)|done].
Qed.

Lemma expireQuantum_keeps now s c :
  sim_wf now s -> currentProcess s = Some c -> keeps now s (expireQuantum c s).
Proof.
  intros Hwf Hc. pose proof (expired_keeps _ _ _ Hwf Hc) as K.
  destruct (scheduleNextProcess_keeps now (expired c s) (proj1 K) eq_refl) as [K2 _].
  by eapply keeps_trans.
Qed.

Lemma checkQuantum_keeps now s :
  sim_wf now s -> exists s', checkQuantum s = Some s' /\ keeps now s s'.
Proof.
  intros Hwf. unfold checkQuantum. destruct (currentProcess s) as [c|] eqn:Hc.
  - destruct (QuantumFor_total (scheduler s) (Some c) (proj2 Hwf)) as [q ->]. simpl.
    destruct (_ && _); eexists; (split; [done|]).
    + by apply expireQuantum_keeps.
    + by apply keeps_refl.
  - eexists. split; [done|]. by apply keeps_refl.
Qed.

(** ** The clock *)

Lemma countWaiting_keeps now s l :
  l ∈ processes s -> sim_wf now s -> keeps now s (countWaiting s l).
Proof.
  intros Hl [Hwf Hok]. unfold countWaiting.
  destruct (_ && _) eqn:Hg; [|by apply keeps_refl].
  apply andb_true_iff in Hg as [Hs%bool_decide_eq_true _].
  split; [split; [|done]|].
  - apply (wf_stay Hwf); [done| |done].
    apply proc_wf_waited; [by apply (wf_procs _ _ _ _ _ _ Hwf)|done].
  - by apply frame_upd.
Qed.

Lemma advanceClock_spec s :
  sim_wf (currentTime s + 1) s -> 0 <= currentTime s < max_int ->
  let s1 := set_currentTime (currentTime s + 1) s in
  keeps (currentTime s + 1) s1 (advanceClock s).
Proof.
  intros Hwf Ht s1. unfold advanceClock.
  replace (currentTime s +ᵢ 1) with (currentTime s + 1) by (unwrap; lia).
  apply (fold_keeps countWaiting _ (fun l s' => l ∈ processes s')); try done.
  - intros. by apply countWaiting_keeps.
  - intros l s2 s3 F Hl. by rewrite (fr_procs _ _ F).
  - intros l Hl. by apply (wf_ready _ _ _ _ _ _ (proj1 Hwf)) in Hl as [Hl _].
Qed.
End steps.
