(* ===== verification/SimTick.v ===== *)
(** * A tick of the engine

    [executeTimeUnit] as a whole: it cannot panic on a well-formed state, keeps
    the invariant, advances the clock by one, and either runs exactly one
    process for one unit or idles because nobody is ready. *)

From S2P Require Import Prelude.
From S2P Require Import Float64.
From S2P Require Import Process.
From S2P Require Import Scheduler.
From S2P Require Import Simulator.
From S2P Require Import SimInvariant.
From S2P Require Import SimSteps.

(** ** The effect of a tick *)

(** Process [c] runs. *)
Record ran {Sd} (c : loc) (s s' : Simulator Sd) : Prop := {
  rn_elem : c ∈ processes s;
  rn_gantt : ganttChart s' =
    appendGantt (mkGantt (PID (deref (mem s) c)) (Name (deref (mem s) c)) (currentTime s)
                   (currentTime s + 1) (Color (deref (mem s) c))) (ganttChart s);
  rn_idle : totalIdleTime s' = totalIdleTime s;
  rn_remaining : RemainingTime (deref (mem s') c) = RemainingTime (deref (mem s) c) - 1;
  rn_positive : 1 <= RemainingTime (deref (mem s) c);
  rn_others : forall l, l <> c -> RemainingTime (deref (mem s') l) = RemainingTime (deref (mem s) l)
}.

(** Nobody runs, because nobody can; if no I/O makes progress either, the
    simulation is complete or waits for an arrival. *)
Record idled {Sd} (s s' : Simulator Sd) : Prop := {
  id_gantt : ganttChart s' =
    appendGantt (mkGantt (-1) "IDLE" (currentTime s) (currentTime s + 1) "#2C3E50") (ganttChart s);
  id_idle : totalIdleTime s' = totalIdleTime s +ᵢ 1;
  id_remaining : forall l, RemainingTime (deref (mem s') l) = RemainingTime (deref (mem s) l);
  id_nobody : forall l, l ∈ processes s ->
    State (deref (mem s') l) <> StateReady /\ State (deref (mem s') l) <> StateRunning;
  id_new : forall l, l ∈ processes s -> State (deref (mem s') l) = StateNew ->
    currentTime s < ArrivalTime (deref (mem s) l);
  id_progress :
    io_total s' < io_total s \/
    (exists l, l ∈ processes s /\ State (deref (mem s') l) = StateNew /\
       currentTime s < ArrivalTime (deref (mem s) l)) \/
    (forall l, l ∈ processes s -> State (deref (mem s') l) = StateTerminated)
}.

Record ticked {Sd} (s s' : Simulator Sd) : Prop := {
  tk_procs : processes s' = processes s;
  tk_length : length (mem s') = length (mem s);
  tk_time : currentTime s' = currentTime s + 1;
  tk_config : forall l, config (deref (mem s') l) = config (deref (mem s) l);
  tk_io : io_total s' <= io_total s;
  tk_work : (exists c, ran c s s') \/ idled s s';
  tk_state : state s' = state s
}.

(** The state in which a tick decides who runs. *)
Definition decision_state {Sd} `{Scheduler Sd} (s : Simulator Sd) : Simulator Sd :=
  tickIOQueue (checkArrivals s).

Section tick.
Context {Sd : Type} `{SchedulerLaws Sd}.
Implicit Types (s : Simulator Sd) (l : loc).

Lemma arrived_after s l :
  sim_wf (currentTime s) s -> l ∈ processes s ->
  State (deref (mem (arrive s l)) l) = StateNew -> currentTime s < ArrivalTime (deref (mem s) l).
Proof.
  intros [Hwf _] Hl. pose proof (wf_lt Hwf l Hl) as Hlt. unfold arrive.
  destruct (Z.leb_spec (ArrivalTime (deref (mem s) l)) (currentTime s)) as [Ha|Ha]; [|auto].
  case_bool_decide as Hs; simpl; [|done]. by rewrite deref_insert_eq by done.
Qed.

(** After [checkArrivals] the processes still new arrive later. *)
Lemma checkArrivals_arrived s l :
  sim_wf (currentTime s) s -> l ∈ processes s ->
  State (deref (mem (checkArrivals s)) l) = StateNew ->
  currentTime s < ArrivalTime (deref (mem s) l).
Proof.
  intros Hwf Hl. unfold checkArrivals.
  assert (Hgen : forall xs s0, sim_wf (currentTime s0) s0 -> (forall x, x ∈ xs -> x ∈ processes s0) ->
    l ∈ xs -> State (deref (mem (fold_left arrive xs s0)) l) = StateNew ->
    currentTime s0 < ArrivalTime (deref (mem s0) l)); [|by apply Hgen].
  induction xs as [|x xs IH]; intros s0 Hwf0 Hsub Hin; simpl; [by apply elem_of_nil in Hin|].
  destruct (arrive_keeps s0 x Hwf0 (Hsub x ltac:(left))) as [Hwf1 F1].
  rewrite <-(fr_time _ _ F1) in Hwf1.
  assert (Hsub1 : forall y, y ∈ xs -> y ∈ processes (arrive s0 x))
    by (intros y Hy; rewrite (fr_procs _ _ F1); apply Hsub; by right).
  pose proof (config_eq_inv _ _ (fr_config _ _ F1 l)) as (_ & _ & Harr & _).
  destruct (decide (l ∈ xs)) as [Hxs|Hxs].
  - intros Hn. specialize (IH _ Hwf1 Hsub1 Hxs Hn). rewrite (fr_time _ _ F1) in IH. congruence.
  - apply elem_of_cons in Hin as [->|]; [|done]. intros Hn.
    apply arrived_after; [done|apply Hsub; left|].
    revert Hn. apply (fr_new (arrive s0 x)).
    apply (fold_keeps arrive (currentTime (arrive s0 x))
      (fun y s2 => currentTime s2 = currentTime (arrive s0 x) /\ y ∈ processes s2)); [..|done|auto].
    + intros y s2 [Ht Hy] Hwf2. rewrite <-Ht in *. by apply arrive_keeps.
    + intros y s2 s3 F [Ht Hy]. split; [by rewrite (fr_time _ _ F)|by rewrite (fr_procs _ _ F)].
Qed.

(** ** The two halves of a tick *)

Lemma scheduleNextProcess_io s : ioQueue (scheduleNextProcess s) = ioQueue s.
Proof.
  unfold scheduleNextProcess. destruct (_ =? _)%nat; [done|].
  destruct (Schedule _ _ _ _) as [[l|] sched]; [|done].
  destruct (negb _); simpl; destruct (currentProcess s); try done; by destruct (_ =? _).
Qed.

Lemma dispatch_io s s' : dispatch s = Some s' -> ioQueue s' = ioQueue s.
Proof.
  unfold dispatch. destruct (currentProcess s) as [c|] eqn:Hc.
  - destruct (IsComplete _); [intros [= <-]; apply scheduleNextProcess_io|].
    destruct (shouldPreempt s) as [[]|]; simpl; intros [= <-]; [|done].
    rewrite scheduleNextProcess_io. unfold preemptCurrentProcess. by rewrite Hc.
  - intros [= <-]. apply scheduleNextProcess_io.
Qed.

Lemma decision_keeps s : sim_wf (currentTime s) s -> keeps (currentTime s) s (decision_state s).
Proof.
  intros Hwf. pose proof (checkArrivals_keeps s Hwf) as K1.
  destruct (tickIOQueue_keeps _ _ (proj1 K1)) as (K2 & _). by eapply keeps_trans.
Qed.

(** Arrivals, I/O countdown and the decision. *)
Lemma decision_spec s :
  sim_wf (currentTime s) s ->
  exists s', dispatch (tickIOQueue (checkArrivals s)) = Some s' /\ keeps (currentTime s) s s' /\
  (forall l, l ∈ processes s -> State (deref (mem s') l) = StateNew ->
     currentTime s < ArrivalTime (deref (mem s) l)) /\
  (currentProcess s' = None -> readyQueue s' = [] /\ (io_total s' < io_total s \/ ioQueue s' = [])).
Proof.
  intros Hwf. pose proof (checkArrivals_keeps s Hwf) as K1.
  set (s1 := checkArrivals s) in *.
  destruct (tickIOQueue_keeps _ s1 (proj1 K1)) as (K2 & _ & Hio).
  destruct (dispatch_keeps _ _ (proj1 K2)) as (s' & Hd & K3 & Hidle).
  exists s'. split; [done|]. split; [by eapply keeps_trans, keeps_trans|]. split.
  - intros l Hl Hnew. apply checkArrivals_arrived; [done|done|].
    apply (fr_new _ _ (proj2 K2)). by apply (fr_new _ _ (proj2 K3)).
  - intros Hn. split; [by apply Hidle|].
    destruct (decide (ioQueue s1 = [])) as [He|He].
    + right. rewrite (dispatch_io _ _ Hd). by rewrite tickIOQueue_eq, He.
    + left. specialize (Hio He).
      pose proof (frame_io_total _ _ (proj2 K1)). pose proof (frame_io_total _ _ (proj2 K3)). lia.
Qed.

Lemma sim_wf_quantum now v s : sim_wf now s -> sim_wf now (set_timeQuantumUsed v s).
Proof. done. Qed.

Lemma runCurrent_busy s c :
  sim_wf (currentTime s) s -> 0 <= currentTime s < max_int -> currentProcess s = Some c ->
  exists s', runCurrent s = Some s' /\ sim_wf (currentTime s + 1) s' /\
    executed (currentTime s) c s s'.
Proof.
  intros Hwf Ht Hc. unfold runCurrent. rewrite Hc.
  destruct (executeProcess_executed s c Hwf Ht Hc) as (s1 & -> & Hwf1 & EX & _ & Hcur).
  cbn [mbind option_bind].
  set (s2 := set_timeQuantumUsed _ s1).
  assert (Hwf2 : sim_wf (currentTime s + 1) s2) by done.
  assert (EX2 : executed (currentTime s) c s s2) by (destruct EX; split; assumption).
  assert (exists s3, checkIOBurst s2 = Some s3 /\ keeps (currentTime s + 1) s2 s3)
    as (s3 & -> & K3).
  { destruct Hcur as [Hcur|[Hcur _]].
    - destruct (checkIOBurst_keeps _ s2 c Hwf2 Hcur) as (s3 & ? & ? & _). eauto.
    - exists s2. split; [|by apply keeps_refl]. unfold checkIOBurst.
      change (currentProcess s2) with (currentProcess s1). by rewrite Hcur. }
  cbn [mbind option_bind].
  destruct (checkQuantum_keeps _ s3 (proj1 K3)) as (s4 & -> & K4).
  exists s4. split; [done|]. split; [apply K4|].
  eapply executed_frame; [|apply K4]. eapply executed_frame; [done|apply K3].
Qed.

Lemma currentTime_wrap s : 0 <= currentTime s < max_int -> currentTime s +ᵢ 1 = currentTime s + 1.
Proof. intros. unwrap. lia. Qed.

Lemma runCurrent_idle s :
  currentProcess s = None -> 0 <= currentTime s < max_int ->
  runCurrent s = Some (addGanttEntry (-1) "IDLE" (currentTime s) (currentTime s + 1) "#2C3E50"
                         (set_totalIdleTime (totalIdleTime s +ᵢ 1) s)).
Proof.
  intros Hc Ht. unfold runCurrent. rewrite Hc.
  change (currentTime (set_totalIdleTime _ s)) with (currentTime s).
  by rewrite currentTime_wrap.
Qed.

(** ** The tick *)

Lemma tick_busy s0 s s1 s2 c :
  keeps (currentTime s0) s0 s -> currentProcess s = Some c ->
  sim_wf (currentTime s0 + 1) s1 -> executed (currentTime s0) c s s1 ->
  frame (set_currentTime (currentTime s1 + 1) s1) s2 -> ticked s0 s2 /\ ran c s0 s2.
Proof.
  intros [Hwf F] Hc Hwf1 EX F2.
  pose proof (proj1 (wf_cur _ _ _ _ _ _ (proj1 Hwf) c) Hc) as [Hp Hs].
  pose proof (proc_wf_running _ _ (wf_procs _ _ _ _ _ _ (proj1 Hwf) c Hp) Hs) as Hrem.
  destruct EX as [Ep El Et Eg Ei Ec Er Eo Eio En Es].
  destruct F2 as [Gp Gl Gt Gg Gi Gc Gr Gio Gn Gs]. simpl in *.
  pose proof (config_eq_inv _ _ (fr_config _ _ F c)) as (EPid & EName & _ & _ & _ & _ & _ & ECol & _).
  apply and_wlog_l; [intros R; split|].
  - rewrite Gp, Ep. apply (fr_procs _ _ F).
  - rewrite Gl, El. apply (fr_length _ _ F).
  - congruence.
  - intros l. rewrite Gc, Ec. apply (fr_config _ _ F).
  - pose proof (frame_io_total _ _ F). unfold io_total in *. rewrite Gp, Ep.
    etransitivity; [|done]. apply zsum_le. intros l _. etransitivity; [apply Gio|apply Eio].
  - left. by exists c.
  - rewrite Gs, Es. apply (fr_state _ _ F).
  - split.
    + by rewrite <-(fr_procs _ _ F).
    + rewrite Gg, Eg, (fr_gantt _ _ F), EPid, EName, ECol. done.
    + rewrite Gi, Ei. apply (fr_idle _ _ F).
    + rewrite Gr, Er, (fr_remaining _ _ F). done.
    + rewrite <-(fr_remaining _ _ F). lia.
    + intros l Hl. rewrite Gr, Eo by done. apply (fr_remaining _ _ F).
Qed.

Lemma tick_idle s0 s s2 :
  keeps (currentTime s0) s0 s -> currentProcess s = None -> readyQueue s = [] ->
  io_total s < io_total s0 \/ ioQueue s = [] ->
  (forall l, l ∈ processes s0 -> State (deref (mem s) l) = StateNew ->
     currentTime s0 < ArrivalTime (deref (mem s0) l)) ->
  s2 = set_currentTime (currentTime s0 + 1)
         (addGanttEntry (-1) "IDLE" (currentTime s0) (currentTime s0 + 1) "#2C3E50"
            (set_totalIdleTime (totalIdleTime s +ᵢ 1) s)) ->
  ticked s0 s2 /\ idled s0 s2.
Proof.
  intros [[Hwf _] F] Hc Hr Hio Hnew ->.
  pose proof (frame_io_total _ _ F) as Htot.
  destruct F as [Fp Fl Ft Fg Fi Fc Fr Fio Fn Fs].
  assert (Hnobody : forall l, l ∈ processes s0 ->
    State (deref (mem s) l) <> StateReady /\ State (deref (mem s) l) <> StateRunning).
  { intros l Hl. rewrite <-Fp in Hl. split; intros Hs.
    - assert (l ∈ readyQueue s) as Hin by (by apply (wf_ready _ _ _ _ _ _ Hwf)).
      rewrite Hr in Hin. by apply elem_of_nil in Hin.
    - assert (currentProcess s = Some l) by (by apply (wf_cur _ _ _ _ _ _ Hwf)). congruence. }
  apply and_wlog_l; [intros I; split; simpl;
    [done|done|done|done|by change (io_total s <= io_total s0)|by right|done]|].
  split; simpl; [by rewrite Fg|by rewrite Fi|done|done|done|].
  change (io_total _ < io_total s0) with (io_total s < io_total s0).
  destruct Hio as [|Hio]; [by left|right].
  destruct (decide (Exists (fun l => State (deref (mem s) l) = StateNew) (processes s0)))
    as [He|He].
  - left. apply Exists_exists in He as (l & Hl & Hn). eauto.
  - right. intros l Hl. rewrite <-Forall_Exists_neg, Forall_forall in He.
    specialize (He l Hl). destruct (Hnobody l Hl).
    destruct (State (deref (mem s) l)) eqn:Hst; try done.
    assert (l ∈ ioQueue s) as Hin by (apply (wf_io _ _ _ _ _ _ Hwf); by rewrite Fp).
    rewrite Hio in Hin. by apply elem_of_nil in Hin.
Qed.

(** A tick, by what its decision part chose: that process runs, or nobody. *)
Lemma executeTimeUnit_decides s :
  sim_wf (currentTime s) s -> 0 <= currentTime s < max_int ->
  exists s1 s', dispatch (tickIOQueue (checkArrivals s)) = Some s1 /\ keeps (currentTime s) s s1 /\
    (forall l, l ∈ processes s -> State (deref (mem s1) l) = StateNew ->
       currentTime s < ArrivalTime (deref (mem s) l)) /\
    executeTimeUnit s = Some s' /\ sim_wf (currentTime s + 1) s' /\ ticked s s' /\
    match currentProcess s1 with Some c => ran c s s' | None => idled s s' end.
Proof.
  intros Hwf Ht. unfold executeTimeUnit.
  destruct (decision_spec s Hwf) as (s1 & -> & K1 & Hnew & Hidle). cbn [mbind option_bind].
  exists s1. pose proof K1 as [Hwf1 F1]. pose proof (fr_time _ _ F1) as Et. rewrite <-Et in Ht, Hwf1.
  destruct (currentProcess s1) as [c|] eqn:Hc.
  - destruct (runCurrent_busy s1 c Hwf1 Ht Hc) as (s2 & -> & Hwf2 & EX). cbn [mbind option_bind].
    eexists. do 4 (split; [done|]).
    pose proof (ex_time _ _ _ _ EX) as Et2.
    destruct (advanceClock_spec s2) as [Hwf3 F3]; [congruence|congruence|].
    rewrite Et2, Et in *. split; [done|].
    eapply (tick_busy s s1 s2 _ c); try done; try congruence.
  - rewrite (runCurrent_idle s1 Hc Ht). cbn [mbind option_bind].
    destruct (Hidle eq_refl) as (Hr & Hio).
    eexists. do 4 (split; [done|]). unfold advanceClock. simpl. rewrite Hr. simpl.
    rewrite (currentTime_wrap s1 Ht), Et in *. split.
    + destruct Hwf1 as [Hwf1 Hok]. split; [|done]. by eapply wf_core_mono; [|exact Hwf1]; lia.
    + by apply (tick_idle s s1).
Qed.

Lemma executeTimeUnit_spec s :
  sim_wf (currentTime s) s -> 0 <= currentTime s < max_int ->
  exists s', executeTimeUnit s = Some s' /\ sim_wf (currentTime s + 1) s' /\ ticked s s'.
Proof.
  intros Hwf Ht. destruct (executeTimeUnit_decides s Hwf Ht) as (_ & s' & _ & _ & _ & E & Hwf' & T & _).
  by exists s'.
Qed.
End tick.
