(* ===== verification/SimReach.v ===== *)
(** * Reachable states

    Adding processes and resetting keep the invariant; every state the program
    reaches from [NewSimulator] by its operations is well formed, so no tick
    panics. *)

From Stdlib Require Import Sorted.
From S2P Require Import Prelude.
From S2P Require Import Float64.
From S2P Require Import Process.
From S2P Require Import Scheduler.
From S2P Require Import Simulator.
From S2P Require Import SimInvariant.
From S2P Require Import SimSteps.
From S2P Require Import SimTick.

(** ** Resetting a process *)

Lemma config_reset p : config (resetProcess p) = config p.
Proof.
  destruct p. unfold config, resetProcess. simpl. f_equal.
  rewrite map_map. apply map_ext. by intros [].
Qed.

Lemma config_ok_reset p : config_ok p -> config_ok (resetProcess p).
Proof. apply config_ok_eq, config_reset. Qed.

Lemma proc_wf_reset now p : config_ok p -> proc_wf now (resetProcess p).
Proof.
  intros Hc. pose proof (co_burst _ Hc).
  split; [by apply config_ok_reset|..]; unfold resetProcess; simpl; intros; try done; try lia.
  all: split; intros; (discriminate || lia).
Qed.

Lemma resetProcess_eq p :
  resetProcess p =
  mkProcess (PID p) (Name p) (ArrivalTime p) (BurstTime p) (BurstTime p) (Priority p)
    StateNew (-1) 0 0 0 0 0 0 0 (Nice p) (Weight p) (map (set_Completed false) (IOBursts p))
    0 0 (Color p) false.
Proof. destruct p. vm_compute. reflexivity. Qed.

Lemma resetProcess_idemp p : resetProcess (resetProcess p) = resetProcess p.
Proof.
  rewrite !resetProcess_eq. cbn [PID Name ArrivalTime BurstTime Priority Nice Weight IOBursts Color].
  rewrite map_map, (map_ext _ (set_Completed false)) by (by intros []). reflexivity.
Qed.

(** The progress [resetProcess] erases. *)
Definition served (p : Process) : Z := BurstTime p - RemainingTime p.

Lemma admissible_wf now p : admissible p -> proc_wf now p /\ State p = StateNew /\ served p = 0.
Proof.
  intros [Hc Hr]. split; [rewrite <-Hr; by apply proc_wf_reset|].
  rewrite <-Hr. unfold served, resetProcess. simpl. split; [done|lia].
Qed.

Section reach.
Context {Sd : Type} `{SchedulerLaws Sd} `{GoSortLaws}.
Implicit Types (s : Simulator Sd) (l : loc).

(** ** Adding a process *)

Lemma AddProcess_procs p s : processes (AddProcess p s) ≡ₚ processes s ++ [length (mem s)].
Proof. apply sort_slice_perm. Qed.

Lemma AddProcess_mem p s : mem (AddProcess p s) = mem s ++ [p].
Proof. unfold AddProcess. simpl. by rewrite Clone_eq. Qed.

Lemma AddProcess_wf now p s : admissible p -> sim_wf now s -> sim_wf now (AddProcess p s).
Proof.
  intros Hp [Hwf Hok]. destruct (admissible_wf now p Hp) as (Hpw & Hs & _).
  split; [|done]. rewrite AddProcess_mem.
  change (readyQueue (AddProcess p s)) with (readyQueue s).
  change (ioQueue (AddProcess p s)) with (ioQueue s).
  change (currentProcess (AddProcess p s)) with (currentProcess s).
  pose proof (AddProcess_procs p s) as Hperm.
  assert (Hnew : length (mem s) ∉ processes s)
    by (intros Hl%(wf_dom _ _ _ _ _ _ Hwf); lia).
  assert (Hmem : forall (P : Process -> Prop) x, (P p -> False) ->
    x ∈ processes s /\ P (deref (mem s) x) <->
    x ∈ processes s ++ [length (mem s)] /\ P (deref (mem s ++ [p]) x)).
  { intros P x HP. rewrite deref_app, elem_of_app, list_elem_of_singleton.
    case_decide; subst; naive_solver. }
  destruct Hwf as [Hnd Hdom ? ? Hready Hio Hcur Hprocs]. split; try done.
  - rewrite Hperm. apply NoDup_app. split; [done|]. split; [|apply NoDup_singleton].
    by intros x Hx ->%list_elem_of_singleton.
  - intros x. rewrite Hperm, elem_of_app, Hdom, list_elem_of_singleton, length_app. simpl. lia.
  - intros x. rewrite Hperm, Hready. apply (Hmem (fun q => State q = StateReady)). congruence.
  - intros x. rewrite Hperm, Hio. apply (Hmem (fun q => State q = StateWaiting)). congruence.
  - intros x. rewrite Hperm, Hcur. apply (Hmem (fun q => State q = StateRunning)). congruence.
  - intros x. rewrite Hperm, deref_app, elem_of_app, list_elem_of_singleton.
    case_decide; [done|]. naive_solver.
Qed.

(** ** Resetting the simulation *)

Lemma fold_reset ls : forall s, NoDup ls -> (forall l, l ∈ ls -> (l < length (mem s))%nat) ->
  let s' := fold_left (fun s p => upd p resetProcess s) ls s in
  s' = set_mem (mem s') s /\ length (mem s') = length (mem s) /\
  forall l, deref (mem s') l =
    if decide (l ∈ ls) then resetProcess (deref (mem s) l) else deref (mem s) l.
Proof.
  induction ls as [|x ls IH]; intros s Hnd Hlt; cbn [fold_left].
  { split; [by destruct s|]. split; [done|]. intros l.
    case_decide as Hl; [by apply elem_of_nil in Hl|done]. }
  apply NoDup_cons in Hnd as [Hx Hnd].
  destruct (IH (upd x resetProcess s) Hnd) as (E1 & E2 & E3).
  { intros l Hl. simpl. rewrite length_insert. apply Hlt. by right. }
  split; [rewrite E1 at 1; done|]. split; [rewrite E2; apply length_insert|].
  intros l. rewrite E3, deref_upd by (apply Hlt; left).
  destruct (decide (l = x)) as [->|Hlx].
  - rewrite decide_False by done. rewrite decide_True; [done|left].
  - destruct (decide (l ∈ ls)) as [Hl|Hl].
    + rewrite decide_True; [done|by right].
    + rewrite decide_False; [done|]. by intros [->|?]%elem_of_cons.
Qed.

(** The state [resetState] leaves, whatever was simulated before. *)
Lemma resetState_eq now s : sim_wf now s ->
  resetState s =
  {| scheduler := sched_Reset (scheduler s); mem := map resetProcess (mem s);
     processes := processes s; readyQueue := []; ioQueue := []; currentProcess := None;
     currentTime := 0; ganttChart := []; events := []; contextSwitches := 0;
     state := SimStateIdle; speed := speed s; updateCallback := updateCallback s;
     lastGanttUpdate := 0; totalIdleTime := 0; timeQuantumUsed := 0 |}.
Proof.
  intros [Hwf _]. unfold resetState. cbn -[fold_left].
  match goal with |- fold_left _ ?ps ?s0 = _ =>
    pose proof (fold_reset ps s0) as Hfold; set (s1 := fold_left _ ps s0) in * end.
  destruct Hfold as (E1 & E2 & E3);
    [apply (wf_nodup _ _ _ _ _ _ Hwf)|by intros l ?%(wf_dom _ _ _ _ _ _ Hwf)|].
  rewrite E1. set (m' := mem s1) in *. clearbody m'. clear s1 E1.
  change (length m' = length (mem s)) in E2.
  change (forall l, deref m' l = if decide (l ∈ processes s)
                                 then resetProcess (deref (mem s) l) else deref (mem s) l) in E3.
  enough (m' = map resetProcess (mem s)) as -> by done.
  apply list_eq. intros l.
  destruct (decide (l < length (mem s))%nat) as [Hl|Hl].
  - specialize (E3 l). rewrite decide_True in E3 by (by apply (wf_dom _ _ _ _ _ _ Hwf)).
    destruct (lookup_lt_is_Some_2 m' l ltac:(lia)) as [q Hq].
    destruct (lookup_lt_is_Some_2 (mem s) l Hl) as [q0 Hq0].
    change (map resetProcess (mem s)) with (resetProcess <$> mem s).
    rewrite list_lookup_fmap, Hq, Hq0. simpl. f_equal.
    unfold deref in E3. rewrite !list_lookup_total_alt, Hq, Hq0 in E3. done.
  - rewrite !lookup_ge_None_2; [done|rewrite length_map; lia|lia].
Qed.

Lemma deref_map_reset (m : heap) l : (l < length m)%nat ->
  deref (map resetProcess m) l = resetProcess (deref m l).
Proof.
  intros Hl. destruct (lookup_lt_is_Some_2 m l Hl) as [q Hq].
  change (map resetProcess m) with (resetProcess <$> m). unfold deref.
  by rewrite !list_lookup_total_alt, list_lookup_fmap, Hq.
Qed.

Lemma resetState_wf now s : sim_wf now s -> sim_wf 0 (resetState s).
Proof.
  intros Hsim. rewrite (resetState_eq now s Hsim). destruct Hsim as [Hwf Hok].
  assert (Hd : forall l, l ∈ processes s ->
    deref (map resetProcess (mem s)) l = resetProcess (deref (mem s) l)).
  { intros l Hl. apply deref_map_reset. by apply (wf_dom _ _ _ _ _ _ Hwf). }
  assert (Hno : forall st l, st <> StateNew ->
    l ∈ processes s /\ State (deref (map resetProcess (mem s)) l) = st -> False).
  { intros st l Hst [Hl Hs]. rewrite (Hd l Hl) in Hs. simpl in Hs. congruence. }
  split; [|by apply ok_Reset]. destruct Hwf as [? Hdom _ _ _ _ _ Hprocs]. split; simpl; try done.
  - intros l. by rewrite length_map.
  - constructor.
  - constructor.
  - intros l. split; [by intros ?%elem_of_nil|intros Hl; exfalso; by eapply (Hno StateReady)].
  - intros l. split; [by intros ?%elem_of_nil|intros Hl; exfalso; by eapply (Hno StateWaiting)].
  - intros l. split; [done|intros Hl; exfalso; by eapply (Hno StateRunning)].
  - intros l Hl. rewrite Hd by done. apply proc_wf_reset. by apply Hprocs.
Qed.

(** ** Reachable states *)

(** The operations of the program on the engine, in any order: construction
    with a scheduler, adding processes, the setters, the ticks of [Step] and of
    the run loop, the state changes of the control methods, and [Reset]. *)
Inductive reachable : Simulator Sd -> Prop :=
| reach_new sched : sched_ok sched -> reachable (NewSimulator sched)
| reach_add p s : reachable s -> admissible p -> reachable (AddProcess p s)
| reach_speed v s : reachable s -> reachable (SetSpeed v s)
| reach_callback b s : reachable s -> reachable (SetUpdateCallback b s)
| reach_state v s : reachable s -> reachable (set_state v s)
| reach_tick s s' : reachable s -> currentTime s < max_int ->
    executeTimeUnit s = Some s' -> reachable s'
| reach_reset s : reachable s -> reachable (resetState s).

Lemma NewSimulator_wf sched now : sched_ok sched -> sim_wf now (NewSimulator sched).
Proof.
  intros Hok. split; [|done]. split; simpl; try apply NoDup_nil_2;
    intros l; rewrite ?elem_of_nil; try tauto.
  - split; [done|lia].
  - split; [done|tauto].
Qed.

Lemma reachable_wf s : reachable s -> sim_wf (currentTime s) s /\ 0 <= currentTime s <= max_int.
Proof.
  induction 1 as [sched Hok|p s _ IH Hp|v s _ IH|b s _ IH|v s _ IH|s s' _ IH Ht Htick|s _ IH].
  - split; [by apply NewSimulator_wf|done].
  - destruct IH as [IH Ht]. split; [by apply AddProcess_wf|done].
  - done.
  - done.
  - done.
  - destruct IH as [IH H0']. destruct (executeTimeUnit_spec s) as (s1 & E & Hwf & T); [done|lia|].
    assert (s1 = s') as -> by congruence. rewrite (tk_time _ _ T). split; [done|lia].
  - destruct IH as [IH _]. pose proof (resetState_wf _ _ IH) as Hwf.
    pose proof (resetState_eq _ _ IH) as E. rewrite E in *. done.
Qed.
End reach.

(** Processes as the API builds them are admissible. *)
Lemma NewProcess_admissible pid name arrival burst priority p :
  NewProcess pid name arrival burst priority = Some p ->
  0 <= arrival <= max_int -> 1 <= burst <= max_int -> admissible p.
Proof.
  unfold NewProcess. destruct (generateColor pid); simpl; intros [= <-] Ha Hb.
  split; [|by rewrite resetProcess_eq]. by split; simpl; auto.
Qed.

Lemma SetNice_admissible nice p p' :
  SetNice nice p = Some p' -> admissible p -> admissible p'.
Proof.
  unfold SetNice. destruct (niceToWeight_range _ (clampNice_range nice)) as (w & -> & Hw).
  simpl. intros [= <-] [[] Hr]. rewrite resetProcess_eq in Hr.
  split; [split; simpl; try assumption; lia|]. rewrite resetProcess_eq.
  destruct p. simpl in *. injection Hr. intros. subst. unfold set_Weight, set_Nice. simpl. congruence.
Qed.

(** An example run: two processes under FCFS, three ticks. *)
Module Example.
Definition process (pid arrival burst : Z) : Process :=
  default inhabitant (NewProcess pid ("P" ++ itoa pid) arrival burst 0).

Definition start : Simulator FCFS.FCFSScheduler :=
  AddProcess (process 2 1 1) (AddProcess (process 1 0 2) (NewSimulator FCFS.NewFCFSScheduler)).

Definition ticks (n : nat) (s : Simulator FCFS.FCFSScheduler) : Simulator FCFS.FCFSScheduler :=
  Nat.iter n (fun s => default s (executeTimeUnit s)) s.

Lemma process_admissible pid a b :
  in_int pid -> 0 <= a <= max_int -> 1 <= b <= max_int -> admissible (process pid a b).
Proof.
  intros Hpid Ha Hb. unfold process.
  destruct (NewProcess _ _ _ _ _) as [p|] eqn:E; simpl.
  - by eapply NewProcess_admissible.
  - unfold NewProcess in E. destruct (generateColor_total pid Hpid) as [c Hc]. by rewrite Hc in E.
Qed.

Lemma start_reachable : reachable start.
Proof.
  unfold start. apply reach_add; [apply reach_add; [by apply reach_new|]|];
    apply process_admissible; unfold in_int, min_int, max_int; lia.
Qed.

Lemma tick_reachable (s s' : Simulator FCFS.FCFSScheduler) :
  reachable s -> executeTimeUnit s = Some s' -> currentTime s <? max_int = true -> reachable s'.
Proof. intros Hr He Ht%Z.ltb_lt. by eapply reach_tick. Qed.

Lemma ticks_reachable n : (n <= 3)%nat -> reachable (ticks n start).
Proof.
  intros Hn. assert (n = 0 \/ n = 1 \/ n = 2 \/ n = 3)%nat as Hcase by lia. clear Hn.
  pose proof start_reachable as H0.
  assert (H1 : reachable (ticks 1 start)) by (eapply tick_reachable; [exact H0|vm_compute; reflexivity..]).
  assert (H2 : reachable (ticks 2 start)) by (eapply tick_reachable; [exact H1|vm_compute; reflexivity..]).
  assert (H3 : reachable (ticks 3 start)) by (eapply tick_reachable; [exact H2|vm_compute; reflexivity..]).
  by destruct Hcase as [->|[->|[->| ->]]].
Qed.
End Example.

(** ** Properties *)

(** C2: In every reachable state every process is in exactly the place its
    state names: ready processes are exactly the members of the ready queue,
    waiting ones exactly the members of the I/O queue, the running one is the
    current process, and no list holds a process twice; a process is terminated
    exactly when it needs no more CPU time. *)
Theorem one_container_per_process {Sd} `{SchedulerLaws Sd} `{GoSortLaws} (s : Simulator Sd) :
  reachable s ->
  NoDup (processes s) /\ NoDup (readyQueue s) /\ NoDup (ioQueue s) /\
  (forall l, l ∈ readyQueue s <-> l ∈ processes s /\ State (deref (mem s) l) = StateReady) /\
  (forall l, l ∈ ioQueue s <-> l ∈ processes s /\ State (deref (mem s) l) = StateWaiting) /\
  (forall l, currentProcess s = Some l <->
             l ∈ processes s /\ State (deref (mem s) l) = StateRunning) /\
  (forall l, l ∈ processes s ->
     let p := deref (mem s) l in
     0 <= RemainingTime p <= BurstTime p /\
     (State p = StateTerminated <-> RemainingTime p = 0) /\
     (State p = StateNew -> RemainingTime p = BurstTime p) /\
     (State p = StateWaiting -> 0 < IORemaining p)).
Proof.
  intros Hr. destruct (reachable_wf _ Hr) as [[[Hnd _ Hnr Hni Hready Hio Hcur Hp] _] _].
  repeat (split; [assumption|]). intros l Hl p.
  destruct (Hp l Hl) as [? ? Hd ? ? ? ? ? ? Hw ?]. fold p in Hd, Hw |- *.
  split; [done|]. split; [by symmetry|]. split; [done|]. intros Hs. specialize (Hw Hs). lia.
Qed.

Lemma one_container_per_process_witness :
  readyQueue (Example.ticks 2 Example.start) = [1%nat] /\ NoDup (readyQueue (Example.ticks 2 Example.start)).
Proof.
  split; [vm_compute; reflexivity|].
  apply (one_container_per_process (Example.ticks 2 Example.start)), Example.ticks_reachable. lia.
Defined.

(** C1: In a reachable state a tick never panics: it advances the clock by one,
    changes no configuration, and either runs exactly one process for exactly
    one unit of its remaining time, or idles, and it idles only when after it
    no process is ready or running (work conservation). *)
Theorem tick_total_work_conserving {Sd} `{SchedulerLaws Sd} `{GoSortLaws} (s : Simulator Sd) :
  reachable s -> currentTime s < max_int ->
  exists s', executeTimeUnit s = Some s' /\ reachable s' /\
    currentTime s' = currentTime s + 1 /\ processes s' = processes s /\
    (forall l, config (deref (mem s') l) = config (deref (mem s) l)) /\
    ((exists c, c ∈ processes s /\
        RemainingTime (deref (mem s') c) = RemainingTime (deref (mem s) c) - 1 /\
        totalIdleTime s' = totalIdleTime s /\
        forall l, l <> c -> RemainingTime (deref (mem s') l) = RemainingTime (deref (mem s) l)) \/
     (totalIdleTime s' = totalIdleTime s +ᵢ 1 /\
      (forall l, RemainingTime (deref (mem s') l) = RemainingTime (deref (mem s) l)) /\
      forall l, l ∈ processes s ->
        State (deref (mem s') l) <> StateReady /\ State (deref (mem s') l) <> StateRunning)).
Proof.
  intros Hr Ht. destruct (reachable_wf _ Hr) as [Hwf Ht0].
  destruct (executeTimeUnit_spec s) as (s' & He & _ & T); [done|lia|].
  exists s'. split; [done|]. split; [by eapply reach_tick|].
  destruct T as [Hp _ Htime Hcfg _ [[c []]|[]] _]; repeat (split; [done|]); [left|right].
  - exists c. auto.
  - auto.
Qed.

Lemma tick_total_work_conserving_witness :
  exists s', executeTimeUnit (Example.ticks 2 Example.start) = Some s' /\ currentTime s' = 3.
Proof.
  destruct (tick_total_work_conserving (Example.ticks 2 Example.start))
    as (s' & He & _ & Ht & _).
  - apply Example.ticks_reachable. lia.
  - vm_compute. reflexivity.
  - exists s'. split; [exact He|]. rewrite Ht. vm_compute. reflexivity.
Defined.

Lemma StronglySorted_keys {A} (f g : A -> Z) l :
  (forall x, x ∈ l -> f x = g x) ->
  StronglySorted (fun a b => f a <= f b) l -> StronglySorted (fun a b => g a <= g b) l.
Proof.
  intros Heq. induction 1 as [|x l Hs IH Hall]; constructor.
  - apply IH. intros y Hy. apply Heq. by right.
  - rewrite Forall_forall in *. intros y Hy.
    rewrite <-(Heq x) by left. rewrite <-(Heq y) by (by right). auto.
Qed.

(** In every reachable state the process list, which decides the order in
    which simultaneous arrivals enter the ready queue, is sorted by arrival
    time: adding processes in any order re-establishes it and nothing else
    changes it. *)
Theorem processes_sorted_by_arrival {Sd} `{SchedulerLaws Sd} `{GoSortLaws} (s : Simulator Sd) :
  reachable s ->
  StronglySorted (fun a b => ArrivalTime (deref (mem s) a) <= ArrivalTime (deref (mem s) b))
    (processes s).
Proof.
  intros Hr. induction Hr as [| | | | |s s' Hr IH Ht Htick|s Hr IH]; try done.
  - constructor.
  - apply sort_slice_sorted.
  - destruct (reachable_wf _ Hr) as [Hwf Ht0].
    destruct (executeTimeUnit_spec s) as (s1 & E & _ & T); [done|lia|].
    assert (s1 = s') as -> by congruence. rewrite (tk_procs _ _ T).
    eapply StronglySorted_keys; [|exact IH]. intros l _.
    by destruct (config_eq_inv _ _ (tk_config _ _ T l)) as (_ & _ & -> & _).
  - destruct (reachable_wf _ Hr) as [Hwf Ht0].
    rewrite (resetState_eq _ _ Hwf). simpl.
    eapply StronglySorted_keys; [|exact IH]. intros l Hl.
    rewrite deref_map_reset by (by apply (wf_dom _ _ _ _ _ _ (proj1 Hwf))). done.
Qed.

Lemma processes_sorted_by_arrival_witness :
  processes Example.start = [0%nat; 1%nat] /\
  StronglySorted (fun a b => ArrivalTime (deref (mem Example.start) a)
                             <= ArrivalTime (deref (mem Example.start) b))
    (processes Example.start).
Proof.
  split; [vm_compute; reflexivity|].
  apply (processes_sorted_by_arrival Example.start). exact Example.start_reachable.
Defined.
