(* ===== verification/SimPolicy.v ===== *)
(** * Preemptive policies run the best process

    The interface [RunsBest] says what a preemptive policy promises in terms of the
    ranks of the ready processes and a mark of the running one (its rank, or its rank
    with a tolerance); with it the decision part of a tick always leaves a process on
    the CPU whose mark no ready process outranks. SRTF, preemptive Priority and MLFQ
    implement it; CFS does in [SimCfs], and MLQ's case is in [SimMlq]. *)

From S2P Require Import Prelude.
From S2P Require Import Float64.
From S2P Require Import Process.
From S2P Require Import Scheduler.
From S2P Require Import MultiLevel.
From S2P Require Import Simulator.
From S2P Require Import SimInvariant.
From S2P Require Import SimSteps.
From S2P Require Import SimTick.
From S2P Require Import SimReach.

(** The least rank is best. The process on the CPU is held against its [mark], which
    is its rank unless the policy tolerates a lead; [applies] restricts the
    scheduler's parameters. *)
Class RunsBest (Sd : Type) `{SchedulerLaws Sd} (applies : Sd -> Prop)
    (mark rank : Sd -> heap -> Z -> loc -> Z) : Prop := {
  rb_choice : forall s h q t l s', sched_ok s -> applies s -> Schedule s h q t = (Some l, s') ->
    (forall x, x ∈ q -> mark s h t l <= rank s h t x) /\
    (forall h' t' x, mark s' h' t' x = mark s h' t' x /\ rank s' h' t' x = rank s h' t' x);
  rb_keep : forall s h c q t x, applies s -> Preempt s h (Some c) q t = Some false ->
    x ∈ q -> PID (deref h x) <> PID (deref h c) -> mark s h t c <= rank s h t x;
  rb_stable : forall s h t l st x,
    mark s (<[l := set_State st (deref h l)]> h) t x = mark s h t x /\
    rank s (<[l := set_State st (deref h l)]> h) t x = rank s h t x
}.

(** The choice for an idle CPU. *)
Lemma scheduleNextProcess_eq {Sd} `{SchedulerLaws Sd} (s : Simulator Sd) l sch :
  currentProcess s = None -> readyQueue s <> [] ->
  Schedule (scheduler s) (mem s) (readyQueue s) (currentTime s) = (Some l, sch) ->
  let s' := scheduleNextProcess s in
  mem s' = <[l := set_State StateRunning (deref (mem s) l)]> (mem s) /\ scheduler s' = sch /\
  readyQueue s' = remove_first l (readyQueue s) /\ currentProcess s' = Some l /\
  currentTime s' = currentTime s.
Proof.
  intros Hc Hne E. unfold scheduleNextProcess.
  destruct (Nat.eqb_spec (length (readyQueue s)) 0) as [He|_]; [by apply nil_length_inv in He|].
  rewrite E. change (currentProcess (set_readyQueue _ _)) with (currentProcess s). rewrite Hc.
  by destruct (negb _).
Qed.

Section best.
Context {Sd : Type} {applies : Sd -> Prop} {mark rank : Sd -> heap -> Z -> loc -> Z}.
Context `{RunsBest Sd applies mark rank}.
Implicit Types (s : Simulator Sd) (l : loc).

Lemma schedule_runs_best now s :
  sim_wf now s -> applies (scheduler s) -> currentProcess s = None ->
  let s' := scheduleNextProcess s in
  forall c x, currentProcess s' = Some c -> x ∈ readyQueue s' ->
    mark (scheduler s') (mem s') (currentTime s') c <= rank (scheduler s') (mem s') (currentTime s') x.
Proof.
  intros Hwf Happ Hc s' c x Hcur Hx.
  destruct (decide (readyQueue s = [])) as [He|Hne].
  { destruct (scheduleNextProcess_keeps now s Hwf Hc) as [_ D].
    destruct (di_empty _ _ D He) as [_ Hr]. unfold s' in Hx. rewrite Hr in Hx.
    by apply elem_of_nil in Hx. }
  destruct (Schedule_member (scheduler s) (mem s) (readyQueue s) (currentTime s)
    (proj2 Hwf) Hne) as (l & Hs & Hl).
  destruct (Schedule (scheduler s) (mem s) (readyQueue s) (currentTime s)) as [o sch] eqn:E.
  simpl in Hs. subst o.
  destruct (scheduleNextProcess_eq s l sch Hc Hne E) as (Em & Es & Er & Ec & Et).
  unfold s' in *. rewrite Ec in Hcur. injection Hcur as <-. rewrite Er in Hx.
  destruct (rb_choice _ _ _ _ _ _ (proj2 Hwf) Happ E) as [Hbest Hsame].
  rewrite Em, Es, Et, (proj1 (Hsame _ _ _)), (proj2 (Hsame _ _ _)), (proj1 (rb_stable _ _ _ _ _ _)), (proj2 (rb_stable _ _ _ _ _ _)).
  apply Hbest.
  apply elem_of_remove_first in Hx as [Hx _]; [done|apply (wf_ready_nodup _ _ _ _ _ _ (proj1 Hwf))].
Qed.

Lemma dispatch_runs_best now s s' :
  sim_wf now s -> applies (scheduler s) ->
  NoDup (map (fun l => PID (deref (mem s) l)) (processes s)) ->
  dispatch s = Some s' ->
  forall c x, currentProcess s' = Some c -> x ∈ readyQueue s' ->
    mark (scheduler s') (mem s') (currentTime s') c <= rank (scheduler s') (mem s') (currentTime s') x.
Proof.
  intros Hwf Happ Hnd Hd. unfold dispatch in Hd. destruct (currentProcess s) as [c|] eqn:Hc.
  - rewrite (running_not_complete _ _ _ Hwf Hc) in Hd.
    destruct (shouldPreempt s) as [[]|] eqn:Hp; simpl in Hd; [| |done]; injection Hd as <-.
    + destruct (preemptCurrentProcess_keeps _ _ _ Hwf Hc) as (K & Hn & _).
      apply (schedule_runs_best now); [apply K| |done].
      unfold preemptCurrentProcess. by rewrite Hc.
    + intros c' x Hcur Hx. rewrite Hc in Hcur. injection Hcur as <-.
      unfold shouldPreempt in Hp. rewrite Hc in Hp.
      apply (rb_keep _ _ _ _ _ _ Happ Hp Hx).
      pose proof (proj1 (wf_ready _ _ _ _ _ _ (proj1 Hwf) x) Hx) as [Hxp Hxs].
      pose proof (proj1 (wf_cur _ _ _ _ _ _ (proj1 Hwf) c) Hc) as [Hcp Hcs].
      intros Heq. apply (NoDup_map_inj _ _ _ _ Hnd) in Heq; [|done|done]. congruence.
  - injection Hd as <-. by apply (schedule_runs_best now).
Qed.
End best.

(** ** Implementations *)

Lemma lex_head a b k1 k2 : lex_ltb (a :: k1) (b :: k2) = false -> b <= a.
Proof. simpl. intros [H _]%orb_false_iff. by apply Z.ltb_ge in H. Qed.

(** Fields other than the state, in an updated heap. *)
Lemma upd_state {A} (f : Process -> A) (h : heap) l st x :
  f (set_State st (deref h l)) = f (deref h l) ->
  f (deref (<[l := set_State st (deref h l)]> h) x) = f (deref h x).
Proof. apply upd_observe. Qed.

#[export] Instance SRTF_runs_best :
  RunsBest SRTF.SRTFScheduler (fun _ => True) (fun _ h _ l => RemainingTime (deref h l))
    (fun _ h _ l => RemainingTime (deref h l)).
Proof.
  split.
  - intros s h q t l s' _ _ E. pose proof (SRTF_selects s h q t) as Hs.
    destruct q as [|y q]; [by rewrite Hs in E|]. destruct Hs as (r & Er & Hmin).
    rewrite Er in E. injection E as -> <-. split; [|done].
    intros x Hx. exact (lex_head _ _ _ _ (first_min_le _ _ _ x Hmin Hx)).
  - intros s h c q t x _ [= Hp] Hx Hpid. apply not_true_iff_false in Hp.
    destruct (Z.le_gt_cases (RemainingTime (deref h c)) (RemainingTime (deref h x))); [done|].
    exfalso. apply Hp, SRTF_Preempt_iff. exists x. split; [done|]. split; [done|lia].
  - intros. split; by apply (upd_state RemainingTime).
Qed.

#[export] Instance Priority_runs_best :
  RunsBest PriorityPolicy.PriorityScheduler (fun s => PriorityPolicy.preemptive s = true)
    (fun s h t l => PriorityPolicy.effectivePriority s (deref h l) t)
    (fun s h t l => PriorityPolicy.effectivePriority s (deref h l) t).
Proof.
  split.
  - intros s h q t l s' _ _ E. pose proof (Priority_selects s h q t) as Hs.
    destruct q as [|y q]; [by rewrite Hs in E|]. destruct Hs as (r & Er & Hmin).
    rewrite Er in E. injection E as -> <-. split; [|done].
    intros x Hx. exact (lex_head _ _ _ _ (first_min_le _ _ _ x Hmin Hx)).
  - intros s h c q t x Happ [= Hp] Hx Hpid. apply not_true_iff_false in Hp.
    destruct (Z.le_gt_cases (PriorityPolicy.effectivePriority s (deref h c) t)
      (PriorityPolicy.effectivePriority s (deref h x) t)); [done|].
    exfalso. apply Hp, Priority_Preempt_iff. split; [done|].
    exists x. split; [done|]. split; [done|lia].
  - intros s h t l st x. split; by apply (upd_state (fun p => PriorityPolicy.effectivePriority s p t)).
Qed.

#[export] Instance MLFQ_runs_best :
  RunsBest MLFQ.MLFQScheduler (fun _ => True) (fun s _ _ l => level_of (MLFQ.levels s) l)
    (fun s _ _ l => level_of (MLFQ.levels s) l).
Proof.
  split.
  - intros s h q t l s' Hok _ [= E <-]. split; [|done]. intros x Hx.
    destruct (MLFQ_Schedule_first_min s h q Hok) as (r & Er & Hmin); [by intros ->; apply elem_of_nil in Hx|].
    assert (r = l) as -> by congruence.
    exact (lex_head _ _ _ _ (first_min_le _ _ _ x Hmin Hx)).
  - intros s h c q t x _ [= Hp] Hx _. apply not_true_iff_false in Hp.
    destruct (Z.le_gt_cases (level_of (MLFQ.levels s) c) (level_of (MLFQ.levels s) x)); [done|].
    exfalso. apply Hp, preempt_lower_iff. exists x. split; [done|lia].
  - done.
Qed.

Lemma decision_runs_best {Sd applies mark rank} `{RunsBest Sd applies mark rank} `{GoSortLaws} (s s' : Simulator Sd) :
  reachable s -> NoDup (map (fun l => PID (deref (mem s) l)) (processes s)) ->
  applies (scheduler (decision_state s)) -> dispatch (decision_state s) = Some s' ->
  forall c x, currentProcess s' = Some c -> x ∈ readyQueue s' ->
    mark (scheduler s') (mem s') (currentTime s') c <= rank (scheduler s') (mem s') (currentTime s') x.
Proof.
  intros Hr Hnd Happ Hd. destruct (reachable_wf _ Hr) as [Hwf _].
  destruct (decision_keeps s Hwf) as [Hwf2 F].
  apply (dispatch_runs_best (currentTime s) (decision_state s) s' Hwf2 Happ); [|done].
  rewrite (fr_procs _ _ F).
  rewrite (map_ext _ (fun l => PID (deref (mem s) l))); [done|].
  intros l. by destruct (config_eq_inv _ _ (fr_config _ _ F l)) as (-> & _).
Qed.
