(* ===== verification/SimCpu.v ===== *)
(** * What only the CPU changes

    Apart from [Execute] a tick writes the state of processes, their I/O
    bookkeeping and their waiting time. A field of a process that is none of these
    ([CpuField]) is changed by a tick for the process that runs, as [Execute]
    changes it, and for no other. *)

From S2P Require Import Prelude.
From S2P Require Import Float64.
From S2P Require Import Process.
From S2P Require Import Scheduler.
From S2P Require Import Simulator.
From S2P Require Import SimInvariant.
From S2P Require Import SimSteps.
From S2P Require Import SimTick.
From S2P Require Import SimReach.
From S2P Require Import SimPolicy.

Class CpuField {A : Type} (f : Process -> A) : Prop := {
  cf_State : forall v p, f (set_State v p) = f p;
  cf_IOBursts : forall v p, f (set_IOBursts v p) = f p;
  cf_IORemaining : forall v p, f (set_IORemaining v p) = f p;
  cf_CurrentIOIndex : forall v p, f (set_CurrentIOIndex v p) = f p;
  cf_WaitingTime : forall v p, f (set_WaitingTime v p) = f p
}.

#[export] Instance CompletionTime_cpu : CpuField CompletionTime.
Proof. done. Qed.
#[export] Instance VRuntime_cpu : CpuField VRuntime.
Proof. done. Qed.

(** The steps that leave the field alone. *)
Definition same_field {A Sd} (f : Process -> A) (s s' : Simulator Sd) : Prop :=
  forall l, f (deref (mem s') l) = f (deref (mem s) l).

#[export] Instance same_field_preorder {A Sd} (f : Process -> A) : PreOrder (@same_field A Sd f).
Proof. split; [done|]. intros s1 s2 s3 H1 H2 l. by rewrite H2, H1. Qed.

Section field.
Context {A : Type} (f : Process -> A) `{CpuField A f}.
Context {Sd : Type} `{SchedulerLaws Sd} `{GoSortLaws}.
Implicit Types (s : Simulator Sd) (l : loc).

Lemma upd_field l g s : (forall p, f (g p) = f p) -> same_field f s (upd l g s).
Proof. intros Hg x. by apply (upd_observe f). Qed.

(** A step whose effect on the heap is one update of another field. *)
Lemma step_field l g s s' : mem s' = mem (upd l g s) -> (forall p, f (g p) = f p) -> same_field f s s'.
Proof. intros E Hg x. rewrite E. by apply upd_field. Qed.

Lemma fold_field {B} (g : Simulator Sd -> B -> Simulator Sd) xs :
  (forall s x, same_field f s (g s x)) -> forall s, same_field f s (fold_left g xs s).
Proof.
  intros Hg. induction xs as [|x xs IH]; intros s; cbn [fold_left]; [done|].
  transitivity (g s x); auto.
Qed.

Lemma arrive_field s l : same_field f s (arrive s l).
Proof. unfold arrive. destruct (_ && _); [|done]. apply (upd_field l (set_State StateReady)), cf_State. Qed.

Lemma ioCountdown_field s p : same_field f s (ioCountdown p s).
Proof. apply upd_field. intros q. apply cf_IORemaining. Qed.

Lemma ioComplete_field s p : same_field f s (ioComplete p s).
Proof.
  apply (upd_field p (fun q => set_State StateReady (set_IORemaining 0 q))).
  intros q. by rewrite cf_State, cf_IORemaining.
Qed.

Lemma tickIO_ref_field todo : forall live s, same_field f s (tickIO_ref todo live s).2.
Proof.
  induction todo as [|p todo IH]; intros live s; cbn [tickIO_ref]; [done|].
  transitivity (ioCountdown p s); [apply ioCountdown_field|].
  destruct (_ <=? 0); [|apply IH].
  transitivity (ioComplete p (ioCountdown p s)); [apply ioComplete_field|apply IH].
Qed.

Lemma scheduleNextProcess_field s : same_field f s (scheduleNextProcess s).
Proof.
  unfold scheduleNextProcess. destruct (_ =? _)%nat; [done|].
  destruct (Schedule _ _ _ _) as [[l|] sched]; [|done].
  pose proof (upd_field l (set_State StateRunning) s (cf_State _)) as E.
  destruct (negb _); cbn; destruct (currentProcess s); try destruct (_ =? _); by apply E.
Qed.

Lemma dispatch_field s s' : dispatch s = Some s' -> same_field f s s'.
Proof.
  unfold dispatch. destruct (currentProcess s) as [c|] eqn:Hc;
    [|intros [= <-]; apply scheduleNextProcess_field].
  destruct (IsComplete _); [intros [= <-]; apply scheduleNextProcess_field|].
  destruct (shouldPreempt s) as [[]|]; simpl; intros [= <-]; [|done].
  transitivity (preemptCurrentProcess s); [|apply scheduleNextProcess_field].
  unfold preemptCurrentProcess. rewrite Hc. apply (step_field c (set_State StateReady)); [done|apply cf_State].
Qed.

Lemma startIO_field p idx b s : same_field f s (startIO p idx b s).
Proof.
  unfold startIO. etransitivity; [|etransitivity; [|etransitivity; [|etransitivity]]].
  - apply (upd_field p (fun q => set_IOBursts (<[Z.to_nat idx := set_Completed true b]> (IOBursts q)) q)).
    intros q. apply cf_IOBursts.
  - apply (upd_field p (set_IORemaining (Duration b))), cf_IORemaining.
  - apply (upd_field p (fun q => set_CurrentIOIndex (CurrentIOIndex q +ᵢ 1) q)).
    intros q. apply cf_CurrentIOIndex.
  - apply (upd_field p (set_State StateWaiting)), cf_State.
  - done.
Qed.

Lemma checkIO_loop_field p cpu fuel : forall s s',
  checkIO_loop fuel p cpu s = Some s' -> same_field f s s'.
Proof.
  induction fuel as [|fuel IH]; intros s s'; cbn [checkIO_loop]; [by intros [= <-]|].
  destruct (_ <? Z.of_nat _); [|by intros [= <-]]. destruct (_ <? 0); [done|].
  destruct (IOBursts _ !! _) as [b|]; [|done]. cbn [mbind option_bind].
  destruct (Completed b); [|destruct (_ && _); intros [= <-]; [apply startIO_field|done]].
  intros E. etransitivity; [|by apply (IH _ _ E)]. apply upd_field. intros q. apply cf_CurrentIOIndex.
Qed.

Lemma checkIOBurst_field s s' : checkIOBurst s = Some s' -> same_field f s s'.
Proof.
  unfold checkIOBurst. destruct (currentProcess s); [|by intros [= <-]].
  destruct (IsComplete _); [by intros [= <-]|apply checkIO_loop_field].
Qed.

Lemma checkQuantum_field s s' : checkQuantum s = Some s' -> same_field f s s'.
Proof.
  unfold checkQuantum. destruct (currentProcess s) as [c|]; [|by intros [= <-]].
  destruct (QuantumFor _ _) as [q|]; [|done]. cbn [mbind option_bind].
  destruct (_ && _); intros [= <-]; [|done].
  transitivity (expired c s); [|apply scheduleNextProcess_field].
  apply (step_field c (set_State StateReady)); [done|apply cf_State].
Qed.

Lemma advanceClock_field s : same_field f s (advanceClock s).
Proof.
  unfold advanceClock. etransitivity; [|apply fold_field].
  - done.
  - intros s1 l. unfold countWaiting. destruct (_ && _); [|done]. apply upd_field. intros q. apply cf_WaitingTime.
Qed.

Lemma decision_state_field s : same_field f s (decision_state s).
Proof.
  unfold decision_state. transitivity (checkArrivals s); [apply fold_field, arrive_field|].
  rewrite tickIOQueue_eq. pose proof (tickIO_ref_field (ioQueue (checkArrivals s)) [] (checkArrivals s)) as C.
  by destruct (tickIO_ref _ _ _).
Qed.

Lemma decision_field s s1 : dispatch (decision_state s) = Some s1 -> same_field f s s1.
Proof. intros Hd. transitivity (decision_state s); [apply decision_state_field|by apply dispatch_field]. Qed.

(** The process that runs gets the field [Execute] gives it. *)
Lemma runCurrent_field s s' c : sim_wf (currentTime s) s -> currentProcess s = Some c ->
  runCurrent s = Some s' ->
  exists p, Execute (currentTime s) 1 (deref (mem s) c) = Some p /\
    f (deref (mem s') c) = f p /\ forall l, l <> c -> f (deref (mem s') l) = f (deref (mem s) l).
Proof.
  intros Hwf Hc. unfold runCurrent. rewrite Hc.
  destruct (executeProcess 1 s) as [s2|] eqn:E2; [|done]. cbn [mbind option_bind].
  destruct (checkIOBurst _) as [s3|] eqn:E3; [|done]. cbn [mbind option_bind]. intros E4.
  pose proof (proj1 (wf_cur _ _ _ _ _ _ (proj1 Hwf) c) Hc) as [Hcp _].
  assert (F : same_field f s2 s').
  { transitivity (set_timeQuantumUsed (timeQuantumUsed s2 +ᵢ 1) s2); [done|].
    etransitivity; [by apply checkIOBurst_field|by apply checkQuantum_field]. }
  unfold executeProcess in E2. rewrite Hc in E2. destruct (Execute _ _ _) as [p|]; [|done].
  cbn [mbind option_bind] in E2. exists p. split; [done|].
  assert (Em : mem s2 = <[c := p]> (mem s)) by (destruct (IsComplete p); by injection E2 as <-).
  split; [|intros l Hne]; rewrite (F _), Em, (deref_insert _ _ _ _ (wf_lt (proj1 Hwf) c Hcp)).
  - by rewrite decide_True.
  - by rewrite decide_False.
Qed.

(** A tick, by what its decision part chose. *)
Lemma tick_field s s' :
  reachable s -> currentTime s < max_int -> executeTimeUnit s = Some s' ->
  exists s1, dispatch (decision_state s) = Some s1 /\ keeps (currentTime s) s s1 /\ ticked s s' /\
    same_field f s s1 /\
    match currentProcess s1 with
    | None => idled s s' /\ same_field f s s'
    | Some c => ran c s s' /\ exists p, Execute (currentTime s) 1 (deref (mem s1) c) = Some p /\
        f (deref (mem s') c) = f p /\ forall l, l <> c -> f (deref (mem s') l) = f (deref (mem s) l)
    end.
Proof.
  intros Hr Ht E. destruct (reachable_wf _ Hr) as [Hwf Ht0].
  destruct (executeTimeUnit_decides s Hwf ltac:(lia)) as (s1 & s'' & Hd & K & _ & E' & _ & T & Hcase).
  rewrite E in E'. injection E' as <-. exists s1. do 3 (split; [done|]).
  pose proof (decision_field _ _ Hd) as D. split; [done|].
  unfold executeTimeUnit in E. unfold decision_state in Hd. rewrite Hd in E. cbn [mbind option_bind] in E.
  destruct K as [Hwf1 F1]. pose proof (fr_time _ _ F1) as Et. rewrite <-Et in Hwf1.
  destruct (runCurrent s1) as [s4|] eqn:E4; [|done]. cbn [mbind option_bind] in E. injection E as <-.
  pose proof (advanceClock_field s4) as C4.
  destruct (currentProcess s1) as [c|] eqn:Hc; (split; [done|]).
  - destruct (runCurrent_field s1 s4 c Hwf1 Hc E4) as (p & Ex & Hp & Ho). rewrite Et in Ex.
    exists p. split; [done|]. split; [by rewrite (C4 _)|]. intros l Hne. by rewrite (C4 _), Ho, (D l).
  - etransitivity; [exact D|]. transitivity s4; [|done].
    rewrite runCurrent_idle in E4 by (done || lia). by injection E4 as <-.
Qed.
End field.

(** A tick fixes the completion time of the process that completes in it, and no
    other. *)
Lemma tick_completion {Sd} `{SchedulerLaws Sd} `{GoSortLaws} (s s' : Simulator Sd) l :
  reachable s -> currentTime s < max_int -> executeTimeUnit s = Some s' ->
  CompletionTime (deref (mem s') l) =
    if (0 <? RemainingTime (deref (mem s) l)) && (RemainingTime (deref (mem s') l) =? 0)
    then currentTime s + 1 else CompletionTime (deref (mem s) l).
Proof.
  intros Hr Ht E. destruct (reachable_wf _ Hr) as [_ Ht0].
  destruct (tick_field CompletionTime s s' Hr Ht E) as (s1 & _ & [Hwf1 F1] & T & C1 & Hcase).
  assert (Hsame : RemainingTime (deref (mem s') l) = RemainingTime (deref (mem s) l) ->
    CompletionTime (deref (mem s') l) = CompletionTime (deref (mem s) l) ->
    CompletionTime (deref (mem s') l) =
      if (0 <? RemainingTime (deref (mem s) l)) && (RemainingTime (deref (mem s') l) =? 0)
      then currentTime s + 1 else CompletionTime (deref (mem s) l)).
  { intros ER EC. rewrite ER, EC. destruct (_ && _) eqn:Eb; [|done].
    apply andb_true_iff in Eb as [?%Z.ltb_lt ?%Z.eqb_eq]. lia. }
  destruct (currentProcess s1) as [c|] eqn:Hc.
  2:{ destruct Hcase as [I C]. apply Hsame; [apply (id_remaining _ _ I)|apply C]. }
  destruct Hcase as (R & p & Ex & Hp & Ho).
  destruct (decide (l = c)) as [->|Hne]; [|apply Hsame; [by apply (rn_others _ _ _ R)|by apply Ho]].
  pose proof (proj1 (wf_cur _ _ _ _ _ _ (proj1 Hwf1) c) Hc) as [Hcp _].
  pose proof (wf_procs _ _ _ _ _ _ (proj1 Hwf1) c Hcp) as Hpc. pose proof (pw_config _ _ Hpc) as Hco.
  pose proof (fr_remaining _ _ F1 c) as Rc. pose proof (rn_positive _ _ _ R). pose proof (pw_remaining _ _ Hpc).
  pose proof (co_burst _ Hco). pose proof (co_weight _ Hco).
  destruct (Execute_tick (currentTime s) (deref (mem s1) c))
    as (p' & Ex' & _ & _ & _ & _ & _ & _ & _ & Hrem & _ & _ & Hfin); [lia|lia|lia|].
  rewrite Ex in Ex'. injection Ex' as <-. rewrite Hp, (rn_remaining _ _ _ R), <-(C1 c). rewrite Rc in *.
  destruct (Z.eqb_spec (RemainingTime (deref (mem s) c)) 1) as [E1|E1]; destruct Hfin as (_ & -> & _);
    ztest; simpl; done.
Qed.
