(* ===== verification/SimEvents.v ===== *)
(** * The event log

    The life cycle of a process as a labelled transition system, and the proof
    that every step of the engine is a sequence of its transitions, each logged
    by exactly one event. *)

From Stdlib Require Import Sorted.
From stdpp Require Import relations.
From S2P Require Import Prelude.
From S2P Require Import Float64.
From S2P Require Import Process.
From S2P Require Import Scheduler.
From S2P Require Import Simulator.
From S2P Require Import SimInvariant.
From S2P Require Import SimSteps.
From S2P Require Import SimTick.
From S2P Require Import SimReach.

(** ** The specification *)

(** The life cycle: which event takes a process from which state to which. *)
Definition life (st : ProcessState) (ev : string) : option ProcessState :=
  match st with
  | StateNew => if (ev =? "arrival")%string then Some StateReady else None
  | StateReady =>
      if (ev =? "start")%string || (ev =? "resume")%string then Some StateRunning else None
  | StateRunning =>
      if (ev =? "preempt")%string || (ev =? "quantum_expire")%string then Some StateReady
      else if (ev =? "io_start")%string then Some StateWaiting
      else if (ev =? "complete")%string then Some StateTerminated else None
  | StateWaiting => if (ev =? "io_complete")%string then Some StateReady else None
  | StateTerminated => None
  end.

(** The events that count as context switches. *)
Definition switching (ev : string) : bool :=
  (ev =? "preempt")%string || (ev =? "quantum_expire")%string.

(** One logged transition of process [l]. *)
Record moved {Sd} (l : loc) (s s' : Simulator Sd) : Prop := {
  mv_elem : l ∈ processes s;
  mv_procs : processes s' = processes s;
  mv_pid : forall x, PID (deref (mem s') x) = PID (deref (mem s) x);
  mv_time : currentTime s' = currentTime s;
  mv_others : forall x, x <> l -> State (deref (mem s') x) = State (deref (mem s) x);
  mv_event : exists e, events s' = events s ++ [e] /\ ePID e = PID (deref (mem s) l) /\
    eTime e = currentTime s /\
    life (State (deref (mem s) l)) (eEventType e) = Some (State (deref (mem s') l)) /\
    contextSwitches s' = if switching (eEventType e) then contextSwitches s +ᵢ 1
                         else contextSwitches s
}.

(** A step that logs nothing and changes no process state. *)
Record silent {Sd} (s s' : Simulator Sd) : Prop := {
  sl_procs : processes s' = processes s;
  sl_pid : forall x, PID (deref (mem s') x) = PID (deref (mem s) x);
  sl_time : currentTime s <= currentTime s';
  sl_state : forall x, State (deref (mem s') x) = State (deref (mem s) x);
  sl_events : events s' = events s;
  sl_switches : contextSwitches s' = contextSwitches s
}.

Definition logged {Sd} : relation (Simulator Sd) :=
  rtc (fun s s' => silent s s' \/ exists l, moved l s s').

Section logged.
Context {Sd : Type} `{SchedulerLaws Sd}.
Implicit Types (s : Simulator Sd) (l : loc).

Lemma logged_silent s s' : silent s s' -> logged s s'.
Proof. intros. apply rtc_once. by left. Qed.

Lemma logged_moved l s s' : moved l s s' -> logged s s'.
Proof. intros. apply rtc_once. right. by exists l. Qed.

Lemma logged_trans s1 s2 s3 : logged s1 s2 -> logged s2 s3 -> logged s1 s3.
Proof. intros. by transitivity s2. Qed.

(** The heap change of one transition, whatever else the step assigns. *)
Lemma moved_intro l p' e s s' :
  l ∈ processes s -> (l < length (mem s))%nat -> mem s' = <[l := p']> (mem s) ->
  processes s' = processes s -> currentTime s' = currentTime s ->
  PID p' = PID (deref (mem s) l) ->
  events s' = events s ++ [e] -> ePID e = PID (deref (mem s) l) -> eTime e = currentTime s ->
  life (State (deref (mem s) l)) (eEventType e) = Some (State p') ->
  contextSwitches s' = (if switching (eEventType e) then contextSwitches s +ᵢ 1
                        else contextSwitches s) ->
  logged s s'.
Proof.
  intros Hl Hlt Hm Hp Ht Hpid He Hep Het Hlife Hcs. apply (logged_moved l). split; try done.
  - intros x. rewrite Hm, deref_insert by done. case_decide; by subst.
  - intros x Hx. rewrite Hm, deref_insert by done. by rewrite decide_False.
  - exists e. rewrite Hm, deref_insert_eq by done. done.
Qed.

Lemma logged_upd l f s :
  PID (f (deref (mem s) l)) = PID (deref (mem s) l) ->
  State (f (deref (mem s) l)) = State (deref (mem s) l) -> logged s (upd l f s).
Proof.
  intros Hp Hs. apply logged_silent. split; try done.
  - intros x. by apply (upd_observe PID).
  - intros x. by apply (upd_observe State).
Qed.

(** Steps that touch neither the processes nor the log. *)
Lemma logged_same s s' :
  mem s' = mem s -> processes s' = processes s -> currentTime s <= currentTime s' ->
  events s' = events s -> contextSwitches s' = contextSwitches s -> logged s s'.
Proof. intros Hm ? ? ? ?. apply logged_silent. split; try done; intros; by rewrite Hm. Qed.

(** ** The steps *)

Lemma arrive_logged s l : sim_wf (currentTime s) s -> l ∈ processes s -> logged s (arrive s l).
Proof.
  intros [Hwf _] Hl. unfold arrive. destruct (_ && _) eqn:Hg; [|by apply rtc_refl].
  apply andb_true_iff in Hg as [_ Hs%bool_decide_eq_true].
  pose proof (wf_lt Hwf l Hl) as Hlt.
  eapply (moved_intro l (set_State StateReady (deref (mem s) l))); try done.
  - simpl. by rewrite deref_insert_eq by done.
  - by rewrite Hs.
Qed.

Lemma fold_logged {A} (f : Simulator Sd -> A -> Simulator Sd) now (P : A -> Simulator Sd -> Prop) xs s :
  (forall x s', P x s' -> sim_wf now s' -> keeps now s' (f s' x) /\ logged s' (f s' x)) ->
  (forall x s1 s2, frame s1 s2 -> P x s1 -> P x s2) ->
  sim_wf now s -> (forall x, x ∈ xs -> P x s) -> logged s (fold_left f xs s).
Proof.
  intros Hstep Hframe. revert s. induction xs as [|x xs IH]; intros s Hwf HP; simpl.
  { by apply rtc_refl. }
  destruct (Hstep x s (HP x ltac:(left)) Hwf) as [[Hwf' F] L].
  eapply logged_trans; [exact L|]. apply IH; [done|].
  intros y Hy. eapply Hframe; [done|]. apply HP. by right.
Qed.

Lemma checkArrivals_logged s : sim_wf (currentTime s) s -> logged s (checkArrivals s).
Proof.
  intros Hwf. unfold checkArrivals.
  apply (fold_logged arrive (currentTime s)
           (fun l s' => currentTime s' = currentTime s /\ l ∈ processes s')); [|..|done|done].
  - intros x s' [Ht Hx] Hwf'. rewrite <-Ht in *. split; [by apply arrive_keeps|by apply arrive_logged].
  - intros x s1 s2 F [Ht Hx]. split; [by rewrite (fr_time _ _ F)|by rewrite (fr_procs _ _ F)].
Qed.

Lemma ioCountdown_logged p s : logged s (ioCountdown p s).
Proof. by apply logged_upd. Qed.

Lemma ioComplete_logged p s :
  p ∈ processes s -> (p < length (mem s))%nat -> State (deref (mem s) p) = StateWaiting ->
  logged s (ioComplete p s).
Proof.
  intros Hp Hlt Hs.
  eapply (moved_intro p (set_State StateReady (set_IORemaining 0 (deref (mem s) p)))); try done.
  - simpl. by rewrite deref_insert_eq by done.
  - by rewrite Hs.
Qed.

Lemma tickIO_ref_logged now todo : forall live s,
  io_wf now (live ++ todo) s -> logged s (tickIO_ref todo live s).2.
Proof.
  induction todo as [|p todo IH]; intros live s Hwf; simpl; [by apply rtc_refl|].
  pose proof (ioCountdown_step _ _ _ _ _ Hwf) as [_ Hstep]. simpl in Hstep.
  assert (Hin : p ∈ live ++ p :: todo) by set_solver.
  apply (wf_io _ _ _ _ _ _ (proj1 Hwf)) in Hin as [Hp Hs].
  pose proof (wf_lt (proj1 Hwf) p Hp) as Hlt.
  pose proof (ioCountdown_logged p s) as L1.
  destruct (_ <=? 0); destruct Hstep as (Hwf1 & _ & _).
  - eapply logged_trans; [exact L1|]. eapply logged_trans; [|by apply IH].
    apply ioComplete_logged; [done|simpl; by rewrite length_insert|].
    simpl. by rewrite deref_insert_eq by done.
  - eapply logged_trans; [exact L1|]. apply IH. by rewrite <-app_assoc.
Qed.

Lemma tickIOQueue_logged now s : sim_wf now s -> logged s (tickIOQueue s).
Proof.
  intros Hwf. rewrite tickIOQueue_eq.
  pose proof (tickIO_ref_logged now (ioQueue s) [] s Hwf) as L.
  destruct (tickIO_ref _ _ _) as [live s']. eapply logged_trans; [exact L|].
  by apply logged_same.
Qed.

Lemma scheduleNextProcess_logged now s :
  sim_wf now s -> currentProcess s = None -> logged s (scheduleNextProcess s).
Proof.
  intros [Hwf Hok] Hc. unfold scheduleNextProcess.
  destruct (Nat.eqb_spec (length (readyQueue s)) 0) as [He|He]; [by apply logged_same|].
  assert (Hne : readyQueue s <> []) by (intros E; by rewrite E in He).
  destruct (Schedule_member (scheduler s) (mem s) (readyQueue s) (currentTime s) Hok Hne)
    as (l & Hs & Hl).
  destruct (Schedule _ _ _ _) as [next sched] eqn:E. simpl in Hs. subst next.
  change (currentProcess (set_readyQueue _ _)) with (currentProcess s). rewrite Hc.
  pose proof (proj1 (wf_ready _ _ _ _ _ _ Hwf l) Hl) as [Hlp Hls].
  pose proof (wf_lt Hwf l Hlp) as Hlt.
  destruct (negb _);
    (eapply (moved_intro l (set_State StateRunning (deref (mem s) l))); try done;
     [simpl; by rewrite deref_insert_eq by done|by rewrite Hls]).
Qed.

Lemma preemptCurrentProcess_logged now s : sim_wf now s -> logged s (preemptCurrentProcess s).
Proof.
  intros [Hwf Hok]. unfold preemptCurrentProcess.
  destruct (currentProcess s) as [c|] eqn:Hc; [|by apply rtc_refl].
  pose proof (proj1 (wf_cur _ _ _ _ _ _ Hwf c) eq_refl) as [Hp Hs].
  eapply (moved_intro c (set_State StateReady (deref (mem s) c))); try done.
  - by apply (wf_lt Hwf).
  - by rewrite Hs.
Qed.

Lemma dispatch_logged now s s' : sim_wf now s -> dispatch s = Some s' -> logged s s'.
Proof.
  intros Hwf. unfold dispatch. destruct (currentProcess s) as [c|] eqn:Hc.
  - rewrite (running_not_complete _ _ _ Hwf Hc).
    destruct (shouldPreempt s) as [[]|]; simpl; intros [= <-]; [|by apply rtc_refl].
    destruct (preemptCurrentProcess_keeps _ _ _ Hwf Hc) as (K1 & Hn & _).
    eapply logged_trans; [by eapply preemptCurrentProcess_logged|].
    eapply scheduleNextProcess_logged; [apply K1|done].
  - intros [= <-]. by eapply scheduleNextProcess_logged.
Qed.

Lemma executeProcess_logged s c s' :
  sim_wf (currentTime s) s -> 0 <= currentTime s < max_int -> currentProcess s = Some c ->
  executeProcess 1 s = Some s' -> logged s s'.
Proof.
  intros [Hwf Hok] Ht Hc. unfold executeProcess. rewrite Hc.
  pose proof (proj1 (wf_cur _ _ _ _ _ _ Hwf c) Hc) as [Hp Hs].
  pose proof (wf_lt Hwf c Hp) as Hlt.
  destruct (proc_wf_execute _ _ (wf_procs _ _ _ _ _ _ Hwf c Hp) Hs Ht)
    as (p' & -> & _ & Hcfg & _ & _ & Hcase). cbn [option_bind mbind].
  pose proof (config_eq_inv _ _ Hcfg) as (EPid & _).
  destruct Hcase as [[-> Hst]|[-> Hst]]; intros [= <-].
  - eapply (moved_intro c p'); try done. rewrite Hs, Hst. done.
  - apply (logged_trans _ (upd c (fun _ => p') s)); [|by apply logged_same].
    apply logged_upd; [done|congruence].
Qed.

Lemma startIO_logged now s c b :
  sim_wf now s -> currentProcess s = Some c ->
  let q := deref (mem s) c in
  IOBursts q !! Z.to_nat (CurrentIOIndex q) = Some b ->
  logged s (startIO c (CurrentIOIndex q) b s).
Proof.
  intros [Hwf Hok] Hc q Hb.
  pose proof (proj1 (wf_cur _ _ _ _ _ _ Hwf c) Hc) as [Hp Hs].
  pose proof (wf_lt Hwf c Hp) as Hlt.
  assert (E : mem (startIO c (CurrentIOIndex q) b s) = <[c := fired (b := b) q]> (mem s))
    by (by apply startIO_mem).
  eapply (moved_intro c (fired (b := b) q)); try done.
  - transitivity (PID (deref (mem (startIO c (CurrentIOIndex q) b s)) c)); [reflexivity|].
    by rewrite E, deref_insert_eq.
  - by rewrite Hs.
Qed.

Lemma checkIO_loop_logged now c cpu fuel : forall s s',
  sim_wf now s -> currentProcess s = Some c -> checkIO_loop fuel c cpu s = Some s' -> logged s s'.
Proof.
  induction fuel as [|fuel IH]; intros s s' Hwf Hc; simpl; [intros [= <-]; by apply rtc_refl|].
  pose proof (proj1 (wf_cur _ _ _ _ _ _ (proj1 Hwf) c) Hc) as [Hp Hs].
  pose proof (wf_procs _ _ _ _ _ _ (proj1 Hwf) c Hp) as Hq.
  set (q := deref (mem s) c) in *.
  destruct (_ <? Z.of_nat _); [|intros [= <-]; by apply rtc_refl].
  destruct (_ <? 0); [done|].
  destruct (IOBursts q !! Z.to_nat (CurrentIOIndex q)) as [b|] eqn:Hb; [|done]. simpl.
  destruct (Completed b).
  - intros Hrun. eapply logged_trans; [|eapply IH; [..|exact Hrun]]; [by apply logged_upd| |done].
    destruct (proc_wf_skip Hq Hs Hb) as [Hq' _]. destruct Hwf as [Hwf Hok].
    split; [|done]. by apply (wf_stay Hwf).
  - destruct (_ && _); intros [= <-]; [by eapply startIO_logged|by apply rtc_refl].
Qed.

Lemma checkIOBurst_logged now s s' :
  sim_wf now s -> checkIOBurst s = Some s' -> logged s s'.
Proof.
  intros Hwf. unfold checkIOBurst.
  destruct (currentProcess s) as [c|] eqn:Hc; [|intros [= <-]; by apply rtc_refl].
  destruct (IsComplete _); [intros [= <-]; by apply rtc_refl|]. by eapply checkIO_loop_logged.
Qed.

Lemma expireQuantum_logged now s c :
  sim_wf now s -> currentProcess s = Some c -> logged s (expireQuantum c s).
Proof.
  intros Hwf Hc. pose proof (expired_keeps now s c Hwf Hc) as K.
  apply (logged_trans _ (expired c s)); [|by apply (scheduleNextProcess_logged now); [apply K|]].
  destruct Hwf as [Hwf _]. pose proof (proj1 (wf_cur _ _ _ _ _ _ Hwf c) Hc) as [Hp Hs].
  eapply (moved_intro c (set_State StateReady (deref (mem s) c))); try done.
  - by apply (wf_lt Hwf).
  - by rewrite Hs.
Qed.

Lemma checkQuantum_logged now s s' :
  sim_wf now s -> checkQuantum s = Some s' -> logged s s'.
Proof.
  intros Hwf. unfold checkQuantum.
  destruct (currentProcess s) as [c|] eqn:Hc; [|intros [= <-]; by apply rtc_refl].
  destruct (QuantumFor _ _) as [q|]; [|done]. simpl.
  destruct (_ && _); intros [= <-]; [by eapply expireQuantum_logged|by apply rtc_refl].
Qed.

Lemma countWaiting_logged s l : logged s (countWaiting s l).
Proof. unfold countWaiting. destruct (_ && _); [by apply logged_upd|by apply rtc_refl]. Qed.

Lemma advanceClock_logged s : 0 <= currentTime s < max_int -> logged s (advanceClock s).
Proof.
  intros Ht. unfold advanceClock. rewrite currentTime_wrap by done.
  eapply logged_trans; [apply (logged_same _ (set_currentTime (currentTime s + 1) s)); simpl; done || lia|].
  generalize (readyQueue (set_currentTime (currentTime s + 1) s)).
  generalize (set_currentTime (currentTime s + 1) s). intros s0 ls. revert s0.
  induction ls as [|l ls IH]; intros s0; simpl; [by apply rtc_refl|].
  eapply logged_trans; [apply countWaiting_logged|apply IH].
Qed.

(** A tick is a sequence of logged life-cycle transitions. *)
Lemma executeTimeUnit_logged s s' :
  sim_wf (currentTime s) s -> 0 <= currentTime s < max_int ->
  executeTimeUnit s = Some s' -> logged s s'.
Proof.
  intros Hwf Ht. unfold executeTimeUnit.
  pose proof (checkArrivals_keeps s Hwf) as K1. pose proof (checkArrivals_logged s Hwf) as L1.
  set (s1 := checkArrivals s) in *.
  destruct (tickIOQueue_keeps _ s1 (proj1 K1)) as (K2 & _).
  pose proof (tickIOQueue_logged _ s1 (proj1 K1)) as L2.
  set (s2 := tickIOQueue s1) in *.
  destruct (dispatch_keeps _ _ (proj1 K2)) as (s3 & Hd & K3 & _).
  pose proof (dispatch_logged _ _ _ (proj1 K2) Hd) as L3. rewrite Hd. cbn [mbind option_bind].
  assert (Et : currentTime s3 = currentTime s)
    by (rewrite (fr_time _ _ (proj2 K3)), (fr_time _ _ (proj2 K2)); apply (fr_time _ _ (proj2 K1))).
  pose proof (proj1 K3) as Hwf3. rewrite <-Et in Ht, Hwf3.
  intros Hrun. eapply logged_trans; [exact L1|]. eapply logged_trans; [exact L2|].
  eapply logged_trans; [exact L3|]. clear -Hrun Hwf3 Ht H0.
  destruct (currentProcess s3) as [c|] eqn:Hc.
  - unfold runCurrent in Hrun. rewrite Hc in Hrun.
    destruct (executeProcess_executed s3 c Hwf3 Ht Hc) as (s4 & E4 & Hwf4 & EX & _).
    pose proof (executeProcess_logged _ _ _ Hwf3 Ht Hc E4) as L4.
    rewrite E4 in Hrun. cbn [mbind option_bind] in Hrun.
    set (s5 := set_timeQuantumUsed _ s4) in *.
    assert (Hwf5 : sim_wf (currentTime s3 + 1) s5) by exact Hwf4.
    assert (L5 : logged s4 s5) by (by apply logged_same).
    assert (currentTime s5 = currentTime s3) as Et5 by apply (ex_time _ _ _ _ EX).
    destruct (checkIOBurst s5) as [s6|] eqn:E6; [|done]. cbn [mbind option_bind] in Hrun.
    pose proof (checkIOBurst_logged _ _ _ Hwf5 E6) as L6.
    pose proof (checkIOBurst_wf _ _ _ Hwf5 E6) as K6.
    destruct (checkQuantum s6) as [s7|] eqn:E7; [|done]. cbn [mbind option_bind] in Hrun.
    pose proof (checkQuantum_logged _ _ _ (proj1 K6) E7) as L7.
    destruct (checkQuantum_keeps _ s6 (proj1 K6)) as (s7' & E7' & K7).
    rewrite E7 in E7'. simplify_eq.
    eapply logged_trans; [exact L4|]. eapply logged_trans; [exact L5|].
    eapply logged_trans; [exact L6|]. eapply logged_trans; [exact L7|].
    apply advanceClock_logged.
    rewrite (fr_time _ _ (proj2 K7)), (fr_time _ _ (proj2 K6)), Et5. done.
  - rewrite (runCurrent_idle s3 Hc Ht) in Hrun. cbn [mbind option_bind] in Hrun. simplify_eq.
    eapply logged_trans; [|by apply advanceClock_logged]. by apply logged_same.
Qed.
End logged.

(** ** Invariants of the log *)

Definition switches (evs : list ProcessEvent) : Z :=
  zsum (fun e => if switching (eEventType e) then 1 else 0) evs.

(** The state the log says a process is in. *)
Definition replay (evs : list ProcessEvent) : option ProcessState :=
  fold_left (fun st e => st ≫= fun st => life st (eEventType e)) evs (Some StateNew).

Definition events_of (pid : Z) (evs : list ProcessEvent) : list ProcessEvent :=
  List.filter (fun e => ePID e =? pid) evs.

Record log_ok {Sd} (s : Simulator Sd) : Prop := {
  lg_switches : contextSwitches s = wrap64 (switches (events s));
  lg_past : Forall (fun e => eTime e <= currentTime s) (events s);
  lg_sorted : StronglySorted (fun e1 e2 => eTime e1 <= eTime e2) (events s);
  lg_pids : forall e, e ∈ events s ->
    exists l, l ∈ processes s /\ PID (deref (mem s) l) = ePID e;
  lg_replay : NoDup (map (fun l => PID (deref (mem s) l)) (processes s)) ->
    forall l, l ∈ processes s ->
      replay (events_of (PID (deref (mem s) l)) (events s)) = Some (State (deref (mem s) l))
}.

Lemma StronglySorted_snoc {A} (R : A -> A -> Prop) l x :
  StronglySorted R l -> Forall (fun y => R y x) l -> StronglySorted R (l ++ [x]).
Proof.
  induction 1 as [|y l Hs IH Hall]; simpl; intros Hx; [by repeat constructor|].
  apply Forall_cons in Hx as [Hyx Hx]. constructor; [by apply IH|].
  apply Forall_app. split; [done|]. by constructor.
Qed.

Section log_ok.
Context {Sd : Type}.
Implicit Types (s : Simulator Sd).

Lemma silent_log_ok s s' : silent s s' -> log_ok s -> log_ok s'.
Proof.
  intros [Sp Spid St Ss Se Sc] [Lc Lp Ls Li Lr]. split; rewrite ?Se, ?Sc, ?Sp; try done.
  - eapply Forall_impl; [exact Lp|]. simpl. lia.
  - intros e He. destruct (Li e He) as (l & Hl & Hpid). exists l. by rewrite Spid.
  - rewrite (map_ext _ (fun l => PID (deref (mem s) l))) by done.
    intros Hnd l Hl. rewrite Spid, Ss. auto.
Qed.

Lemma moved_log_ok l s s' : moved l s s' -> log_ok s -> log_ok s'.
Proof.
  intros [Hl Mp Mpid Mt Mo (e & Me & Mep & Met & Mlife & Mc)] [Lc Lp Ls Li Lr].
  split; rewrite ?Me, ?Mp, ?Mt.
  - rewrite Mc. unfold switches. rewrite zsum_app. simpl.
    rewrite Lc. unfold switches. destruct (switching _).
    + by rewrite wrap64_add_l.
    + by rewrite !Z.add_0_r.
  - apply Forall_app. split; [done|]. constructor; [lia|done].
  - apply StronglySorted_snoc; [done|]. eapply Forall_impl; [exact Lp|]. simpl. lia.
  - intros e' He'. apply elem_of_app in He' as [He'| ->%list_elem_of_singleton].
    + destruct (Li e' He') as (x & Hx & Hpid). exists x. by rewrite Mpid.
    + exists l. by rewrite Mpid.
  - rewrite (map_ext _ (fun l => PID (deref (mem s) l))) by done.
    intros Hnd x Hx. rewrite Mpid. specialize (Lr Hnd x Hx).
    unfold events_of in *. rewrite List.filter_app. simpl. rewrite Mep.
    destruct (Z.eqb_spec (PID (deref (mem s) l)) (PID (deref (mem s) x))) as [E|E].
    + assert (l = x) as <- by (by apply (NoDup_map_inj _ _ _ _ Hnd)).
      unfold replay in *. rewrite fold_left_app, Lr. simpl. done.
    + rewrite app_nil_r, Lr, Mo by (by intros ->). done.
Qed.

Lemma logged_log_ok s s' : logged s s' -> log_ok s -> log_ok s'.
Proof.
  induction 1 as [|s1 s2 s3 [Hs|[l Hm]] _ IH]; [done| |]; intros Hok; apply IH.
  - by eapply silent_log_ok.
  - by eapply moved_log_ok.
Qed.
End log_ok.

Lemma events_of_none pid evs :
  (forall e, e ∈ evs -> ePID e <> pid) -> events_of pid evs = [].
Proof.
  unfold events_of. induction evs as [|e evs IH]; intros Hne; simpl; [done|].
  rewrite (proj2 (Z.eqb_neq _ _)) by (apply Hne; left).
  apply IH. intros e' He'. apply Hne. by right.
Qed.

Section reachable_log.
Context {Sd : Type} `{SchedulerLaws Sd} `{GoSortLaws}.

Lemma AddProcess_log_ok (s : Simulator Sd) p :
  sim_wf (currentTime s) s -> admissible p -> log_ok s -> log_ok (AddProcess p s).
Proof.
  intros [Hwf _] Hp [Lc Lp Ls Li Lr].
  assert (Hd : forall l, l ∈ processes s -> deref (mem (AddProcess p s)) l = deref (mem s) l).
  { intros l Hl. rewrite AddProcess_mem, deref_app. apply (wf_dom _ _ _ _ _ _ Hwf) in Hl.
    case_decide; [lia|done]. }
  assert (Hnew : deref (mem (AddProcess p s)) (length (mem s)) = p)
    by (rewrite AddProcess_mem, deref_app; by rewrite decide_True).
  pose proof (AddProcess_procs p s) as Hperm.
  split; [exact Lc|exact Lp|exact Ls| |].
  - intros e He. destruct (Li e He) as (l & Hl & Hpid). exists l.
    rewrite Hperm, elem_of_app, Hd by done. auto.
  - change (events (AddProcess p s)) with (events s).
    assert (Hmap : map (fun l => PID (deref (mem (AddProcess p s)) l)) (processes s ++ [length (mem s)])
      = map (fun l => PID (deref (mem s) l)) (processes s) ++ [PID p]).
    { rewrite map_app. cbn [map]. rewrite Hnew. f_equal. apply map_ext_in.
      intros l Hl%list_elem_of_In. by rewrite Hd. }
    intros Hnd l. rewrite Hperm, elem_of_app, list_elem_of_singleton.
    assert (Hnd' : NoDup (map (fun l => PID (deref (mem s) l)) (processes s) ++ [PID p])).
    { rewrite <-Hmap. eapply NoDup_Permutation_proper; [|exact Hnd].
      apply Permutation_map. by symmetry. }
    apply NoDup_app in Hnd' as (Hnd' & Hfresh & _).
    intros [Hl| ->].
    + rewrite Hd by done. auto.
    + rewrite Hnew. destruct (admissible_wf 0 p Hp) as (_ & -> & _).
      rewrite events_of_none; [done|]. intros e He Heq.
      destruct (Li e He) as (l & Hl & Hpid). apply (Hfresh (PID p)); [|by apply list_elem_of_singleton].
      apply list_elem_of_In, in_map_iff. exists l. split; [congruence|by apply list_elem_of_In].
Qed.

Lemma reachable_log_ok (s : Simulator Sd) : reachable s -> log_ok s.
Proof.
  induction 1 as [sched Hok|p s Hr IH Hp|v s _ IH|b s _ IH|v s _ IH|s s' Hr IH Ht Htick|s Hr IH].
  - split; simpl; try done; try constructor; try (by intros e ?%elem_of_nil).
  - apply AddProcess_log_ok; [|done|done]. by apply reachable_wf.
  - destruct IH. by split.
  - destruct IH. by split.
  - destruct IH. by split.
  - destruct (reachable_wf _ Hr) as [Hwf Ht0]. eapply logged_log_ok; [|exact IH].
    eapply executeTimeUnit_logged; [done|lia|done].
  - destruct (reachable_wf _ Hr) as [Hwf _]. rewrite (resetState_eq _ _ Hwf).
    split; simpl; try done; try constructor; try (by intros e ?%elem_of_nil).
    intros _ l Hl. rewrite deref_map_reset by (by apply (wf_dom _ _ _ _ _ _ (proj1 Hwf))). done.
Qed.
End reachable_log.

(** ** Properties *)

(** C13: The event log is the trace of a state machine: in every reachable state
    with distinct process ids, the events of each process, read from the
    beginning, are a path of the life cycle New -arrival-> Ready -start/resume->
    Running -preempt/quantum_expire-> Ready, Running -io_start-> Waiting
    -io_complete-> Ready, Running -complete-> Terminated, and the path ends in
    the state the process is in. *)
Theorem event_log_refines_life_cycle {Sd} `{SchedulerLaws Sd} `{GoSortLaws} (s : Simulator Sd) :
  reachable s -> NoDup (map (fun l => PID (deref (mem s) l)) (processes s)) ->
  forall l, l ∈ processes s ->
    fold_left (fun st e => st ≫= fun st => life st (eEventType e))
      (List.filter (fun e => ePID e =? PID (deref (mem s) l)) (events s)) (Some StateNew)
    = Some (State (deref (mem s) l)).
Proof. intros Hr Hnd l Hl. by apply (lg_replay _ (reachable_log_ok s Hr)). Qed.

Lemma event_log_refines_life_cycle_witness :
  map eEventType (events (Example.ticks 3 Example.start)) =
    ["arrival"; "start"; "arrival"; "complete"; "start"; "complete"]%string /\
  fold_left (fun st e => st ≫= fun st => life st (eEventType e))
    (List.filter (fun e => ePID e =? PID (deref (mem (Example.ticks 3 Example.start)) 0))
       (events (Example.ticks 3 Example.start))) (Some StateNew) = Some StateTerminated.
Proof.
  split; [vm_compute; reflexivity|].
  rewrite (event_log_refines_life_cycle (Example.ticks 3 Example.start)).
  - vm_compute. reflexivity.
  - apply Example.ticks_reachable. lia.
  - vm_compute. repeat constructor; set_solver.
  - assert (Hp : processes (Example.ticks 3 Example.start) = [0%nat; 1%nat])
      by (vm_compute; reflexivity).
    rewrite Hp. left.
Defined.

(** In every reachable state the log is in chronological order and none of
    it lies in the future, and the context-switch counter is the number of
    preemptions and quantum expiries in it: dispatches after a completion or an
    I/O start are never counted, although the code has a branch for them. *)
Theorem context_switches_are_preemptions {Sd} `{SchedulerLaws Sd} `{GoSortLaws} (s : Simulator Sd) :
  reachable s ->
  StronglySorted (fun e1 e2 => eTime e1 <= eTime e2) (events s) /\
  Forall (fun e => eTime e <= currentTime s) (events s) /\
  contextSwitches s = wrap64 (Z.of_nat (length (List.filter
    (fun e => (eEventType e =? "preempt")%string || (eEventType e =? "quantum_expire")%string)
    (events s)))).
Proof.
  intros Hr. destruct (reachable_log_ok s Hr) as [Hc Hp Hs _ _].
  split; [done|]. split; [done|]. rewrite Hc. clear Hc Hp Hs. f_equal.
  unfold switches, switching. induction (events s) as [|e evs IH]; simpl; [done|].
  rewrite IH. destruct (_ || _); simpl length; lia.
Qed.

(** FCFS runs both processes to completion and reports no context switch. *)
Lemma context_switches_are_preemptions_witness :
  contextSwitches (Example.ticks 3 Example.start) = 0.
Proof.
  destruct (context_switches_are_preemptions (Example.ticks 3 Example.start)) as (_ & _ & ->).
  - apply Example.ticks_reachable. lia.
  - vm_compute. reflexivity.
Defined.
