(* ===== verification/SimAccounting.v ===== *)
(** * Where the time goes

    The clock, the idle counter, the Gantt chart, the remaining times and the
    metrics of every reachable state agree with each other. *)

From S2P Require Import Prelude.
From S2P Require Import Float64.
From S2P Require Import Process.
From S2P Require Import Scheduler.
From S2P Require Import Simulator.
From S2P Require Import SimInvariant.
From S2P Require Import SimSteps.
From S2P Require Import SimTick.
From S2P Require Import SimReach.

(** ** Gantt charts *)

Definition glen (e : GanttEntry) : Z := gEndTime e - gStartTime e.

(** Time the chart [g] attributes to process id [q]; -1 is the idle CPU. *)
Definition gantt_time (q : Z) (g : list GanttEntry) : Z :=
  zsum (fun e => if gPID e =? q then glen e else 0) g.

(** The entries of [g] are non-empty and cover [a, b) without gap or overlap. *)
Fixpoint tiles (a b : Z) (g : list GanttEntry) : Prop :=
  match g with
  | [] => a = b
  | e :: g => gStartTime e = a /\ a < gEndTime e /\ tiles (gEndTime e) b g
  end.

(** No two neighbours belong to the same process id. *)
Fixpoint merged (g : list GanttEntry) : Prop :=
  match g with
  | e1 :: (e2 :: _) as g => gPID e1 <> gPID e2 /\ merged g
  | _ => True
  end.

Lemma appendGantt_head e g : exists x g', appendGantt e g = x :: g' /\
  gPID x = gPID (match g with [] => e | y :: _ => y end).
Proof.
  destruct g as [|y [|z g]]; simpl; [by eexists _, _| |by eexists _, _].
  destruct (_ && _); by eexists _, _.
Qed.

Lemma appendGantt_tiles e g a : a < gEndTime e -> gStartTime e < gEndTime e ->
  tiles a (gStartTime e) g -> tiles a (gEndTime e) (appendGantt e g).
Proof.
  intros Ha He. revert a Ha. induction g as [|x [|y g] IH]; intros a Ha.
  - intros Hae. simpl in *. auto.
  - intros (Hx & Hlt & Hend). simpl in Hend. simpl.
    destruct (_ && _); simpl; auto with lia.
  - intros (Hx & Hlt & Hrest). change (appendGantt e (x :: y :: g)) with (x :: appendGantt e (y :: g)).
    split; [done|]. split; [done|]. apply IH; [|done].
    clear -Hrest He. revert Hrest. generalize (gEndTime x), (y :: g). intros b l. revert b.
    induction l as [|z l IH]; intros b; simpl; [lia|]. intros (? & ? & H%IH). lia.
Qed.

Lemma appendGantt_merged e g a :
  tiles a (gStartTime e) g -> merged g -> merged (appendGantt e g).
Proof.
  revert a. induction g as [|x [|y g] IH]; intros a; [done| |].
  - intros (_ & _ & Hend) _. simpl in Hend. simpl.
    destruct (Z.eqb_spec (gPID x) (gPID e)); simpl; [|done].
    by rewrite (proj2 (Z.eqb_eq _ _) Hend).
  - intros (_ & _ & Hrest) [Hne Hm]. specialize (IH _ Hrest Hm).
    change (appendGantt e (x :: y :: g)) with (x :: appendGantt e (y :: g)).
    destruct (appendGantt_head e (y :: g)) as (z & g' & Hz & Hpid).
    rewrite Hz in *. split; [congruence|done].
Qed.

Lemma appendGantt_time q e g :
  gantt_time q (appendGantt e g) = gantt_time q g + (if gPID e =? q then glen e else 0).
Proof.
  unfold gantt_time. induction g as [|x [|y g] IH]; [simpl; lia| |].
  - simpl. destruct (Z.eqb_spec (gPID x) (gPID e)) as [Hp|Hp]; simpl; [|lia].
    destruct (Z.eqb_spec (gEndTime x) (gStartTime e)) as [Ht|Ht]; simpl; [|lia].
    rewrite Hp. destruct (_ =? q); unfold glen; simpl; lia.
  - change (appendGantt e (x :: y :: g)) with (x :: appendGantt e (y :: g)).
    cbn [zsum] in *. lia.
Qed.

(** ** The accounting invariant *)

Record accounted {Sd} (s : Simulator Sd) : Prop := {
  ac_idle : 0 <= totalIdleTime s;
  ac_clock : currentTime s =
    totalIdleTime s + zsum (fun l => served (deref (mem s) l)) (processes s);
  ac_tiles : tiles 0 (currentTime s) (ganttChart s);
  ac_merged : merged (ganttChart s);
  ac_time : forall q, gantt_time q (ganttChart s) =
    (if q =? -1 then totalIdleTime s else 0) +
    zsum (fun l => if PID (deref (mem s) l) =? q then served (deref (mem s) l) else 0) (processes s)
}.

Section accounting.
Context {Sd : Type} `{SchedulerLaws Sd} `{GoSortLaws}.
Implicit Types (s : Simulator Sd) (l : loc).

Lemma served_config p p' : config p' = config p ->
  served p' = served p + (RemainingTime p - RemainingTime p').
Proof. intros (_ & _ & _ & Hb & _)%config_eq_inv. unfold served. lia. Qed.

Lemma ticked_accounted s s' :
  NoDup (processes s) -> 0 <= currentTime s -> currentTime s < max_int ->
  (forall l, l ∈ processes s -> 0 <= served (deref (mem s) l)) ->
  ticked s s' -> accounted s -> accounted s'.
Proof.
  intros Hnd Ht0 Ht Hpos [Hp _ Htime Hcfg _ Hwork _] [Hi Hclock Htl Hmg Htm].
  assert (Hidle : totalIdleTime s +ᵢ 1 = totalIdleTime s + 1).
  { assert (0 <= zsum (fun l => served (deref (mem s) l)) (processes s)) by (by apply zsum_nonneg).
    unwrap. lia. }
  assert (HPID : forall l, PID (deref (mem s') l) = PID (deref (mem s) l))
    by (intros l; by destruct (config_eq_inv _ _ (Hcfg l)) as (-> & _)).
  destruct Hwork as [[c [Hc Hg Hid Hrc Hpo Hro]]|[Hg Hid Hrem _ _ _]].
  - assert (Hsc : served (deref (mem s') c) = served (deref (mem s) c) + 1)
      by (rewrite (served_config _ _ (Hcfg c)); lia).
    assert (Hso : forall l, l <> c -> served (deref (mem s') l) = served (deref (mem s) l))
      by (intros l Hl; rewrite (served_config _ _ (Hcfg l)), Hro by done; lia).
    split; rewrite ?Hp, ?Hid, ?Hg, ?Htime; [done| | | |].
    + rewrite (zsum_change _ (fun l => served (deref (mem s) l)) _ c); auto; lia.
    + apply (appendGantt_tiles (mkGantt _ _ (currentTime s) (currentTime s + 1) _)); cbn [gStartTime gEndTime]; (done || lia).
    + by eapply (appendGantt_merged (mkGantt _ _ (currentTime s) (currentTime s + 1) _)).
    + intros q. rewrite appendGantt_time, Htm. unfold glen. cbn [gPID gStartTime gEndTime].
      rewrite (zsum_change
        (fun l => if PID (deref (mem s') l) =? q then served (deref (mem s') l) else 0)
        (fun l => if PID (deref (mem s) l) =? q then served (deref (mem s) l) else 0)
        (processes s) c Hnd Hc).
      2:{ intros y _ Hy. simpl. by rewrite HPID, Hso. }
      rewrite HPID, Hsc. destruct (PID _ =? q); lia.
  - assert (Hso : forall l, served (deref (mem s') l) = served (deref (mem s) l))
      by (intros l; rewrite (served_config _ _ (Hcfg l)), Hrem; lia).
    split; rewrite ?Hp, ?Hid, ?Hidle, ?Hg, ?Htime; [lia| | | |].
    + rewrite (zsum_ext _ (fun l => served (deref (mem s) l))) by auto. lia.
    + apply (appendGantt_tiles (mkGantt _ _ (currentTime s) (currentTime s + 1) _)); cbn [gStartTime gEndTime]; (done || lia).
    + by eapply (appendGantt_merged (mkGantt _ _ (currentTime s) (currentTime s + 1) _)).
    + intros q. rewrite appendGantt_time, Htm. unfold glen. cbn [gPID gStartTime gEndTime].
      rewrite (zsum_ext (fun l => if PID (deref (mem s') l) =? q then _ else _)
        (fun l => if PID (deref (mem s) l) =? q then served (deref (mem s) l) else 0))
        by (intros; by rewrite HPID, Hso).
      rewrite (Z.eqb_sym q). destruct (_ =? q); lia.
Qed.

Lemma wf_served now s l : sim_wf now s -> l ∈ processes s ->
  0 <= served (deref (mem s) l) <= BurstTime (deref (mem s) l).
Proof.
  intros [Hwf _] Hl. pose proof (pw_remaining _ _ (wf_procs _ _ _ _ _ _ Hwf l Hl)).
  unfold served. lia.
Qed.

Lemma reachable_accounted s : reachable s -> accounted s.
Proof.
  induction 1 as [sched Hok|p s Hr IH Hp|v s _ IH|b s _ IH|v s _ IH|s s' Hr IH Ht Htick|s Hr IH].
  - split; simpl; try done. intros q. by destruct (q =? -1).
  - destruct (reachable_wf _ Hr) as [[Hwf _] _]. destruct IH as [Hi Hclock Htl Hmg Htm].
    destruct (admissible_wf 0 p Hp) as (_ & _ & H0').
    assert (Hd : forall l, l ∈ processes s -> deref (mem (AddProcess p s)) l = deref (mem s) l).
    { intros l Hl. rewrite AddProcess_mem, deref_app. apply (wf_dom _ _ _ _ _ _ Hwf) in Hl.
      case_decide; [lia|done]. }
    assert (Hnew : deref (mem (AddProcess p s)) (length (mem s)) = p)
      by (rewrite AddProcess_mem, deref_app; by rewrite decide_True).
    split; [done| |done|done|].
    + rewrite (AddProcess_procs p s), zsum_app. cbn [zsum]. rewrite Hnew, H0'.
      rewrite (zsum_ext _ (fun l => served (deref (mem s) l))) by (intros; by rewrite Hd).
      change (currentTime (AddProcess p s)) with (currentTime s).
      change (totalIdleTime (AddProcess p s)) with (totalIdleTime s). lia.
    + intros q. rewrite (AddProcess_procs p s), zsum_app. cbn [zsum]. rewrite Hnew, H0'.
      rewrite (zsum_ext _
        (fun l => if PID (deref (mem s) l) =? q then served (deref (mem s) l) else 0))
        by (intros; by rewrite Hd).
      change (ganttChart (AddProcess p s)) with (ganttChart s).
      change (totalIdleTime (AddProcess p s)) with (totalIdleTime s).
      rewrite Htm. destruct (PID p =? q); lia.
  - destruct IH. by split.
  - destruct IH. by split.
  - destruct IH. by split.
  - destruct (reachable_wf _ Hr) as [Hwf Ht0].
    destruct (executeTimeUnit_spec s) as (s1 & E & _ & T); [done|lia|].
    assert (s1 = s') as -> by congruence.
    apply (ticked_accounted s); try done; [apply (wf_nodup _ _ _ _ _ _ (proj1 Hwf))|lia|].
    intros l Hl. by apply (wf_served _ _ _ Hwf).
  - destruct (reachable_wf _ Hr) as [Hwf _].
    assert (H0' : forall l, l ∈ processes s -> served (deref (map resetProcess (mem s)) l) = 0).
    { intros l Hl. rewrite deref_map_reset by (by apply (wf_dom _ _ _ _ _ _ (proj1 Hwf))).
      unfold served. simpl. lia. }
    rewrite (resetState_eq _ _ Hwf). split; simpl; try done.
    + by rewrite zsum_zero.
    + intros q. rewrite zsum_zero; [by destruct (_ =? _)|].
      intros l Hl. rewrite (H0' l Hl). by destruct (_ =? _).
Qed.
End accounting.

(** ** Metrics *)

(** A field of the processes that are complete. *)
Definition completed {Sd} (s : Simulator Sd) (f : Process -> Z) (l : loc) : Z :=
  if IsComplete (deref (mem s) l) then f (deref (mem s) l) else 0.

(** Accumulators that wrap at every addition hold the wrapped sums. *)
Lemma fold_totals {Sd} (s : Simulator Sd) ls : forall c t w r,
  fold_left (addTotals s) ls (mkTotals (wrap64 c) (wrap64 t) (wrap64 w) (wrap64 r)) =
  mkTotals (wrap64 (c + zsum (completed s (fun _ => 1)) ls))
    (wrap64 (t + zsum (completed s TurnaroundTime) ls))
    (wrap64 (w + zsum (fun l => WaitingTime (deref (mem s) l)) ls))
    (wrap64 (r + zsum (completed s ResponseTime) ls)).
Proof.
  induction ls as [|l ls IH]; intros c t w r; cbn [fold_left zsum]; [by rewrite !Z.add_0_r|].
  unfold addTotals, completed at 1 3 5.
  destruct (IsComplete _); cbn [completedCount totalTurnaround totalWaiting totalResponse];
    rewrite !wrap64_add_l, IH, !Z.add_assoc, ?Z.add_0_r; done.
Qed.

Lemma totals_eq {Sd} (s : Simulator Sd) :
  totals s = mkTotals (wrap64 (zsum (completed s (fun _ => 1)) (processes s)))
    (wrap64 (zsum (completed s TurnaroundTime) (processes s)))
    (wrap64 (zsum (fun l => WaitingTime (deref (mem s) l)) (processes s)))
    (wrap64 (zsum (completed s ResponseTime) (processes s))).
Proof. exact (fold_totals s (processes s) 0 0 0 0). Qed.

Definition finished {Sd} (s : Simulator Sd) : list loc :=
  List.filter (fun l => IsComplete (deref (mem s) l)) (processes s).

Lemma zsum_completed {Sd} (s : Simulator Sd) f :
  zsum (completed s f) (processes s) = zsum (fun l => f (deref (mem s) l)) (finished s).
Proof.
  unfold finished, completed. induction (processes s) as [|l ls IH]; simpl; [done|].
  rewrite IH. by destruct (IsComplete _).
Qed.

Lemma zsum_one {A} (l : list A) : zsum (fun _ => 1) l = Z.of_nat (length l).
Proof. induction l; simpl length; simpl zsum; lia. Qed.

Lemma finished_times {Sd} `{SchedulerLaws Sd} now (s : Simulator Sd) l :
  sim_wf now s -> l ∈ finished s ->
  let p := deref (mem s) l in
  ArrivalTime p <= StartTime p /\
  StartTime p + BurstTime p <= CompletionTime p <= now /\
  ResponseTime p = StartTime p - ArrivalTime p /\
  TurnaroundTime p = CompletionTime p - ArrivalTime p /\
  WaitingTime p = TurnaroundTime p - BurstTime p /\
  0 <= ResponseTime p <= WaitingTime p /\ 1 <= BurstTime p.
Proof.
  intros [Hwf _] Hl p. unfold finished in Hl. rewrite list_elem_of_In, filter_In in Hl.
  destruct Hl as [Hl%list_elem_of_In Hc].
  pose proof (wf_procs _ _ _ _ _ _ Hwf l Hl) as Hp. fold p in Hp, Hc.
  rewrite (IsComplete_wf _ _ Hp), bool_decide_eq_true in Hc.
  pose proof (pw_final _ _ Hp Hc). pose proof (proj2 (pw_done _ _ Hp) Hc).
  pose proof (co_burst _ (pw_config _ _ Hp)).
  assert (HasStarted p = true) as Hs by (apply (pw_started _ _ Hp); lia).
  pose proof (pw_response _ _ Hp Hs). lia.
Qed.

Lemma isComplete_terminated {Sd} `{SchedulerLaws Sd} now (s : Simulator Sd) :
  sim_wf now s ->
  isComplete s = true <-> forall l, l ∈ processes s -> State (deref (mem s) l) = StateTerminated.
Proof.
  intros [Hwf _]. unfold isComplete. rewrite forallb_forall.
  assert (HC : forall l, l ∈ processes s ->
    IsComplete (deref (mem s) l) = true <-> State (deref (mem s) l) = StateTerminated).
  { intros l Hl. rewrite (IsComplete_wf now) by (by apply (wf_procs _ _ _ _ _ _ Hwf)).
    by rewrite bool_decide_eq_true. }
  split; intros Hall l Hl.
  - apply HC; [done|]. by apply Hall, list_elem_of_In.
  - apply list_elem_of_In in Hl. by apply HC; auto.
Qed.

(** ** Properties *)

(** In every reachable state the clock is exactly the idle time plus the CPU
    time the processes have received; the difference the CPU-utilisation metric
    is computed from is that CPU time, without overflow. *)
Theorem clock_is_idle_plus_service {Sd} `{SchedulerLaws Sd} `{GoSortLaws} (s : Simulator Sd) :
  reachable s ->
  0 <= totalIdleTime s <= currentTime s /\
  currentTime s = totalIdleTime s +
    zsum (fun l => BurstTime (deref (mem s) l) - RemainingTime (deref (mem s) l)) (processes s) /\
  currentTime s -ᵢ totalIdleTime s =
    zsum (fun l => BurstTime (deref (mem s) l) - RemainingTime (deref (mem s) l)) (processes s).
Proof.
  intros Hr. destruct (reachable_accounted s Hr) as [Hi Hc _ _ _].
  destruct (reachable_wf _ Hr) as [Hwf Ht].
  assert (0 <= zsum (fun l => served (deref (mem s) l)) (processes s))
    by (apply zsum_nonneg; intros l Hl; by apply (wf_served _ _ _ Hwf)).
  change (fun l => BurstTime (deref (mem s) l) - RemainingTime (deref (mem s) l))
    with (fun l => served (deref (mem s) l)).
  unwrap. lia.
Qed.

Lemma clock_is_idle_plus_service_witness :
  currentTime (Example.ticks 3 Example.start) = 3 /\
  0 <= totalIdleTime (Example.ticks 3 Example.start) <= 3.
Proof.
  split; [vm_compute; reflexivity|].
  apply (clock_is_idle_plus_service (Example.ticks 3 Example.start)), Example.ticks_reachable. lia.
Defined.

(** C8: The Gantt chart of every reachable state is exact: its entries are
    non-empty and cover the time from 0 to the clock without gap or overlap, no
    two neighbours that could be merged are left apart, and the time it gives
    each process id is the CPU time the processes of that id received (for the
    id -1 of the idle entries, the idle time). *)
Theorem gantt_chart_is_exact {Sd} `{SchedulerLaws Sd} `{GoSortLaws} (s : Simulator Sd) :
  reachable s ->
  tiles 0 (currentTime s) (ganttChart s) /\ merged (ganttChart s) /\
  forall q, gantt_time q (ganttChart s) =
    (if q =? -1 then totalIdleTime s else 0) +
    zsum (fun l => if PID (deref (mem s) l) =? q
                   then BurstTime (deref (mem s) l) - RemainingTime (deref (mem s) l) else 0)
         (processes s).
Proof. intros Hr. destruct (reachable_accounted s Hr) as [_ _ Ht Hm Hq]. auto. Qed.

Lemma gantt_chart_is_exact_witness :
  gantt_time 1 (ganttChart (Example.ticks 3 Example.start)) = 2.
Proof.
  destruct (gantt_chart_is_exact (Example.ticks 3 Example.start)) as (_ & _ & ->).
  - apply Example.ticks_reachable. lia.
  - vm_compute. reflexivity.
Defined.

(** In every reachable state a completed process satisfies the textbook
    definitions: it started no earlier than it arrived, it received its whole
    burst before completing, response is start minus arrival, turnaround is
    completion minus arrival, waiting is turnaround minus burst, and none of
    them is negative. *)
Theorem completed_process_times {Sd} `{SchedulerLaws Sd} `{GoSortLaws} (s : Simulator Sd) l :
  reachable s -> l ∈ processes s -> IsComplete (deref (mem s) l) = true ->
  let p := deref (mem s) l in
  ArrivalTime p <= StartTime p /\
  StartTime p + BurstTime p <= CompletionTime p <= currentTime s /\
  ResponseTime p = StartTime p - ArrivalTime p /\
  TurnaroundTime p = CompletionTime p - ArrivalTime p /\
  WaitingTime p = TurnaroundTime p - BurstTime p /\
  0 <= ResponseTime p <= WaitingTime p.
Proof.
  intros Hr Hl Hc p. destruct (reachable_wf _ Hr) as [Hwf _].
  destruct (finished_times _ s l Hwf) as (? & ? & ? & ? & ? & ? & ?); [|done].
  unfold finished. rewrite list_elem_of_In, filter_In. by apply list_elem_of_In in Hl.
Qed.

Lemma completed_process_times_witness :
  ArrivalTime (deref (mem (Example.ticks 3 Example.start)) 1) = 1 /\
  0 <= ResponseTime (deref (mem (Example.ticks 3 Example.start)) 1).
Proof.
  split; [vm_compute; reflexivity|].
  destruct (completed_process_times (Example.ticks 3 Example.start) 1)
    as (_ & _ & _ & _ & _ & H & _).
  - apply Example.ticks_reachable. lia.
  - vm_compute. right. left.
  - vm_compute. reflexivity.
  - exact H.
Defined.

(** The metrics of a reachable state are the averages of the exact sums, as
    long as the sums fit an [int]: the completed processes are counted and
    averaged over, each contributing its completion minus its arrival, and the
    CPU utilisation is the share of the clock the processes ran. *)
Theorem metrics_are_exact_averages {Sd} `{SchedulerLaws Sd} `{GoSortLaws} (s : Simulator Sd) now :
  reachable s ->
  let procs := List.filter (fun l => IsComplete (deref (mem s) l)) (processes s) in
  let turnaround := zsum (fun l => CompletionTime (deref (mem s) l) - ArrivalTime (deref (mem s) l)) procs in
  let response := zsum (fun l => StartTime (deref (mem s) l) - ArrivalTime (deref (mem s) l)) procs in
  let busy := zsum (fun l => BurstTime (deref (mem s) l) - RemainingTime (deref (mem s) l)) (processes s) in
  let n := Z.of_nat (length procs) in
  n <= max_int -> turnaround <= max_int ->
  let m := calculateMetrics now s in
  CompletedProcesses m = n /\
  (0 < n -> AverageTurnaroundTime m = Float64.div (Float64.of_int turnaround) (Float64.of_int n) /\
            AverageResponseTime m = Float64.div (Float64.of_int response) (Float64.of_int n)) /\
  (0 < currentTime s -> CPUUtilization m =
     Float64.mul (Float64.div (Float64.of_int busy) (Float64.of_int (currentTime s)))
                 (Float64.of_int 100)) /\
  TotalTime m = currentTime s /\ ContextSwitches m = contextSwitches s.
Proof.
  intros Hr procs turnaround response busy n Hn Hturn m.
  destruct (reachable_wf _ Hr) as [Hwf Ht].
  assert (Hfin : forall l, l ∈ procs -> _) by exact (fun l => finished_times _ s l Hwf).
  assert (Ecount : zsum (completed s (fun _ => 1)) (processes s) = n)
    by (rewrite zsum_completed; apply zsum_one).
  assert (Eturn : zsum (completed s TurnaroundTime) (processes s) = turnaround).
  { rewrite zsum_completed. apply zsum_ext. intros l Hl. apply (Hfin l Hl). }
  assert (Eresp : zsum (completed s ResponseTime) (processes s) = response).
  { rewrite zsum_completed. apply zsum_ext. intros l Hl. apply (Hfin l Hl). }
  assert (Hresp : 0 <= response <= turnaround).
  { split; [apply zsum_nonneg|apply zsum_le]; intros l Hl; specialize (Hfin l Hl); simpl in Hfin; lia. }
  assert (Ebusy : currentTime s -ᵢ totalIdleTime s = busy).
  { destruct (reachable_accounted s Hr) as [Hi Hclock _ _ _].
    change busy with (zsum (fun l => served (deref (mem s) l)) (processes s)).
    assert (0 <= zsum (fun l => served (deref (mem s) l)) (processes s))
      by (apply zsum_nonneg; intros l Hl; by apply (wf_served _ _ _ Hwf)).
    unwrap. lia. }
  assert (Hw : forall z, 0 <= z <= max_int -> wrap64 z = z)
    by (intros z Hz; apply wrap64_small; unfold in_int, min_int, max_int in *; lia).
  unfold m, calculateMetrics. rewrite totals_eq, Ecount, Eturn, Eresp, Ebusy.
  cbn [completedCount totalTurnaround totalWaiting totalResponse CompletedProcesses
       AverageTurnaroundTime AverageResponseTime CPUUtilization TotalTime ContextSwitches].
  rewrite (Hw n), (Hw turnaround), (Hw response) by lia.
  split; [done|]. split; [|split; [|done]].
  - intros Hpos. by rewrite (proj2 (Z.ltb_lt 0 n) Hpos).
  - intros Hpos. by rewrite (proj2 (Z.ltb_lt 0 _) Hpos).
Qed.

Lemma metrics_are_exact_averages_witness :
  CompletedProcesses (calculateMetrics 7 (Example.ticks 3 Example.start)) = 2.
Proof.
  destruct (metrics_are_exact_averages (Example.ticks 3 Example.start) 7) as (-> & _).
  - apply Example.ticks_reachable. lia.
  - vm_compute. discriminate.
  - vm_compute. discriminate.
  - vm_compute. reflexivity.
Defined.
