(* ===== verification/SimProgress.v ===== *)
(** * Every simulation completes

    A measure every tick of an incomplete simulation decreases: the CPU time
    and the I/O time still to spend and the time until the last arrival. With
    it, running enough ticks completes every process, whatever the policy. *)

From S2P Require Import Prelude.
From S2P Require Import Float64.
From S2P Require Import Process.
From S2P Require Import Scheduler.
From S2P Require Import Simulator.
From S2P Require Import SimInvariant.
From S2P Require Import SimSteps.
From S2P Require Import SimTick.
From S2P Require Import SimReach.
From S2P Require Import SimAccounting.

(** CPU time still to spend. *)
Definition cpu_total {Sd} (s : Simulator Sd) : Z :=
  zsum (fun l => RemainingTime (deref (mem s) l)) (processes s).

(** [A] bounds the arrival times. *)
Definition arrives_by {Sd} (A : Z) (s : Simulator Sd) : Prop :=
  forall l, l ∈ processes s -> ArrivalTime (deref (mem s) l) <= A.

Definition work_left {Sd} (A : Z) (s : Simulator Sd) : Z :=
  cpu_total s + io_total s + Z.max 0 (A - currentTime s).

(** The same processes in the same configuration. *)
Record continues {Sd} (s s' : Simulator Sd) : Prop := {
  ct_procs : processes s' = processes s;
  ct_config : forall l, config (deref (mem s') l) = config (deref (mem s) l)
}.

Section progress.
Context {Sd : Type} `{SchedulerLaws Sd}.
Implicit Types (s : Simulator Sd) (l : loc).

Lemma io_work_nonneg now p : proc_wf now p -> 0 <= io_work p.
Proof.
  intros Hp. unfold io_work.
  assert (0 <= IORemaining p).
  { destruct (decide (State p = StateWaiting)) as [Hs|Hs].
    - pose proof (pw_io_some _ _ Hp Hs). lia.
    - by rewrite (pw_io_none _ _ Hp Hs). }
  assert (0 <= zsum burst_work (drop (Z.to_nat (CurrentIOIndex p)) (IOBursts p))); [|lia].
  apply zsum_nonneg. intros b _. unfold burst_work. destruct (Completed b); lia.
Qed.

Lemma work_left_nonneg A now s : sim_wf now s -> 0 <= cpu_total s /\ 0 <= io_total s /\ 0 <= work_left A s.
Proof.
  intros [Hwf _].
  assert (0 <= cpu_total s /\ 0 <= io_total s); [|unfold work_left; lia].
  split; apply zsum_nonneg; intros l Hl; pose proof (wf_procs _ _ _ _ _ _ Hwf l Hl) as Hp.
  - pose proof (pw_remaining _ _ Hp). lia.
  - by eapply io_work_nonneg.
Qed.

(** Incomplete means CPU time is left. *)
Lemma incomplete_cpu now s : sim_wf now s -> isComplete s = false -> 0 < cpu_total s.
Proof.
  intros Hsim Hc. pose proof Hsim as [Hwf _].
  assert (Hle : 0 <= cpu_total s) by apply (work_left_nonneg 0 _ _ Hsim).
  destruct (Z.eq_dec (cpu_total s) 0) as [He|]; [|lia]. exfalso.
  apply not_true_iff_false in Hc. apply Hc. apply (isComplete_terminated now s Hsim).
  intros l Hl. apply (pw_done now); [by apply (wf_procs _ _ _ _ _ _ Hwf)|].
  assert (RemainingTime (deref (mem s) l) <= cpu_total s).
  { apply (zsum_elem (fun l => RemainingTime (deref (mem s) l))); [|done].
    intros y Hy. pose proof (pw_remaining _ _ (wf_procs _ _ _ _ _ _ Hwf y Hy)). lia. }
  pose proof (pw_remaining _ _ (wf_procs _ _ _ _ _ _ Hwf l Hl)). lia.
Qed.

Lemma ticked_cpu s s' : NoDup (processes s) -> ticked s s' ->
  cpu_total s' = cpu_total s - 1 \/ cpu_total s' = cpu_total s /\ idled s s'.
Proof.
  intros Hnd [Hp _ _ _ _ [[c []]|Hid] _]; unfold cpu_total; rewrite Hp.
  - left. rewrite (zsum_change _ (fun l => RemainingTime (deref (mem s) l)) _ c); auto with lia.
  - right. split; [|done]. apply zsum_ext. intros l _. apply (id_remaining _ _ Hid).
Qed.

Lemma ticked_arrives A s s' : ticked s s' -> arrives_by A s -> arrives_by A s'.
Proof.
  intros T HA l. rewrite (tk_procs _ _ T). intros Hl.
  destruct (config_eq_inv _ _ (tk_config _ _ T l)) as (_ & _ & -> & _). by apply HA.
Qed.

(** The measure decreases. *)
Lemma ticked_decreases A s s' :
  sim_wf (currentTime s) s -> sim_wf (currentTime s') s' -> ticked s s' -> arrives_by A s ->
  isComplete s = false -> work_left A s' < work_left A s.
Proof.
  intros Hwf Hwf' T HA Hc. pose proof (tk_io _ _ T). pose proof (tk_time _ _ T).
  pose proof (wf_nodup _ _ _ _ _ _ (proj1 Hwf)) as Hnd.
  unfold work_left. destruct (ticked_cpu _ _ Hnd T) as [|[Hcpu Hid]]; [lia|].
  destruct (id_progress _ _ Hid) as [|[(l & Hl & _ & Ha)|Hall]]; [lia| |].
  - specialize (HA l Hl). lia.
  - pose proof (incomplete_cpu _ _ Hwf Hc) as Hpos. rewrite <-Hcpu in Hpos.
    assert (cpu_total s' = 0); [|lia]. apply zsum_zero. intros l Hl.
    apply (pw_done (currentTime s')); [by apply (wf_procs _ _ _ _ _ _ (proj1 Hwf'))|].
    apply Hall. by rewrite (tk_procs _ _ T) in Hl.
Qed.

Context `{GoSortLaws}.

Lemma continues_burst s s' : continues s s' ->
  zsum (fun l => BurstTime (deref (mem s') l)) (processes s') =
  zsum (fun l => BurstTime (deref (mem s) l)) (processes s).
Proof.
  intros [Hp Hc]. rewrite Hp. apply zsum_ext. intros l _.
  by destruct (config_eq_inv _ _ (Hc l)) as (_ & _ & _ & -> & _).
Qed.

Lemma ticked_burst s s' : ticked s s' ->
  zsum (fun l => BurstTime (deref (mem s') l)) (processes s') =
  zsum (fun l => BurstTime (deref (mem s) l)) (processes s).
Proof. intros T. apply continues_burst. by split; apply T. Qed.

(** A tick from a reachable state. *)
Lemma reachable_tick s : reachable s -> currentTime s < max_int ->
  exists s', executeTimeUnit s = Some s' /\ reachable s' /\ ticked s s'.
Proof.
  intros Hr Ht. destruct (reachable_wf _ Hr) as [Hwf Ht0].
  destruct (executeTimeUnit_spec s) as (s' & He & _ & T); [done|lia|].
  exists s'. split; [done|]. split; [by eapply reach_tick|done].
Qed.

(** Whatever the fuel, a run stays in the reachable states. *)
Lemma run_reachable fuel : forall s s', reachable s -> currentTime s + Z.of_nat fuel <= max_int ->
  runToCompletion fuel s = Some s' -> reachable s'.
Proof.
  induction fuel as [|fuel IH]; intros s s' Hr Hmax; [done|].
  destruct (reachable_tick s Hr) as (s1 & He & Hr1 & T); [lia|]. simpl. rewrite He. simpl.
  destruct (isComplete s1); [by intros [= <-]|]. apply (IH s1 s' Hr1). rewrite (tk_time _ _ T). lia.
Qed.

Lemma run_terminates_reachable A fuel : forall s,
  reachable s -> arrives_by A s -> isComplete s = false ->
  work_left A s <= Z.of_nat fuel -> currentTime s + work_left A s <= max_int ->
  exists s', runToCompletion fuel s = Some s' /\ reachable s' /\ isComplete s' = true /\
    continues s s' /\ currentTime s < currentTime s' <= currentTime s + work_left A s.
Proof.
  induction fuel as [|fuel IH]; intros s Hr HA Hc Hfuel Hmax;
    destruct (reachable_wf _ Hr) as [Hwf Ht];
    pose proof (incomplete_cpu _ _ Hwf Hc) as Hpos;
    destruct (work_left_nonneg A _ _ Hwf) as (_ & Hio & _).
  - unfold work_left in Hfuel. lia.
  - assert (1 <= work_left A s) by (unfold work_left; lia).
    destruct (reachable_tick s Hr) as (s1 & He & Hr1 & T); [lia|].
    pose proof (tk_time _ _ T) as Htime. destruct (reachable_wf _ Hr1) as [Hwf1 _].
    pose proof (ticked_decreases A _ _ Hwf Hwf1 T HA Hc) as Hdec.
    simpl. rewrite He. simpl. destruct (isComplete s1) eqn:Hc1.
    + exists s1. split; [done|]. split; [done|]. split; [done|].
      split; [by split; apply T|lia].
    + destruct (IH s1) as (s' & Hrun & Hr' & Hdone & [Cp Cc] & Hb); try done; try lia.
      * by eapply ticked_arrives.
      * exists s'. split; [done|]. split; [done|]. split; [done|].
        split; [|lia]. split; [rewrite Cp; apply T|]. intros l. rewrite Cc. apply T.
Qed.

(** ** A fresh simulation *)

Definition setup (ps : list Process) (sched : Sd) : Simulator Sd :=
  AddProcesses ps (NewSimulator sched).

Lemma AddProcesses_spec ps : forall s,
  reachable s -> Forall admissible ps ->
  let s' := AddProcesses ps s in
  reachable s' /\ currentTime s' = currentTime s /\ totalIdleTime s' = totalIdleTime s /\
  (forall f, zsum (fun l => f (deref (mem s') l)) (processes s') =
     zsum (fun l => f (deref (mem s) l)) (processes s) + zsum f ps) /\
  (forall P : Process -> Prop, Forall P ps ->
     (forall l, l ∈ processes s -> P (deref (mem s) l)) ->
     forall l, l ∈ processes s' -> P (deref (mem s') l)).
Proof.
  unfold AddProcesses. induction ps as [|p ps IH]; intros s Hr Hall; cbn [fold_left].
  { split; [done|]. split; [done|]. split; [done|].
    split; [intros f; simpl; lia|auto]. }
  apply Forall_cons in Hall as [Hp Hall].
  pose proof (reach_add p s Hr Hp) as Hr1.
  destruct (reachable_wf _ Hr) as [[Hwf _] _].
  assert (Hd : forall l, l ∈ processes s -> deref (mem (AddProcess p s)) l = deref (mem s) l).
  { intros l Hl. rewrite AddProcess_mem, deref_app. apply (wf_dom _ _ _ _ _ _ Hwf) in Hl.
    case_decide; [lia|done]. }
  assert (Hnew : deref (mem (AddProcess p s)) (length (mem s)) = p)
    by (rewrite AddProcess_mem, deref_app; by rewrite decide_True).
  destruct (IH _ Hr1 Hall) as (? & Ht & Hi & Hsum & HP).
  split; [done|]. split; [by rewrite Ht|]. split; [by rewrite Hi|]. split.
  - intros f. rewrite Hsum, (AddProcess_procs p s), zsum_app. cbn [zsum]. rewrite Hnew.
    rewrite (zsum_ext _ (fun l => f (deref (mem s) l))) by (intros; by rewrite Hd). lia.
  - intros P HPs Hold. apply Forall_cons in HPs as [HPp HPs]. apply HP; [done|].
    intros l. rewrite (AddProcess_procs p s), elem_of_app, list_elem_of_singleton.
    intros [Hl| ->]; [rewrite Hd by done; by apply Hold|by rewrite Hnew].
Qed.

Lemma setup_spec ps sched :
  sched_ok sched -> Forall admissible ps ->
  let s := setup ps sched in
  reachable s /\ currentTime s = 0 /\ totalIdleTime s = 0 /\
  (forall f, zsum (fun l => f (deref (mem s) l)) (processes s) = zsum f ps) /\
  (forall P : Process -> Prop, Forall P ps ->
     forall l, l ∈ processes s -> P (deref (mem s) l)).
Proof.
  intros Hok Hall. destruct (AddProcesses_spec ps _ (reach_new sched Hok) Hall)
    as (Hr & Ht & Hi & Hsum & HP).
  split; [done|]. split; [done|]. split; [done|]. split; [done|].
  intros P HPs. apply HP; [done|]. by intros l ?%elem_of_nil.
Qed.

(** The heap cells of the process list are the processes added. *)
Lemma AddProcesses_perm ps : forall s,
  reachable s -> Forall admissible ps ->
  let s' := AddProcesses ps s in
  map (deref (mem s')) (processes s') ≡ₚ map (deref (mem s)) (processes s) ++ ps.
Proof.
  unfold AddProcesses. induction ps as [|p ps IH]; intros s Hr Hall; cbn [fold_left].
  { by rewrite app_nil_r. }
  apply Forall_cons in Hall as [Hp Hall].
  cbn zeta in *. rewrite (IH _ (reach_add p s Hr Hp) Hall).
  destruct (reachable_wf _ Hr) as [[Hwf _] _].
  rewrite (Permutation_map (deref (mem (AddProcess p s))) (AddProcess_procs p s)), map_app.
  cbn [map]. rewrite AddProcess_mem, deref_app, decide_True, <-app_assoc by done. simpl.
  apply Permutation_app_tail.
  rewrite (map_ext_in _ (deref (mem s))); [done|].
  intros l Hl%list_elem_of_In%(wf_dom _ _ _ _ _ _ Hwf).
  rewrite deref_app. case_decide; [lia|done].
Qed.

Lemma admissible_work p : admissible p ->
  RemainingTime p = BurstTime p /\ io_work p = zsum (fun b => Z.max 0 (Duration b)) (IOBursts p).
Proof.
  intros [_ Hr]. rewrite resetProcess_eq in Hr. rewrite <-Hr. simpl. split; [done|].
  unfold io_work. simpl. rewrite drop_0, Z.add_0_l. clear Hr. induction (IOBursts p) as [|b bs IH]; simpl; [done|].
  by rewrite IH.
Qed.

Lemma complete_served now s : sim_wf now s -> isComplete s = true ->
  forall l, l ∈ processes s -> RemainingTime (deref (mem s) l) = 0.
Proof.
  intros Hwf Hc l Hl. apply (pw_done now); [by apply (wf_procs _ _ _ _ _ _ (proj1 Hwf))|].
  by apply (isComplete_terminated now s Hwf).
Qed.

Lemma zsum_minus {A} (f g : A -> Z) ls : zsum (fun x => f x - g x) ls = zsum f ls - zsum g ls.
Proof. induction ls; simpl; lia. Qed.
End progress.

(** ** Policy independence

    Without I/O the CPU idles exactly while every arrived process is complete,
    so the service given after each tick does not depend on the policy. *)

(** CPU time given, and CPU time demanded by the processes arrived by [t]. *)
Definition served_total {Sd} (s : Simulator Sd) : Z :=
  zsum (fun l => served (deref (mem s) l)) (processes s).
Definition demand (t : Z) (p : Process) : Z := if ArrivalTime p <=? t then BurstTime p else 0.
Definition demand_total {Sd} (t : Z) (s : Simulator Sd) : Z :=
  zsum (fun l => demand t (deref (mem s) l)) (processes s).

Section independence.
Context {Sd : Type} `{SchedulerLaws Sd} `{GoSortLaws}.
Implicit Types (s : Simulator Sd) (l : loc).

Lemma demand_config t p p' : config p' = config p -> demand t p' = demand t p.
Proof. intros (_ & _ & Ha & Hb & _)%config_eq_inv. unfold demand. by rewrite Ha, Hb. Qed.

(** Service never exceeds demand. *)
Lemma served_le_demand now p : proc_wf now p -> served p <= demand (now - 1) p.
Proof.
  intros Hp. unfold served, demand. pose proof (pw_remaining _ _ Hp).
  destruct (Z.leb_spec (ArrivalTime p) (now - 1)); [lia|].
  destruct (Z.eq_dec (BurstTime p) (RemainingTime p)) as [|Hne]; [lia|].
  destruct (decide (State p = StateNew)) as [Hn|Hn]; [rewrite (pw_new _ _ Hp Hn) in *; lia|].
  pose proof (pw_arrived _ _ Hp Hn). lia.
Qed.

(** With no I/O left nobody waits. *)
Lemma no_io_not_waiting now s l :
  sim_wf now s -> io_total s = 0 -> l ∈ processes s -> State (deref (mem s) l) <> StateWaiting.
Proof.
  intros [Hwf _] Hio Hl Hs.
  pose proof (wf_procs _ _ _ _ _ _ Hwf l Hl) as Hp. pose proof (pw_io_some _ _ Hp Hs).
  assert (io_work (deref (mem s) l) <= io_total s).
  { apply (zsum_elem (fun l => io_work (deref (mem s) l))); [|done].
    intros y Hy. eapply io_work_nonneg, (wf_procs _ _ _ _ _ _ Hwf y Hy). }
  assert (IORemaining (deref (mem s) l) <= io_work (deref (mem s) l)); [|lia].
  unfold io_work at 1. apply (Z.le_trans _ (IORemaining (deref (mem s) l) + 0)); [lia|].
  apply Zplus_le_compat_l, zsum_nonneg. intros b _. unfold burst_work. destruct (Completed b); lia.
Qed.

(** One tick of service is a function of the service so far and the demand. *)
Lemma ticked_served s s' :
  sim_wf (currentTime s) s -> sim_wf (currentTime s') s' -> ticked s s' -> io_total s = 0 ->
  io_total s' = 0 /\
  served_total s' = Z.min (demand_total (currentTime s) s) (served_total s + 1).
Proof.
  intros Hwf Hwf' T Hio.
  assert (Hio' : io_total s' = 0).
  { pose proof (tk_io _ _ T). destruct (work_left_nonneg 0 _ _ Hwf') as (_ & ? & _). lia. }
  split; [done|].
  assert (Hdem : demand_total (currentTime s) s' = demand_total (currentTime s) s).
  { unfold demand_total. rewrite (tk_procs _ _ T). apply zsum_ext.
    intros l _. apply demand_config, (tk_config _ _ T). }
  assert (Hle : served_total s' <= demand_total (currentTime s) s).
  { rewrite <-Hdem. apply zsum_le. intros l Hl.
    pose proof (served_le_demand _ _ (wf_procs _ _ _ _ _ _ (proj1 Hwf') l Hl)) as Hs.
    rewrite (tk_time _ _ T) in Hs. by replace (currentTime s + 1 - 1) with (currentTime s) in Hs by lia. }
  assert (Hserved : served_total s' = served_total s + (cpu_total s - cpu_total s')).
  { unfold served_total, served, cpu_total. rewrite !zsum_minus, (ticked_burst _ _ T). lia. }
  destruct (ticked_cpu _ _ (wf_nodup _ _ _ _ _ _ (proj1 Hwf)) T) as [Hcpu|[Hcpu Hid]]; [lia|].
  assert (served_total s' = demand_total (currentTime s) s); [|lia].
  rewrite <-Hdem. apply zsum_ext. intros l Hl.
  pose proof (wf_procs _ _ _ _ _ _ (proj1 Hwf') l Hl) as Hp.
  assert (Hl0 : l ∈ processes s) by (by rewrite <-(tk_procs _ _ T)).
  destruct (id_nobody _ _ Hid l Hl0) as [Hnr Hnn].
  pose proof (no_io_not_waiting _ _ _ Hwf' Hio' Hl) as Hnw.
  pose proof (config_eq_inv _ _ (tk_config _ _ T l)) as (_ & _ & Ha & _).
  unfold served, demand. destruct (State (deref (mem s') l)) eqn:Hs; try done.
  - pose proof (id_new _ _ Hid l Hl0 Hs). rewrite (pw_new _ _ Hp Hs). ztest. lia.
  - pose proof (proj2 (pw_done _ _ Hp) Hs) as Hr0. rewrite Hr0.
    assert (HasStarted (deref (mem s') l) = true) as Hst.
    { apply (pw_started _ _ Hp). pose proof (co_burst _ (pw_config _ _ Hp)). lia. }
    pose proof (pw_response _ _ Hp Hst). pose proof (pw_final _ _ Hp Hs).
    pose proof (co_burst _ (pw_config _ _ Hp)). pose proof (tk_time _ _ T). ztest. lia.
Qed.

Lemma complete_iff_served s : sim_wf (currentTime s) s ->
  isComplete s = (served_total s =? zsum (fun l => BurstTime (deref (mem s) l)) (processes s)).
Proof.
  intros Hwf. unfold served_total, served. rewrite zsum_minus.
  destruct (isComplete s) eqn:Hc.
  - rewrite (zsum_zero (fun l => RemainingTime (deref (mem s) l)))
      by (intros l Hl; by apply (complete_served _ _ Hwf Hc)). symmetry. apply Z.eqb_eq. lia.
  - pose proof (incomplete_cpu _ _ Hwf Hc) as Hpos. unfold cpu_total in Hpos.
    symmetry. apply Z.eqb_neq. lia.
Qed.
End independence.

(** Two simulations of the same processes, perhaps under different policies. *)
Record lockstep {Sd1 Sd2} (s1 : Simulator Sd1) (s2 : Simulator Sd2) : Prop := {
  lk_time : currentTime s1 = currentTime s2;
  lk_served : served_total s1 = served_total s2;
  lk_io1 : io_total s1 = 0;
  lk_io2 : io_total s2 = 0;
  lk_demand : forall t, demand_total t s1 = demand_total t s2;
  lk_burst : zsum (fun l => BurstTime (deref (mem s1) l)) (processes s1) =
             zsum (fun l => BurstTime (deref (mem s2) l)) (processes s2)
}.

Section two_policies.
Context {Sd1 Sd2 : Type} `{SchedulerLaws Sd1} `{SchedulerLaws Sd2} `{GoSortLaws}.

Lemma demand_ticked {Sd} (s s' : Simulator Sd) t : ticked s s' -> demand_total t s' = demand_total t s.
Proof.
  intros T. unfold demand_total. rewrite (tk_procs _ _ T). apply zsum_ext.
  intros l _. apply demand_config, (tk_config _ _ T).
Qed.

Lemma lockstep_tick (s1 : Simulator Sd1) (s2 : Simulator Sd2) u1 u2 :
  sim_wf (currentTime s1) s1 -> sim_wf (currentTime s2) s2 ->
  sim_wf (currentTime u1) u1 -> sim_wf (currentTime u2) u2 ->
  lockstep s1 s2 -> ticked s1 u1 -> ticked s2 u2 ->
  lockstep u1 u2 /\ isComplete u1 = isComplete u2.
Proof.
  intros W1 W2 V1 V2 [Lt Ls Li1 Li2 Ld Lb] T1 T2.
  destruct (ticked_served _ _ W1 V1 T1 Li1) as [Ui1 Us1].
  destruct (ticked_served _ _ W2 V2 T2 Li2) as [Ui2 Us2].
  apply and_wlog_r.
  - split; try done.
    + rewrite (tk_time _ _ T1), (tk_time _ _ T2). congruence.
    + rewrite Us1, Us2, Ld, Ls, Lt. done.
    + intros t. by rewrite (demand_ticked _ _ t T1), (demand_ticked _ _ t T2).
    + by rewrite (ticked_burst _ _ T1), (ticked_burst _ _ T2).
  - intros L. rewrite (complete_iff_served u1 V1), (complete_iff_served u2 V2).
    by rewrite (lk_served _ _ L), (lk_burst _ _ L).
Qed.

Lemma lockstep_run fuel : forall (s1 : Simulator Sd1) (s2 : Simulator Sd2) s1' s2',
  reachable s1 -> reachable s2 -> lockstep s1 s2 -> currentTime s1 + Z.of_nat fuel <= max_int ->
  runToCompletion fuel s1 = Some s1' -> runToCompletion fuel s2 = Some s2' ->
  currentTime s1' = currentTime s2' /\ served_total s1' = served_total s2'.
Proof.
  induction fuel as [|fuel IH]; intros s1 s2 s1' s2' Hr1 Hr2 L Hmax; [done|].
  pose proof (lk_time _ _ L) as Lt.
  destruct (reachable_tick s1 Hr1) as (u1 & He1 & Hu1 & T1); [lia|].
  destruct (reachable_tick s2 Hr2) as (u2 & He2 & Hu2 & T2); [lia|].
  simpl. rewrite He1, He2. simpl.
  destruct (reachable_wf _ Hr1) as [W1 _], (reachable_wf _ Hr2) as [W2 _].
  destruct (reachable_wf _ Hu1) as [V1 _], (reachable_wf _ Hu2) as [V2 _].
  destruct (lockstep_tick s1 s2 u1 u2 W1 W2 V1 V2 L T1 T2) as [L' ->]. destruct (isComplete u2).
  - intros [= <-] [= <-]. split; [apply (lk_time _ _ L')|apply (lk_served _ _ L')].
  - apply IH; try done. rewrite (tk_time _ _ T1). lia.
Qed.
End two_policies.

(** ** Properties *)

Lemma setup_incomplete {Sd} `{SchedulerLaws Sd} `{GoSortLaws} ps (sched : Sd) A :
  sched_ok sched -> Forall admissible ps -> ps <> [] -> Forall (fun p => ArrivalTime p <= A) ps ->
  0 <= A ->
  let s := setup ps sched in
  isComplete s = false /\ arrives_by A s /\
  work_left A s = A + zsum BurstTime ps +
    zsum (fun p => zsum (fun b => Z.max 0 (Duration b)) (IOBursts p)) ps.
Proof.
  intros Hok Hadm Hne HA Hpos. destruct (setup_spec ps sched Hok Hadm) as (Hr & Ht & _ & Hsum & HP).
  set (s := setup ps sched) in *. simpl.
  assert (Hcpu : cpu_total s = zsum BurstTime ps).
  { unfold cpu_total. rewrite Hsum. apply zsum_ext. intros p Hp.
    rewrite Forall_forall in Hadm. by apply admissible_work, Hadm. }
  split; [|split].
  - destruct (reachable_wf _ Hr) as [Hwf _].
    rewrite (complete_iff_served _ Hwf).
    unfold served_total, served. rewrite zsum_minus. fold (cpu_total s). rewrite Hcpu.
    apply Z.eqb_neq. destruct ps as [|p ps]; [done|]. simpl.
    apply Forall_cons in Hadm as [[Hp _] Hadm]. pose proof (co_burst _ Hp).
    assert (0 <= zsum BurstTime ps); [|lia]. apply zsum_nonneg. intros q Hq.
    rewrite Forall_forall in Hadm. pose proof (co_burst _ (proj1 (Hadm q Hq))). lia.
  - intros l. by apply (HP (fun p => ArrivalTime p <= A)).
  - unfold work_left. rewrite Hcpu, Ht. unfold io_total. rewrite Hsum.
    rewrite (zsum_ext io_work (fun p => zsum (fun b => Z.max 0 (Duration b)) (IOBursts p)));
      [lia|]. intros p Hp. rewrite Forall_forall in Hadm. by apply admissible_work, Hadm.
Qed.

(** C3: From every reachable incomplete state, whatever the policy, running
    enough ticks completes every process: the number of ticks needed is at most
    the remaining CPU time, plus the remaining I/O time, plus the time until the
    last arrival. *)
Theorem run_terminates {Sd} `{SchedulerLaws Sd} `{GoSortLaws} (s : Simulator Sd) A fuel :
  reachable s -> isComplete s = false ->
  (forall l, l ∈ processes s -> ArrivalTime (deref (mem s) l) <= A) ->
  let left := zsum (fun l => RemainingTime (deref (mem s) l)) (processes s) +
              zsum (fun l => io_work (deref (mem s) l)) (processes s) +
              Z.max 0 (A - currentTime s) in
  left <= Z.of_nat fuel -> currentTime s + left <= max_int ->
  exists s', runToCompletion fuel s = Some s' /\ reachable s' /\ isComplete s' = true /\
    (forall l, l ∈ processes s' -> RemainingTime (deref (mem s') l) = 0) /\
    currentTime s < currentTime s' <= currentTime s + left.
Proof.
  intros Hr Hc HA left Hfuel Hmax.
  destruct (run_terminates_reachable A fuel s) as (s' & Hrun & Hr' & Hdone & _ & Hb); [done..|].
  exists s'. split; [done|]. split; [done|]. split; [done|]. split; [|done].
  destruct (reachable_wf _ Hr') as [Hwf _]. by apply (complete_served _ _ Hwf).
Qed.

(** After one tick of the example two units of work are left. *)
Lemma run_terminates_witness :
  exists s', runToCompletion 2 (Example.ticks 1 Example.start) = Some s' /\ isComplete s' = true.
Proof.
  destruct (run_terminates (Example.ticks 1 Example.start) 1 2) as (s' & Hrun & _ & Hc & _).
  - apply Example.ticks_reachable. lia.
  - vm_compute. reflexivity.
  - assert (Hp : processes (Example.ticks 1 Example.start) = [0%nat; 1%nat])
      by (vm_compute; reflexivity).
    intros l. rewrite Hp, elem_of_cons, list_elem_of_singleton.
    intros [->| ->]; vm_compute; discriminate.
  - vm_compute. discriminate.
  - vm_compute. discriminate.
  - eauto.
Defined.

(** Building a simulation from admissible processes, all arriving by [A], and
    running it completes after at least the sum of the bursts and at most [A]
    plus the sum of the bursts and of the I/O durations; the difference to the
    sum of the bursts is exactly the idle time it reports. *)
Theorem makespan_bounds {Sd} `{SchedulerLaws Sd} `{GoSortLaws} (sched : Sd) ps A :
  sched_ok sched -> Forall admissible ps -> ps <> [] ->
  Forall (fun p => ArrivalTime p <= A) ps -> 0 <= A ->
  let work := zsum BurstTime ps in
  let io := zsum (fun p => zsum (fun b => Z.max 0 (Duration b)) (IOBursts p)) ps in
  A + work + io <= max_int ->
  exists s', runToCompletion (Z.to_nat (A + work + io)) (setup ps sched) = Some s' /\
    isComplete s' = true /\ work <= currentTime s' <= A + work + io /\
    totalIdleTime s' = currentTime s' - work.
Proof.
  intros Hok Hadm Hne HA Hpos work io Hmax.
  destruct (setup_incomplete ps sched A Hok Hadm Hne HA Hpos) as (Hc & Hby & Hw).
  destruct (setup_spec ps sched Hok Hadm) as (Hr & Ht & _ & Hsum & _).
  fold work io in Hw. destruct (reachable_wf _ Hr) as [Hwf _].
  destruct (work_left_nonneg A _ _ Hwf) as (_ & _ & Hnn).
  assert (Hfuel : work_left A (setup ps sched) <= Z.of_nat (Z.to_nat (A + work + io))).
  { rewrite Hw in *. rewrite Z2Nat.id by exact Hnn. reflexivity. }
  assert (Hend : currentTime (setup ps sched) + work_left A (setup ps sched) <= max_int)
    by (rewrite Ht, Hw; exact Hmax).
  pose proof (run_terminates_reachable A _ _ Hr Hby Hc Hfuel Hend)
    as (s' & Hrun & Hr' & Hdone & Hburst%continues_burst & Hb).
  exists s'. split; [exact Hrun|]. split; [exact Hdone|].
  destruct (reachable_accounted s' Hr') as [Hi Hclock _ _ _].
  destruct (reachable_wf _ Hr') as [Hwf' _].
  assert (Hserved : served_total s' = work).
  { unfold work. rewrite <-(Hsum BurstTime), <-Hburst. apply Z.eqb_eq.
    by rewrite <-(complete_iff_served s' Hwf'). }
  unfold served_total in Hserved. lia.
Qed.

(** Two processes with a gap between them: the CPU idles for three units. *)
Definition gap : list Process := [Example.process 1 0 2; Example.process 2 5 1].

Lemma gap_admissible : Forall admissible gap.
Proof.
  apply Forall_cons_2; [|apply Forall_cons_2; [|apply Forall_nil_2]];
    apply Example.process_admissible; unfold in_int, min_int, max_int; lia.
Qed.

Lemma makespan_bounds_witness :
  exists s', runToCompletion 8 (setup gap FCFS.NewFCFSScheduler) = Some s' /\
    totalIdleTime s' = currentTime s' - 3.
Proof.
  destruct (makespan_bounds FCFS.NewFCFSScheduler gap 5) as (s' & Hrun & _ & _ & Hidle).
  - exact I.
  - exact gap_admissible.
  - discriminate.
  - repeat constructor; vm_compute; discriminate.
  - lia.
  - vm_compute. discriminate.
  - exists s'. split; [exact Hrun|exact Hidle].
Defined.

(** A fresh simulation without I/O completes within the last arrival and the bursts. *)
Lemma setup_completes {Sd} `{SchedulerLaws Sd} `{GoSortLaws} (sched : Sd) ps A :
  sched_ok sched -> Forall admissible ps -> ps <> [] -> Forall (fun p => IOBursts p = []) ps ->
  Forall (fun p => ArrivalTime p <= A) ps -> 0 <= A -> A + zsum BurstTime ps <= max_int ->
  exists s', runToCompletion (Z.to_nat (A + zsum BurstTime ps)) (setup ps sched) = Some s' /\
    reachable s' /\ isComplete s' = true.
Proof.
  intros Hok Hadm Hne Hio HA Hpos Hmax.
  assert (Hio0 : zsum (fun p => zsum (fun b => Z.max 0 (Duration b)) (IOBursts p)) ps = 0).
  { apply zsum_zero. intros p Hp. rewrite Forall_forall in Hio. by rewrite (Hio p Hp). }
  destruct (setup_incomplete ps sched A Hok Hadm Hne HA Hpos) as (Hc & Hby & Hw).
  destruct (setup_spec ps sched Hok Hadm) as (Hr & Ht & _). rewrite Hio0 in Hw.
  destruct (run_terminates_reachable A (Z.to_nat (A + zsum BurstTime ps)) (setup ps sched))
    as (s' & Hrun & Hs' & Hd & _); [done..|lia|lia|]. eauto.
Qed.

(** Two simulations of the same processes without I/O start in lockstep. *)
Lemma setup_lockstep {Sd1 Sd2} `{SchedulerLaws Sd1} `{SchedulerLaws Sd2} `{GoSortLaws} ps
    (sched1 : Sd1) (sched2 : Sd2) :
  sched_ok sched1 -> sched_ok sched2 -> Forall admissible ps -> Forall (fun p => IOBursts p = []) ps ->
  lockstep (setup ps sched1) (setup ps sched2).
Proof.
  intros Hok1 Hok2 Hadm Hio. rewrite Forall_forall in Hadm, Hio.
  destruct (setup_spec ps sched1 Hok1) as (_ & Ht1 & _ & Hsum1 & _); [by rewrite Forall_forall|].
  destruct (setup_spec ps sched2 Hok2) as (_ & Ht2 & _ & Hsum2 & _); [by rewrite Forall_forall|].
  assert (Hserved : zsum served ps = 0).
  { apply zsum_zero. intros p Hp. unfold served. rewrite (proj1 (admissible_work p (Hadm p Hp))). lia. }
  assert (Hwork : zsum io_work ps = 0).
  { apply zsum_zero. intros p Hp. rewrite (proj2 (admissible_work p (Hadm p Hp))). by rewrite (Hio p Hp). }
  split; unfold served_total, io_total, demand_total; intros; rewrite ?Hsum1, ?Hsum2; congruence.
Qed.

(** C14: Without I/O bursts the policy decides who runs when, but not how long the
    simulation takes: any two policies complete the same processes at the same
    time and with the same idle time. *)
Theorem makespan_policy_independent {Sd1 Sd2} `{SchedulerLaws Sd1} `{SchedulerLaws Sd2}
    `{GoSortLaws} (sched1 : Sd1) (sched2 : Sd2) ps A :
  sched_ok sched1 -> sched_ok sched2 -> Forall admissible ps -> ps <> [] ->
  Forall (fun p => IOBursts p = []) ps ->
  Forall (fun p => ArrivalTime p <= A) ps -> 0 <= A -> A + zsum BurstTime ps <= max_int ->
  let fuel := Z.to_nat (A + zsum BurstTime ps) in
  exists s1 s2, runToCompletion fuel (setup ps sched1) = Some s1 /\
    runToCompletion fuel (setup ps sched2) = Some s2 /\
    isComplete s1 = true /\ isComplete s2 = true /\
    currentTime s1 = currentTime s2 /\ totalIdleTime s1 = totalIdleTime s2.
Proof.
  intros Hok1 Hok2 Hadm Hne Hio HA Hpos Hmax fuel.
  destruct (setup_completes sched1 ps A Hok1 Hadm Hne Hio HA Hpos Hmax) as (s1 & Hrun1 & Hs1 & Hd1).
  destruct (setup_completes sched2 ps A Hok2 Hadm Hne Hio HA Hpos Hmax) as (s2 & Hrun2 & Hs2 & Hd2).
  destruct (setup_spec ps sched1 Hok1 Hadm) as (Hr1 & Ht1 & _).
  destruct (setup_spec ps sched2 Hok2 Hadm) as (Hr2 & Ht2 & _).
  assert (Hburst : 0 <= zsum BurstTime ps).
  { apply zsum_nonneg. intros p Hp. rewrite Forall_forall in Hadm.
    pose proof (co_burst _ (proj1 (Hadm p Hp))). lia. }
  exists s1, s2. repeat (split; [done|]).
  destruct (lockstep_run fuel (setup ps sched1) (setup ps sched2) s1 s2) as [Ht Hs]; try done.
  - by apply setup_lockstep.
  - unfold fuel. lia.
  - split; [done|].
    destruct (reachable_accounted s1 Hs1) as [_ Hk1 _ _ _].
    destruct (reachable_accounted s2 Hs2) as [_ Hk2 _ _ _].
    unfold served_total in Hs. lia.
Qed.

(** FCFS and Round-Robin with quantum 1. *)
Lemma makespan_policy_independent_witness :
  exists s1 s2, runToCompletion 8 (setup gap FCFS.NewFCFSScheduler) = Some s1 /\
    runToCompletion 8 (setup gap (RoundRobin.NewRoundRobinScheduler 1)) = Some s2 /\
    currentTime s1 = currentTime s2.
Proof.
  destruct (makespan_policy_independent FCFS.NewFCFSScheduler
              (RoundRobin.NewRoundRobinScheduler 1) gap 5)
    as (s1 & s2 & H1 & H2 & _ & _ & H3 & _).
  - exact I.
  - vm_compute; discriminate.
  - exact gap_admissible.
  - discriminate.
  - repeat constructor.
  - repeat constructor; vm_compute; discriminate.
  - lia.
  - vm_compute. discriminate.
  - exists s1, s2. split; [exact H1|]. split; [exact H2|exact H3].
Defined.
