(* ===== verification/SimReset.v ===== *)
(** * Reset and replay

    [Reset] promises a simulation ready to run again. For policies whose own
    [Reset] forgets what the run taught them, resetting after any run gives back
    the very state the run started from, so running again repeats it. *)

From S2P Require Import Prelude.
From S2P Require Import Float64.
From S2P Require Import Process.
From S2P Require Import Scheduler.
From S2P Require Import MultiLevel.
From S2P Require Import Lottery.
From S2P Require Import Simulator.
From S2P Require Import SimInvariant.
From S2P Require Import SimSteps.
From S2P Require Import SimTick.
From S2P Require Import SimReach.
From S2P Require Import SimProgress.

(** ** Policies that forget *)

(** The calls of a run leave [f] of the policy as it is. *)
Class RunInvariant (S : Type) `{Scheduler S} {T : Type} (f : S -> T) : Prop := {
  run_Schedule : forall s h q t, f (snd (Schedule s h q t)) = f s;
  run_AddProcess : forall s h l, f (sched_AddProcess s h l) = f s;
  run_RemoveProcess : forall s l, f (sched_RemoveProcess s l) = f s;
  run_OnQuantumExpired : forall s l, f (OnQuantumExpired s l) = f s
}.

(** What a policy learns during a run, [Reset] erases. *)
Notation ResettableScheduler S := (RunInvariant S sched_Reset).

#[export] Instance trivial_invariant (S : Type) `{Scheduler S} : RunInvariant S (fun _ => tt).
Proof. by split. Qed.

#[export] Instance FCFS_resettable : ResettableScheduler FCFS.FCFSScheduler.
Proof. by split. Qed.
#[export] Instance SJF_resettable : ResettableScheduler SJF.SJFScheduler.
Proof. by split. Qed.
#[export] Instance SRTF_resettable : ResettableScheduler SRTF.SRTFScheduler.
Proof. by split. Qed.
#[export] Instance RoundRobin_resettable : ResettableScheduler RoundRobin.RoundRobinScheduler.
Proof. by split. Qed.
#[export] Instance Priority_resettable : ResettableScheduler PriorityPolicy.PriorityScheduler.
Proof. by split. Qed.
#[export] Instance CFS_resettable : ResettableScheduler CFS.CFSScheduler.
Proof. by split. Qed.

#[export] Instance MLFQ_resettable : ResettableScheduler MLFQ.MLFQScheduler.
Proof.
  split; try done; simpl.
  - intros s _ l. unfold MLFQ.MLFQ_AddProcess. by destruct (MLFQ.levels s !! l).
  - intros s [l|]; simpl; [|done]. by destruct (_ <? _).
Qed.

#[export] Instance MLQ_resettable : ResettableScheduler MLQ.MLQScheduler.
Proof. by split. Qed.

(** The lottery forgets the draws of its own generator; with a generator
    injected by the caller there is nothing it could rewind. *)
#[export] Instance Lottery_resettable : ResettableScheduler (Lottery.LotteryScheduler (Ext := Empty_set)).
Proof.
  split; try done. intros s h q t. simpl. unfold Lottery.Lottery_Schedule.
  destruct (length q =? 0)%nat; [done|]. destruct (_ <=? 0); [done|].
  destruct s as [nm [r|[]] qu]. simpl. unfold Lottery.det_Intn.
  by destruct (_ <=? 0).
Qed.

(** ** What a tick leaves for [resetState] *)

Record rewinds {Sd T} (f : Sd -> T) (s s' : Simulator Sd) : Prop := {
  rw_sched : f (scheduler s') = f (scheduler s);
  rw_speed : speed s' = speed s;
  rw_callback : updateCallback s' = updateCallback s
}.

Section rewinds.
Context {Sd T : Type} {f : Sd -> T} `{SchedulerLaws Sd} `{!RunInvariant Sd f}.
Implicit Types (s : Simulator Sd) (l : loc).

#[export] Instance rewinds_preorder : PreOrder (rewinds f).
Proof. split; [done|]. intros s1 s2 s3 [] []. split; congruence. Qed.

Lemma rewinds_fold {A} (g : Simulator Sd -> A -> Simulator Sd) xs :
  (forall s x, rewinds f s (g s x)) -> forall s, rewinds f s (fold_left g xs s).
Proof.
  intros Hg. induction xs as [|x xs IH]; intros s; simpl; [done|].
  transitivity (g s x); auto.
Qed.

Lemma arrive_rewinds s l : rewinds f s (arrive s l).
Proof.
  unfold arrive. destruct (_ && _); [|done]. split; try done. apply run_AddProcess.
Qed.

Lemma tickIO_ref_rewinds todo : forall live s, rewinds f s (tickIO_ref todo live s).2.
Proof.
  induction todo as [|p todo IH]; intros live s; simpl; [done|].
  destruct (_ <=? 0).
  - transitivity (ioComplete p (ioCountdown p s)); [|apply IH].
    split; try done. apply run_AddProcess.
  - transitivity (ioCountdown p s); [done|apply IH].
Qed.

Lemma tickIOQueue_rewinds s : rewinds f s (tickIOQueue s).
Proof.
  rewrite tickIOQueue_eq. pose proof (tickIO_ref_rewinds (ioQueue s) [] s) as R.
  destruct (tickIO_ref _ _ _), R. by split.
Qed.

Lemma decision_rewinds s : f (scheduler (decision_state s)) = f (scheduler s).
Proof.
  etransitivity; [apply (rw_sched _ _ _ (tickIOQueue_rewinds _))|].
  apply (rw_sched _ _ _ (rewinds_fold arrive (processes s) arrive_rewinds s)).
Qed.

Lemma scheduleNextProcess_rewinds s : rewinds f s (scheduleNextProcess s).
Proof.
  unfold scheduleNextProcess. destruct (_ =? _)%nat; [done|].
  pose proof (run_Schedule (scheduler s) (mem s) (readyQueue s) (currentTime s)) as R.
  destruct (Schedule _ _ _ _) as [[l|] sched]; [|done].
  cbn [snd] in R. destruct (negb _); simpl; destruct (currentProcess s); try done; by destruct (_ =? _).
Qed.

Lemma preempt_rewinds s : rewinds f s (preemptCurrentProcess s).
Proof. unfold preemptCurrentProcess. by destruct (currentProcess s). Qed.

Lemma dispatch_rewinds s s' : dispatch s = Some s' -> rewinds f s s'.
Proof.
  unfold dispatch. destruct (currentProcess s) as [c|];
    [|intros [= <-]; apply scheduleNextProcess_rewinds].
  destruct (IsComplete _); [intros [= <-]; apply scheduleNextProcess_rewinds|].
  destruct (shouldPreempt s) as [[]|]; simpl; intros [= <-]; [|done].
  transitivity (preemptCurrentProcess s); [apply preempt_rewinds|apply scheduleNextProcess_rewinds].
Qed.

Lemma executeProcess_rewinds d s s' : executeProcess d s = Some s' -> rewinds f s s'.
Proof.
  unfold executeProcess. destruct (currentProcess s) as [c|]; [|by intros [= <-]].
  destruct (Execute _ _ _) as [p|]; [|done]. cbn [mbind option_bind].
  destruct (IsComplete p); intros [= <-]; [|done]. split; try done. apply run_RemoveProcess.
Qed.

Lemma checkIO_loop_rewinds fuel p cpu : forall s s', checkIO_loop fuel p cpu s = Some s' -> rewinds f s s'.
Proof.
  induction fuel as [|fuel IH]; intros s s'; simpl; [by intros [= <-]|].
  destruct (_ <? Z.of_nat _); [|by intros [= <-]]. destruct (_ <? 0); [done|].
  destruct (_ !! _) as [b|]; [|done]. simpl.
  destruct (Completed b); [intros Hrun; etransitivity; [|by apply IH]; done|].
  destruct (_ && _); by intros [= <-].
Qed.

Lemma checkIOBurst_rewinds s s' : checkIOBurst s = Some s' -> rewinds f s s'.
Proof.
  unfold checkIOBurst. destruct (currentProcess s); [|by intros [= <-]].
  destruct (IsComplete _); [by intros [= <-]|]. apply checkIO_loop_rewinds.
Qed.

Lemma runCurrent_rewinds s s' : runCurrent s = Some s' -> rewinds f s s'.
Proof.
  unfold runCurrent. destruct (currentProcess s); [|by intros [= <-]].
  destruct (executeProcess 1 s) as [s1|] eqn:E1; [|done]. cbn [mbind option_bind].
  set (s2 := set_timeQuantumUsed _ s1).
  destruct (checkIOBurst s2) as [s3|] eqn:E3; [|done]. cbn [mbind option_bind]. intros Hq.
  transitivity s1; [by eapply executeProcess_rewinds|]. transitivity s2; [done|].
  transitivity s3; [by apply checkIOBurst_rewinds|].
  unfold checkQuantum in Hq. destruct (currentProcess s3) as [c|]; [|by simplify_eq].
  destruct (QuantumFor _ _) as [q|]; [|done]. simpl in Hq.
  destruct (_ && _); simplify_eq; [|done].
  transitivity (expired c s3); [|apply scheduleNextProcess_rewinds].
  split; try done. apply run_OnQuantumExpired.
Qed.

Lemma executeTimeUnit_rewinds s s' : executeTimeUnit s = Some s' -> rewinds f s s'.
Proof.
  unfold executeTimeUnit. set (s1 := checkArrivals s). set (s2 := tickIOQueue s1).
  destruct (dispatch s2) as [s3|] eqn:E3; [|done]. cbn [mbind option_bind].
  destruct (runCurrent s3) as [s4|] eqn:E4; [|done]. cbn [mbind option_bind]. intros [= <-].
  transitivity s1; [apply rewinds_fold, arrive_rewinds|].
  transitivity s2; [apply tickIOQueue_rewinds|].
  transitivity s3; [by apply dispatch_rewinds|].
  transitivity s4; [by apply runCurrent_rewinds|].
  unfold advanceClock. etransitivity; [|apply rewinds_fold].
  - done.
  - intros s5 l. unfold countWaiting. by destruct (_ && _).
Qed.

End rewinds.

(** ** Replay *)

Section replay.
Context {Sd : Type} `{SchedulerLaws Sd} `{!ResettableScheduler Sd} `{GoSortLaws}.
Implicit Types (s : Simulator Sd) (l : loc).

Lemma resetProcess_config p q : config p = config q -> resetProcess p = resetProcess q.
Proof.
  intros (E1 & E2 & E3 & E4 & E5 & E6 & E7 & E8 & E9)%config_eq_inv.
  rewrite !resetProcess_eq, E1, E2, E3, E4, E5, E6, E7, E8. f_equal.
  revert E9. generalize (IOBursts p), (IOBursts q).
  induction l as [|b l IH]; intros [|b' l']; try done. simpl. intros [= ? ? Hl].
  rewrite (IH _ Hl). destruct b, b'; simpl in *. by subst.
Qed.

Lemma run_rewinds fuel : forall s s',
  reachable s -> currentTime s + Z.of_nat fuel <= max_int -> runToCompletion fuel s = Some s' ->
  reachable s' /\ rewinds sched_Reset s s' /\ processes s' = processes s /\
  length (mem s') = length (mem s) /\
  forall l, config (deref (mem s') l) = config (deref (mem s) l).
Proof.
  induction fuel as [|fuel IH]; intros s s' Hr Hmax; [done|].
  destruct (reachable_tick s Hr) as (s1 & He & Hr1 & T); [lia|].
  pose proof (executeTimeUnit_rewinds _ _ He) as R1.
  simpl. rewrite He. simpl. destruct (isComplete s1).
  - intros [= <-]. split; [done|]. split; [done|]. by destruct T.
  - intros Hrun. destruct (IH s1 s' Hr1) as (Hr' & R & Hp & Hlen & Hc);
      [rewrite (tk_time _ _ T); lia|done|].
    split; [done|]. split; [by transitivity s1|]. destruct T as [Tp Tl _ Tc _ _ _].
    split; [congruence|]. split; [congruence|]. intros l. by rewrite Hc.
Qed.

(** Resetting undoes a run. *)
Lemma resetState_run fuel s s' :
  reachable s -> currentTime s + Z.of_nat fuel <= max_int -> runToCompletion fuel s = Some s' ->
  resetState s' = resetState s.
Proof.
  intros Hr Hmax Hrun. destruct (run_rewinds fuel s s' Hr Hmax Hrun) as (Hr' & [Rs Rv Rc] & Hp & Hlen & Hc).
  destruct (reachable_wf _ Hr) as [Hwf _], (reachable_wf _ Hr') as [Hwf' _].
  rewrite (resetState_eq _ _ Hwf), (resetState_eq _ _ Hwf'), Rs, Rv, Rc, Hp.
  assert (map resetProcess (mem s') = map resetProcess (mem s)) as ->; [|done].
  apply list_eq. intros l. change (map resetProcess) with (fmap (M := list) resetProcess).
  rewrite !list_lookup_fmap. destruct (decide (l < length (mem s))%nat) as [Hl|Hl].
  - destruct (lookup_lt_is_Some_2 (mem s) l Hl) as [p Hlp].
    destruct (lookup_lt_is_Some_2 (mem s') l ltac:(lia)) as [p' Hlp'].
    specialize (Hc l). unfold deref in Hc.
    rewrite !list_lookup_total_alt, Hlp, Hlp' in Hc. rewrite Hlp, Hlp'. simpl.
    f_equal. by apply resetProcess_config.
  - by rewrite !lookup_ge_None_2 by lia.
Qed.

Lemma AddProcesses_frame ps : forall s,
  let s' := AddProcesses ps s in
  s' = {| scheduler := scheduler s; mem := mem s ++ ps; processes := processes s';
          readyQueue := readyQueue s; ioQueue := ioQueue s; currentProcess := currentProcess s;
          currentTime := currentTime s; ganttChart := ganttChart s; events := events s;
          contextSwitches := contextSwitches s; state := state s; speed := speed s;
          updateCallback := updateCallback s; lastGanttUpdate := lastGanttUpdate s;
          totalIdleTime := totalIdleTime s; timeQuantumUsed := timeQuantumUsed s |}.
Proof.
  unfold AddProcesses. induction ps as [|p ps IH]; intros s; cbn [fold_left].
  - rewrite app_nil_r. by destruct s.
  - cbn zeta in *. rewrite IH at 1. rewrite AddProcess_mem, <-app_assoc. done.
Qed.

(** A fresh simulation is what a reset leaves. *)
Lemma resetState_setup ps sched :
  sched_ok sched -> sched_Reset sched = sched -> Forall admissible ps ->
  resetState (setup ps sched) = setup ps sched.
Proof.
  intros Hok Hreset Hadm. destruct (setup_spec ps sched Hok Hadm) as (Hr & _).
  destruct (reachable_wf _ Hr) as [Hwf _]. rewrite (resetState_eq _ _ Hwf).
  pose proof (AddProcesses_frame ps (NewSimulator sched)) as E. cbn zeta in E.
  unfold setup. rewrite E. simpl. rewrite Hreset. f_equal.
  clear -Hadm. induction Hadm as [|p ps [_ Hp] _ IH]; simpl; [done|]. by rewrite Hp, IH.
Qed.
End replay.

(** ** Properties *)

(** C15: Reset and run again: for every policy that forgets on [Reset] (all of
    them, the lottery with its own generator included), resetting a simulation
    that has run to completion gives back exactly the state it was built in,
    and running that repeats the run with the identical result. *)
Theorem reset_replays_the_run {Sd} `{SchedulerLaws Sd} `{!ResettableScheduler Sd} `{GoSortLaws}
    (sched : Sd) ps fuel s' :
  sched_ok sched -> sched_Reset sched = sched -> Forall admissible ps ->
  Z.of_nat fuel <= max_int -> runToCompletion fuel (setup ps sched) = Some s' ->
  resetState s' = setup ps sched /\ runToCompletion fuel (resetState s') = Some s'.
Proof.
  intros Hok Hreset Hadm Hmax Hrun. destruct (setup_spec ps sched Hok Hadm) as (Hr & Ht & _).
  assert (E : resetState s' = setup ps sched).
  { rewrite (resetState_run fuel (setup ps sched) s' Hr); [by apply resetState_setup|lia|done]. }
  split; [done|]. by rewrite E.
Qed.

(** Under MLFQ, whose levels the run changes. *)
Lemma reset_replays_the_run_witness :
  exists s', runToCompletion 8 (setup gap MLFQ.NewMLFQScheduler) = Some s' /\
    resetState s' = setup gap MLFQ.NewMLFQScheduler.
Proof.
  destruct (runToCompletion 8 (setup gap MLFQ.NewMLFQScheduler)) as [s'|] eqn:E.
  - exists s'. split; [reflexivity|].
    apply (reset_replays_the_run MLFQ.NewMLFQScheduler gap 8 s').
    + exact NewMLFQ_ok.
    + reflexivity.
    + exact gap_admissible.
    + vm_compute. discriminate.
    + exact E.
  - exfalso. vm_compute in E. discriminate.
Defined.
