(* ===== verification/SimMlq.v ===== *)
(** * Strict priority between the queues of MLQ

    MLQ preempts by a map from processes to levels that it fills when a process joins
    the ready queue, and chooses by levels computed afresh. In every reachable state
    the two agree on the processes that wait or run, so that nobody runs while a
    process of a higher queue is ready. With it, what the preemptive policies promise
    at every tick. *)

From stdpp Require Import gmap.
From S2P Require Import Prelude.
From S2P Require Import Float64.
From S2P Require Import Process.
From S2P Require Import Scheduler.
From S2P Require Import MultiLevel.
From S2P Require Import Simulator.
From S2P Require Import SimInvariant.
From S2P Require Import SimSteps.
From S2P Require Import SimTick.
From S2P Require Import SimReach.
From S2P Require Import SimPolicy.
From S2P Require Import SimProgress.

Section mlq.
Context `{GoSortLaws}.
Implicit Types (s : Simulator MLQ.MLQScheduler) (l c p : loc).

(** The queue of a process. *)
Definition queue_of s l : Z := MLQ.levelFor (scheduler s) (deref (mem s) l).

Definition in_line s l : Prop := l ∈ readyQueue s \/ currentProcess s = Some l.

(** The map knows the queues of the processes that wait or run. *)
Definition known s : Prop := forall l, in_line s l -> MLQ.levels (scheduler s) !! l = Some (queue_of s l).

(** A step that moves nobody between queues and keeps the map in order. *)
Record orderly s s' : Prop := {
  or_queue : forall l, queue_of s' l = queue_of s l;
  or_known : known s -> known s'
}.

#[export] Instance orderly_preorder : PreOrder orderly.
Proof.
  split; [done|]. intros s1 s2 s3 [Q1 K1] [Q2 K2]. split; [|auto]. intros l. by rewrite Q2.
Qed.

(** A step that leaves the map as it is. *)
Lemma orderly_same s s' : scheduler s' = scheduler s ->
  (forall l, Priority (deref (mem s') l) = Priority (deref (mem s) l)) ->
  (forall l, in_line s' l -> in_line s l) -> orderly s s'.
Proof.
  intros Es Ep Hin. assert (Q : forall l, queue_of s' l = queue_of s l).
  { intros l. unfold queue_of, MLQ.levelFor. by rewrite Es, Ep. }
  split; [done|]. intros K l Hl. rewrite Es, Q. auto.
Qed.

(** A process joins the ready queue. *)
Lemma orderly_join s s' p : scheduler s' = sched_AddProcess (scheduler s) (mem s') p ->
  (forall l, Priority (deref (mem s') l) = Priority (deref (mem s) l)) ->
  readyQueue s' = readyQueue s ++ [p] -> currentProcess s' = currentProcess s -> orderly s s'.
Proof.
  intros Es Ep Er Ec. assert (Q : forall l, queue_of s' l = queue_of s l).
  { intros l. unfold queue_of, MLQ.levelFor. by rewrite Es, Ep. }
  split; [done|]. intros K l Hl. rewrite Q, Es. cbn. destruct (decide (l = p)) as [->|Hne].
  - rewrite lookup_insert_eq. unfold queue_of, MLQ.levelFor. by rewrite Ep.
  - rewrite lookup_insert_ne by done. apply K. destruct Hl as [Hl|Hl]; [|right; congruence].
    rewrite Er in Hl. apply elem_of_app in Hl as [?|?%list_elem_of_singleton]; [by left|done].
Qed.

Lemma orderly_fold (f : Simulator MLQ.MLQScheduler -> loc -> Simulator MLQ.MLQScheduler) ls :
  (forall s l, orderly s (f s l)) -> forall s, orderly s (fold_left f ls s).
Proof.
  intros Hf. induction ls as [|l ls IH]; intros s; [done|]. cbn [fold_left]. etransitivity; [apply Hf|apply IH].
Qed.

Lemma arrive_orderly s p : orderly s (arrive s p).
Proof.
  unfold arrive. destruct (_ && _); [|done]. apply (orderly_join _ _ p); try done.
  intros l. by apply (upd_observe Priority).
Qed.

Lemma tickIO_ref_orderly todo : forall live s, orderly s (tickIO_ref todo live s).2.
Proof.
  induction todo as [|p todo IH]; intros live s; [done|]. cbn [tickIO_ref].
  assert (Hc : orderly s (ioCountdown p s)).
  { apply orderly_same; try done. intros l. by apply (upd_observe Priority). }
  destruct (_ <=? 0); (etransitivity; [exact Hc|]); (etransitivity; [|apply IH]); [|done].
  apply (orderly_join _ _ p); try done. intros l. by apply (upd_observe Priority).
Qed.

Lemma decision_state_orderly s : orderly s (decision_state s).
Proof.
  unfold decision_state. etransitivity; [apply (orderly_fold arrive), arrive_orderly|]. fold (checkArrivals s).
  rewrite tickIOQueue_eq. pose proof (tickIO_ref_orderly (ioQueue (checkArrivals s)) [] (checkArrivals s)) as Ho.
  destruct (tickIO_ref _ _ _) as [live s']. etransitivity; [exact Ho|]. by apply orderly_same.
Qed.

Lemma schedule_orderly now s : sim_wf now s -> currentProcess s = None -> orderly s (scheduleNextProcess s).
Proof.
  intros Hwf Hc. destruct (scheduleNextProcess_keeps now s Hwf Hc) as [_ D].
  destruct (decide (readyQueue s = [])) as [E|E].
  - apply orderly_same; [unfold scheduleNextProcess; by rewrite E|unfold scheduleNextProcess; by rewrite E|].
    destruct (di_empty _ _ D E) as [Ec Er]. intros l [Hl|Hl]; [rewrite Er in Hl; by apply elem_of_nil in Hl|congruence].
  - destruct (di_choice _ _ D E) as (x & Hx & Es & _).
    destruct (scheduleNextProcess_eq s x (scheduler s) Hc E) as (Em & Esch & Er & Ec & _); [cbn in *; by rewrite Es|].
    apply orderly_same; [done|intros l; rewrite Em; by apply (upd_observe Priority)|].
    intros l [Hl|Hl]; left; [|congruence]. rewrite Er in Hl. rewrite (remove_first_perm x _ Hx). by right.
Qed.

Lemma preempt_orderly s : orderly s (preemptCurrentProcess s).
Proof.
  unfold preemptCurrentProcess. destruct (currentProcess s) as [c|] eqn:Hc; [|done].
  apply orderly_same; [done|intros l; by apply (upd_observe Priority)|].
  intros l [Hl|Hl]; [|done]. apply elem_of_app in Hl as [?|?%list_elem_of_singleton]; [by left|right; by subst].
Qed.

Lemma dispatch_orderly now s s' : sim_wf now s -> dispatch s = Some s' -> orderly s s'.
Proof.
  intros Hwf. unfold dispatch. destruct (currentProcess s) as [c|] eqn:Hc.
  - rewrite (running_not_complete _ _ _ Hwf Hc). destruct (shouldPreempt s) as [[]|]; simpl; intros [= <-]; [|done].
    destruct (preemptCurrentProcess_keeps _ _ _ Hwf Hc) as ([Hwf1 _] & Hn & _).
    etransitivity; [apply preempt_orderly|by apply (schedule_orderly now)].
  - intros [= <-]. by apply (schedule_orderly now).
Qed.

Lemma checkIO_loop_orderly c cpu fuel : forall s s', checkIO_loop fuel c cpu s = Some s' -> orderly s s'.
Proof.
  assert (Hupd : forall s f, (forall q, Priority (f q) = Priority q) -> orderly s (upd c f s)).
  { intros s f Hf. apply orderly_same; try done. intros l. by apply (upd_observe Priority). }
  induction fuel as [|fuel IH]; intros s s'; cbn [checkIO_loop]; [by intros [= <-]|].
  destruct (_ <? Z.of_nat _); [|by intros [= <-]]. destruct (_ <? 0); [done|].
  destruct (IOBursts _ !! _) as [b|]; [|done]. cbn [mbind option_bind].
  destruct (Completed b); [intros E; etransitivity; [|exact (IH _ _ E)]; by apply Hupd|].
  destruct (_ && _); intros [= <-]; [|done]. apply orderly_same; [done| |intros l [Hl|Hl]; [by left|done]].
  intros l. unfold startIO, addEvent, upd. cbn [mem set_timeQuantumUsed set_currentProcess set_ioQueue set_events set_mem].
  do 3 (etransitivity; [by apply (upd_observe Priority)|]). by apply (upd_observe Priority).
Qed.

Lemma executeProcess_orderly s c s' :
  sim_wf (currentTime s) s -> 0 <= currentTime s < max_int -> currentProcess s = Some c ->
  executeProcess 1 s = Some s' -> orderly s s'.
Proof.
  intros Hwf Ht Hc E. destruct (executeProcess_executed s c Hwf Ht Hc) as (s1 & E1 & _ & EX & _ & _).
  rewrite E in E1. injection E1 as <-.
  assert (Ep : forall l, Priority (deref (mem s') l) = Priority (deref (mem s) l)).
  { intros l. by destruct (config_eq_inv _ _ (ex_config _ _ _ _ EX l)) as (_ & _ & _ & _ & -> & _). }
  clear EX. unfold executeProcess in E. rewrite Hc in E. destruct (Execute _ _ _) as [p|]; [|done]. cbn [mbind option_bind] in E.
  destruct (IsComplete p); injection E as <-.
  2:{ by apply orderly_same. }
  assert (Q : forall l, MLQ.levelFor (scheduler s) (deref (<[c := p]> (mem s)) l) = queue_of s l).
  { intros l. unfold queue_of, MLQ.levelFor. pose proof (Ep l) as El. cbn in El. by rewrite El. }
  split; [exact Q|]. intros K l [Hl|Hl]; [|done]. unfold queue_of. cbn in *.
  rewrite lookup_delete_ne.
  - rewrite (K l) by (by left). f_equal. symmetry. exact (Q l).
  - intros ->. apply (wf_ready _ _ _ _ _ _ (proj1 Hwf)) in Hl as [_ Hs]. apply (wf_cur _ _ _ _ _ _ (proj1 Hwf)) in Hc as [_ ?]. congruence.
Qed.

Lemma runCurrent_orderly s s' :
  sim_wf (currentTime s) s -> 0 <= currentTime s < max_int -> runCurrent s = Some s' -> orderly s s'.
Proof.
  intros Hwf Ht. destruct (currentProcess s) as [c|] eqn:Hc.
  2:{ rewrite (runCurrent_idle s Hc Ht). intros [= <-]. by apply orderly_same. }
  unfold runCurrent. rewrite Hc.
  destruct (executeProcess_executed s c Hwf Ht Hc) as (s1 & E1 & Hwf1 & _).
  pose proof (executeProcess_orderly s c s1 Hwf Ht Hc E1) as O1. rewrite E1. cbn [mbind option_bind].
  set (s2 := set_timeQuantumUsed _ s1). assert (O2 : orderly s s2) by (etransitivity; [exact O1|by apply orderly_same]).
  assert (Hwf2 : sim_wf (currentTime s + 1) s2) by done. clearbody s2.
  destruct (checkIOBurst s2) as [s3|] eqn:E3; [|done]. cbn [mbind option_bind].
  pose proof (checkIOBurst_wf _ _ _ Hwf2 E3) as [Hwf3 _].
  assert (O3 : orderly s2 s3).
  { unfold checkIOBurst in E3. destruct (currentProcess s2); [|by injection E3 as <-].
    destruct (IsComplete _); [by injection E3 as <-|by eapply checkIO_loop_orderly]. }
  intros E4. etransitivity; [exact O2|]. etransitivity; [exact O3|]. unfold checkQuantum in E4.
  destruct (currentProcess s3) as [c3|] eqn:Hc3; [|by injection E4 as <-]. cbn [mbind option_bind QuantumFor MLQ.MLQ_Scheduler] in E4.
  destruct (_ && _); injection E4 as <-; [|done]. unfold expireQuantum.
  etransitivity; [|apply (schedule_orderly (currentTime s + 1)); [by apply expired_keeps|done]].
  apply orderly_same; [done|intros l; by apply (upd_observe Priority)|].
  intros l [Hl|Hl]; [|done]. apply elem_of_app in Hl as [?|?%list_elem_of_singleton]; [by left|right; by subst].
Qed.

Lemma advanceClock_orderly s : orderly s (advanceClock s).
Proof.
  unfold advanceClock. etransitivity; [|apply (orderly_fold countWaiting)].
  - by apply orderly_same.
  - intros s1 l. unfold countWaiting. destruct (_ && _); [|done]. apply orderly_same; try done.
    intros x. by apply (upd_observe Priority).
Qed.

Lemma tick_orderly s s' : reachable s -> currentTime s < max_int -> executeTimeUnit s = Some s' -> orderly s s'.
Proof.
  intros Hr Ht E. destruct (reachable_wf _ Hr) as [Hwf Ht0].
  destruct (decision_spec s Hwf) as (s1 & Hd & [Hwf1 F1] & _). unfold executeTimeUnit in E. rewrite Hd in E. cbn [mbind option_bind] in E.
  destruct (runCurrent s1) as [s2|] eqn:E2; [|done]. cbn [mbind option_bind] in E. injection E as <-.
  pose proof (fr_time _ _ F1) as Et. destruct (decision_keeps s Hwf) as [Hwf2 _].
  etransitivity; [apply decision_state_orderly|]. etransitivity; [by apply (dispatch_orderly (currentTime s) _ s1)|].
  etransitivity; [apply (runCurrent_orderly s1 s2); [by rewrite Et|lia|done]|apply advanceClock_orderly].
Qed.

Lemma reachable_known s : reachable s -> known s.
Proof.
  induction 1 as [sched Hok|p s Hr IH Hp|v s _ IH|b s _ IH|v s _ IH|s s' Hr IH Ht E|s Hr IH]; try done.
  - by intros l [?%elem_of_nil|].
  - destruct (reachable_wf _ Hr) as [[Hwf _] _]. intros l Hl. assert (Hlt : (l < length (mem s))%nat).
    { apply (wf_dom _ _ _ _ _ _ Hwf). destruct Hl as [Hl|Hl].
      - by apply (wf_ready _ _ _ _ _ _ Hwf) in Hl as [? _].
      - by apply (wf_cur _ _ _ _ _ _ Hwf) in Hl as [? _]. }
    etransitivity; [apply (IH l Hl)|]. unfold queue_of. rewrite AddProcess_mem, deref_app.
    by rewrite decide_False by lia.
  - by apply (or_known _ _ (tick_orderly s s' Hr Ht E)).
  - destruct (reachable_wf _ Hr) as [Hwf _]. rewrite (resetState_eq _ _ Hwf). by intros l [?%elem_of_nil|].
Qed.

(** The choice for an idle CPU is from the highest queue. *)
Lemma choice_strict now s c x : sim_wf now s -> currentProcess s = None ->
  currentProcess (scheduleNextProcess s) = Some c -> x ∈ readyQueue (scheduleNextProcess s) -> queue_of s c <= queue_of s x.
Proof.
  intros Hwf Hc. destruct (scheduleNextProcess_keeps now s Hwf Hc) as [_ D].
  destruct (decide (readyQueue s = [])) as [E|E]; [by destruct (di_empty _ _ D E) as [-> _]|].
  destruct (di_choice _ _ D E) as (y & Hy & Es & -> & ->). intros [= <-] Hx.
  destruct (MLQ_Schedule_first_min (scheduler s) (mem s) (readyQueue s) (proj2 Hwf) E) as (r & Er & Hmin).
  cbn in Es. rewrite Er in Es. injection Es as ->.
  apply (lex_head _ _ _ _ (first_min_le _ _ _ x Hmin ltac:(rewrite (remove_first_perm y _ Hy); by right))).
Qed.

(** Nobody runs while a process of a higher queue is ready. *)
Lemma mlq_strict s s' : reachable s -> dispatch (decision_state s) = Some s' ->
  forall c x, currentProcess s' = Some c -> x ∈ readyQueue s' -> queue_of s' c <= queue_of s' x.
Proof.
  intros Hr Hd c x Hc' Hx. destruct (reachable_wf _ Hr) as [Hwf _]. destruct (decision_keeps s Hwf) as [Hwf2 _].
  pose proof (or_known _ _ (decision_state_orderly s) (reachable_known s Hr)) as K.
  rewrite !(or_queue _ _ (dispatch_orderly _ _ _ Hwf2 Hd)). set (d := decision_state s) in *. clearbody d.
  unfold dispatch in Hd. destruct (currentProcess d) as [c0|] eqn:Hc.
  2:{ injection Hd as <-. by apply (choice_strict _ _ _ _ Hwf2 Hc). }
  rewrite (running_not_complete _ _ _ Hwf2 Hc) in Hd. destruct (shouldPreempt d) as [[]|] eqn:Hp; simpl in Hd; [| |done]; injection Hd as <-.
  - destruct (preemptCurrentProcess_keeps _ _ _ Hwf2 Hc) as ([Hwf3 _] & Hn & _).
    rewrite <-!(or_queue _ _ (preempt_orderly d)). by apply (choice_strict _ _ _ _ Hwf3 Hn).
  - rewrite Hc in Hc'. injection Hc' as ->. unfold shouldPreempt in Hp. rewrite Hc in Hp. cbn in Hp. injection Hp as Hp.
    pose proof (K c (or_intror Hc)) as Kc. pose proof (K x (or_introl Hx)) as Kx.
    destruct (Z.le_gt_cases (queue_of d c) (queue_of d x)) as [|Hgt]; [done|exfalso].
    apply not_true_iff_false in Hp. apply Hp, preempt_lower_iff. exists x. split; [done|].
    unfold level_of. rewrite Kc, Kx. cbn. lia.
Qed.
End mlq.

(** ** Properties *)

(** C38: At every tick of every run with distinct process ids, after arrivals,
    I/O completions and the decision, no ready process outranks the one on the
    CPU: under SRTF none has less remaining time, under preemptive Priority none
    has a lower effective priority at that time, under MLFQ none is at a higher
    level (a lower number), and under MLQ, whatever the ids, none belongs to a higher
    queue. *)
Theorem preemptive_policies_run_the_best `{GoSortLaws} :
  (forall s s' : Simulator SRTF.SRTFScheduler, reachable s ->
     NoDup (map (fun l => PID (deref (mem s) l)) (processes s)) ->
     dispatch (tickIOQueue (checkArrivals s)) = Some s' ->
     forall c x, currentProcess s' = Some c -> x ∈ readyQueue s' ->
       RemainingTime (deref (mem s') c) <= RemainingTime (deref (mem s') x)) /\
  (forall s s' : Simulator PriorityPolicy.PriorityScheduler, reachable s ->
     NoDup (map (fun l => PID (deref (mem s) l)) (processes s)) ->
     PriorityPolicy.preemptive (scheduler (tickIOQueue (checkArrivals s))) = true ->
     dispatch (tickIOQueue (checkArrivals s)) = Some s' ->
     forall c x, currentProcess s' = Some c -> x ∈ readyQueue s' ->
       let eff := fun l => PriorityPolicy.effectivePriority (scheduler s') (deref (mem s') l)
                             (currentTime s') in
       eff c <= eff x) /\
  (forall s s' : Simulator MLFQ.MLFQScheduler, reachable s ->
     NoDup (map (fun l => PID (deref (mem s) l)) (processes s)) ->
     dispatch (tickIOQueue (checkArrivals s)) = Some s' ->
     forall c x, currentProcess s' = Some c -> x ∈ readyQueue s' ->
       level_of (MLFQ.levels (scheduler s')) c <= level_of (MLFQ.levels (scheduler s')) x) /\
  (forall s s' : Simulator MLQ.MLQScheduler, reachable s ->
     dispatch (tickIOQueue (checkArrivals s)) = Some s' ->
     forall c x, currentProcess s' = Some c -> x ∈ readyQueue s' ->
       MLQ.levelFor (scheduler s') (deref (mem s') c) <= MLQ.levelFor (scheduler s') (deref (mem s') x)).
Proof.
  split; [|split; [|split; [|exact mlq_strict]]].
  - intros s s' Hr Hnd Hd.
    exact (decision_runs_best (applies := fun _ => True)
      (mark := fun _ h _ l => RemainingTime (deref h l))
      (rank := fun _ h _ l => RemainingTime (deref h l)) s s' Hr Hnd I Hd).
  - intros s s' Hr Hnd Hp Hd.
    exact (decision_runs_best (applies := fun s => PriorityPolicy.preemptive s = true)
      (mark := fun s h t l => PriorityPolicy.effectivePriority s (deref h l) t)
      (rank := fun s h t l => PriorityPolicy.effectivePriority s (deref h l) t) s s' Hr Hnd Hp Hd).
  - intros s s' Hr Hnd Hd.
    exact (decision_runs_best (applies := fun _ => True)
      (mark := fun s _ _ l => level_of (MLFQ.levels s) l)
      (rank := fun s _ _ l => level_of (MLFQ.levels s) l) s s' Hr Hnd I Hd).
Qed.

(** Two processes, the second shorter and arriving at 1; the state after the
    first tick and after the decision of the second. *)
Section two.
Context {Sd : Type} `{SchedulerLaws Sd}.

Definition two_start (sch : Sd) : Simulator Sd :=
  AddProcess (Example.process 2 1 1) (AddProcess (Example.process 1 0 3) (NewSimulator sch)).
Definition two_ticked (sch : Sd) : Simulator Sd :=
  default (two_start sch) (executeTimeUnit (two_start sch)).
Definition two_decided (sch : Sd) : Simulator Sd :=
  default (two_start sch) (dispatch (tickIOQueue (checkArrivals (two_ticked sch)))).

Lemma two_ticked_reachable (sch : Sd) :
  sched_ok sch -> executeTimeUnit (two_start sch) = Some (two_ticked sch) ->
  reachable (two_ticked sch).
Proof.
  intros Hi Ht. apply (reach_tick (two_start sch)); [|reflexivity|exact Ht].
  apply reach_add; [apply reach_add; [by apply reach_new|]|];
    apply Example.process_admissible; unfold in_int, min_int, max_int; lia.
Qed.
End two.

(** SRTF preempts at time 1; MLFQ and Priority, at equal levels and priorities,
    let the first process continue, and so does MLQ. *)
Lemma preemptive_policies_run_the_best_witness :
  (let s' := two_decided SRTF.NewSRTFScheduler in
   currentProcess s' = Some 1%nat /\
   RemainingTime (deref (mem s') 1) <= RemainingTime (deref (mem s') 0)) /\
  (let s' := two_decided (PriorityPolicy.NewPriorityScheduler true) in
   currentProcess s' = Some 0%nat /\
   let eff := fun l => PriorityPolicy.effectivePriority (scheduler s') (deref (mem s') l)
                         (currentTime s') in
   eff 0%nat <= eff 1%nat) /\
  (let s' := two_decided MLFQ.NewMLFQScheduler in
   currentProcess s' = Some 0%nat /\
   level_of (MLFQ.levels (scheduler s')) 0%nat <= level_of (MLFQ.levels (scheduler s')) 1%nat) /\
  (let s' := two_decided (MLQ.NewMLQScheduler 3 2) in
   currentProcess s' = Some 0%nat /\
   MLQ.levelFor (scheduler s') (deref (mem s') 0) <= MLQ.levelFor (scheduler s') (deref (mem s') 1)).
Proof.
  split; [|split; [|split]].
  - assert (Hc : currentProcess (two_decided SRTF.NewSRTFScheduler) = Some 1%nat)
      by (vm_compute; reflexivity).
    split; [exact Hc|].
    apply (proj1 preemptive_policies_run_the_best (two_ticked SRTF.NewSRTFScheduler)).
    + apply two_ticked_reachable; [exact I|vm_compute; reflexivity].
    + apply (bool_decide_unpack _). vm_compute. exact I.
    + vm_compute; reflexivity.
    + exact Hc.
    + apply (bool_decide_unpack _). vm_compute. exact I.
  - pose (sch := PriorityPolicy.NewPriorityScheduler true).
    assert (Hc : currentProcess (two_decided sch) = Some 0%nat) by (vm_compute; reflexivity).
    split; [exact Hc|].
    apply (proj1 (proj2 preemptive_policies_run_the_best) (two_ticked sch)).
    + apply two_ticked_reachable; [exact I|vm_compute; reflexivity].
    + apply (bool_decide_unpack _). vm_compute. exact I.
    + vm_compute; reflexivity.
    + vm_compute; reflexivity.
    + exact Hc.
    + apply (bool_decide_unpack _). vm_compute. exact I.
  - assert (Hc : currentProcess (two_decided MLFQ.NewMLFQScheduler) = Some 0%nat)
      by (vm_compute; reflexivity).
    split; [exact Hc|].
    apply (proj1 (proj2 (proj2 preemptive_policies_run_the_best)) (two_ticked MLFQ.NewMLFQScheduler)).
    + apply two_ticked_reachable; [exact NewMLFQ_ok|vm_compute; reflexivity].
    + apply (bool_decide_unpack _). vm_compute. exact I.
    + vm_compute; reflexivity.
    + exact Hc.
    + apply (bool_decide_unpack _). vm_compute. exact I.
  - pose (sch := MLQ.NewMLQScheduler 3 2).
    assert (Hc : currentProcess (two_decided sch) = Some 0%nat) by (vm_compute; reflexivity).
    split; [exact Hc|].
    apply (proj2 (proj2 (proj2 preemptive_policies_run_the_best)) (two_ticked sch)).
    + apply two_ticked_reachable; [apply NewMLQ_ok; unfold max_int; lia|vm_compute; reflexivity].
    + vm_compute; reflexivity.
    + exact Hc.
    + apply (bool_decide_unpack _). vm_compute. exact I.
Defined.
