(* ===== verification/SimFair.v ===== *)
(** * Round-Robin serves everybody

    The interface [Rotates] says what Round-Robin promises the engine: the head of
    the queue is next, nobody is preempted, and everybody has the same quantum.
    With it a ready process gets the CPU after at most a quantum for every process
    before it, whatever arrives or returns from I/O meanwhile. *)

From S2P Require Import Prelude.
From S2P Require Import Float64.
From S2P Require Import Process.
From S2P Require Import Scheduler.
From S2P Require Import Simulator.
From S2P Require Import SimInvariant.
From S2P Require Import SimSteps.
From S2P Require Import SimTick.
From S2P Require Import SimReach.
From S2P Require Import SimProgress.
From S2P Require Import SimReset.

(** ** The time used of a quantum *)

Section used.
Context {Sd : Type} `{SchedulerLaws Sd} `{GoSortLaws}.
Implicit Types (s : Simulator Sd) (l : loc).

(** A step keeps the time used or starts a new slice. *)
Definition slices s s' : Prop :=
  timeQuantumUsed s' = timeQuantumUsed s \/ timeQuantumUsed s' = 0.

(** A step off the CPU: processes only join the queue. *)
Record enqueues s s' : Prop := {
  eq_queue : exists new, readyQueue s' = readyQueue s ++ new;
  eq_current : currentProcess s' = currentProcess s;
  eq_used : timeQuantumUsed s' = timeQuantumUsed s
}.

Lemma enqueues_refl s : enqueues s s.
Proof. split; [exists []; by rewrite app_nil_r|done..]. Qed.

Lemma enqueues_trans s1 s2 s3 : enqueues s1 s2 -> enqueues s2 s3 -> enqueues s1 s3.
Proof.
  intros [[n1 E1] C1 U1] [[n2 E2] C2 U2]. split; [|congruence..].
  exists (n1 ++ n2). by rewrite E2, E1, app_assoc.
Qed.

Lemma arrive_enqueues s l : enqueues s (arrive s l).
Proof. unfold arrive. destruct (_ && _); [|apply enqueues_refl]. split; [by exists [l]|done..]. Qed.

Lemma checkArrivals_enqueues s : enqueues s (checkArrivals s).
Proof.
  unfold checkArrivals. generalize (processes s) as ls. intros ls. revert s.
  induction ls as [|l ls IH]; intros s; [apply enqueues_refl|].
  eapply enqueues_trans; [apply arrive_enqueues|apply IH].
Qed.

Lemma tickIO_ref_enqueues todo : forall live s, enqueues s (tickIO_ref todo live s).2.
Proof.
  induction todo as [|p todo IH]; intros live s; [apply enqueues_refl|]. cbn [tickIO_ref].
  destruct (_ <=? 0); (eapply enqueues_trans; [|apply IH]).
  - split; [by exists [p]|done..].
  - split; [exists []; by rewrite app_nil_r|done..].
Qed.

Lemma tickIOQueue_enqueues s : enqueues s (tickIOQueue s).
Proof.
  rewrite tickIOQueue_eq. pose proof (tickIO_ref_enqueues (ioQueue s) [] s) as E.
  destruct (tickIO_ref _ _ _) as [live s']. destruct E as [E1 E2 E3]. by split.
Qed.

Lemma scheduleNextProcess_slices s : slices s (scheduleNextProcess s).
Proof.
  unfold scheduleNextProcess, slices. destruct (_ =? _)%nat; [by left|].
  destruct (Schedule _ _ _ _) as [[l|] sched]; [|by left].
  destruct (negb _); by right.
Qed.

Lemma dispatch_slices s s' : dispatch s = Some s' -> slices s s'.
Proof.
  unfold dispatch. destruct (currentProcess s) as [c|] eqn:Hc.
  - destruct (IsComplete _); [intros [= <-]; apply scheduleNextProcess_slices|].
    destruct (shouldPreempt s) as [[]|]; simpl; intros [= <-]; [|by left].
    pose proof (scheduleNextProcess_slices (preemptCurrentProcess s)) as E. unfold slices in *.
    enough (timeQuantumUsed (preemptCurrentProcess s) = timeQuantumUsed s) as <- by done.
    unfold preemptCurrentProcess. by rewrite Hc.
  - intros [= <-]. apply scheduleNextProcess_slices.
Qed.

Lemma executeProcess_used d s s' : executeProcess d s = Some s' -> timeQuantumUsed s' = timeQuantumUsed s.
Proof.
  unfold executeProcess. destruct (currentProcess s); [|by intros [= <-]].
  destruct (Execute _ _ _) as [p|]; [|done]. cbn [mbind option_bind].
  destruct (IsComplete p); by intros [= <-].
Qed.

Lemma checkIO_loop_slices c cpu fuel : forall s s', checkIO_loop fuel c cpu s = Some s' -> slices s s'.
Proof.
  induction fuel as [|fuel IH]; intros s s'; cbn [checkIO_loop]; [intros [= <-]; by left|].
  destruct (_ <? Z.of_nat _); [|intros [= <-]; by left]. destruct (_ <? 0); [done|].
  destruct (IOBursts _ !! _) as [b|]; [|done]. cbn [mbind option_bind].
  destruct (Completed b); [apply IH|]. destruct (_ && _); intros [= <-]; [by right|by left].
Qed.

Lemma checkIOBurst_slices s s' : checkIOBurst s = Some s' -> slices s s'.
Proof.
  unfold checkIOBurst. destruct (currentProcess s); [|intros [= <-]; by left].
  destruct (IsComplete _); [intros [= <-]; by left|apply checkIO_loop_slices].
Qed.

Lemma checkIOBurst_cur s c s' : currentProcess s = Some c -> checkIOBurst s = Some s' ->
  currentProcess s' = Some c -> timeQuantumUsed s' = timeQuantumUsed s.
Proof.
  intros Hc. unfold checkIOBurst. rewrite Hc. destruct (IsComplete _); [by intros [= <-]|].
  generalize (length (IOBursts (deref (mem s) c))), (BurstTime (deref (mem s) c) -ᵢ RemainingTime (deref (mem s) c)).
  intros fuel cpu. revert s Hc. induction fuel as [|fuel IH]; intros s Hc; cbn [checkIO_loop]; [by intros [= <-]|].
  destruct (_ <? Z.of_nat _); [|by intros [= <-]]. destruct (_ <? 0); [done|].
  destruct (IOBursts _ !! _) as [b|]; [|done]. cbn [mbind option_bind].
  destruct (Completed b); [by apply (IH (upd c _ s))|]. by destruct (_ && _); intros [= <-].
Qed.

Lemma checkQuantum_slices s s' : checkQuantum s = Some s' -> slices s s'.
Proof.
  unfold checkQuantum. destruct (currentProcess s) as [c|]; [|intros [= <-]; by left].
  destruct (QuantumFor _ _) as [q|]; [|done]. cbn [mbind option_bind].
  destruct (_ && _); intros [= <-]; [|by left].
  right. unfold expireQuantum. by destruct (scheduleNextProcess_slices (expired c s)) as [-> | ->].
Qed.

Lemma advanceClock_frame s : let s' := advanceClock s in
  timeQuantumUsed s' = timeQuantumUsed s /\ readyQueue s' = readyQueue s /\
  currentProcess s' = currentProcess s /\ scheduler s' = scheduler s.
Proof.
  cbv zeta. unfold advanceClock. change (readyQueue (set_currentTime _ s)) with (readyQueue s).
  assert (Hfold : forall ls s1, let s' := fold_left countWaiting ls s1 in
    timeQuantumUsed s' = timeQuantumUsed s1 /\ readyQueue s' = readyQueue s1 /\
    currentProcess s' = currentProcess s1 /\ scheduler s' = scheduler s1);
    [|exact (Hfold (readyQueue s) (set_currentTime (currentTime s +ᵢ 1) s))].
  induction ls as [|l ls IH]; intros s1; [done|]. cbn [fold_left].
  destruct (IH (countWaiting s1 l)) as (-> & -> & -> & ->).
  unfold countWaiting. by destruct (_ && _).
Qed.

(** A tick uses one unit of a quantum, or of a new one. *)
Lemma tick_used s s' : executeTimeUnit s = Some s' ->
  0 <= timeQuantumUsed s -> timeQuantumUsed s + 1 <= max_int ->
  0 <= timeQuantumUsed s' <= timeQuantumUsed s + 1.
Proof.
  intros E H0' Hm. unfold executeTimeUnit in E.
  pose proof (eq_used _ _ (checkArrivals_enqueues s)) as E1.
  pose proof (eq_used _ _ (tickIOQueue_enqueues (checkArrivals s))) as E2.
  set (s2 := tickIOQueue _) in *. rewrite E1 in E2. clearbody s2.
  destruct (dispatch s2) as [s3|] eqn:E3; [|done]. cbn [mbind option_bind] in E.
  apply dispatch_slices in E3.
  destruct (runCurrent s3) as [s4|] eqn:E4; [|done]. cbn [mbind option_bind] in E. injection E as <-.
  rewrite (proj1 (advanceClock_frame s4)). unfold slices in E3. rewrite E2 in E3.
  unfold runCurrent in E4. destruct (currentProcess s3) as [c|]; [|injection E4 as <-; simpl; lia].
  destruct (executeProcess 1 s3) as [s5|] eqn:E5; [|done]. cbn [mbind option_bind] in E4.
  apply executeProcess_used in E5.
  destruct (checkIOBurst _) as [s6|] eqn:E6; [|done]. cbn [mbind option_bind] in E4.
  apply checkIOBurst_slices in E6. apply checkQuantum_slices in E4. unfold slices in *.
  cbn [timeQuantumUsed set_timeQuantumUsed] in E6. rewrite E5 in E6. unwrap. lia.
Qed.

Lemma reachable_used s : reachable s -> 0 <= timeQuantumUsed s <= currentTime s.
Proof.
  induction 1 as [sched Hok|p s _ IH Hp|v s _ IH|b s _ IH|v s _ IH|s s' Hr IH Ht Htick|s Hr IH]; try done.
  - destruct (reachable_wf _ Hr) as [Hwf Ht0].
    destruct (executeTimeUnit_spec s) as (s1 & E & _ & T); [done|lia|].
    assert (s1 = s') as -> by congruence. rewrite (tk_time _ _ T).
    pose proof (tick_used _ _ Htick). lia.
  - by rewrite (resetState_eq _ _ (proj1 (reachable_wf _ Hr))).
Qed.
End used.

(** ** Taking turns *)

Class Rotates (Sd : Type) `{SchedulerLaws Sd} (quantum : Sd -> Z) : Prop := {
  ro_invariant :: RunInvariant Sd quantum;
  ro_positive : forall v, sched_ok v -> 1 <= quantum v;
  ro_head : forall v h x xs t, fst (Schedule v h (x :: xs) t) = Some x;
  ro_stays : forall v h c xs t, Preempt v h c xs t = Some false;
  ro_slice : forall v c, QuantumFor v (Some c) = Some (quantum v)
}.

#[export] Instance RoundRobin_rotates : Rotates RoundRobin.RoundRobinScheduler RoundRobin.timeQuantum.
Proof. by split; [split|..]. Qed.

Section turns.
Context {Sd : Type} {quantum : Sd -> Z} `{Rotates Sd quantum} `{GoSortLaws}.
Implicit Types (s : Simulator Sd) (l c : loc).

Lemma schedule_head s x xs : currentProcess s = None -> readyQueue s = x :: xs ->
  let s' := scheduleNextProcess s in
  currentProcess s' = Some x /\ readyQueue s' = xs /\ timeQuantumUsed s' = 0.
Proof.
  intros Hc Hq s'. subst s'. unfold scheduleNextProcess. rewrite Hq. cbn [length Nat.eqb].
  pose proof (ro_head (scheduler s) (mem s) x xs (currentTime s)) as E.
  destruct (Schedule _ _ _ _) as [o sch]. cbn [fst] in E. subst o.
  change (currentProcess (set_readyQueue _ _)) with (currentProcess s). rewrite Hc.
  change (readyQueue (set_scheduler sch s)) with (readyQueue s). rewrite Hq.
  assert (Er : remove_first x (x :: xs) = xs) by (cbn; by rewrite ?decide_True, ?Nat.eqb_refl).
  rewrite Er. by destruct (negb _).
Qed.

(** The decision gives an idle CPU to the head and changes nothing else. *)
Lemma dispatch_rotates now s s' : sim_wf now s -> dispatch s = Some s' ->
  match currentProcess s, readyQueue s with
  | Some c, _ => s' = s
  | None, [] => True
  | None, x :: xs => currentProcess s' = Some x /\ readyQueue s' = xs /\ timeQuantumUsed s' = 0
  end.
Proof.
  intros Hwf. unfold dispatch, shouldPreempt. destruct (currentProcess s) as [c|] eqn:Hc.
  - rewrite (running_not_complete _ _ _ Hwf Hc), ro_stays. by intros [= <-].
  - intros [= <-]. destruct (readyQueue s) as [|x xs] eqn:Hq; [done|]. by apply schedule_head.
Qed.

(** What a unit of CPU time for [c] leaves: [c] still has quantum left, or has
    left the CPU by itself, or goes to the tail and the head is next. *)
Lemma runCurrent_rotates s c s' :
  sim_wf (currentTime s) s -> 0 <= currentTime s < max_int -> currentProcess s = Some c ->
  0 <= timeQuantumUsed s < max_int -> runCurrent s = Some s' ->
  (currentProcess s' = Some c /\ readyQueue s' = readyQueue s /\
     timeQuantumUsed s' = timeQuantumUsed s + 1 /\ timeQuantumUsed s + 1 < quantum (scheduler s)) \/
  (currentProcess s' = None /\ readyQueue s' = readyQueue s) \/
  (quantum (scheduler s) <= timeQuantumUsed s + 1 /\
   exists x xs, readyQueue s ++ [c] = x :: xs /\ currentProcess s' = Some x /\
     readyQueue s' = xs /\ timeQuantumUsed s' = 0).
Proof.
  intros Hwf Ht Hc Hu. unfold runCurrent. rewrite Hc.
  destruct (executeProcess_executed s c Hwf Ht Hc) as (s1 & E1 & Hwf1 & _ & Hq1 & Hcur1).
  pose proof (executeProcess_used _ _ _ E1) as Hu1.
  pose proof (rw_sched _ _ _ (executeProcess_rewinds (f := quantum) _ _ _ E1)) as Hs1.
  rewrite E1. cbn [mbind option_bind]. set (s2 := set_timeQuantumUsed _ s1).
  assert (Hu2 : timeQuantumUsed s2 = timeQuantumUsed s + 1) by (cbn; rewrite Hu1; unwrap; lia).
  assert (Hwf2 : sim_wf (currentTime s + 1) s2) by done.
  destruct Hcur1 as [Hcur1|[Hcur1 _]].
  2:{ unfold checkIOBurst. change (currentProcess s2) with (currentProcess s1). rewrite Hcur1.
      cbn [mbind option_bind]. unfold checkQuantum. change (currentProcess s2) with (currentProcess s1).
      rewrite Hcur1. intros [= <-]. right. left. done. }
  destruct (checkIOBurst_keeps _ s2 c Hwf2 Hcur1) as (s3 & E3 & K3 & Hq3 & Hcur3).
  pose proof (checkIOBurst_cur s2 c s3 Hcur1 E3) as Hu3.
  assert (Hs3 : quantum (scheduler s3) = quantum (scheduler s)).
  { rewrite <-Hs1. exact (rw_sched _ _ _ (checkIOBurst_rewinds _ _ E3)). }
  rewrite E3. cbn [mbind option_bind]. unfold checkQuantum.
  destruct Hcur3 as [Hcur3|[Hcur3 _]]; rewrite Hcur3; [|intros [= <-]; right; left; split; [done|by rewrite Hq3]].
  rewrite ro_slice. cbn [mbind option_bind].
  rewrite (running_not_complete _ _ _ (proj1 K3) Hcur3), Hs3, (Hu3 Hcur3), Hu2, andb_true_r.
  pose proof (ro_positive _ (proj2 Hwf)).
  rewrite (proj2 (Z.ltb_lt 0 _)) by lia. cbn [andb].
  destruct (Z.leb_spec (quantum (scheduler s)) (timeQuantumUsed s + 1)); intros [= <-].
  - right. right. split; [done|]. destruct (readyQueue s ++ [c]) as [|x xs] eqn:Eq; [by destruct (readyQueue s)|].
    exists x, xs. split; [done|]. apply schedule_head; [done|].
    change (readyQueue (expired c s3)) with (readyQueue s3 ++ [c]). rewrite Hq3.
    change (readyQueue s2) with (readyQueue s1). by rewrite Hq1.
  - left. split; [done|]. split; [by rewrite Hq3|]. split; [|lia]. rewrite (Hu3 Hcur3). exact Hu2.
Qed.

(** [p] is on the CPU, or gets it after at most [m] units: a quantum for each of
    the processes before it, and what is left of the current one. *)
Definition turn (q : Z) (p : loc) (m : Z) s : Prop :=
  (currentProcess s = Some p /\ 0 <= m) \/
  exists k, readyQueue s !! k = Some p /\
    Z.of_nat k * q + (match currentProcess s with
                      | Some _ => Z.max 1 (q - timeQuantumUsed s)
                      | None => 0
                      end) <= m.

Lemma turn_enqueues q p m s s' : enqueues s s' -> turn q p m s -> turn q p m s'.
Proof.
  intros [[new En] Ec Eu] [[Hc Hm]|(k & Hk & Hm)]; [left|right].
  - by rewrite Ec.
  - exists k. rewrite Ec, Eu, En. split; [by apply lookup_app_l_Some|done].
Qed.

Lemma turn_dispatch now p m s s' : sim_wf now s -> dispatch s = Some s' ->
  turn (quantum (scheduler s)) p m s ->
  turn (quantum (scheduler s)) p m s' /\ is_Some (currentProcess s').
Proof.
  intros Hwf Hd Ht. pose proof (dispatch_rotates _ _ _ Hwf Hd) as Hr.
  pose proof (ro_positive _ (proj2 Hwf)) as Hq. set (q := quantum (scheduler s)) in *.
  destruct (currentProcess s) as [c|] eqn:Hc; [subst s'; by rewrite Hc|].
  destruct Ht as [[? _]|(k & Hk & Hm)]; [congruence|].
  destruct (readyQueue s) as [|x xs]; [done|]. destruct Hr as (Ec & Er & Eu). unfold turn. rewrite Ec.
  rewrite Hc in Hm. split; [|by eexists]. destruct k as [|k].
  - injection Hk as ->. left. split; [done|lia].
  - right. exists k. rewrite Er, Eu. split; [done|]. lia.
Qed.

Lemma turn_run s c p m s' :
  sim_wf (currentTime s) s -> 0 <= currentTime s < max_int -> currentProcess s = Some c ->
  0 <= timeQuantumUsed s < max_int -> runCurrent s = Some s' -> c <> p ->
  turn (quantum (scheduler s)) p m s -> 1 <= m /\ turn (quantum (scheduler s)) p (m - 1) s'.
Proof.
  intros Hwf Ht Hc Hu Hr Hne [[? _]|(k & Hk & Hm)]; [congruence|]. rewrite Hc in Hm.
  pose proof (ro_positive _ (proj2 Hwf)) as Hq. set (q := quantum (scheduler s)) in *.
  split; [lia|].
  destruct (runCurrent_rotates s c s' Hwf Ht Hc Hu Hr) as
    [(Ec & Er & Eu & Hlt)|[[Ec Er]|(_ & x & xs & Ex & Ec & Er & Eu)]]; unfold turn; rewrite Ec.
  - right. exists k. rewrite Er, Eu. split; [done|]. fold q in Hlt. lia.
  - right. exists k. rewrite Er. split; [done|lia].
  - assert (Hx : (x :: xs) !! k = Some p) by (rewrite <-Ex; by apply lookup_app_l_Some).
    destruct k as [|k]; [injection Hx as ->; left; split; [done|lia]|].
    right. exists k. rewrite Er, Eu. split; [done|lia].
Qed.

(** A tick runs [p] or brings its turn closer. *)
Lemma turn_tick p m s s' :
  reachable s -> currentTime s < max_int -> executeTimeUnit s = Some s' ->
  turn (quantum (scheduler s)) p m s ->
  RemainingTime (deref (mem s') p) = RemainingTime (deref (mem s) p) - 1 \/
  (1 <= m /\ turn (quantum (scheduler s)) p (m - 1) s').
Proof.
  intros Hr Ht E Hp. destruct (reachable_wf _ Hr) as [Hwf Ht0]. pose proof (reachable_used _ Hr) as Hu.
  unfold executeTimeUnit in E. set (s1 := checkArrivals s) in *. set (s2 := tickIOQueue s1) in *.
  destruct (decision_keeps s Hwf) as [Hwf2 F2]. change (decision_state s) with s2 in Hwf2, F2.
  assert (N2 : enqueues s s2)
    by (eapply enqueues_trans; [apply checkArrivals_enqueues|apply tickIOQueue_enqueues]).
  assert (Q2 : quantum (scheduler s2) = quantum (scheduler s)).
  { exact (decision_rewinds (f := quantum) s). }
  destruct (dispatch s2) as [s3|] eqn:E3; [|done]. cbn [mbind option_bind] in E.
  destruct (dispatch_keeps _ _ Hwf2) as (s3' & E3' & [Hwf3 F3] & _).
  rewrite E3 in E3'. injection E3' as <-.
  rewrite <-Q2 in *. apply (turn_enqueues _ _ _ _ _ N2) in Hp.
  apply (turn_dispatch _ _ _ _ _ Hwf2 E3) in Hp as [Hp [c Hc]].
  pose proof (fr_time _ _ F2) as T2. pose proof (fr_time _ _ F3) as T3.
  assert (U3 : 0 <= timeQuantumUsed s3 < max_int).
  { apply dispatch_slices in E3 as [E3|E3]; rewrite E3; [rewrite (eq_used _ _ N2)|]; lia. }
  assert (Q3 : quantum (scheduler s3) = quantum (scheduler s2))
    by exact (rw_sched quantum _ _ (dispatch_rewinds _ _ E3)).
  assert (Hwf3' : sim_wf (currentTime s3) s3) by (by rewrite T3, T2).
  assert (Ht3 : 0 <= currentTime s3 < max_int) by lia.
  destruct (runCurrent_busy s3 c Hwf3' Ht3 Hc) as (s4 & E4 & Hwf4 & EX).
  rewrite E4 in E. cbn [mbind option_bind] in E. injection E as <-.
  destruct (decide (c = p)) as [->|Hne].
  - left. destruct (advanceClock_spec s4) as [_ F4];
      [by rewrite (ex_time _ _ _ _ EX)|by rewrite (ex_time _ _ _ _ EX)|].
    rewrite (fr_remaining _ _ F4). change (mem (set_currentTime _ s4)) with (mem s4).
    rewrite (ex_remaining _ _ _ _ EX), (fr_remaining _ _ F3), (fr_remaining _ _ F2). done.
  - right. rewrite <-Q3 in *. destruct (turn_run s3 c p m s4 Hwf3' Ht3 Hc U3 E4 Hne Hp) as [Hm Hp4].
    split; [done|]. destruct (advanceClock_frame s4) as (A1 & A2 & A3 & _). unfold turn.
    by rewrite A1, A2, A3.
Qed.

(** Ticks in a row. *)
Fixpoint ticks (n : nat) s : option (Simulator Sd) :=
  match n with
  | O => Some s
  | S n => s' ← executeTimeUnit s; ticks n s'
  end.

Lemma turn_comes m : forall p s, reachable s -> currentTime s + Z.of_nat m < max_int ->
  turn (quantum (scheduler s)) p (Z.of_nat m) s ->
  exists n s1 s2, (n <= m)%nat /\ ticks n s = Some s1 /\ executeTimeUnit s1 = Some s2 /\
    RemainingTime (deref (mem s2) p) = RemainingTime (deref (mem s1) p) - 1.
Proof.
  induction m as [|m IH]; intros p s Hr Ht Hp;
    destruct (reachable_tick s Hr) as (s' & E & Hr' & T); try lia;
    destruct (turn_tick p _ s s' Hr ltac:(lia) E Hp) as [Hran|[Hm Hp']]; try lia;
    [exists 0%nat, s, s'; split; [lia|done]..|].
  replace (Z.of_nat (S m) - 1) with (Z.of_nat m) in Hp' by lia.
  rewrite <-(rw_sched _ _ _ (executeTimeUnit_rewinds (f := quantum) _ _ E)) in Hp'.
  destruct (IH p s' Hr') as (n & s1 & s2 & Hn & E1 & E2 & Hran); [rewrite (tk_time _ _ T); lia|done|].
  exists (S n), s1, s2. split; [lia|]. split; [|done]. cbn [ticks]. by rewrite E.
Qed.
End turns.

(** ** Properties *)

(** C9: Round-Robin starves nobody: in every reachable state a process in place [k]
    of the ready queue gets the CPU within [k + 1] quanta, that is within a quantum
    for every process of the simulation, whatever arrives, completes or returns from
    I/O meanwhile. *)
Theorem round_robin_bounded_waiting `{GoSortLaws} (s : Simulator RoundRobin.RoundRobinScheduler) k p :
  reachable s -> readyQueue s !! k = Some p ->
  let q := RoundRobin.timeQuantum (scheduler s) in
  currentTime s + (Z.of_nat k + 1) * q < max_int ->
  (k < length (processes s))%nat /\
  exists n s1 s2, Z.of_nat n <= (Z.of_nat k + 1) * q /\
    ticks n s = Some s1 /\ executeTimeUnit s1 = Some s2 /\
    RemainingTime (deref (mem s2) p) = RemainingTime (deref (mem s1) p) - 1.
Proof.
  intros Hr Hk q Ht. destruct (reachable_wf _ Hr) as [[Hwf Hok] _].
  pose proof (reachable_used _ Hr) as Hu.
  split.
  - apply lookup_lt_Some in Hk. apply (Nat.lt_le_trans _ _ _ Hk), submseteq_length, NoDup_submseteq.
    + apply (wf_ready_nodup _ _ _ _ _ _ Hwf).
    + intros l Hl. by apply (wf_ready _ _ _ _ _ _ Hwf) in Hl as [Hl _].
  - assert (Hq : 1 <= q) by exact (ro_positive _ Hok).
    destruct (turn_comes (quantum := RoundRobin.timeQuantum) (Z.to_nat ((Z.of_nat k + 1) * q)) p s Hr)
      as (n & s1 & s2 & Hn & E1 & E2 & Hran); [lia| |exists n, s1, s2; split; [lia|done]].
    right. exists k. split; [done|]. fold q. destruct (currentProcess s); lia.
Qed.

(** Three processes with quantum 2: the last in the queue runs in the fifth tick. *)
Definition three : Simulator RoundRobin.RoundRobinScheduler :=
  AddProcess (Example.process 3 0 3) (AddProcess (Example.process 2 0 3)
    (AddProcess (Example.process 1 0 3) (NewSimulator (RoundRobin.NewRoundRobinScheduler 2)))).

Lemma round_robin_bounded_waiting_witness :
  exists s, executeTimeUnit three = Some s /\ readyQueue s = [1%nat; 2%nat] /\
    exists n s1 s2, Z.of_nat n <= 4 /\ ticks n s = Some s1 /\ executeTimeUnit s1 = Some s2 /\
      RemainingTime (deref (mem s2) 2) = RemainingTime (deref (mem s1) 2) - 1.
Proof.
  assert (Hr : reachable three).
  { repeat apply reach_add; try apply Example.process_admissible; unfold in_int, min_int, max_int; try lia.
    apply reach_new. cbn. lia. }
  destruct (executeTimeUnit three) as [s|] eqn:E; [|vm_compute in E; discriminate].
  assert (Hs : reachable s) by (eapply reach_tick; [exact Hr|vm_compute; reflexivity|exact E]).
  assert (Hq : readyQueue s = [1%nat; 2%nat] /\ RoundRobin.timeQuantum (scheduler s) = 2 /\ currentTime s = 1).
  { vm_compute in E. injection E as <-. repeat split. }
  destruct Hq as (Hq & Hv & Ht). exists s. split; [reflexivity|]. split; [exact Hq|].
  destruct (round_robin_bounded_waiting s 1 2 Hs) as (_ & n & s1 & s2 & Hn & Hrest).
  - rewrite Hq. reflexivity.
  - rewrite Hv, Ht. unfold max_int. lia.
  - exists n, s1, s2. rewrite Hv in Hn. split; [lia|exact Hrest].
Defined.
