(* ===== verification/SimOptimal.v ===== *)
(** * SRTF minimises turnaround

    Schrage's theorem for this engine: without I/O no policy gives a smaller total
    (so no smaller average) turnaround time than SRTF, whatever the arrival times.
    The proof runs SRTF and any other policy side by side: of the remaining times
    SRTF's are always the more unequal ones, in the sense that for every [c] the work
    in excess of [c] per process is at least the other policy's; with equal totals
    this means that fewer processes are left unfinished, tick by tick. The argument
    only uses that every tick serves a process with the least remaining work, the
    interface [LeastFirst]; [SimInTurn] has another instance. *)

From S2P Require Import Prelude.
From S2P Require Import Float64.
From S2P Require Import Process.
From S2P Require Import Scheduler.
From S2P Require Import Simulator.
From S2P Require Import SimInvariant.
From S2P Require Import SimSteps.
From S2P Require Import SimTick.
From S2P Require Import SimReach.
From S2P Require Import SimPolicy.
From S2P Require Import SimCpu.
From S2P Require Import SimAccounting.
From S2P Require Import SimProgress.

(** ** Unequal loads

    [x] and [y] are the remaining times of the processes in two simulations. *)

Definition excess {A} (c : Z) (x : A -> Z) (ls : list A) : Z := zsum (fun l => Z.max 0 (x l - c)) ls.

Lemma zsum_le_strict {A} (f g : A -> Z) ls a :
  (forall l, l ∈ ls -> f l <= g l) -> a ∈ ls -> f a + 1 <= g a -> zsum f ls + 1 <= zsum g ls.
Proof.
  intros Hle Ha Hlt. induction ls as [|l ls IH]; [by apply elem_of_nil in Ha|]. cbn [zsum].
  pose proof (Hle l ltac:(left)). apply elem_of_cons in Ha as [->|Ha].
  - assert (zsum f ls <= zsum g ls) by (apply zsum_le; intros; apply Hle; by right). lia.
  - assert (zsum f ls + 1 <= zsum g ls) by (apply IH; [intros; apply Hle; by right|done]). lia.
Qed.

Lemma zsum_scale {A} k (f : A -> Z) ls : zsum (fun l => k * f l) ls = k * zsum f ls.
Proof. induction ls as [|l ls IH]; cbn [zsum]; [lia|]. rewrite IH. lia. Qed.

Lemma zsum_plus {A} (f g : A -> Z) ls : zsum (fun x => f x + g x) ls = zsum f ls + zsum g ls.
Proof. induction ls as [|l ls IH]; cbn [zsum]; lia. Qed.

(** [a] runs for one unit. *)
Record runs_one {A} (a : A) (x x' : A -> Z) (ls : list A) : Prop := {
  ro_in : a ∈ ls;
  ro_pos : 1 <= x a;
  ro_dec : x' a = x a - 1;
  ro_same : forall l, l ∈ ls -> l <> a -> x' l = x l
}.

Lemma excess_run {A} (a : A) x x' ls c : NoDup ls -> runs_one a x x' ls ->
  excess c x' ls = excess c x ls - (if c <? x a then 1 else 0).
Proof.
  intros Hnd [Ha Hp Hd Hs]. unfold excess.
  rewrite (zsum_change _ (fun l => Z.max 0 (x l - c)) ls a Hnd Ha).
  - rewrite Hd. destruct (Z.ltb_spec c (x a)); lia.
  - intros l Hl Hne. by rewrite Hs.
Qed.

(** The least load is above [c]: the excess is linear up to there. *)
Lemma excess_linear {A} (x : A -> Z) ls c : 0 <= c ->
  (forall l, l ∈ ls -> x l = 0 \/ c < x l) ->
  excess 0 x ls - excess c x ls = c * (excess c x ls - excess (c + 1) x ls).
Proof.
  intros Hc Hx. unfold excess. rewrite <-!zsum_minus, <-zsum_scale. apply zsum_ext.
  intros l Hl. destruct (Hx l Hl) as [-> |?]; nia.
Qed.

(** A load between 0 and [c] makes it strictly convex. *)
Lemma excess_convex {A} (y : A -> Z) ks c b : 0 <= c -> (forall k, k ∈ ks -> 0 <= y k) ->
  b ∈ ks -> 1 <= y b <= c ->
  c * (excess c y ks - excess (c + 1) y ks) + 1 <= excess 0 y ks - excess c y ks.
Proof.
  intros Hc Hy Hb Hyb. unfold excess. rewrite <-!zsum_minus, <-zsum_scale.
  apply (zsum_le_strict _ _ ks b); [|done|nia].
  intros k Hk. specialize (Hy k Hk). nia.
Qed.

(** [x] is the more unequal load: same total, but more above every level. *)
Record more_unequal {A B} (x : A -> Z) (ls : list A) (y : B -> Z) (ks : list B) : Prop := {
  mu_total : excess 0 x ls = excess 0 y ks;
  mu_above : forall c, 0 <= c -> excess c y ks <= excess c x ls
}.

(** If the first runs a least load, it stays the more unequal one. *)
Lemma more_unequal_run {A B} (a : A) (b : B) x x' ls y y' ks :
  NoDup ls -> NoDup ks -> (forall l, l ∈ ls -> 0 <= x l) -> (forall k, k ∈ ks -> 0 <= y k) ->
  runs_one a x x' ls -> runs_one b y y' ks -> (forall l, l ∈ ls -> 0 < x l -> x a <= x l) ->
  more_unequal x ls y ks -> more_unequal x' ls y' ks.
Proof.
  intros Hls Hks Hx Hy Ra Rb Hleast [M0 M].
  pose proof (ro_pos _ _ _ _ Ra) as Pa. pose proof (ro_pos _ _ _ _ Rb) as Pb.
  split.
  - rewrite (excess_run a x x' ls 0 Hls Ra), (excess_run b y y' ks 0 Hks Rb). ztest. lia.
  - intros c Hc. rewrite (excess_run a x x' ls c Hls Ra), (excess_run b y y' ks c Hks Rb).
    pose proof (M c Hc). destruct (Z.ltb_spec c (x a)) as [Hca|Hca]; [|destruct (c <? y b); lia].
    destruct (Z.ltb_spec c (y b)) as [Hcb|Hcb]; [lia|].
    assert (excess c y ks <> excess c x ls); [|lia]. intros Heq.
    pose proof (M (c + 1) ltac:(lia)).
    pose proof (excess_convex y ks c b Hc Hy (ro_in _ _ _ _ Rb) ltac:(lia)).
    assert (Hlin : excess 0 x ls - excess c x ls = c * (excess c x ls - excess (c + 1) x ls)).
    { apply excess_linear; [done|]. intros l Hl. pose proof (Hx l Hl).
      destruct (Z.eq_dec (x l) 0); [by left|right]. pose proof (Hleast l Hl). lia. }
    assert (c * (excess c x ls - excess (c + 1) x ls) <= c * (excess c y ks - excess (c + 1) y ks)); [|lia].
    apply Z.mul_le_mono_nonneg_l; lia.
Qed.

(** The more unequal load leaves fewer processes unfinished. *)
Lemma more_unequal_live {A B} (x : A -> Z) ls (y : B -> Z) ks : more_unequal x ls y ks ->
  excess 0 x ls - excess 1 x ls <= excess 0 y ks - excess 1 y ks.
Proof. intros [-> M]. pose proof (M 1). lia. Qed.

(** ** The load of a simulation *)

(** What the processes arrived by [T] still need. *)
Definition load {Sd} (T : Z) (s : Simulator Sd) (l : loc) : Z :=
  if ArrivalTime (deref (mem s) l) <=? T then RemainingTime (deref (mem s) l) else 0.

(** Completion times so far, the others counted up to now. *)
Definition flow {Sd} (s : Simulator Sd) : Z :=
  zsum (fun l => if RemainingTime (deref (mem s) l) =? 0 then CompletionTime (deref (mem s) l)
                 else currentTime s) (processes s).

(** A sum over the configurations. *)
Definition config_sum {Sd} (g : Z -> Z -> Z) (s : Simulator Sd) : Z :=
  zsum (fun l => g (ArrivalTime (deref (mem s) l)) (BurstTime (deref (mem s) l))) (processes s).

Section load.
Context {Sd : Type} `{SchedulerLaws Sd} `{GoSortLaws}.
Implicit Types (s : Simulator Sd) (l : loc).

Lemma ticked_config_eq s s' l : ticked s s' ->
  ArrivalTime (deref (mem s') l) = ArrivalTime (deref (mem s) l) /\
  BurstTime (deref (mem s') l) = BurstTime (deref (mem s) l).
Proof. intros T. by destruct (config_eq_inv _ _ (tk_config _ _ T l)) as (_ & _ & -> & -> & _). Qed.

Lemma config_sum_tick g s s' : ticked s s' -> config_sum g s' = config_sum g s.
Proof.
  intros T. unfold config_sum. rewrite (tk_procs _ _ T). apply zsum_ext. intros l _.
  by destruct (ticked_config_eq s s' l T) as [-> ->].
Qed.

(** A process that has not arrived has had no service. *)
Lemma unarrived now s l : sim_wf now s -> l ∈ processes s -> now <= ArrivalTime (deref (mem s) l) ->
  RemainingTime (deref (mem s) l) = BurstTime (deref (mem s) l).
Proof.
  intros [Hwf _] Hl Ha. pose proof (wf_procs _ _ _ _ _ _ Hwf l Hl) as Hp.
  pose proof (served_le_demand _ _ Hp) as Hs. unfold served, demand in Hs.
  pose proof (pw_remaining _ _ Hp). destruct (Z.leb_spec (ArrivalTime (deref (mem s) l)) (now - 1)); lia.
Qed.

Lemma load_nonneg now T s l : sim_wf now s -> l ∈ processes s -> 0 <= load T s l.
Proof.
  intros [Hwf _] Hl. pose proof (pw_remaining _ _ (wf_procs _ _ _ _ _ _ Hwf l Hl)).
  unfold load. destruct (_ <=? _); lia.
Qed.

(** A tick runs one of the arrived processes, chosen among the ready ones, or all
    of them are done. *)
Lemma tick_load s :
  reachable s -> currentTime s < max_int -> io_total s = 0 ->
  let T := currentTime s in
  exists s1 s', dispatch (decision_state s) = Some s1 /\ executeTimeUnit s = Some s' /\
    keeps T s s1 /\ ticked s s' /\
    match currentProcess s1 with
    | Some c => runs_one c (load T s) (load T s') (processes s) /\
        forall l, l ∈ processes s -> 0 < load T s l -> l = c \/ l ∈ readyQueue s1
    | None => forall l, l ∈ processes s -> load T s l = 0 /\ load T s' l = 0
    end.
Proof.
  intros Hr Ht Hio T. destruct (reachable_wf _ Hr) as [Hwf Ht0].
  destruct (executeTimeUnit_decides s Hwf ltac:(lia)) as
    (s1 & s' & Hd & [Hwf1 F1] & Hnew & E & Hwf' & Tk & Hcase).
  exists s1, s'. do 4 (split; [done|]).
  assert (Hload : forall l, load T s' l = if ArrivalTime (deref (mem s) l) <=? T
                                          then RemainingTime (deref (mem s') l) else 0).
  { intros l. unfold load. by rewrite (proj1 (ticked_config_eq s s' l Tk)). }
  destruct (work_left_nonneg 0 _ _ Hwf1) as (_ & Hio1 & _). pose proof (frame_io_total _ _ F1).
  destruct (currentProcess s1) as [c|] eqn:Hc.
  - destruct Hcase as [Hcp _ _ Hrem Hpos Hoth].
    assert (Ha : ArrivalTime (deref (mem s) c) <= T).
    { destruct (Z.le_gt_cases (ArrivalTime (deref (mem s) c)) T) as [|Ha]; [done|exfalso].
      destruct (ticked_config_eq s s' c Tk) as [Ea Eb].
      pose proof (unarrived _ s' c Hwf' ltac:(by rewrite (tk_procs _ _ Tk)) ltac:(rewrite Ea; lia)).
      pose proof (pw_remaining _ _ (wf_procs _ _ _ _ _ _ (proj1 Hwf) c Hcp)). lia. }
    split.
    + split; [done|unfold load; by ztest|rewrite Hload; unfold load; by ztest|].
      intros l _ Hne. rewrite Hload. unfold load. by rewrite Hoth.
    + intros l Hl Hpl. destruct (decide (l = c)) as [|Hne]; [by left|right].
      unfold load in Hpl. destruct (Z.leb_spec (ArrivalTime (deref (mem s) l)) T) as [Hal|]; [|done].
      assert (Hl1 : l ∈ processes s1) by (by rewrite (fr_procs _ _ F1)).
      apply (wf_ready _ _ _ _ _ _ (proj1 Hwf1)). split; [done|].
      pose proof (no_io_not_waiting _ s1 l Hwf1 ltac:(lia) Hl1).
      pose proof (pw_done _ _ (wf_procs _ _ _ _ _ _ (proj1 Hwf1) l Hl1)) as Hdone.
      rewrite (fr_remaining _ _ F1) in Hdone.
      destruct (State (deref (mem s1) l)) eqn:Hs; try done.
      * pose proof (Hnew l Hl Hs). lia.
      * assert (currentProcess s1 = Some l) by (by apply (wf_cur _ _ _ _ _ _ (proj1 Hwf1))). congruence.
      * pose proof (proj2 Hdone eq_refl). lia.
  - intros l Hl. rewrite Hload. unfold load. rewrite (id_remaining _ _ Hcase).
    destruct (Z.leb_spec (ArrivalTime (deref (mem s) l)) T) as [Ha|]; [|done].
    assert (Hl' : l ∈ processes s') by (by rewrite (tk_procs _ _ Tk)).
    destruct (id_nobody _ _ Hcase l Hl) as [Hnr Hnn].
    pose proof (tk_io _ _ Tk). destruct (work_left_nonneg 0 _ _ Hwf') as (_ & Hio' & _).
    pose proof (no_io_not_waiting _ s' l Hwf' ltac:(lia) Hl').
    pose proof (pw_done _ _ (wf_procs _ _ _ _ _ _ (proj1 Hwf') l Hl')) as Hdone.
    rewrite (id_remaining _ _ Hcase) in Hdone.
    destruct (State (deref (mem s') l)) eqn:Hs; try done.
    + pose proof (id_new _ _ Hcase l Hl Hs). lia.
    + by rewrite (proj2 Hdone eq_refl).
Qed.

(** Arrivals add the same work whatever the policy. *)
Lemma load_next s s' c : 0 <= c -> reachable s' -> ticked s s' ->
  let T := currentTime s in
  excess c (load (T + 1) s') (processes s') =
  excess c (load T s') (processes s') +
  config_sum (fun a b => if a =? T + 1 then Z.max 0 (b - c) else 0) s'.
Proof.
  intros Hc Hr' Tk T. destruct (reachable_wf _ Hr') as [Hwf' _].
  assert (Et : currentTime s' = T + 1) by apply (tk_time _ _ Tk).
  unfold excess, config_sum. rewrite <-zsum_plus. apply zsum_ext. intros l Hl. unfold load.
  pose proof (unarrived _ s' l Hwf' Hl). rewrite Et in *.
  destruct (Z.leb_spec (ArrivalTime (deref (mem s') l)) (T + 1)),
    (Z.leb_spec (ArrivalTime (deref (mem s') l)) T),
    (Z.eqb_spec (ArrivalTime (deref (mem s') l)) (T + 1)); lia.
Qed.

(** Every unfinished process adds one unit of flow. *)
Lemma flow_tick s s' : reachable s -> currentTime s < max_int -> executeTimeUnit s = Some s' ->
  ticked s s' ->
  let T := currentTime s in
  flow s' = flow s + (excess 0 (load T s) (processes s) - excess 1 (load T s) (processes s)) +
    config_sum (fun a _ => if a <=? T then 0 else 1) s.
Proof.
  intros Hr Ht E Tk T. destruct (reachable_wf _ Hr) as [Hwf Ht0].
  unfold flow, excess, config_sum. rewrite <-zsum_minus, <-!zsum_plus, (tk_procs _ _ Tk).
  apply zsum_ext. intros l Hl. rewrite (tick_completion s s' l Hr Ht E), (tk_time _ _ Tk).
  pose proof (wf_procs _ _ _ _ _ _ (proj1 Hwf) l Hl) as Hp.
  pose proof (pw_remaining _ _ Hp). pose proof (co_burst _ (pw_config _ _ Hp)).
  assert (Hdec : RemainingTime (deref (mem s') l) <= RemainingTime (deref (mem s) l) /\
    0 <= RemainingTime (deref (mem s') l)).
  { destruct (executeTimeUnit_spec s Hwf ltac:(lia)) as (s2 & E2 & Hwf2 & _).
    rewrite E in E2. injection E2 as <-. split.
    - destruct (tk_work _ _ Tk) as [[c R]|I]; [|by rewrite (id_remaining _ _ I)].
      destruct (decide (l = c)) as [->|Hne]; [rewrite (rn_remaining _ _ _ R); lia|].
      by rewrite (rn_others _ _ _ R).
    - apply (wf_procs _ _ _ _ _ _ (proj1 Hwf2)). by rewrite (tk_procs _ _ Tk). }
  unfold load. pose proof (unarrived _ s l Hwf Hl) as Hun. change (currentTime s) with T in Hun |- *.
  destruct (Z.leb_spec (ArrivalTime (deref (mem s) l)) T), (Z.eqb_spec (RemainingTime (deref (mem s) l)) 0),
    (Z.eqb_spec (RemainingTime (deref (mem s') l)) 0); ztest; lia.
Qed.
End load.

(** ** A policy that runs the least load

    The interface: [inv] is what the policy's runs keep, and with it the process the
    decision part of a tick leaves on the CPU needs no more than any ready one. *)

Class LeastFirst (Sp : Type) `{SchedulerLaws Sp} `{GoSortLaws} (inv : Simulator Sp -> Prop) : Prop := {
  lf_least : forall s s1 c l, reachable s -> inv s -> io_total s = 0 -> currentTime s < max_int ->
    dispatch (decision_state s) = Some s1 -> currentProcess s1 = Some c -> l ∈ readyQueue s1 ->
    RemainingTime (deref (mem s1) c) <= RemainingTime (deref (mem s1) l);
  lf_tick : forall s s', reachable s -> inv s -> io_total s = 0 -> currentTime s < max_int ->
    executeTimeUnit s = Some s' -> inv s'
}.

(** ** The least load beside another policy *)

Lemma excess_ext {A} c (x y : A -> Z) ls : (forall l, l ∈ ls -> x l = y l) -> excess c x ls = excess c y ls.
Proof. intros Hxy. apply zsum_ext. intros l Hl. by rewrite Hxy. Qed.

Lemma excess_none {A} (x : A -> Z) ls : (forall l, l ∈ ls -> x l = 0) -> excess 0 x ls = 0.
Proof. intros Hx. apply zsum_zero. intros l Hl. by rewrite Hx. Qed.

Lemma excess_some {A} (x : A -> Z) ls a : a ∈ ls -> 1 <= x a -> 1 <= excess 0 x ls.
Proof.
  intros Ha Hp. etransitivity; [exact Hp|]. etransitivity; [|apply (zsum_elem (fun l => Z.max 0 (x l - 0)) ls a)];
    [lia|intros; lia|done].
Qed.

Section versus.
Context {Sp Sd : Type} {inv : Simulator Sp -> Prop} `{LeastFirst Sp inv} `{!Scheduler Sd, !SchedulerLaws Sd}.
Implicit Types (s : Simulator Sp) (r : Simulator Sd).

(** The process on the CPU has the least load. *)
Lemma least_load s s1 c :
  reachable s -> inv s -> io_total s = 0 -> currentTime s < max_int ->
  dispatch (decision_state s) = Some s1 -> frame s s1 -> currentProcess s1 = Some c ->
  (forall l, l ∈ processes s -> 0 < load (currentTime s) s l -> l = c \/ l ∈ readyQueue s1) ->
  1 <= load (currentTime s) s c ->
  forall l, l ∈ processes s -> 0 < load (currentTime s) s l ->
    load (currentTime s) s c <= load (currentTime s) s l.
Proof.
  intros Hr Hi Hio Ht Hd F Hc Hready Hpc l Hl Hpl. destruct (Hready l Hl Hpl) as [->|Hq]; [done|].
  pose proof (lf_least s s1 c l Hr Hi Hio Ht Hd Hc Hq) as Hle.
  rewrite !(fr_remaining _ _ F) in Hle. unfold load in *.
  destruct (ArrivalTime (deref (mem s) c) <=? _); [|lia].
  destruct (ArrivalTime (deref (mem s) l) <=? _); lia.
Qed.

Record ahead s r : Prop := {
  ah_lock : lockstep s r;
  ah_load : more_unequal (load (currentTime s) s) (processes s) (load (currentTime r) r) (processes r);
  ah_flow : flow s <= flow r;
  ah_config : forall g, config_sum g s = config_sum g r
}.

(** The loads after a tick, before the next arrivals. *)
Lemma loads_tick s r s' r' :
  reachable s -> reachable r -> currentTime s < max_int -> ahead s r -> inv s ->
  executeTimeUnit s = Some s' -> executeTimeUnit r = Some r' ->
  more_unequal (load (currentTime s) s') (processes s') (load (currentTime r) r') (processes r').
Proof.
  intros Hs Hr Ht [L M _ _] Hi Es Er. pose proof (lk_time _ _ L) as Lt.
  destruct (tick_load s Hs Ht (lk_io1 _ _ L)) as (s1 & s2 & Hds & Es' & [Ws1 Fs] & Ts & Cs).
  destruct (tick_load r Hr ltac:(lia) (lk_io2 _ _ L)) as (r1 & r2 & _ & Er' & _ & Tr & Cr).
  rewrite Es in Es'. injection Es' as <-. rewrite Er in Er'. injection Er' as <-.
  rewrite (tk_procs _ _ Ts), (tk_procs _ _ Tr).
  destruct (reachable_wf _ Hs) as [Ws _], (reachable_wf _ Hr) as [Wr _].
  destruct (currentProcess s1) as [a|] eqn:Ha, (currentProcess r1) as [b|] eqn:Hb.
  - destruct Cs as [Ra Hready], Cr as [Rb _].
    eapply (more_unequal_run a b); [| | | |exact Ra|exact Rb| |exact M].
    + apply (wf_nodup _ _ _ _ _ _ (proj1 Ws)).
    + apply (wf_nodup _ _ _ _ _ _ (proj1 Wr)).
    + intros l Hl. by apply (load_nonneg _ _ _ _ Ws).
    + intros l Hl. by apply (load_nonneg _ _ _ _ Wr).
    + by apply (least_load s s1 a Hs Hi (lk_io1 _ _ L) Ht Hds Fs Ha Hready), Ra.
  - destruct Cs as [Ra _]. pose proof (excess_some _ _ a (ro_in _ _ _ _ Ra) (ro_pos _ _ _ _ Ra)).
    pose proof (excess_none _ _ (fun l Hl => proj1 (Cr l Hl))). pose proof (mu_total _ _ _ _ M). lia.
  - destruct Cr as [Rb _]. pose proof (excess_some _ _ b (ro_in _ _ _ _ Rb) (ro_pos _ _ _ _ Rb)).
    pose proof (excess_none _ _ (fun l Hl => proj1 (Cs l Hl))). pose proof (mu_total _ _ _ _ M). lia.
  - assert (Xs : forall c, excess c (load (currentTime s) s') (processes s) = excess c (load (currentTime s) s) (processes s))
      by (intros c; apply excess_ext; intros l Hl; by destruct (Cs l Hl) as [-> ->]).
    assert (Xr : forall c, excess c (load (currentTime r) r') (processes r) = excess c (load (currentTime r) r) (processes r))
      by (intros c; apply excess_ext; intros l Hl; by destruct (Cr l Hl) as [-> ->]).
    destruct M as [M0 M1]. split; [by rewrite Xs, Xr|]. intros c Hc. rewrite Xs, Xr. by apply M1.
Qed.

Lemma ahead_tick s r s' r' :
  reachable s -> reachable r -> reachable s' -> reachable r' -> currentTime s < max_int -> ahead s r -> inv s ->
  executeTimeUnit s = Some s' -> executeTimeUnit r = Some r' -> ticked s s' -> ticked r r' ->
  ahead s' r' /\ isComplete s' = isComplete r'.
Proof.
  intros Hs Hr Hs' Hr' Ht A Hi Es Er Ts Tr. pose proof (loads_tick s r s' r' Hs Hr Ht A Hi Es Er) as M.
  destruct A as [L M0 Hf Hg]. pose proof (lk_time _ _ L) as Lt.
  destruct (reachable_wf _ Hs) as [Ws _], (reachable_wf _ Hr) as [Wr _].
  destruct (reachable_wf _ Hs') as [Ws' _], (reachable_wf _ Hr') as [Wr' _].
  destruct (lockstep_tick s r s' r' Ws Wr Ws' Wr' L Ts Tr) as [L' Hcomp]. split; [|exact Hcomp].
  split; [done| | |].
  - rewrite (tk_time _ _ Ts), (tk_time _ _ Tr). destruct M as [M1 M2]. split.
    + rewrite (load_next s s' 0), (load_next r r' 0), M1 by done.
      by rewrite (config_sum_tick _ s s'), (config_sum_tick _ r r'), Hg, Lt by done.
    + intros c Hc. rewrite (load_next s s' c), (load_next r r' c) by done. pose proof (M2 c Hc).
      rewrite (config_sum_tick _ s s'), (config_sum_tick _ r r'), Hg, Lt in * by done. lia.
  - rewrite (flow_tick s s'), (flow_tick r r') by (done || lia).
    pose proof (more_unequal_live _ _ _ _ M0). rewrite Hg, Lt in *. lia.
  - intros g. rewrite (config_sum_tick _ s s'), (config_sum_tick _ r r') by done. apply Hg.
Qed.
Lemma ahead_run fuel : forall s r s' r',
  reachable s -> reachable r -> ahead s r -> inv s -> currentTime s + Z.of_nat fuel <= max_int ->
  runToCompletion fuel s = Some s' -> runToCompletion fuel r = Some r' -> ahead s' r'.
Proof.
  induction fuel as [|fuel IH]; intros s r s' r' Hs Hr A Hi Hmax; [done|].
  pose proof (lk_time _ _ (ah_lock _ _ A)) as Lt.
  destruct (reachable_tick s Hs) as (s1 & Es & Hs1 & Ts); [lia|].
  destruct (reachable_tick r Hr) as (r1 & Er & Hr1 & Tr); [lia|].
  destruct (ahead_tick s r s1 r1 Hs Hr Hs1 Hr1 ltac:(lia) A Hi Es Er Ts Tr) as [A1 Hc].
  pose proof (lf_tick s s1 Hs Hi (lk_io1 _ _ (ah_lock _ _ A)) ltac:(lia) Es) as Hi1.
  simpl. rewrite Es, Er. simpl. rewrite Hc. destruct (isComplete r1).
  - by intros [= <-] [= <-].
  - apply IH; try done. rewrite (tk_time _ _ Ts). lia.
Qed.

(** Two fresh simulations of the same processes. *)
Lemma setup_ahead (best : Sp) (sched : Sd) ps :
  sched_ok best -> sched_ok sched -> Forall admissible ps -> Forall (fun p => IOBursts p = []) ps ->
  ahead (setup ps best) (setup ps sched).
Proof.
  intros Hb Hok Hadm Hio. pose proof (setup_lockstep ps best sched Hb Hok Hadm Hio) as L.
  destruct (setup_spec ps best Hb Hadm) as (_ & T1 & _ & S1 & _).
  destruct (setup_spec ps sched Hok Hadm) as (_ & T2 & _ & S2 & _).
  assert (Hx : forall c, excess c (load 0 (setup ps best)) (processes (setup ps best)) =
    excess c (load 0 (setup ps sched)) (processes (setup ps sched))).
  { intros c. unfold excess, load.
    rewrite (S1 (fun p => Z.max 0 ((if ArrivalTime p <=? 0 then RemainingTime p else 0) - c))).
    by rewrite (S2 (fun p => Z.max 0 ((if ArrivalTime p <=? 0 then RemainingTime p else 0) - c))). }
  split; [done| | |].
  - rewrite T1, T2. split; [apply Hx|]. intros c _. by rewrite Hx.
  - unfold flow. rewrite T1, T2.
    rewrite (S1 (fun p => if RemainingTime p =? 0 then CompletionTime p else 0)).
    by rewrite (S2 (fun p => if RemainingTime p =? 0 then CompletionTime p else 0)).
  - intros g. unfold config_sum. rewrite (S1 (fun p => g (ArrivalTime p) (BurstTime p))).
    by rewrite (S2 (fun p => g (ArrivalTime p) (BurstTime p))).
Qed.
End versus.

(** A complete simulation's flow is the sum of its completion times. *)
Lemma flow_complete {Sd} `{SchedulerLaws Sd} `{GoSortLaws} (u : Simulator Sd) :
  reachable u -> isComplete u = true ->
  zsum (fun l => TurnaroundTime (deref (mem u) l)) (processes u) = flow u - config_sum (fun a _ => a) u /\
  zsum (fun l => WaitingTime (deref (mem u) l)) (processes u) =
    flow u - config_sum (fun a b => a + b) u.
Proof.
  intros Hu Hc. destruct (reachable_wf _ Hu) as [Wu _]. unfold flow, config_sum. rewrite <-!zsum_minus.
  split; apply zsum_ext; intros l Hl; pose proof (complete_served _ _ Wu Hc l Hl) as Hrem;
    pose proof (wf_procs _ _ _ _ _ _ (proj1 Wu) l Hl) as Hp;
    destruct (pw_final _ _ Hp (proj1 (pw_done _ _ Hp) Hrem)) as (_ & E1 & E2); rewrite Hrem; cbn; lia.
Qed.

(** [best]'s completed run beside any other policy's. *)
Definition no_policy_beats {Sp} `{SchedulerLaws Sp} `{GoSort} (best : Sp) (ps : list Process) (A : Z) : Prop :=
  forall (Sd : Type) (SD : Scheduler Sd) (SL : SchedulerLaws Sd) (sched : Sd), sched_ok sched ->
  let fuel := Z.to_nat (A + zsum BurstTime ps) in
  exists s r, runToCompletion fuel (setup ps best) = Some s /\
    runToCompletion fuel (setup ps sched) = Some r /\
    isComplete s = true /\ isComplete r = true /\
    zsum (fun l => TurnaroundTime (deref (mem s) l)) (processes s) <=
    zsum (fun l => TurnaroundTime (deref (mem r) l)) (processes r) /\
    zsum (fun l => WaitingTime (deref (mem s) l)) (processes s) <=
    zsum (fun l => WaitingTime (deref (mem r) l)) (processes r).

Lemma least_first_optimal {Sp} {inv : Simulator Sp -> Prop} `{LeastFirst Sp inv} (best : Sp) ps A :
  sched_ok best -> inv (setup ps best) -> Forall admissible ps -> ps <> [] ->
  Forall (fun p => IOBursts p = []) ps ->
  Forall (fun p => ArrivalTime p <= A) ps -> 0 <= A -> A + zsum BurstTime ps <= max_int ->
  no_policy_beats best ps A.
Proof.
  intros Hb Hi Hadm Hne Hio HA Hpos Hmax Sd SD SL sched Hok fuel.
  destruct (setup_completes best ps A Hb Hadm Hne Hio HA Hpos Hmax) as (s & Hs & Rs & Cs).
  destruct (setup_completes sched ps A Hok Hadm Hne Hio HA Hpos Hmax) as (r & Hr & Rr & Cr).
  exists s, r. do 4 (split; [done|]).
  destruct (setup_spec ps best Hb Hadm) as (R1 & T1 & _). destruct (setup_spec ps sched Hok Hadm) as (R2 & _).
  destruct (ahead_run fuel _ _ s r R1 R2 (setup_ahead best sched ps Hb Hok Hadm Hio) Hi) as [_ _ Hf Hg];
    [rewrite T1; unfold fuel, max_int in *; lia|done|done|].
  destruct (flow_complete s Rs Cs) as [-> ->], (flow_complete r Rr Cr) as [-> ->]. rewrite !Hg. lia.
Qed.

(** ** SRTF *)

Definition distinct_PIDs {Sd} (s : Simulator Sd) : Prop :=
  NoDup (map (fun l => PID (deref (mem s) l)) (processes s)).

Lemma distinct_PIDs_tick {Sd} (s s' : Simulator Sd) : ticked s s' -> distinct_PIDs s -> distinct_PIDs s'.
Proof.
  intros T. unfold distinct_PIDs. rewrite (tk_procs _ _ T).
  rewrite (map_ext (fun l => PID (deref (mem s') l)) (fun l => PID (deref (mem s) l))); [done|].
  intros l. by destruct (config_eq_inv _ _ (tk_config _ _ T l)) as (-> & _).
Qed.

Lemma setup_distinct {Sd} `{SchedulerLaws Sd} `{GoSortLaws} ps (sched : Sd) :
  sched_ok sched -> Forall admissible ps -> NoDup (map PID ps) -> distinct_PIDs (setup ps sched).
Proof.
  intros Hok Hadm Hnd. pose proof (Permutation_map PID (AddProcesses_perm ps _ (reach_new sched Hok) Hadm)) as E.
  rewrite map_map in E. unfold distinct_PIDs, setup. by rewrite E.
Qed.

#[export] Instance SRTF_least_first `{GoSortLaws} : LeastFirst SRTF.SRTFScheduler distinct_PIDs.
Proof.
  split.
  - intros s s1 c l Hr Hnd _ _ Hd Hc Hl.
    exact (decision_runs_best (mark := fun _ h _ l => RemainingTime (deref h l))
      (rank := fun _ h _ l => RemainingTime (deref h l)) s s1 Hr Hnd I Hd c l Hc Hl).
  - intros s s' Hr Hnd _ Ht E. destruct (reachable_tick s Hr Ht) as (s2 & E2 & _ & T).
    rewrite E in E2. injection E2 as <-. by apply (distinct_PIDs_tick s).
Qed.

(** ** Properties *)

(** C4: SRTF is optimal: of processes without I/O and with distinct ids, whatever
    their arrival times, no policy of any kind achieves a smaller total turnaround
    time than SRTF, nor a smaller total waiting time (hence no smaller averages, the
    number of processes being the same). *)
Theorem srtf_minimises_turnaround `{GoSortLaws} ps A :
  Forall admissible ps -> ps <> [] -> NoDup (map PID ps) ->
  Forall (fun p => IOBursts p = []) ps ->
  Forall (fun p => ArrivalTime p <= A) ps -> 0 <= A -> A + zsum BurstTime ps <= max_int ->
  no_policy_beats SRTF.NewSRTFScheduler ps A.
Proof.
  intros Hadm Hne Hnd Hio HA Hpos Hmax. apply (least_first_optimal (inv := distinct_PIDs)); try done.
  by apply setup_distinct.
Qed.

(** A long job, and two short ones that arrive while it runs: SRTF against FCFS. *)
Definition convoy : list Process :=
  [Example.process 1 0 8; Example.process 2 1 2; Example.process 3 2 1].

Lemma convoy_admissible : Forall admissible convoy.
Proof.
  apply Forall_cons_2; [|apply Forall_cons_2; [|apply Forall_cons_2; [|apply Forall_nil_2]]];
    apply Example.process_admissible; unfold in_int, min_int, max_int; lia.
Qed.

Lemma srtf_minimises_turnaround_witness :
  exists s r, runToCompletion 13 (setup convoy SRTF.NewSRTFScheduler) = Some s /\
    runToCompletion 13 (setup convoy FCFS.NewFCFSScheduler) = Some r /\
    zsum (fun l => TurnaroundTime (deref (mem s) l)) (processes s) = 15 /\
    zsum (fun l => TurnaroundTime (deref (mem r) l)) (processes r) = 26 /\
    zsum (fun l => TurnaroundTime (deref (mem s) l)) (processes s) <=
    zsum (fun l => TurnaroundTime (deref (mem r) l)) (processes r).
Proof.
  assert (Hbest : no_policy_beats SRTF.NewSRTFScheduler convoy 2).
  { apply srtf_minimises_turnaround.
    - exact convoy_admissible.
    - discriminate.
    - apply (bool_decide_unpack _). vm_compute. exact I.
    - repeat constructor.
    - repeat constructor; vm_compute; discriminate.
    - lia.
    - vm_compute. discriminate. }
  destruct (Hbest _ _ FCFS_laws FCFS.NewFCFSScheduler I) as (s & r & Es & Er & _ & _ & Hle & _).
  exists s, r. split; [exact Es|]. split; [exact Er|].
  assert (Hs : zsum (fun l => TurnaroundTime (deref (mem s) l)) (processes s) = 15)
    by (vm_compute in Es; injection Es as <-; vm_compute; reflexivity).
  assert (Hr : zsum (fun l => TurnaroundTime (deref (mem r) l)) (processes r) = 26)
    by (vm_compute in Er; injection Er as <-; vm_compute; reflexivity).
  split; [exact Hs|]. split; [exact Hr|exact Hle].
Defined.
