(* ===== verification/SimMorphism.v ===== *)
(** * Engines over related schedulers

    The engine only uses the methods of its scheduler. A map between two scheduler
    types that commutes with the methods ([Morphism]) commutes with every operation of
    the engine, whatever the speed and the callback: the two engines run in step. The
    interface value of a policy is the instance the program relies on ([Api]). *)

From S2P Require Import Prelude.
From S2P Require Import Float64.
From S2P Require Import Process.
From S2P Require Import Scheduler.
From S2P Require Import Simulator.
From S2P Require Import SimInvariant.
From S2P Require Import SimSteps.
From S2P Require Import SimReach.
From S2P Require Import SimProgress.
From S2P Require Import SimFair.

Class Morphism {S T} `{Scheduler S} `{Scheduler T} (f : S -> T) : Prop := {
  mo_Schedule : forall s h q t, Schedule (f s) h q t = ((Schedule s h q t).1, f (Schedule s h q t).2);
  mo_AddProcess : forall s h l, sched_AddProcess (f s) h l = f (sched_AddProcess s h l);
  mo_RemoveProcess : forall s l, sched_RemoveProcess (f s) l = f (sched_RemoveProcess s l);
  mo_Preempt : forall s h c q t, Preempt (f s) h c q t = Preempt s h c q t;
  mo_Name : forall s, sched_Name (f s) = sched_Name s;
  mo_QuantumFor : forall s c, QuantumFor (f s) c = QuantumFor s c;
  mo_OnQuantumExpired : forall s c, OnQuantumExpired (f s) c = f (OnQuantumExpired s c);
  mo_Reset : forall s, sched_Reset (f s) = f (sched_Reset s)
}.

(** The same engine with its scheduler mapped, and another speed and callback. *)
Definition retype {S T} (f : S -> T) (gs : Z -> Z) (gc : bool -> bool) (s : Simulator S) : Simulator T :=
  mkSimulator (f (scheduler s)) (mem s) (processes s) (readyQueue s) (ioQueue s)
    (currentProcess s) (currentTime s) (ganttChart s) (events s) (contextSwitches s) (state s)
    (gs (speed s)) (gc (updateCallback s)) (lastGanttUpdate s) (totalIdleTime s) (timeQuantumUsed s).

Section morphism.
Context {S T : Type} `{Scheduler S} `{Scheduler T} (f : S -> T) `{!Morphism f}
  (gs : Z -> Z) (gc : bool -> bool).
Implicit Types (s : Simulator S) (l : loc).
#[local] Notation R := (retype f gs gc).

Lemma arrive_retype s l : arrive (R s) l = R (arrive s l).
Proof.
  unfold arrive. cbn [mem retype currentTime]. destruct (_ && _); [|done].
  cbn. by rewrite mo_AddProcess.
Qed.

Lemma checkArrivals_retype s : checkArrivals (R s) = R (checkArrivals s).
Proof.
  unfold checkArrivals. change (processes (R s)) with (processes s). generalize (processes s).
  intros ls. revert s. induction ls as [|l ls IH]; intros s; [done|]. cbn [fold_left].
  by rewrite arrive_retype, IH.
Qed.

Lemma ioComplete_retype l s : ioComplete l (R s) = R (ioComplete l s).
Proof. unfold ioComplete. cbn. by rewrite mo_AddProcess. Qed.

Lemma tickIO_retype n : forall i k arr s,
  tickIO_loop n i k arr (R s) = let '(a, k', s') := tickIO_loop n i k arr s in (a, k', R s').
Proof.
  induction n as [|n IH]; intros i k arr s; [done|]. cbn [tickIO_loop].
  change (ioCountdown (arr !!! i) (R s)) with (R (ioCountdown (arr !!! i) s)).
  change (mem (R (ioCountdown (arr !!! i) s))) with (mem (ioCountdown (arr !!! i) s)).
  destruct (_ <=? 0); [by rewrite ioComplete_retype, IH|apply IH].
Qed.

Lemma tickIOQueue_retype s : tickIOQueue (R s) = R (tickIOQueue s).
Proof.
  unfold tickIOQueue. change (ioQueue (R s)) with (ioQueue s). rewrite tickIO_retype.
  by destruct (tickIO_loop _ _ _ _ s) as [[a k] s'].
Qed.

Lemma checkIO_retype fuel l c : forall s, checkIO_loop fuel l c (R s) = R <$> checkIO_loop fuel l c s.
Proof.
  induction fuel as [|fuel IH]; intros s; [done|]. cbn [checkIO_loop].
  change (mem (R s)) with (mem s). destruct (_ <? Z.of_nat _); [|done]. destruct (_ <? 0); [done|].
  destruct (IOBursts (deref (mem s) l) !! _) as [b|]; [|done]. cbn [mbind option_bind].
  destruct (Completed b); [apply (IH (upd l _ s))|]. by destruct (_ && _).
Qed.

Lemma checkIOBurst_retype s : checkIOBurst (R s) = R <$> checkIOBurst s.
Proof.
  unfold checkIOBurst. change (currentProcess (R s)) with (currentProcess s).
  destruct (currentProcess s) as [l|]; [|done]. change (mem (R s)) with (mem s).
  destruct (IsComplete _); [done|]. apply checkIO_retype.
Qed.

Lemma scheduleNextProcess_retype s : scheduleNextProcess (R s) = R (scheduleNextProcess s).
Proof.
  unfold scheduleNextProcess. cbn [readyQueue retype scheduler mem currentTime].
  destruct (_ =? 0)%nat; [done|]. rewrite mo_Schedule.
  destruct (Schedule _ _ _ _) as [[l|] v]; [|done]. cbn.
  destruct (currentProcess s) as [c|]; [destruct (_ =? _)|]; cbn; by destruct (negb _).
Qed.

Lemma preemptCurrentProcess_retype s : preemptCurrentProcess (R s) = R (preemptCurrentProcess s).
Proof.
  unfold preemptCurrentProcess. change (currentProcess (R s)) with (currentProcess s).
  by destruct (currentProcess s).
Qed.

Lemma executeProcess_retype d s : executeProcess d (R s) = R <$> executeProcess d s.
Proof.
  unfold executeProcess. cbn [currentProcess retype currentTime mem].
  destruct (currentProcess s) as [c|]; [|done].
  destruct (Execute _ _ _) as [p|]; [|done]. cbn [mbind option_bind].
  destruct (IsComplete p); [|done]. cbn. by rewrite mo_RemoveProcess.
Qed.

Lemma checkQuantum_retype s : checkQuantum (R s) = R <$> checkQuantum s.
Proof.
  unfold checkQuantum. cbn [currentProcess retype scheduler mem timeQuantumUsed].
  destruct (currentProcess s) as [c|]; [|done]. rewrite mo_QuantumFor.
  destruct (QuantumFor _ _) as [q|]; [|done]. cbn [mbind option_bind].
  destruct (_ && _); [|done]. cbn [fmap option_fmap option_map]. f_equal.
  unfold expireQuantum. rewrite <-scheduleNextProcess_retype. f_equal.
  unfold expired. cbn. by rewrite mo_OnQuantumExpired.
Qed.

Lemma dispatch_retype s : dispatch (R s) = R <$> dispatch s.
Proof.
  unfold dispatch. change (currentProcess (R s)) with (currentProcess s).
  destruct (currentProcess s) as [c|]; [|cbn; by rewrite scheduleNextProcess_retype].
  change (mem (R s)) with (mem s). destruct (IsComplete _); [cbn; by rewrite scheduleNextProcess_retype|].
  unfold shouldPreempt. cbn [scheduler retype mem currentProcess readyQueue currentTime].
  rewrite mo_Preempt. destruct (Preempt _ _ _ _ _) as [[|]|]; [|done|done].
  cbn. by rewrite preemptCurrentProcess_retype, scheduleNextProcess_retype.
Qed.

Lemma runCurrent_retype s : runCurrent (R s) = R <$> runCurrent s.
Proof.
  unfold runCurrent. change (currentProcess (R s)) with (currentProcess s).
  destruct (currentProcess s) as [c|]; [|done]. rewrite executeProcess_retype.
  destruct (executeProcess 1 s) as [s1|]; [|done]. cbn [mbind option_bind fmap option_fmap option_map].
  change (set_timeQuantumUsed (timeQuantumUsed (R s1) +ᵢ 1) (R s1))
    with (R (set_timeQuantumUsed (timeQuantumUsed s1 +ᵢ 1) s1)).
  rewrite checkIOBurst_retype. destruct (checkIOBurst _) as [s2|]; [|done]. apply checkQuantum_retype.
Qed.

Lemma advanceClock_retype s : advanceClock (R s) = R (advanceClock s).
Proof.
  unfold advanceClock.
  change (set_currentTime (currentTime (R s) +ᵢ 1) (R s)) with (R (set_currentTime (currentTime s +ᵢ 1) s)).
  generalize (set_currentTime (currentTime s +ᵢ 1) s). intros u.
  change (readyQueue (R u)) with (readyQueue u). generalize (readyQueue u). intros ls. revert u.
  induction ls as [|l ls IH]; intros u; [done|]. cbn [fold_left].
  assert (E : countWaiting (R u) l = R (countWaiting u l)).
  { unfold countWaiting. cbn [mem retype currentProcess]. by destruct (_ && _). }
  by rewrite E, IH.
Qed.

(** A tick of the mapped engine is the mapped tick. *)
Lemma executeTimeUnit_retype s : executeTimeUnit (R s) = R <$> executeTimeUnit s.
Proof.
  unfold executeTimeUnit. rewrite checkArrivals_retype, tickIOQueue_retype, dispatch_retype.
  destruct (dispatch _) as [s1|]; [|done]. cbn [mbind option_bind fmap option_fmap option_map].
  rewrite runCurrent_retype. destruct (runCurrent s1) as [s2|]; [|done].
  exact (f_equal Some (advanceClock_retype s2)).
Qed.

Lemma ticks_retype n : forall s, ticks n (R s) = R <$> ticks n s.
Proof.
  induction n as [|n IH]; intros s; [done|]. cbn [ticks]. rewrite executeTimeUnit_retype.
  destruct (executeTimeUnit s) as [s1|]; [|done]. apply IH.
Qed.

Lemma runToCompletion_retype fuel : forall s, runToCompletion fuel (R s) = R <$> runToCompletion fuel s.
Proof.
  induction fuel as [|fuel IH]; intros s; [done|]. cbn [runToCompletion]. rewrite executeTimeUnit_retype.
  destruct (executeTimeUnit s) as [s1|]; [|done]. cbn [mbind option_bind fmap option_fmap option_map].
  change (isComplete (R s1)) with (isComplete s1). destruct (isComplete s1); [done|apply IH].
Qed.

Lemma resetState_retype s : resetState (R s) = R (resetState s).
Proof.
  unfold resetState. cbn -[fold_left]. rewrite mo_Reset.
  match goal with |- fold_left _ ?ls ?u = R (fold_left _ _ ?v) =>
    change u with (R v); generalize v; generalize ls end.
  intros ls. induction ls as [|l ls IH]; intros v; [done|]. cbn [fold_left]. apply (IH (upd l resetProcess v)).
Qed.

Lemma snapshotState_retype now s : snapshotState now (R s) = snapshotState now s.
Proof.
  unfold snapshotState, calculateMetrics. cbn [retype scheduler currentTime state]. rewrite mo_Name. done.
Qed.
End morphism.

(** The identity: speed and callback do not matter to a run. *)
#[export] Instance id_morphism {S} `{Scheduler S} : Morphism (@id S).
Proof. split; try done. intros s h q t. apply surjective_pairing. Qed.

Lemma setup_retype {S T} `{GoSort} (f : S -> T) ps sched :
  setup ps (f sched) = retype f id id (setup ps sched).
Proof.
  unfold setup. change (NewSimulator (f sched)) with (retype f id id (NewSimulator sched)).
  generalize (NewSimulator sched). induction ps as [|p ps IH]; intros s; [done|].
  unfold AddProcesses in *. cbn [fold_left]. apply (IH (AddProcess p s)).
Qed.

(** More fuel gives the same result. *)
Lemma run_fuel {S} `{Scheduler S} n : forall m (s s' : Simulator S),
  runToCompletion n s = Some s' -> (n <= m)%nat -> runToCompletion m s = Some s'.
Proof.
  induction n as [|n IH]; intros [|m] s s' E Hle; [done|done|lia|]. cbn [runToCompletion] in *.
  destruct (executeTimeUnit s) as [s1|]; [|done]. cbn [mbind option_bind] in *.
  destruct (isComplete s1); [done|]. apply (IH m s1 s' E). lia.
Qed.

Lemma run_unique {S} `{Scheduler S} n m (s s1 s2 : Simulator S) :
  runToCompletion n s = Some s1 -> runToCompletion m s = Some s2 -> s1 = s2.
Proof.
  intros E1 E2. pose proof (run_fuel n (Nat.max n m) s s1 E1 ltac:(lia)).
  pose proof (run_fuel m (Nat.max n m) s s2 E2 ltac:(lia)). congruence.
Qed.
