(* ===== verification/SimArrivals.v ===== *)
(** * Arrivals

    What a tick does about arrivals, under any policy: the arriving processes join the
    ready queue in the order of the process list, nobody else joins from outside the
    CPU, and between ticks, without I/O, the new processes are those that arrive from
    now on. *)

From Stdlib Require Import Sorted.
From S2P Require Import Prelude.
From S2P Require Import Float64.
From S2P Require Import Process.
From S2P Require Import Scheduler.
From S2P Require Import Simulator.
From S2P Require Import SimInvariant.
From S2P Require Import SimSteps.
From S2P Require Import SimTick.
From S2P Require Import SimReach.
From S2P Require Import SimPolicy.
From S2P Require Import SimCpu.
From S2P Require Import SimProgress.
From S2P Require Import SimFair.
From S2P Require Import SimOptimal.

(** ** Lists *)

Lemma filter_ext_elem {A} (P Q : A -> Prop) `{!forall x, Decision (P x), !forall x, Decision (Q x)} (ls : list A) :
  (forall x, x ∈ ls -> P x <-> Q x) -> filter P ls = filter Q ls.
Proof.
  induction ls as [|x ls IH]; intros Hpq; [done|].
  pose proof (Hpq x ltac:(left)) as Hx. specialize (IH (fun y Hy => Hpq y ltac:(by right))).
  destruct (decide (P x)).
  - rewrite !filter_cons_True by tauto. by rewrite IH.
  - rewrite !filter_cons_False by tauto. done.
Qed.

Lemma filter_keep {A} (P : A -> Prop) `{!forall x, Decision (P x)} (ls : list A) :
  (forall x, x ∈ ls -> P x) -> filter P ls = ls.
Proof.
  induction ls as [|x ls IH]; intros Hp; [done|]. rewrite filter_cons_True by (apply Hp; left).
  rewrite IH; [done|]. intros y Hy. apply Hp. by right.
Qed.

(** The first element of a filtered list. *)
Lemma filter_cons_first {A} (P : A -> Prop) `{!forall x, Decision (P x)} (ls : list A) x q : filter P ls = x :: q ->
  exists l1 l2, ls = l1 ++ x :: l2 /\ (forall y, y ∈ l1 -> ~ P y) /\ P x.
Proof.
  intros E. destruct (head_filter_Some P ls x) as (l1 & l2 & -> & Hl1); [by rewrite E|].
  exists l1, l2. split; [done|]. split; [by apply Forall_forall|].
  assert (Hx : x ∈ filter P (l1 ++ x :: l2)) by (rewrite E; left). by apply list_elem_of_filter in Hx as [Hx _].
Qed.

(** The elements below a bound, then those at it. *)
Lemma filter_sorted {A} (key : A -> Z) (P : A -> Prop) `{!forall x, Decision (P x)} T (ls : list A) :
  StronglySorted (fun x y => key x <= key y) ls ->
  filter (fun x => key x < T /\ P x) ls ++ filter (fun x => key x = T /\ P x) ls =
  filter (fun x => key x <= T /\ P x) ls.
Proof.
  induction 1 as [|x ls Hs IH Hx]; [done|]. rewrite Forall_forall in Hx.
  destruct (decide (P x)) as [HP|HP]; [|by rewrite !filter_cons_False by tauto].
  destruct (Z.lt_trichotomy (key x) T) as [Hlt|[Heq|Hgt]].
  - rewrite filter_cons_True by done. rewrite filter_cons_False by (intros [? _]; lia).
    rewrite filter_cons_True by (split; [lia|done]). by rewrite <-IH.
  - assert (E : filter (fun x => key x < T /\ P x) (x :: ls) = []).
    { rewrite filter_cons_False by (intros [? _]; lia). rewrite (filter_ext_elem _ (fun _ => False)); [by clear; induction ls|].
      intros y Hy%Hx. split; [intros [? _]; lia|done]. }
    assert (E' : filter (fun x => key x < T /\ P x) ls = []) by (rewrite filter_cons_False in E by (intros [? _]; lia); exact E).
    rewrite E, !filter_cons_True by (split; [lia|done]). by rewrite <-IH, E'.
  - rewrite !filter_cons_False by (intros [? _]; lia). done.
Qed.

(** The head of a sorted queue has the least key. *)
Lemma first_min_head {A} (key : A -> Z) x q r :
  StronglySorted (fun x y => key x <= key y) (x :: q) -> first_min (fun y => [key y]) (x :: q) r -> r = x.
Proof.
  intros Hs (q1 & q2 & E & Hlt & _). destruct q1 as [|y q1]; [by injection E|].
  injection E as -> E. specialize (Hlt y ltac:(left)). cbn in Hlt.
  apply StronglySorted_inv in Hs as [_ Hs]. rewrite Forall_forall in Hs.
  specialize (Hs r ltac:(rewrite E; set_solver)).
  rewrite orb_comm, andb_false_r in Hlt. apply Z.ltb_lt in Hlt. lia.
Qed.

Lemma filter_strongly_sorted {A} (R : A -> A -> Prop) (P : A -> Prop) `{!forall x, Decision (P x)} (ls : list A) :
  StronglySorted R ls -> StronglySorted R (filter P ls).
Proof.
  induction 1 as [|x ls Hs IH Hx]; [constructor|]. destruct (decide (P x)).
  - rewrite filter_cons_True by done. constructor; [done|]. rewrite Forall_forall in *.
    intros y [_ Hy]%list_elem_of_filter. auto.
  - by rewrite filter_cons_False.
Qed.

Lemma StronglySorted_map {A B} (f : A -> B) (R : B -> B -> Prop) ls :
  StronglySorted (fun x y => R (f x) (f y)) ls -> StronglySorted R (map f ls).
Proof.
  induction 1 as [|x ls Hs IH Hx]; cbn [map]; constructor; [done|]. by apply Forall_map.
Qed.

(** ** Arrivals *)

Section arrivals.
Context {Sd : Type} `{SchedulerLaws Sd} `{GoSortLaws}.
Implicit Types (s : Simulator Sd) (l : loc).

Definition arriving s l : Prop :=
  ArrivalTime (deref (mem s) l) <= currentTime s /\ State (deref (mem s) l) = StateNew.

#[export] Instance arriving_dec s l : Decision (arriving s l).
Proof. unfold arriving. apply _. Defined.

Lemma arrive_queue s l : readyQueue (arrive s l) = readyQueue s ++ filter (arriving s) [l].
Proof.
  unfold arrive. change (filter (arriving s) [l]) with (if decide (arriving s l) then [l] else []).
  destruct (decide (arriving s l)) as [[Ha Hs]|Hn].
  - by rewrite (proj2 (Z.leb_le _ _) Ha), bool_decide_true.
  - destruct (_ && _) eqn:Eb; [|by rewrite app_nil_r].
    apply andb_true_iff in Eb as [?%Z.leb_le ?%bool_decide_eq_true]. by destruct Hn.
Qed.

Lemma arrive_state s l x : l <> x -> State (deref (mem (arrive s l)) x) = State (deref (mem s) x).
Proof.
  intros Hne. unfold arrive. destruct (_ && _); [|done]. cbn. unfold deref.
  rewrite !list_lookup_total_alt, list_lookup_insert_ne by done. done.
Qed.

(** The new processes join the queue in the order of the process list. *)
Lemma fold_arrive_queue ls : forall s, sim_wf (currentTime s) s -> (forall l, l ∈ ls -> l ∈ processes s) ->
  NoDup ls -> readyQueue (fold_left arrive ls s) = readyQueue s ++ filter (arriving s) ls.
Proof.
  induction ls as [|x ls IH]; intros s Hwf Hsub Hnd; [by rewrite app_nil_r|]. cbn [fold_left].
  apply NoDup_cons in Hnd as [Hx Hnd].
  destruct (arrive_keeps s x Hwf (Hsub x ltac:(left))) as [Hwf1 F1].
  rewrite <-(fr_time _ _ F1) in Hwf1. rewrite IH; [|done|intros y Hy; rewrite (fr_procs _ _ F1); apply Hsub; by right|done].
  rewrite arrive_queue, <-app_assoc. f_equal. change (x :: ls) with ([x] ++ ls). rewrite filter_app. f_equal.
  apply filter_ext_elem. intros y Hy. unfold arriving. rewrite (fr_time _ _ F1).
  rewrite arrive_state by (by intros ->).
  by destruct (config_eq_inv _ _ (fr_config _ _ F1 y)) as (_ & _ & -> & _).
Qed.

(** The queue when a tick without I/O decides. *)
Lemma decision_queue s : reachable s -> io_total s = 0 ->
  readyQueue (decision_state s) = readyQueue s ++ filter (arriving s) (processes s).
Proof.
  intros Hr Hio. destruct (reachable_wf _ Hr) as [Hwf _].
  pose proof (checkArrivals_keeps s Hwf) as [Hwf1 F1]. pose proof (frame_io_total _ _ F1).
  destruct (work_left_nonneg 0 _ _ Hwf1) as (_ & ? & _).
  assert (Hq : ioQueue (checkArrivals s) = []).
  { destruct (ioQueue (checkArrivals s)) as [|l q] eqn:Eq; [done|].
    assert (Hl : l ∈ ioQueue (checkArrivals s)) by (rewrite Eq; left).
    apply (wf_io _ _ _ _ _ _ (proj1 Hwf1)) in Hl as [Hl Hs].
    by destruct (no_io_not_waiting _ _ l Hwf1 ltac:(lia) Hl). }
  unfold decision_state. rewrite tickIOQueue_eq, Hq. cbn [tickIO_ref].
  change (readyQueue (set_ioQueue [] (checkArrivals s))) with (readyQueue (checkArrivals s)).
  apply fold_arrive_queue; [done|done|apply (wf_nodup _ _ _ _ _ _ (proj1 Hwf))].
Qed.

(** ** A tick and its decision *)

Lemma decision_enqueues s : enqueues s (decision_state s).
Proof. eapply enqueues_trans; [apply checkArrivals_enqueues|apply tickIOQueue_enqueues]. Qed.


(** Nobody joins the queue or the CPU in a unit of CPU time. *)
Lemma scheduleNextProcess_members now s l : sim_wf now s -> currentProcess s = None ->
  l ∈ readyQueue (scheduleNextProcess s) \/ currentProcess (scheduleNextProcess s) = Some l -> l ∈ readyQueue s.
Proof.
  intros Hwf Hc. destruct (scheduleNextProcess_keeps now s Hwf Hc) as [_ D].
  destruct (decide (readyQueue s = [])) as [E|E].
  - destruct (di_empty _ _ D E) as [-> ->]. by intros [?%elem_of_nil|].
  - destruct (di_choice _ _ D E) as (x & Hx & _ & -> & ->). intros [Hl|[= <-]]; [|done].
    rewrite (remove_first_perm x (readyQueue s) Hx). by right.
Qed.

Lemma runCurrent_members s s' l :
  sim_wf (currentTime s) s -> 0 <= currentTime s < max_int -> runCurrent s = Some s' ->
  l ∈ readyQueue s' \/ currentProcess s' = Some l -> l ∈ readyQueue s \/ currentProcess s = Some l.
Proof.
  intros Hwf Ht. destruct (currentProcess s) as [c|] eqn:Hc.
  2:{ rewrite (runCurrent_idle s Hc Ht). intros [= <-]. cbn. rewrite Hc. tauto. }
  unfold runCurrent. rewrite Hc.
  destruct (executeProcess_executed s c Hwf Ht Hc) as (s1 & E1 & Hwf1 & _ & Hq1 & Hcur1).
  rewrite E1. cbn [mbind option_bind]. set (s2 := set_timeQuantumUsed _ s1).
  assert (Hwf2 : sim_wf (currentTime s + 1) s2) by done.
  destruct Hcur1 as [Hcur1|[Hcur1 _]].
  2:{ unfold checkIOBurst. change (currentProcess s2) with (currentProcess s1). rewrite Hcur1.
      cbn [mbind option_bind]. unfold checkQuantum. change (currentProcess s2) with (currentProcess s1).
      rewrite Hcur1. intros [= <-]. change (l ∈ readyQueue s1 \/ currentProcess s1 = Some l -> l ∈ readyQueue s \/ Some c = Some l).
      rewrite Hq1, Hcur1. by intros [?|]; [left|]. }
  destruct (checkIOBurst_keeps _ s2 c Hwf2 Hcur1) as (s3 & E3 & K3 & Hq3 & Hcur3). rewrite E3. cbn [mbind option_bind].
  change (readyQueue s2) with (readyQueue s1) in Hq3. rewrite Hq1 in Hq3.
  unfold checkQuantum. destruct Hcur3 as [Hcur3|[Hcur3 _]]; rewrite Hcur3.
  2:{ intros [= <-]. rewrite Hq3, Hcur3. by intros [?|]; [left|]. }
  destruct (QuantumFor _ _) as [q|]; [|done]. cbn [mbind option_bind].
  destruct (_ && _); intros [= <-].
  - unfold expireQuantum. intros Hl%(scheduleNextProcess_members (currentTime s + 1)); [|by apply expired_keeps, Hcur3; apply K3|done].
    change (readyQueue (expired c s3)) with (readyQueue s3 ++ [c]) in Hl. rewrite Hq3 in Hl.
    apply elem_of_app in Hl as [Hl|Hl%list_elem_of_singleton]; [by left|right; congruence].
  - rewrite Hq3, Hcur3. tauto.
Qed.

(** A unit of CPU time under a policy without quantum: nobody joins the queue, and the
    process stays on the CPU or leaves it. *)
Lemma run_without_quantum s c s' : (forall v x, QuantumFor v x = Some 0) ->
  sim_wf (currentTime s) s -> 0 <= currentTime s < max_int -> currentProcess s = Some c ->
  runCurrent s = Some s' ->
  readyQueue s' = readyQueue s /\ (currentProcess s' = Some c \/ currentProcess s' = None).
Proof.
  intros Hnone Hwf Ht Hc. unfold runCurrent. rewrite Hc.
  destruct (executeProcess_executed s c Hwf Ht Hc) as (s1 & E1 & Hwf1 & _ & Hq1 & Hcur1).
  rewrite E1. cbn [mbind option_bind]. set (s2 := set_timeQuantumUsed _ s1).
  assert (Hwf2 : sim_wf (currentTime s + 1) s2) by done.
  destruct Hcur1 as [Hcur1|[Hcur1 _]].
  2:{ unfold checkIOBurst. change (currentProcess s2) with (currentProcess s1). rewrite Hcur1.
      cbn [mbind option_bind]. unfold checkQuantum. change (currentProcess s2) with (currentProcess s1).
      rewrite Hcur1. intros [= <-]. split; [done|by right]. }
  destruct (checkIOBurst_keeps _ s2 c Hwf2 Hcur1) as (s3 & -> & K3 & Hq3 & Hcur3). cbn [mbind option_bind].
  unfold checkQuantum. destruct Hcur3 as [Hcur3|[Hcur3 _]]; rewrite Hcur3; [rewrite Hnone; cbn|];
    intros [= <-]; (split; [rewrite Hq3; exact Hq1|]); auto.
Qed.

(** Nobody becomes new. *)
Lemma tick_new s s' l : sim_wf (currentTime s) s -> 0 <= currentTime s < max_int -> runCurrent s = Some s' ->
  State (deref (mem (advanceClock s')) l) = StateNew -> State (deref (mem s) l) = StateNew.
Proof.
  intros Hwf Ht E Hn.
  assert (sim_wf (currentTime s' + 1) s' /\ currentTime s' = currentTime s /\
    (State (deref (mem s') l) = StateNew -> State (deref (mem s) l) = StateNew)) as (Hwf' & Et & Hnew).
  { destruct (currentProcess s) as [c|] eqn:Hc.
    - destruct (runCurrent_busy s c Hwf Ht Hc) as (s2 & E2 & Hwf2 & EX). rewrite E in E2. injection E2 as <-.
      pose proof (ex_time _ _ _ _ EX) as Et. rewrite Et. split; [done|]. split; [done|]. apply (ex_new _ _ _ _ EX).
    - rewrite (runCurrent_idle s Hc Ht) in E. injection E as <-. split; [|done]. destruct Hwf as [Hwf Hok].
      split; [|done]. by eapply wf_core_mono; [|exact Hwf]; cbn; lia. }
  destruct (advanceClock_spec s' Hwf' ltac:(lia)) as [_ F]. apply Hnew. by apply (fr_new _ _ F).
Qed.

(** A tick, with the state [s1] after its decision. *)
Record decided s s1 s' : Prop := {
  de_dispatch : dispatch (decision_state s) = Some s1;
  de_keeps : keeps (currentTime s) s s1;
  de_ticked : ticked s s';
  de_members : forall l, l ∈ readyQueue s' \/ currentProcess s' = Some l ->
    l ∈ readyQueue s1 \/ currentProcess s1 = Some l;
  de_new : forall l, State (deref (mem s') l) = StateNew -> State (deref (mem s1) l) = StateNew;
  de_work : match currentProcess s1 with Some c => ran c s s' | None => idled s s' end
}.

(** The tick, and its unit of CPU time [s2] before the clock advances. *)
Lemma tick_decided s s' : reachable s -> currentTime s < max_int -> executeTimeUnit s = Some s' ->
  exists s1 s2, decided s s1 s' /\ runCurrent s1 = Some s2 /\ s' = advanceClock s2.
Proof.
  intros Hr Ht E. destruct (reachable_wf _ Hr) as [Hwf Ht0].
  destruct (executeTimeUnit_decides s Hwf ltac:(lia)) as (s1 & s2 & Hd & K & _ & E' & _ & T & Hcase).
  rewrite E in E'. injection E' as <-. exists s1. pose proof K as K'.
  unfold executeTimeUnit in E. fold (decision_state s) in Hd, E. rewrite Hd in E. cbn [mbind option_bind] in E.
  destruct K as [Hwf1 F1]. pose proof (fr_time _ _ F1) as Et. rewrite <-Et in Hwf1.
  destruct (runCurrent s1) as [s4|] eqn:E4; [|done]. cbn [mbind option_bind] in E. injection E as <-.
  destruct (advanceClock_frame s4) as (_ & Eq & Ec & _). exists s4. split; [|done].
  split; try done.
  - intros l. rewrite Eq, Ec. apply runCurrent_members; [done|lia|done].
  - intros l. apply (tick_new s1); [done|lia|done].
Qed.

(** Who is in the queue or on the CPU needs CPU time; without I/O, who has started and
    is neither is finished. *)
Lemma line_positive now s l : sim_wf now s -> l ∈ readyQueue s \/ currentProcess s = Some l ->
  l ∈ processes s /\ 1 <= RemainingTime (deref (mem s) l).
Proof.
  intros [Hwf _] Hl.
  assert (Hs : l ∈ processes s /\ State (deref (mem s) l) <> StateTerminated) by
    (by destruct Hl as [[? ->]%(wf_ready _ _ _ _ _ _ Hwf)|[? ->]%(wf_cur _ _ _ _ _ _ Hwf)]).
  destruct Hs as [Hp Hs]. split; [done|]. pose proof (wf_procs _ _ _ _ _ _ Hwf l Hp) as W.
  pose proof (pw_remaining _ _ W). destruct (Z.eq_dec (RemainingTime (deref (mem s) l)) 0) as [E|]; [|lia].
  by apply (pw_done _ _ W) in E.
Qed.

Lemma out_of_line now s l : sim_wf now s -> io_total s <= 0 -> l ∈ processes s ->
  RemainingTime (deref (mem s) l) < BurstTime (deref (mem s) l) ->
  ~ (l ∈ readyQueue s \/ currentProcess s = Some l) -> RemainingTime (deref (mem s) l) = 0.
Proof.
  intros Hwf Hio Hl Hrem Hout. destruct (work_left_nonneg 0 _ _ Hwf) as (_ & ? & _).
  pose proof (no_io_not_waiting _ s l Hwf ltac:(lia) Hl). destruct Hwf as [Hwf _].
  pose proof (wf_procs _ _ _ _ _ _ Hwf l Hl) as W. destruct (State (deref (mem s) l)) eqn:Hs; try done.
  - pose proof (pw_new _ _ W Hs). lia.
  - destruct Hout. left. by apply (wf_ready _ _ _ _ _ _ Hwf).
  - destruct Hout. right. by apply (wf_cur _ _ _ _ _ _ Hwf).
  - by apply (pw_done _ _ W).
Qed.

(** ** Punctuality *)

(** Between ticks exactly the processes that arrive from now on are new. *)
Definition punctual s : Prop :=
  forall l, l ∈ processes s -> State (deref (mem s) l) = StateNew <-> currentTime s <= ArrivalTime (deref (mem s) l).

(** Arrived processes do not stay new. *)
Lemma arrived_not_new s s1 s' l : reachable s -> decided s s1 s' -> l ∈ processes s ->
  State (deref (mem s') l) = StateNew -> currentTime s + 1 <= ArrivalTime (deref (mem s) l).
Proof.
  intros Hr D Hl Hn%(de_new _ _ _ D). destruct (reachable_wf _ Hr) as [Hwf _].
  destruct (decision_spec s Hwf) as (s2 & E & _ & Hnew & _). fold (decision_state s) in E.
  rewrite (de_dispatch _ _ _ D) in E. injection E as <-. specialize (Hnew l Hl Hn). lia.
Qed.

(** Nobody touches a process that has not arrived. *)
Lemma unarrived_new s s1 s' l : reachable s' -> io_total s = 0 -> decided s s1 s' -> l ∈ processes s ->
  currentTime s + 1 <= ArrivalTime (deref (mem s) l) -> State (deref (mem s') l) = StateNew.
Proof.
  intros Hr' Hio [_ [Hwf1 F1] T Hin _ Hcase] Hl Ha. destruct (reachable_wf _ Hr') as [Hwf' _].
  pose proof (tk_io _ _ T) as Hio'. destruct (work_left_nonneg 0 _ _ Hwf') as (_ & ? & _).
  assert (Hl' : l ∈ processes s') by (by rewrite (tk_procs _ _ T)).
  assert (Hl1 : l ∈ processes s1) by (by rewrite (fr_procs _ _ F1)).
  pose proof (wf_procs _ _ _ _ _ _ (proj1 Hwf') l Hl') as Hp'.
  pose proof (wf_procs _ _ _ _ _ _ (proj1 Hwf1) l Hl1) as Hp1. pose proof (co_burst _ (pw_config _ _ Hp1)).
  destruct (config_eq_inv _ _ (fr_config _ _ F1 l)) as (_ & _ & Ea1 & _).
  assert (Hn1 : State (deref (mem s1) l) = StateNew).
  { destruct (decide (State (deref (mem s1) l) = StateNew)) as [|Hs]; [done|].
    pose proof (pw_arrived _ _ Hp1 Hs). pose proof (pw_remaining _ _ Hp1). rewrite Ea1 in *. lia. }
  pose proof (pw_new _ _ Hp1 Hn1) as Hfull. pose proof (no_io_not_waiting _ s' l Hwf' ltac:(lia) Hl').
  assert (Hout : ~ (l ∈ readyQueue s' \/ currentProcess s' = Some l)).
  { intros [Hl2|Hl2]%Hin; [apply (wf_ready _ _ _ _ _ _ (proj1 Hwf1)) in Hl2 as [_ ?]|
      apply (wf_cur _ _ _ _ _ _ (proj1 Hwf1)) in Hl2 as [_ ?]]; congruence. }
  destruct (State (deref (mem s') l)) eqn:Hs; try done; exfalso.
  - apply Hout. left. by apply (wf_ready _ _ _ _ _ _ (proj1 Hwf')).
  - apply Hout. right. by apply (wf_cur _ _ _ _ _ _ (proj1 Hwf')).
  - pose proof (proj2 (pw_done _ _ Hp') Hs) as Hz. rewrite (fr_remaining _ _ F1) in Hfull.
    destruct (currentProcess s1) as [c|] eqn:Hc; [|rewrite (id_remaining _ _ Hcase) in Hz; lia].
    destruct (decide (l = c)) as [->|Hne]; [|rewrite (rn_others _ _ _ Hcase l Hne) in Hz; lia].
    apply (wf_cur _ _ _ _ _ _ (proj1 Hwf1)) in Hc as [_ ?]. congruence.
Qed.

Lemma punctual_tick s s1 s' : reachable s -> reachable s' -> io_total s = 0 -> decided s s1 s' -> punctual s'.
Proof.
  intros Hr Hr' Hio D l Hl. pose proof (de_ticked _ _ _ D) as T. rewrite (tk_procs _ _ T) in Hl.
  rewrite (tk_time _ _ T), (proj1 (ticked_config_eq s s' l T)). split.
  - by apply (arrived_not_new s s1).
  - by apply (unarrived_new s s1).
Qed.
End arrivals.

Lemma setup_punctual {Sd} `{SchedulerLaws Sd} `{GoSortLaws} ps (sched : Sd) :
  sched_ok sched -> Forall admissible ps -> punctual (setup ps sched).
Proof.
  intros Hok Hadm l Hl. destruct (setup_spec ps sched Hok Hadm) as (Hr & -> & _ & _ & HP).
  pose proof (HP admissible Hadm l Hl) as Ha. destruct (admissible_wf 0 _ Ha) as (_ & -> & _).
  pose proof (co_arrival _ (proj1 Ha)). split; [lia|done].
Qed.

(** Nobody is on the CPU or in the queue of a fresh simulation. *)
Lemma setup_empty {Sd} `{SchedulerLaws Sd} `{GoSortLaws} ps (sched : Sd) :
  sched_ok sched -> Forall admissible ps ->
  currentProcess (setup ps sched) = None /\ readyQueue (setup ps sched) = [].
Proof.
  intros Hok Hadm. destruct (setup_spec ps sched Hok Hadm) as (Hr & _ & _ & _ & HP).
  set (s := setup ps sched) in *. destruct (reachable_wf _ Hr) as [[Hwf _] _].
  assert (Hnew : forall l, l ∈ processes s -> State (deref (mem s) l) = StateNew).
  { intros l Hl. by destruct (admissible_wf 0 _ (HP admissible Hadm l Hl)) as (_ & -> & _). }
  split.
  - destruct (currentProcess s) as [c|]; [|done].
    destruct (proj1 (wf_cur _ _ _ _ _ _ Hwf c) eq_refl) as [Hc Hs]. rewrite (Hnew c Hc) in Hs. done.
  - destruct (readyQueue s) as [|x xs]; [done|].
    destruct (proj1 (wf_ready _ _ _ _ _ _ Hwf x) ltac:(left)) as [Hx Hs]. rewrite (Hnew x Hx) in Hs. done.
Qed.

