(* ===== verification/SimInTurn.v ===== *)
(** * Policies that let processes run out

    FCFS and SJF never take the CPU away: the interface [RunsOut]. Without I/O this
    decides whole runs. Under FCFS each completion time is given by a recurrence over
    the processes in their arrival order; for processes that arrive together SJF is
    as good as SRTF, so no policy has a smaller total turnaround. *)

From Stdlib Require Import Sorted.
From S2P Require Import Prelude.
From S2P Require Import Float64.
From S2P Require Import Process.
From S2P Require Import Scheduler.
From S2P Require Import Simulator.
From S2P Require Import SimInvariant.
From S2P Require Import SimSteps.
From S2P Require Import SimTick.
From S2P Require Import SimReach.
From S2P Require Import SimPolicy.
From S2P Require Import SimCpu.
From S2P Require Import SimProgress.
From S2P Require Import SimFair.
From S2P Require Import SimOptimal.
From S2P Require Import SimArrivals.

(** ** The interface *)

Class RunsOut (Sd : Type) `{SchedulerLaws Sd} (key : heap -> loc -> list Z) : Prop := {
  nx_choice : forall v h x xs t, exists l, Schedule v h (x :: xs) t = (Some l, v) /\ first_min (key h) (x :: xs) l;
  nx_stays : forall v h c xs t, Preempt v h c xs t = Some false;
  nx_slice : forall v c, QuantumFor v c = Some 0;
  nx_key : forall h h' l, config (deref h l) = config (deref h' l) -> key h l = key h' l
}.

#[export] Instance FCFS_runs_out : RunsOut FCFS.FCFSScheduler FCFS.key.
Proof.
  split; [|done|done|].
  - intros v h x xs t. exact (FCFS_selects v h (x :: xs) t).
  - intros h h' l E. unfold FCFS.key. by destruct (config_eq_inv _ _ E) as (_ & _ & -> & _).
Qed.

#[export] Instance SJF_runs_out : RunsOut SJF.SJFScheduler SJF.key.
Proof.
  split; [|done|done|].
  - intros v h x xs t. exact (SJF_selects v h (x :: xs) t).
  - intros h h' l E. unfold SJF.key. by destruct (config_eq_inv _ _ E) as (_ & _ & -> & -> & _).
Qed.

Section runs_out.
Context {Sd : Type} {key : heap -> loc -> list Z} `{RunsOut Sd key} `{GoSortLaws}.
Implicit Types (s : Simulator Sd) (l c : loc).

(** A running process stays; an idle CPU gets the process with the least key. *)
Lemma runs_out_dispatch s s1 : reachable s -> dispatch (decision_state s) = Some s1 ->
  match currentProcess s, readyQueue (decision_state s) with
  | Some _, _ => s1 = decision_state s
  | None, [] => currentProcess s1 = None /\ readyQueue s1 = []
  | None, x :: xs => exists l, first_min (key (mem (decision_state s))) (x :: xs) l /\
      currentProcess s1 = Some l /\ readyQueue s1 = remove_first l (x :: xs)
  end.
Proof.
  intros Hr. destruct (reachable_wf _ Hr) as [Hwf _].
  destruct (decision_keeps s Hwf) as [Hwf2 _].
  rewrite <-(eq_current _ _ (decision_enqueues s)). set (d := decision_state s) in *. clearbody d.
  unfold dispatch, shouldPreempt. destruct (currentProcess d) as [c|] eqn:Hc.
  { rewrite (running_not_complete _ _ _ Hwf2 Hc), nx_stays. by intros [= <-]. }
  intros [= <-]. destruct (readyQueue d) as [|x xs] eqn:Hq.
  - destruct (scheduleNextProcess_keeps _ d Hwf2 Hc) as [_ D]. apply (di_empty _ _ D Hq).
  - destruct (nx_choice (scheduler d) (mem d) x xs (currentTime d)) as (l & E & Hmin).
    rewrite <-Hq in E. destruct (scheduleNextProcess_eq d l (scheduler d) Hc) as (_ & _ & Er & Ec & _); [by rewrite Hq|exact E|].
    exists l. split; [done|]. split; [done|]. by rewrite Er, Hq.
Qed.

(** A tick, with the state [s1] after its decision. *)
Record out_tick s s1 s' : Prop := {
  ot_decided : decided s s1 s';
  ot_queue : readyQueue s' = readyQueue s1;
  ot_current : currentProcess s' = currentProcess s1 \/ currentProcess s' = None
}.

Lemma runs_out_tick s s' : reachable s -> currentTime s < max_int -> executeTimeUnit s = Some s' ->
  exists s1, out_tick s s1 s'.
Proof.
  intros Hr Ht E. destruct (tick_decided s s' Hr Ht E) as (s1 & s4 & D & E4 & ->). exists s1.
  destruct (reachable_wf _ Hr) as [_ Ht0], (de_keeps _ _ _ D) as [Hwf1 F1]. pose proof (fr_time _ _ F1) as Et.
  rewrite <-Et in Hwf1. destruct (advanceClock_frame s4) as (_ & Eq & Ec & _).
  assert (Hrun : readyQueue s4 = readyQueue s1 /\ (currentProcess s4 = currentProcess s1 \/ currentProcess s4 = None)).
  { destruct (currentProcess s1) as [c|] eqn:Hc; [by apply (run_without_quantum s1 c s4); [exact nx_slice| |lia|..]|].
    rewrite runCurrent_idle in E4 by (done || lia). injection E4 as <-. auto. }
  split; rewrite ?Eq, ?Ec; try done; apply Hrun.
Qed.
End runs_out.

Lemma FCFS_ok : sched_ok FCFS.NewFCFSScheduler.
Proof. exact I. Qed.
Lemma SJF_ok : sched_ok SJF.NewSJFScheduler.
Proof. exact I. Qed.

(** ** FCFS: the queue is the arrival order *)

Section fcfs.
Context `{GoSortLaws}.
Implicit Types (s : Simulator FCFS.FCFSScheduler) (l c : loc).

(** Arrived before [now] and not finished. *)
Definition pending now s l : Prop :=
  ArrivalTime (deref (mem s) l) < now /\ 0 < RemainingTime (deref (mem s) l).

#[export] Instance pending_dec now s l : Decision (pending now s l).
Proof. unfold pending. apply _. Defined.

(** The CPU and the queue hold the pending processes in the order of the list. *)
Definition in_line s : Prop :=
  option_list (currentProcess s) ++ readyQueue s = filter (pending (currentTime s) s) (processes s).

(** The queue at the decision. *)
Lemma line_arrivals s : reachable s -> io_total s = 0 -> punctual s -> in_line s ->
  option_list (currentProcess s) ++ readyQueue (decision_state s) =
  filter (pending (currentTime s + 1) s) (processes s).
Proof.
  intros Hr Hio Hp Hline. rewrite (decision_queue s Hr Hio), app_assoc, Hline.
  destruct (reachable_wf _ Hr) as [Hwf _].
  rewrite (filter_ext_elem (pending (currentTime s + 1) s)
    (fun l => ArrivalTime (deref (mem s) l) <= currentTime s /\ 0 < RemainingTime (deref (mem s) l)))
    by (intros l _; unfold pending; lia).
  rewrite <-(filter_sorted (fun l => ArrivalTime (deref (mem s) l))) by (by apply processes_sorted_by_arrival).
  f_equal. apply filter_ext_elem. intros l Hl. unfold arriving. rewrite (Hp l Hl).
  pose proof (wf_procs _ _ _ _ _ _ (proj1 Hwf) l Hl) as Hpw. pose proof (co_burst _ (pw_config _ _ Hpw)).
  split; [|lia]. intros [Ha Ht]. pose proof (pw_new _ _ Hpw (proj2 (Hp l Hl) Ht)). lia.
Qed.

(** The decision gives an idle CPU to the first in line. *)
Lemma line_decided s s1 : reachable s -> io_total s = 0 -> punctual s -> in_line s ->
  dispatch (decision_state s) = Some s1 ->
  option_list (currentProcess s1) ++ readyQueue s1 = filter (pending (currentTime s + 1) s) (processes s).
Proof.
  intros Hr Hio Hp Hline Hd. rewrite <-(line_arrivals s) by done.
  pose proof (runs_out_dispatch s s1 Hr Hd) as Hc. pose proof (eq_current _ _ (decision_enqueues s)) as Ecur.
  pose proof (line_arrivals s Hr Hio Hp Hline) as Hq.
  destruct (currentProcess s) as [c|]; [subst s1; by rewrite Ecur|].
  destruct (readyQueue (decision_state s)) as [|x xs]; [by destruct Hc as [-> ->]|].
  destruct Hc as (l & Hmin & -> & ->). change (x :: xs = filter (pending (currentTime s + 1) s) (processes s)) in Hq.
  change (l :: remove_first l (x :: xs) = x :: xs).
  assert (l = x) as ->; [|cbn; by rewrite decide_True].
  apply (first_min_head (fun y => ArrivalTime (deref (mem (decision_state s)) y)) _ xs); [|done].
  destruct (reachable_wf _ Hr) as [Hwf _]. destruct (decision_keeps s Hwf) as [_ F].
  rewrite Hq. apply filter_strongly_sorted. eapply StronglySorted_keys; [|by apply processes_sorted_by_arrival].
  intros l' _. destruct (config_eq_inv _ _ (fr_config _ _ F l')) as (_ & _ & E & _). exact (eq_sym E).
Qed.

(** A process that has run for a unit is still there or finished. *)
Lemma ran_current s s1 s' c : reachable s' -> io_total s = 0 -> out_tick s s1 s' -> currentProcess s1 = Some c ->
  currentProcess s' = if decide (0 < RemainingTime (deref (mem s') c)) then Some c else None.
Proof.
  intros Hr' Hio [[_ [Hwf1 F1] T _ _ Hcase] Hq Hcur] Hc. rewrite Hc in Hcur, Hcase.
  destruct (reachable_wf _ Hr') as [Hwf' _]. pose proof (rn_elem _ _ _ Hcase) as Hl.
  destruct Hcur as [Ec|Ec]; rewrite Ec; case_decide as Hrem; try done.
  - pose proof (line_positive _ s' c Hwf' (or_intror Ec)). lia.
  - exfalso. pose proof (out_of_line _ s' c Hwf') as Hz. pose proof (tk_io _ _ T).
    rewrite Hz in Hrem; [lia|lia|by rewrite (tk_procs _ _ T)| |].
    + rewrite (rn_remaining _ _ _ Hcase), (proj2 (ticked_config_eq s s' c T)).
      destruct (line_positive _ s1 c Hwf1 (or_intror Hc)) as [Hl1 _].
      pose proof (pw_remaining _ _ (wf_procs _ _ _ _ _ _ (proj1 Hwf1) c Hl1)) as Hr1.
      rewrite (fr_remaining _ _ F1) in Hr1. destruct (config_eq_inv _ _ (fr_config _ _ F1 c)) as (_ & _ & _ & Eb & _). lia.
    + rewrite Ec, Hq. intros [Hin|]; [|done]. apply (wf_ready _ _ _ _ _ _ (proj1 Hwf1)) in Hin as [_ Hs1].
      apply (wf_cur _ _ _ _ _ _ (proj1 Hwf1)) in Hc as [_ ?]. congruence.
Qed.

Lemma in_line_tick s s1 s' : reachable s -> reachable s' -> io_total s = 0 -> punctual s -> in_line s ->
  out_tick s s1 s' -> in_line s'.
Proof.
  intros Hr Hr' Hio Hp Hline O. pose proof (line_decided s s1 Hr Hio Hp Hline (de_dispatch _ _ _ (ot_decided _ _ _ O))) as Hl1.
  pose proof (ran_current s s1 s') as Hcur. pose proof O as [[_ [Hwf1 _] T _ _ Hcase] Hq Hc].
  unfold in_line. rewrite (tk_procs _ _ T), (tk_time _ _ T), Hq.
  destruct (reachable_wf _ Hr) as [Hwf _]. pose proof (wf_nodup _ _ _ _ _ _ (proj1 Hwf)) as Hnd.
  destruct (currentProcess s1) as [c|] eqn:Ec.
  - rewrite (Hcur c Hr' Hio O eq_refl).
    change (c :: readyQueue s1 = filter (pending (currentTime s + 1) s) (processes s)) in Hl1.
    pose proof (NoDup_filter (pending (currentTime s + 1) s) _ Hnd) as Hndf. rewrite <-Hl1 in Hndf.
    apply NoDup_cons in Hndf as [Hnc _].
    assert (Hpc : pending (currentTime s + 1) s c).
    { assert (Hin : c ∈ filter (pending (currentTime s + 1) s) (processes s)) by (rewrite <-Hl1; left).
      by apply list_elem_of_filter in Hin as [? _]. }
    assert (Ep : forall x, pending (currentTime s + 1) s' x <->
      (x <> c \/ 0 < RemainingTime (deref (mem s') c)) /\ pending (currentTime s + 1) s x).
    { intros x. unfold pending in *. rewrite (proj1 (ticked_config_eq s s' x T)).
      destruct (decide (x = c)) as [->|Hne]; [rewrite (rn_remaining _ _ _ Hcase) in *; lia|].
      rewrite (rn_others _ _ _ Hcase x Hne). tauto. }
    rewrite (filter_ext_elem (pending (currentTime s + 1) s') _ _ (fun x _ => Ep x)).
    rewrite <-list_filter_filter, <-Hl1. case_decide as Hrem; simpl.
    + rewrite filter_cons_True by tauto. f_equal. symmetry. apply filter_keep. tauto.
    + rewrite filter_cons_False by tauto. symmetry. apply filter_keep. intros x Hx. left. by intros ->.
  - destruct Hc as [->| ->]; rewrite Hl1; apply filter_ext_elem; intros x _;
      unfold pending; by rewrite (proj1 (ticked_config_eq s s' x T)), (id_remaining _ _ Hcase).
Qed.

(** ** The completion times of FCFS *)

(** The reference: jobs of an arrival time and a burst, served in this order by a
    machine that is free from [clock] on. *)
Fixpoint fcfs_times (clock : Z) (jobs : list (Z * Z)) : list Z :=
  match jobs with
  | [] => []
  | (arrival, burst) :: jobs =>
      let completion := Z.max clock arrival + burst in
      completion :: fcfs_times completion jobs
  end.

(** What a state promises: the completion times of the finished processes, and the
    recurrence for the others. *)
Fixpoint forecast s (clock : Z) (ls : list loc) : list Z :=
  match ls with
  | [] => []
  | l :: ls =>
      let p := deref (mem s) l in
      if RemainingTime p =? 0 then CompletionTime p :: forecast s clock ls
      else let completion := Z.max clock (ArrivalTime p) + RemainingTime p in
           completion :: forecast s completion ls
  end.

(** The processes of [ls] are as they were. *)
Definition alike s s' (ls : list loc) : Prop := forall l, l ∈ ls ->
  ArrivalTime (deref (mem s') l) = ArrivalTime (deref (mem s) l) /\
  RemainingTime (deref (mem s') l) = RemainingTime (deref (mem s) l) /\
  CompletionTime (deref (mem s') l) = CompletionTime (deref (mem s) l).

Lemma alike_tail s s' x ls : alike s s' (x :: ls) -> alike s s' ls.
Proof. intros Ha l Hl. apply Ha. by right. Qed.

Lemma forecast_alike s s' ls : alike s s' ls -> forall clock, forecast s' clock ls = forecast s clock ls.
Proof.
  induction ls as [|l ls IH]; intros Ha clock; [done|]. cbn [forecast].
  destruct (Ha l ltac:(left)) as (-> & -> & ->). rewrite !IH by (by eapply alike_tail). done.
Qed.

(** Time passes while nobody who has arrived is unfinished. *)
Lemma forecast_idle s s' ls T : alike s s' ls ->
  (forall l, l ∈ ls -> RemainingTime (deref (mem s) l) <> 0 -> T < ArrivalTime (deref (mem s) l)) ->
  forecast s' (T + 1) ls = forecast s T ls.
Proof.
  induction ls as [|l ls IH]; intros Ha Hn; [done|]. cbn [forecast].
  destruct (Ha l ltac:(left)) as (-> & -> & ->). apply alike_tail in Ha.
  specialize (Hn l ltac:(left)) as Hl. destruct (Z.eqb_spec (RemainingTime (deref (mem s) l)) 0) as [E|E].
  - f_equal. apply IH; [done|]. intros y Hy. apply Hn. by right.
  - specialize (Hl E). rewrite !Z.max_r by lia. f_equal. by apply forecast_alike.
Qed.

Lemma forecast_done s (l1 l2 : list loc) clock : (forall l, l ∈ l1 -> RemainingTime (deref (mem s) l) = 0) ->
  forecast s clock (l1 ++ l2) = map (fun l => CompletionTime (deref (mem s) l)) l1 ++ forecast s clock l2.
Proof.
  induction l1 as [|l l1 IH]; intros Hd; [done|]. cbn [forecast app map].
  rewrite (Hd l) by left. cbn. f_equal. apply IH. intros y Hy. apply Hd. by right.
Qed.

(** The first unfinished process runs for a unit. *)
Lemma forecast_ran s s' (l1 : list loc) c (l2 : list loc) T :
  (forall l, l ∈ l1 -> RemainingTime (deref (mem s) l) = 0) -> alike s s' (l1 ++ l2) ->
  ArrivalTime (deref (mem s) c) <= T -> ArrivalTime (deref (mem s') c) = ArrivalTime (deref (mem s) c) ->
  1 <= RemainingTime (deref (mem s) c) ->
  RemainingTime (deref (mem s') c) = RemainingTime (deref (mem s) c) - 1 ->
  (RemainingTime (deref (mem s') c) = 0 -> CompletionTime (deref (mem s') c) = T + 1) ->
  forecast s' (T + 1) (l1 ++ c :: l2) = forecast s T (l1 ++ c :: l2).
Proof.
  intros Hd Ha Hc Ea Hpos Hrem Hfin.
  assert (A1 : alike s s' l1) by (intros l Hl; apply Ha; set_solver).
  assert (A2 : alike s s' l2) by (intros l Hl; apply Ha; set_solver).
  rewrite !forecast_done; [|done|by intros l Hl; destruct (A1 l Hl) as (_ & -> & _); apply Hd].
  f_equal; [apply map_ext_in; intros l Hl%list_elem_of_In; by destruct (A1 l Hl) as (_ & _ & ->)|].
  cbn [forecast]. rewrite Ea, Hrem in *. rewrite (Z.max_l T), (Z.max_l (T + 1)) by lia.
  rewrite (proj2 (Z.eqb_neq (RemainingTime (deref (mem s) c)) 0)) by lia.
  destruct (Z.eqb_spec (RemainingTime (deref (mem s) c) - 1) 0) as [E|E].
  - rewrite Hfin by done. replace (T + RemainingTime (deref (mem s) c)) with (T + 1) by lia.
    f_equal. by apply forecast_alike.
  - replace (T + 1 + (RemainingTime (deref (mem s) c) - 1)) with (T + RemainingTime (deref (mem s) c)) by lia.
    f_equal. by apply forecast_alike.
Qed.

Lemma sorted_before {A} (key : A -> Z) (l1 : list A) x (l2 : list A) y :
  StronglySorted (fun a b => key a <= key b) (l1 ++ x :: l2) -> y ∈ l1 -> key y <= key x.
Proof.
  induction l1 as [|z l1 IH]; intros Hs Hy; [by apply elem_of_nil in Hy|].
  apply StronglySorted_inv in Hs as [Hs Hz]. rewrite Forall_forall in Hz.
  apply elem_of_cons in Hy as [->|Hy]; [apply Hz; set_solver|by apply IH].
Qed.

Lemma tick_alike s s' : reachable s -> currentTime s < max_int -> executeTimeUnit s = Some s' -> ticked s s' ->
  forall l, RemainingTime (deref (mem s') l) = RemainingTime (deref (mem s) l) -> alike s s' [l].
Proof.
  intros Hr Ht E T l Hl x ->%list_elem_of_singleton.
  split; [apply (ticked_config_eq s s' l T)|]. split; [done|].
  rewrite (tick_completion s s' l Hr Ht E), Hl. destruct (_ && _) eqn:Eb; [|done].
  apply andb_true_iff in Eb as [?%Z.ltb_lt ?%Z.eqb_eq]. lia.
Qed.

Lemma forecast_tick s s1 s' : reachable s -> reachable s' -> currentTime s < max_int -> io_total s = 0 ->
  punctual s -> in_line s -> executeTimeUnit s = Some s' -> out_tick s s1 s' ->
  forecast s' (currentTime s') (processes s') = forecast s (currentTime s) (processes s).
Proof.
  intros Hr Hr' Ht Hio Hp Hline E O. pose proof (line_decided s s1 Hr Hio Hp Hline (de_dispatch _ _ _ (ot_decided _ _ _ O))) as Hl1.
  pose proof O as [[_ _ T _ _ Hcase] Hq _]. rewrite (tk_procs _ _ T), (tk_time _ _ T).
  destruct (reachable_wf _ Hr) as [Hwf _].
  destruct (currentProcess s1) as [c|] eqn:Ec.
  - symmetry in Hl1. apply filter_cons_first in Hl1 as (l1 & l2 & Eps & Hno & [Ha Hpos]).
    pose proof (wf_nodup _ _ _ _ _ _ (proj1 Hwf)) as Hnd. rewrite Eps in *.
    apply forecast_ran.
    + intros l Hl. pose proof (wf_procs _ _ _ _ _ _ (proj1 Hwf) l ltac:(rewrite Eps; set_solver)) as Hpl.
      pose proof (pw_remaining _ _ Hpl). pose proof (processes_sorted_by_arrival s Hr) as Hs. rewrite Eps in Hs.
      pose proof (sorted_before (fun l => ArrivalTime (deref (mem s) l)) l1 c l2 l Hs Hl).
      specialize (Hno l Hl). unfold pending in Hno. cbn beta in *. lia.
    + intros l Hl. apply (tick_alike s s' Hr Ht E T l); [|left]. apply (rn_others _ _ _ Hcase).
      intros ->. apply NoDup_app in Hnd as (_ & Hn1 & Hn2). apply NoDup_cons in Hn2 as [Hn2 _].
      apply elem_of_app in Hl as [Hl|Hl]; [by apply (Hn1 c Hl); left|done].
    + lia.
    + apply (ticked_config_eq s s' c T).
    + lia.
    + apply (rn_remaining _ _ _ Hcase).
    + intros Hz. rewrite (tick_completion s s' c Hr Ht E), Hz. ztest. done.
  - assert (Hnil : filter (pending (currentTime s + 1) s) (processes s) = []).
    { rewrite <-Hl1. simpl. destruct (de_keeps _ _ _ (ot_decided _ _ _ O)) as [Hwf1 F1].
      destruct (readyQueue s1) as [|x xs] eqn:Eq; [done|exfalso].
      assert (Hx : x ∈ readyQueue s') by (rewrite Hq; left). destruct (reachable_wf _ Hr') as [Hwf' _].
      apply (wf_ready _ _ _ _ _ _ (proj1 Hwf')) in Hx as [Hx Hs]. rewrite (tk_procs _ _ T) in Hx.
      by destruct (id_nobody _ _ Hcase x Hx). }
    apply forecast_idle.
    + intros l Hl. apply (tick_alike s s' Hr Ht E T l); [apply (id_remaining _ _ Hcase)|left].
    + intros l Hl Hne. pose proof (pw_remaining _ _ (wf_procs _ _ _ _ _ _ (proj1 Hwf) l Hl)).
      destruct (Z.lt_ge_cases (currentTime s) (ArrivalTime (deref (mem s) l))) as [|Hge]; [done|exfalso].
      eapply (filter_nil_not_elem_of _ _ l Hnil); [|done]. unfold pending. lia.
Qed.

Lemma forecast_run fuel : forall s s', reachable s -> io_total s = 0 -> punctual s -> in_line s ->
  currentTime s + Z.of_nat fuel <= max_int -> runToCompletion fuel s = Some s' ->
  processes s' = processes s /\ (forall l, config (deref (mem s') l) = config (deref (mem s) l)) /\
  reachable s' /\ isComplete s' = true /\
  forecast s' (currentTime s') (processes s') = forecast s (currentTime s) (processes s).
Proof.
  induction fuel as [|fuel IH]; intros s s' Hr Hio Hp Hl Hmax; [done|]. simpl.
  destruct (reachable_tick s Hr) as (s1 & E & Hr1 & T); [lia|]. rewrite E. simpl.
  destruct (runs_out_tick s s1 Hr ltac:(lia) E) as (d & O).
  pose proof (forecast_tick s d s1 Hr Hr1 ltac:(lia) Hio Hp Hl E O) as Hf.
  destruct (isComplete s1) eqn:Hc.
  - intros [= <-]. by rewrite (tk_procs _ _ T) in *; repeat split; try done; apply (tk_config _ _ T).
  - intros Hrun. destruct (reachable_wf _ Hr1) as [Hwf1 _]. pose proof (tk_io _ _ T).
    destruct (work_left_nonneg 0 _ _ Hwf1) as (_ & ? & _).
    destruct (IH s1 s' Hr1 ltac:(lia) (punctual_tick s d s1 Hr Hr1 Hio (ot_decided _ _ _ O))
      (in_line_tick s d s1 Hr Hr1 Hio Hp Hl O) ltac:(rewrite (tk_time _ _ T); lia) Hrun) as (E1 & E2 & E3 & E4 & E5).
    rewrite E5, Hf, E1, (tk_procs _ _ T). split; [done|]. split; [|done].
    intros l. by rewrite E2, (tk_config _ _ T).
Qed.

(** The forecast of a fresh and of a finished simulation. *)
Lemma forecast_fresh s ls : (forall l, l ∈ ls ->
    1 <= BurstTime (deref (mem s) l) /\ RemainingTime (deref (mem s) l) = BurstTime (deref (mem s) l)) ->
  forall clock, forecast s clock ls =
    fcfs_times clock (map (fun l => (ArrivalTime (deref (mem s) l), BurstTime (deref (mem s) l))) ls).
Proof.
  induction ls as [|l ls IH]; intros Hf clock; [done|]. cbn [forecast map fcfs_times].
  destruct (Hf l ltac:(left)) as [Hb ->]. ztest. f_equal. apply IH. intros y Hy. apply Hf. by right.
Qed.

Lemma forecast_finished s : (forall l, l ∈ processes s -> RemainingTime (deref (mem s) l) = 0) ->
  forall clock, forecast s clock (processes s) = map (fun l => CompletionTime (deref (mem s) l)) (processes s).
Proof. intros Hd clock. rewrite <-(app_nil_r (processes s)), forecast_done by done. by rewrite !app_nil_r. Qed.

Lemma setup_in_line ps : Forall admissible ps -> in_line (setup ps FCFS.NewFCFSScheduler).
Proof.
  intros Hadm. destruct (setup_spec ps FCFS.NewFCFSScheduler FCFS_ok Hadm) as (Hr & Ht & _ & _ & HP).
  destruct (setup_empty ps FCFS.NewFCFSScheduler FCFS_ok Hadm) as [Hc Hq].
  set (s := setup ps FCFS.NewFCFSScheduler) in *. unfold in_line. rewrite Ht.
  rewrite Hc, Hq. symmetry. rewrite (filter_ext_elem _ (fun _ => False)).
  - generalize (processes s). intros ls. by induction ls.
  - intros l Hl. split; [|done]. intros [Ha _].
    pose proof (co_arrival _ (proj1 (HP admissible Hadm l Hl))). lia.
Qed.
End fcfs.

(** ** SJF on a batch *)

Section sjf.
Context `{GoSortLaws}.
Implicit Types (s : Simulator SJF.SJFScheduler) (l c : loc).

(** Everybody arrives at the same time; waiting processes are unstarted, and need at
    least what the running one still needs. *)
Record batch s : Prop := {
  ba_punctual : punctual s;
  ba_together : exists a, forall l, l ∈ processes s -> ArrivalTime (deref (mem s) l) = a;
  ba_unstarted : forall l, l ∈ readyQueue s -> RemainingTime (deref (mem s) l) = BurstTime (deref (mem s) l);
  ba_least : forall c l, currentProcess s = Some c -> l ∈ readyQueue s ->
    RemainingTime (deref (mem s) c) <= RemainingTime (deref (mem s) l)
}.

(** Who arrives is unstarted, and nobody arrives while somebody runs. *)
Lemma batch_arrivals s : reachable s -> io_total s = 0 -> batch s ->
  (forall l, l ∈ readyQueue (decision_state s) -> RemainingTime (deref (mem s) l) = BurstTime (deref (mem s) l)) /\
  (is_Some (currentProcess s) -> readyQueue (decision_state s) = readyQueue s).
Proof.
  intros Hr Hio [Hp [a Ha] Hu _]. rewrite (decision_queue s Hr Hio).
  destruct (reachable_wf _ Hr) as [[Hwf _] _]. split.
  - intros l [Hl|Hl]%elem_of_app; [by apply Hu|].
    apply list_elem_of_filter in Hl as [[_ Hs] Hl]. by apply (pw_new _ _ (wf_procs _ _ _ _ _ _ Hwf l Hl)).
  - intros [c Hc]. apply (wf_cur _ _ _ _ _ _ Hwf) in Hc as [Hc Hs].
    rewrite (filter_ext_elem _ (fun _ => False)); [|].
    + rewrite <-(app_nil_r (readyQueue s)) at 2. f_equal. generalize (processes s). intros ls. by induction ls.
    + intros l Hl. split; [|done]. intros [_ Hn]. apply (Hp l Hl) in Hn. rewrite (Ha l Hl), <-(Ha c Hc) in Hn.
      apply (Hp c Hc) in Hn. congruence.
Qed.

Lemma batch_decided s s1 : reachable s -> io_total s = 0 -> batch s -> dispatch (decision_state s) = Some s1 ->
  (forall l, l ∈ readyQueue s1 -> RemainingTime (deref (mem s) l) = BurstTime (deref (mem s) l)) /\
  (forall c l, currentProcess s1 = Some c -> l ∈ readyQueue s1 ->
     RemainingTime (deref (mem s) c) <= RemainingTime (deref (mem s) l)).
Proof.
  intros Hr Hio B Hd. destruct (batch_arrivals s Hr Hio B) as [Hu Hsame].
  pose proof (runs_out_dispatch s s1 Hr Hd) as Hc. pose proof (eq_current _ _ (decision_enqueues s)) as Ecur.
  destruct (currentProcess s) as [c|] eqn:Ec.
  { subst s1. split; [done|]. rewrite Ecur, Hsame by done. intros c' l [= <-]. by apply (ba_least s B). }
  destruct (readyQueue (decision_state s)) as [|x xs] eqn:Eq.
  { destruct Hc as [-> ->]. split; [by intros l ?%elem_of_nil|done]. }
  destruct Hc as (c & Hmin & -> & ->).
  assert (Hsub : forall l, l ∈ remove_first c (x :: xs) -> l ∈ x :: xs).
  { intros l Hl. rewrite (remove_first_perm c (x :: xs)); [by right|by apply first_min_elem in Hmin]. }
  split; [by intros l Hl%Hsub; apply Hu|]. intros c' l [= <-] Hl%Hsub.
  rewrite (Hu l Hl), (Hu c) by (by apply first_min_elem in Hmin).
  pose proof (lex_head _ _ _ _ (first_min_le _ _ _ l Hmin Hl)) as Hle.
  destruct (reachable_wf _ Hr) as [Hwf _]. destruct (decision_keeps s Hwf) as [_ F].
  destruct (config_eq_inv _ _ (fr_config _ _ F c)) as (_ & _ & _ & Eb1 & _).
  destruct (config_eq_inv _ _ (fr_config _ _ F l)) as (_ & _ & _ & Eb2 & _).
  fold (decision_state s) in Eb1, Eb2. by rewrite Eb1, Eb2 in Hle.
Qed.

Lemma batch_tick s s1 s' : reachable s -> reachable s' -> currentTime s < max_int -> io_total s = 0 -> batch s ->
  executeTimeUnit s = Some s' -> out_tick s s1 s' -> batch s'.
Proof.
  intros Hr Hr' Ht Hio B E O. pose proof O as [[Hd [Hwf1 F1] T _ _ Hcase] Hq Hcur].
  destruct (batch_decided s s1 Hr Hio B Hd) as [Hu Hle].
  assert (Hsame : forall l, l ∈ readyQueue s1 -> RemainingTime (deref (mem s') l) = RemainingTime (deref (mem s) l)).
  { intros l Hl. destruct (currentProcess s1) as [c|] eqn:Ec; [|apply (id_remaining _ _ Hcase)].
    apply (rn_others _ _ _ Hcase). intros ->. apply (wf_cur _ _ _ _ _ _ (proj1 Hwf1)) in Ec as [_ Hs].
    apply (wf_ready _ _ _ _ _ _ (proj1 Hwf1)) in Hl as [_ Hs']. congruence. }
  split.
  - by apply (punctual_tick s s1), O.
  - destruct (ba_together _ B) as [a Ha]. exists a. intros l. rewrite (tk_procs _ _ T).
    rewrite (proj1 (ticked_config_eq s s' l T)). apply Ha.
  - intros l. rewrite Hq. intros Hl. rewrite (Hsame l Hl), (proj2 (ticked_config_eq s s' l T)). by apply Hu.
  - intros c l Hc. rewrite Hq. intros Hl. destruct Hcur as [Ec|Ec]; rewrite Ec in Hc; [|done]. rewrite Hc in Hcase.
    rewrite (Hsame l Hl), (rn_remaining _ _ _ Hcase). specialize (Hle c l Hc Hl). lia.
Qed.

#[export] Instance SJF_least_first : LeastFirst SJF.SJFScheduler batch.
Proof.
  split.
  - intros s s1 c l Hr B Hio Ht Hd Hc Hl. destruct (batch_decided s s1 Hr Hio B Hd) as [_ Hle].
    destruct (reachable_tick s Hr Ht) as (s' & E & _). destruct (runs_out_tick s s' Hr Ht E) as (s2 & O).
    pose proof (de_dispatch _ _ _ (ot_decided _ _ _ O)) as Hd'. rewrite Hd in Hd'. injection Hd' as <-.
    destruct (de_keeps _ _ _ (ot_decided _ _ _ O)) as [_ F]. rewrite !(fr_remaining _ _ F). by apply Hle.
  - intros s s' Hr B Hio Ht E. destruct (runs_out_tick s s' Hr Ht E) as (s1 & O).
    by apply (batch_tick s s1); [|by eapply reach_tick|..].
Qed.

Lemma setup_batch ps a : Forall admissible ps -> Forall (fun p => ArrivalTime p = a) ps ->
  batch (setup ps SJF.NewSJFScheduler).
Proof.
  intros Hadm Ha. destruct (setup_spec ps SJF.NewSJFScheduler SJF_ok Hadm) as (Hr & _ & _ & _ & HP).
  destruct (setup_empty ps SJF.NewSJFScheduler SJF_ok Hadm) as [_ Hq].
  split.
  - apply setup_punctual; [exact SJF_ok|done].
  - exists a. by apply (HP (fun p => ArrivalTime p = a)).
  - rewrite Hq. by intros l ?%elem_of_nil.
  - rewrite Hq. by intros c l _ ?%elem_of_nil.
Qed.
End sjf.

(** ** Properties *)

(** C6: FCFS serves in the order of arrival: of processes without I/O, arranged by
    arrival time, every one completes where the recurrence of [fcfs_times] puts it,
    [c(i) = max(c(i-1), arrival(i)) + burst(i)] starting at 0, whatever gaps the
    arrivals leave. *)
Theorem fcfs_completion_times `{GoSortLaws} ps A :
  Forall admissible ps -> ps <> [] -> Forall (fun p => IOBursts p = []) ps ->
  Forall (fun p => ArrivalTime p <= A) ps -> 0 <= A -> A + zsum BurstTime ps <= max_int ->
  exists s qs, runToCompletion (Z.to_nat (A + zsum BurstTime ps)) (setup ps FCFS.NewFCFSScheduler) = Some s /\
    isComplete s = true /\
    qs ≡ₚ ps /\ StronglySorted (fun p q => ArrivalTime p <= ArrivalTime q) qs /\
    map (fun l => config (deref (mem s) l)) (processes s) = map config qs /\
    map (fun l => CompletionTime (deref (mem s) l)) (processes s) =
      fcfs_times 0 (map (fun p => (ArrivalTime p, BurstTime p)) qs).
Proof.
  intros Hadm Hne Hio HA Hpos Hmax.
  destruct (setup_completes FCFS.NewFCFSScheduler ps A FCFS_ok Hadm Hne Hio HA Hpos Hmax) as (s & Hs & Rs & Cs).
  destruct (setup_spec ps FCFS.NewFCFSScheduler FCFS_ok Hadm) as (Hr & Ht & _ & _ & HP).
  pose proof (lk_io1 _ _ (setup_lockstep ps FCFS.NewFCFSScheduler FCFS.NewFCFSScheduler FCFS_ok FCFS_ok Hadm Hio)) as Hio0.
  pose proof (setup_punctual ps FCFS.NewFCFSScheduler FCFS_ok Hadm) as Hp.
  pose proof (setup_in_line ps Hadm) as Hl. pose proof (AddProcesses_perm ps _ (reach_new _ FCFS_ok) Hadm) as Hperm.
  change (AddProcesses ps (NewSimulator FCFS.NewFCFSScheduler)) with (setup ps FCFS.NewFCFSScheduler) in Hperm.
  set (s0 := setup ps FCFS.NewFCFSScheduler) in *. cbn in Hperm.
  destruct (forecast_run (Z.to_nat (A + zsum BurstTime ps)) s0 s Hr Hio0 Hp Hl) as (Ep & Ec & _ & _ & Ef);
    [unfold max_int in *; lia|done|].
  destruct (reachable_wf _ Rs) as [Hwf _].
  exists s, (map (deref (mem s0)) (processes s0)). do 2 (split; [done|]). split; [done|]. split; [|split].
  - apply StronglySorted_map. by apply processes_sorted_by_arrival.
  - rewrite Ep, map_map. apply map_ext. exact Ec.
  - rewrite <-(forecast_finished s (complete_served _ _ Hwf Cs) (currentTime s)), Ef, Ht, map_map.
    apply forecast_fresh. intros l Hlp. pose proof (HP admissible Hadm l Hlp) as Ha.
    split; [apply (co_burst _ (proj1 Ha))|]. destruct (admissible_wf 0 _ Ha) as (_ & _ & Hsv). unfold served in Hsv. lia.
Qed.

(** The convoy: the short jobs wait for the long one. *)
Lemma fcfs_completion_times_witness :
  exists s, runToCompletion 13 (setup convoy FCFS.NewFCFSScheduler) = Some s /\
    map (fun l => CompletionTime (deref (mem s) l)) (processes s) = [8; 10; 11] /\
    fcfs_times 0 [(0, 8); (1, 2); (2, 1)] = [8; 10; 11].
Proof.
  destruct (fcfs_completion_times convoy 2) as (s & qs & Es & _ & _ & _ & Ecfg & Ect).
  - exact convoy_admissible.
  - discriminate.
  - repeat constructor.
  - repeat constructor; vm_compute; discriminate.
  - lia.
  - vm_compute. discriminate.
  - exists s. split; [exact Es|]. split; [|vm_compute; reflexivity].
    rewrite Ect. assert (E : map (fun p => (ArrivalTime p, BurstTime p)) qs =
      map (fun c => (c.1.1.1.2.1.1, c.1.1.1.2.1.2)) (map config qs)).
    { rewrite map_map. reflexivity. }
    rewrite E, <-Ecfg. vm_compute in Es. injection Es as <-. vm_compute. reflexivity.
Defined.

(** SJF is optimal for a batch: of processes without I/O that all arrive at the
    same time no policy, preemptive or not, achieves a smaller total turnaround or
    waiting time than SJF. *)
Theorem sjf_optimal_for_batches `{GoSortLaws} ps a :
  Forall admissible ps -> ps <> [] -> Forall (fun p => IOBursts p = []) ps ->
  Forall (fun p => ArrivalTime p = a) ps -> a + zsum BurstTime ps <= max_int ->
  no_policy_beats SJF.NewSJFScheduler ps a.
Proof.
  intros Hadm Hne Hio Ha Hmax. assert (Hpos : 0 <= a).
  { destruct ps as [|p ps]; [done|]. apply Forall_cons in Hadm as [Hp _], Ha as [<- _].
    pose proof (co_arrival _ (proj1 Hp)). lia. }
  apply (least_first_optimal (inv := batch)); try done.
  - by apply setup_batch with a.
  - eapply Forall_impl; [exact Ha|]. cbn. lia.
Qed.

(** Three jobs at once, the longest first in the list; against Round-Robin. *)
Definition queue_of_three : list Process :=
  [Example.process 1 0 5; Example.process 2 0 3; Example.process 3 0 1].

Lemma sjf_optimal_for_batches_witness :
  exists s r, runToCompletion 9 (setup queue_of_three SJF.NewSJFScheduler) = Some s /\
    runToCompletion 9 (setup queue_of_three (RoundRobin.NewRoundRobinScheduler 1)) = Some r /\
    zsum (fun l => TurnaroundTime (deref (mem s) l)) (processes s) = 14 /\
    zsum (fun l => TurnaroundTime (deref (mem s) l)) (processes s) <=
    zsum (fun l => TurnaroundTime (deref (mem r) l)) (processes r).
Proof.
  assert (Hbest : no_policy_beats SJF.NewSJFScheduler queue_of_three 0).
  { apply sjf_optimal_for_batches.
    - apply Forall_cons_2; [|apply Forall_cons_2; [|apply Forall_cons_2; [|apply Forall_nil_2]]];
        apply Example.process_admissible; unfold in_int, min_int, max_int; lia.
    - discriminate.
    - repeat constructor.
    - repeat constructor.
    - vm_compute. discriminate. }
  destruct (Hbest _ _ RoundRobin_laws (RoundRobin.NewRoundRobinScheduler 1)) as (s & r & Es & Er & _ & _ & Hle & _).
  - vm_compute. discriminate.
  - exists s, r. split; [exact Es|]. split; [exact Er|]. split; [|exact Hle].
    vm_compute in Es. injection Es as <-. vm_compute. reflexivity.
Defined.
