(* ===== verification/SimRoundRobin.v ===== *)
(** * Round-Robin against its textbook definition

    The reference serves whole slices: the head of the queue runs for a quantum or to
    its end, who arrives meanwhile joins the queue, and an unfinished process goes
    behind them. The engine works in units of time; without I/O its completion times
    are those of the reference. *)

From Stdlib Require Import Sorted.
From Equations Require Import Equations.
From S2P Require Import Prelude.
From S2P Require Import Float64.
From S2P Require Import Process.
From S2P Require Import Scheduler.
From S2P Require Import Simulator.
From S2P Require Import SimInvariant.
From S2P Require Import SimSteps.
From S2P Require Import SimTick.
From S2P Require Import SimReach.
From S2P Require Import SimPolicy.
From S2P Require Import SimCpu.
From S2P Require Import SimProgress.
From S2P Require Import SimFair.
From S2P Require Import SimReset.
From S2P Require Import SimOptimal.
From S2P Require Import SimArrivals.

(** ** The reference *)

Section reference.
Context {A : Type} (quantum : Z).

(** A job to come: its name, arrival time and burst; in the queue a job has its name
    and the time it still needs. *)
Definition arrival (j : A * Z * Z) : Z := j.1.2.
Definition enters (j : A * Z * Z) : A * Z := (j.1.1, j.2).

(** The jobs of [coming] that arrive before [now], and the others. *)
Definition joining (now : Z) (coming : list (A * Z * Z)) : list (A * Z) :=
  map enters (filter (fun j => arrival j < now) coming).
Definition later (now : Z) (coming : list (A * Z * Z)) : list (A * Z * Z) :=
  filter (fun j => now <= arrival j) coming.

(** The measure: time still needed, and jobs still to come. *)
Definition need (queue : list (A * Z)) : nat := sum_list_with (fun j => S (Z.to_nat j.2)) queue.
Definition to_come (coming : list (A * Z * Z)) : nat := sum_list_with (fun j => S (S (Z.to_nat j.2))) coming.

Lemma need_cons j queue : need (j :: queue) = S (Z.to_nat j.2 + need queue).
Proof. done. Qed.
Lemma to_come_cons j coming : to_come (j :: coming) = S (S (Z.to_nat j.2 + to_come coming)).
Proof. done. Qed.
Lemma need_app q1 q2 : need (q1 ++ q2) = (need q1 + need q2)%nat.
Proof. apply sum_list_with_app. Qed.

Lemma join_need now coming : (need (joining now coming) + to_come (later now coming) <= to_come coming)%nat.
Proof.
  unfold joining, later. induction coming as [|j coming IH]; [done|]. rewrite !filter_cons.
  case_decide; case_decide; rewrite ?map_cons, ?need_cons, ?to_come_cons; cbn [enters snd]; lia.
Qed.

(** A quantum is at least one unit. *)
Definition slice : Z := Z.max 1 quantum.

(** The completions, in order, of a machine that is free from [clock] on. *)
Equations? round_robin (clock : Z) (queue : list (A * Z)) (coming : list (A * Z * Z)) : list (A * Z)
    by wf (need queue + to_come coming)%nat lt :=
  round_robin clock [] [] := [];
  round_robin clock [] (j :: coming) := round_robin (Z.max clock (arrival j)) [enters j] coming;
  round_robin clock ((x, r) :: queue) coming with decide (r <= slice) => {
    | left _ := (x, clock + r) ::
        round_robin (clock + r) (queue ++ joining (clock + r) coming) (later (clock + r) coming);
    | right _ := round_robin (clock + slice)
        ((queue ++ joining (clock + slice) coming) ++ [(x, r - slice)]) (later (clock + slice) coming) }.
Proof.
  - rewrite need_cons, to_come_cons. cbn [enters snd need sum_list_with]. lia.
  - rewrite need_cons, need_app. pose proof (join_need (clock + r) coming). cbn [snd]. lia.
  - rewrite need_cons, !need_app, need_cons. pose proof (join_need (clock + slice) coming). cbn [snd need sum_list_with].
    unfold slice in *. lia.
Qed.

(** *** Slices in units of time *)

(** The head [x] has [k] units of its quantum left. *)
Definition serve (k clock : Z) (x : A) (r : Z) (queue : list (A * Z)) (coming : list (A * Z * Z)) : list (A * Z) :=
  if decide (r <= k) then
    (x, clock + r) :: round_robin (clock + r) (queue ++ joining (clock + r) coming) (later (clock + r) coming)
  else round_robin (clock + k) ((queue ++ joining (clock + k) coming) ++ [(x, r - k)]) (later (clock + k) coming).

Lemma round_robin_serve clock x r queue coming :
  round_robin clock ((x, r) :: queue) coming = serve slice clock x r queue coming.
Proof. unfold serve. simp round_robin. by destruct (decide (r <= slice)). Qed.

Lemma round_robin_jump clock j coming :
  round_robin clock [] (j :: coming) = round_robin (Z.max clock (arrival j)) [enters j] coming.
Proof. by simp round_robin. Qed.

Definition by_arrival : list (A * Z * Z) -> Prop := StronglySorted (fun i j => arrival i <= arrival j).

(** In the order of arrival the jobs before [t] are the first ones. *)
Lemma later_later t now coming : t <= now -> later now (later t coming) = later now coming.
Proof. intros Ht. unfold later. rewrite list_filter_filter. apply filter_ext_elem. intros j _. lia. Qed.

Lemma joining_all now coming : (forall j, j ∈ coming -> now <= arrival j) ->
  joining now coming = [] /\ later now coming = coming.
Proof.
  intros Hn. unfold joining, later. split; [|by apply filter_keep].
  rewrite (filter_ext_elem _ (fun _ => False)); [by clear; induction coming|]. intros j Hj%Hn. split; [lia|done].
Qed.

Lemma joining_split t now coming : by_arrival coming -> t <= now ->
  joining now coming = joining t coming ++ joining now (later t coming).
Proof.
  intros Hs Ht. induction Hs as [|j coming Hs IH Hj]; [done|]. rewrite Forall_forall in Hj.
  unfold joining, later in *. destruct (decide (arrival j < t)) as [Hjt|Hjt].
  - rewrite (filter_cons_True (fun j => arrival j < now) j), (filter_cons_True (fun j => arrival j < t) j),
      (filter_cons_False (fun j => t <= arrival j) j) by lia. cbn [map app]. by rewrite IH.
  - destruct (joining_all t (j :: coming)) as [E1 E2].
    { intros i [->|Hi%Hj]%elem_of_cons; lia. }
    unfold joining, later in E1, E2. by rewrite E1, E2.
Qed.

(** A unit of a slice, with the jobs that arrive in it already in [queue]. *)
Definition advance (k clock : Z) (x : A) (r : Z) (queue : list (A * Z)) (coming : list (A * Z * Z)) : list (A * Z) :=
  if decide (r = 1) then (x, clock + 1) :: round_robin (clock + 1) queue coming
  else if decide (k = 1) then round_robin (clock + 1) (queue ++ [(x, r - 1)]) coming
  else serve (k - 1) (clock + 1) x (r - 1) queue coming.

Lemma serve_unit k clock x r queue coming : by_arrival coming -> 1 <= k -> 1 <= r ->
  serve k clock x r queue coming =
  advance k clock x r (queue ++ joining (clock + 1) coming) (later (clock + 1) coming).
Proof.
  intros Hs Hk Hr. unfold advance, serve.
  assert (Hjoin : forall n, 1 <= n -> queue ++ joining (clock + n) coming =
    (queue ++ joining (clock + 1) coming) ++ joining (clock + n) (later (clock + 1) coming) /\
    later (clock + n) coming = later (clock + n) (later (clock + 1) coming)).
  { intros n Hn. by rewrite <-app_assoc, <-(joining_split (clock + 1)), later_later by (done || lia). }
  destruct (decide (r = 1)) as [->|Hr1]; [by rewrite decide_True by lia|].
  destruct (decide (k = 1)) as [->|Hk1]; [by rewrite decide_False by lia|].
  destruct (decide (r <= k)), (decide (r - 1 <= k - 1)); try lia.
  - destruct (Hjoin r ltac:(lia)) as [-> ->]. by replace (clock + 1 + (r - 1)) with (clock + r) by lia.
  - destruct (Hjoin k ltac:(lia)) as [-> ->]. replace (clock + 1 + (k - 1)) with (clock + k) by lia.
    by replace (r - 1 - (k - 1)) with (r - k) by lia.
Qed.
End reference.

(** ** The engine's plan *)

(** The jobs of processes. *)
Definition todo {Sd} (s : Simulator Sd) (l : loc) : loc * Z := (l, RemainingTime (deref (mem s) l)).
Definition job {Sd} (s : Simulator Sd) (l : loc) : loc * Z * Z :=
  (l, ArrivalTime (deref (mem s) l), BurstTime (deref (mem s) l)).
Definition coming {Sd} (s : Simulator Sd) : list (loc * Z * Z) :=
  map (job s) (filter (fun l => currentTime s <= ArrivalTime (deref (mem s) l)) (processes s)).
Definition completion {Sd} (s : Simulator Sd) (l : loc) : loc * Z := (l, CompletionTime (deref (mem s) l)).
Definition completions {Sd} (s : Simulator Sd) : list (loc * Z) :=
  map (completion s) (filter (fun l => RemainingTime (deref (mem s) l) = 0) (processes s)).

Lemma joining_job {Sd} (s : Simulator Sd) now ls :
  joining now (map (job s) ls) =
  map (fun l => (l, BurstTime (deref (mem s) l))) (filter (fun l => ArrivalTime (deref (mem s) l) < now) ls).
Proof.
  induction ls as [|l ls IH]; [done|]. unfold joining in *. cbn [map].
  destruct (decide (ArrivalTime (deref (mem s) l) < now)).
  - rewrite !filter_cons_True by done. cbn [map]. by rewrite IH.
  - rewrite !filter_cons_False by done. exact IH.
Qed.

Lemma later_job {Sd} (s : Simulator Sd) now ls :
  later now (map (job s) ls) = map (job s) (filter (fun l => now <= ArrivalTime (deref (mem s) l)) ls).
Proof.
  induction ls as [|l ls IH]; [done|]. unfold later in *. cbn [map].
  destruct (decide (now <= ArrivalTime (deref (mem s) l))).
  - rewrite !filter_cons_True by done. cbn [map]. by rewrite IH.
  - rewrite !filter_cons_False by done. exact IH.
Qed.

Section plan.
Context {Sd : Type} {quantum : Sd -> Z} `{Rotates Sd quantum} `{GoSortLaws}.
Implicit Types (s : Simulator Sd) (l c : loc).

(** What the reference makes of a state between ticks. *)
Definition plan q s : list (loc * Z) :=
  match currentProcess s with
  | Some c => serve q (q - timeQuantumUsed s) (currentTime s) c (RemainingTime (deref (mem s) c))
                (map (todo s) (readyQueue s)) (coming s)
  | None => round_robin q (currentTime s) (map (todo s) (readyQueue s)) (coming s)
  end.

(** Who is on the CPU has not used up its quantum. *)
Definition in_slice s : Prop :=
  is_Some (currentProcess s) -> 0 <= timeQuantumUsed s < quantum (scheduler s).

Lemma coming_sorted s : reachable s -> by_arrival (coming s).
Proof. intros Hr. apply StronglySorted_map, filter_strongly_sorted, processes_sorted_by_arrival, Hr. Qed.

Lemma coming_tick s s' : ticked s s' -> coming s' = later (currentTime s + 1) (coming s).
Proof.
  intros T. unfold coming. rewrite later_job, list_filter_filter, (tk_procs _ _ T), (tk_time _ _ T).
  rewrite (filter_ext_elem _ (fun l => currentTime s + 1 <= ArrivalTime (deref (mem s) l) /\
    currentTime s <= ArrivalTime (deref (mem s) l))).
  - apply map_ext. intros l. unfold job. by destruct (ticked_config_eq s s' l T) as [-> ->].
  - intros l _. rewrite (proj1 (ticked_config_eq s s' l T)). lia.
Qed.

(** Who arrives at the decision joins the reference's queue. *)
Lemma arriving_joining s : reachable s -> punctual s ->
  map (todo s) (filter (arriving s) (processes s)) = joining (currentTime s + 1) (coming s).
Proof.
  intros Hr Hp. unfold coming. rewrite joining_job, list_filter_filter. destruct (reachable_wf _ Hr) as [[Hwf _] _].
  rewrite (filter_ext_elem (arriving s) (fun l => ArrivalTime (deref (mem s) l) < currentTime s + 1 /\
    currentTime s <= ArrivalTime (deref (mem s) l))).
  2:{ intros l Hl. unfold arriving. rewrite (Hp l Hl). lia. }
  apply map_ext_in. intros l Hl%list_elem_of_In. apply list_elem_of_filter in Hl as [[_ Ha] Hl].
  unfold todo. by rewrite (pw_new _ _ (wf_procs _ _ _ _ _ _ Hwf l Hl) (proj2 (Hp l Hl) Ha)).
Qed.

(** The same in the state before the tick. *)
Lemma decision_plan q s s1 c : reachable s -> io_total s = 0 -> punctual s -> in_slice s ->
  q = quantum (scheduler s) -> keeps (currentTime s) s s1 ->
  dispatch (decision_state s) = Some s1 -> currentProcess s1 = Some c ->
  0 <= timeQuantumUsed s1 < q /\
  plan q s = advance q (q - timeQuantumUsed s1) (currentTime s) c (RemainingTime (deref (mem s) c))
    (map (todo s) (readyQueue s1)) (later (currentTime s + 1) (coming s)).
Proof.
  intros Hr Hio Hp Hu -> K Hd Hc1. destruct (reachable_wf _ Hr) as [Hwf _].
  assert (Hrem : 1 <= RemainingTime (deref (mem s) c)).
  { destruct K as [Hwf1 F]. rewrite <-(fr_remaining _ _ F). by apply (line_positive _ s1 c Hwf1); right. }
  pose proof (ro_positive _ (proj2 Hwf)) as Hq. set (q := quantum (scheduler s)) in *.
  destruct (decision_keeps s Hwf) as [Hwf2 _]. pose proof (dispatch_rotates _ _ _ Hwf2 Hd) as Hrot.
  pose proof (decision_enqueues s) as [_ Ec Eu]. pose proof (decision_queue s Hr Hio) as Eq.
  pose proof (coming_sorted s Hr) as Hs. rewrite Ec in Hrot.
  pose proof (f_equal (map (todo s)) Eq) as Em. rewrite map_app, (arriving_joining s Hr Hp) in Em.
  assert (Eslice : slice q = q) by (unfold slice; lia). unfold plan.
  destruct (currentProcess s) as [c'|] eqn:Hc.
  { subst s1. rewrite Ec in Hc1. injection Hc1 as ->. rewrite Eu, Em. destruct (Hu ltac:(by eexists)).
    split; [done|]. apply serve_unit; [done|lia|done]. }
  destruct (readyQueue (decision_state s)) as [|x xs] eqn:Ed.
  { exfalso. unfold dispatch in Hd. rewrite Ec in Hd. injection Hd as <-.
    destruct (scheduleNextProcess_keeps _ _ Hwf2 Ec) as [_ D]. destruct (di_empty _ _ D Ed). congruence. }
  destruct Hrot as (Ex & Exs & E0). rewrite Hc1 in Ex. injection Ex as ->. rewrite E0, Exs, Z.sub_0_r. split; [lia|].
  cbn [map] in Em. destruct (readyQueue s) as [|y ys].
  2:{ injection Em as <- _ Em. cbn [map]. change (todo s x) with (x, RemainingTime (deref (mem s) x)).
      rewrite round_robin_serve, Eslice, Em. by apply serve_unit. }
  cbn [map app] in *. destruct (coming s) as [|j js] eqn:Ej; [done|].
  assert (Hj : currentTime s <= arrival j).
  { assert (Hin : j ∈ coming s) by (rewrite Ej; left). unfold coming in Hin.
    apply list_elem_of_fmap in Hin as (l & -> & Hl). by apply list_elem_of_filter in Hl as [? _]. }
  apply StronglySorted_inv in Hs as [Hs Hall]. rewrite Forall_forall in Hall.
  assert (Hlt : arrival j < currentTime s + 1).
  { destruct (Z.lt_ge_cases (arrival j) (currentTime s + 1)) as [|Hge]; [done|exfalso].
    destruct (joining_all (currentTime s + 1) (j :: js)) as [E _]; [|by rewrite E in Em].
    intros i [->|Hi%Hall]%elem_of_cons; lia. }
  unfold joining in Em. rewrite filter_cons_True in Em by done. cbn [map] in Em. injection Em as Ej1 Ej2 Em.
  rewrite round_robin_jump. unfold enters. rewrite <-Ej1, <-Ej2.
  rewrite round_robin_serve, Eslice, Z.max_l by lia.
  rewrite Em. unfold later at 1. rewrite filter_cons_False by lia. fold (later (currentTime s + 1) js).
  exact (serve_unit q q (currentTime s) x _ [] js Hs Hq Hrem).
Qed.

(** What remains of the plan after a unit of CPU time for [c]. *)
Lemma plan_ran s s1 s2 s' c : reachable s -> reachable s' -> currentTime s < max_int -> io_total s = 0 ->
  decided s s1 s' -> currentProcess s1 = Some c -> runCurrent s1 = Some s2 -> s' = advanceClock s2 ->
  let q := quantum (scheduler s) in let r := RemainingTime (deref (mem s) c) in
  quantum (scheduler s1) = q -> quantum (scheduler s') = q -> 0 <= timeQuantumUsed s1 < q ->
  in_slice s' /\
  advance q (q - timeQuantumUsed s1) (currentTime s) c r (map (todo s) (readyQueue s1)) (later (currentTime s + 1) (coming s)) =
  (if r =? 1 then [(c, currentTime s + 1)] else []) ++ plan q s'.
Proof.
  intros Hr Hr' Ht Hio D Hc Erun Es' q r Eq1 Eq' Hu. destruct (reachable_wf _ Hr) as [Hwf Ht0], (reachable_wf _ Hr') as [Hwf' _].
  pose proof D as [_ [Hwf1 F1] T _ _ Hcase]. rewrite Hc in Hcase. pose proof (fr_time _ _ F1) as Et.
  destruct (advanceClock_frame s2) as (Eu2 & Eq2 & Ec2 & _). rewrite <-Es' in Eu2, Eq2, Ec2.
  rewrite <-Et in Hwf1.
  assert (Hmax : timeQuantumUsed s1 <= currentTime s).
  { pose proof (reachable_used _ Hr). pose proof (eq_used _ _ (decision_enqueues s)).
    destruct (dispatch_slices _ _ (de_dispatch _ _ _ D)); lia. }
  pose proof (runCurrent_rotates s1 c s2 Hwf1 ltac:(lia) Hc ltac:(lia) Erun) as Hrun.
  rewrite <-Eu2, <-Eq2, <-Ec2, Eq1 in Hrun. rewrite <-(coming_tick s s' T).
  pose proof (rn_remaining _ _ _ Hcase) as Er. pose proof (rn_positive _ _ _ Hcase) as Hpos. fold r in Er, Hpos.
  assert (Hnc : c ∉ readyQueue s1).
  { intros Hin. apply (wf_ready _ _ _ _ _ _ (proj1 Hwf1)) in Hin as [_ Hs1].
    apply (wf_cur _ _ _ _ _ _ (proj1 Hwf1)) in Hc as [_ ?]. congruence. }
  assert (Etodo : map (todo s) (readyQueue s1) = map (todo s') (readyQueue s1)).
  { apply map_ext_in. intros l Hl%list_elem_of_In. unfold todo. rewrite (rn_others _ _ _ Hcase); [done|]. by intros ->. }
  rewrite Etodo. unfold advance, plan, in_slice. rewrite (tk_time _ _ T), Eq'.
  assert (Eslice : slice q = q) by (unfold slice; lia).
  pose proof (line_positive _ s' c Hwf') as Hline. rewrite Er in Hline.
  destruct Hrun as [(Ec & EQ & EU & Hlt)|[[Ec EQ]|(Hexp & x & xs & Ex & Ec & EQ & EU)]]; rewrite Ec in *.
  - destruct (Hline ltac:(by right)) as [_ Hr2]. rewrite decide_False by lia. rewrite (proj2 (Z.eqb_neq r 1)) by lia.
    rewrite decide_False by lia. split; [intros _; lia|]. rewrite Er, EQ, EU. cbn [app].
    by replace (q - (timeQuantumUsed s1 + 1)) with (q - timeQuantumUsed s1 - 1) by lia.
  - assert (Hz : r - 1 = 0).
    { rewrite <-Er. destruct (work_left_nonneg 0 _ _ Hwf) as (_ & ? & _). pose proof (tk_io _ _ T).
      pose proof (rn_elem _ _ _ Hcase) as Hl. pose proof (wf_procs _ _ _ _ _ _ (proj1 Hwf) c Hl) as W.
      apply (out_of_line _ s' c Hwf'); [lia|by rewrite (tk_procs _ _ T)| |by rewrite Ec, EQ; intros [|]].
      rewrite Er, (proj2 (ticked_config_eq s s' c T)). pose proof (pw_remaining _ _ W). lia. }
    rewrite decide_True, (proj2 (Z.eqb_eq r 1)) by lia. split; [by intros [? ?]|]. by rewrite EQ.
  - assert (Hin : c ∈ readyQueue s' \/ Some x = Some c).
    { assert (Hin : c ∈ x :: xs) by (rewrite <-Ex; set_solver). rewrite EQ. set_solver. }
    destruct (Hline Hin) as [_ Hr2]. rewrite decide_False by lia. rewrite (proj2 (Z.eqb_neq r 1)) by lia.
    rewrite decide_True by lia. split; [intros _; lia|]. rewrite EU, EQ, Z.sub_0_r. cbn [app].
    transitivity (round_robin q (currentTime s + 1) (map (todo s') (x :: xs)) (coming s')).
    + rewrite <-Ex, map_app. cbn [map]. unfold todo at 3. by rewrite Er.
    + etransitivity; [apply round_robin_serve|]. by rewrite Eslice.
Qed.

(** The completions of a tick. *)
Definition finishes s s' l : Prop :=
  0 < RemainingTime (deref (mem s) l) /\ RemainingTime (deref (mem s') l) = 0.

#[export] Instance finishes_dec s s' l : Decision (finishes s s' l).
Proof. unfold finishes. apply _. Defined.

Lemma completions_tick s s' : reachable s -> currentTime s < max_int -> executeTimeUnit s = Some s' -> ticked s s' ->
  completions s' ≡ₚ completions s ++ map (fun l => (l, currentTime s + 1)) (filter (finishes s s') (processes s)).
Proof.
  intros Hr Ht E T. unfold completions. rewrite (tk_procs _ _ T). destruct (reachable_wf _ Hr) as [[Hwf _] _].
  assert (Hrem : forall l, l ∈ processes s -> 0 <= RemainingTime (deref (mem s) l) /\
    (RemainingTime (deref (mem s) l) = 0 -> RemainingTime (deref (mem s') l) = 0)).
  { intros l Hl. pose proof (pw_remaining _ _ (wf_procs _ _ _ _ _ _ Hwf l Hl)). split; [lia|]. intros Hz.
    destruct (tk_work _ _ T) as [(c & R)|I]; [|by rewrite (id_remaining _ _ I)].
    destruct (decide (l = c)) as [->|Hne]; [pose proof (rn_positive _ _ _ R); lia|by rewrite (rn_others _ _ _ R)]. }
  clear Hwf. induction (processes s) as [|l ls IH]; [done|]. specialize (IH ltac:(intros; apply Hrem; by right)).
  destruct (Hrem l ltac:(left)) as [Hpos Hkeep].
  assert (Ec : completion s' l = if decide (finishes s s' l) then (l, currentTime s + 1) else completion s l).
  { unfold completion. rewrite (tick_completion s s' l Hr Ht E). unfold finishes.
    case_decide as Hf; [|by destruct (_ && _) eqn:Eb; [apply andb_true_iff in Eb as [?%Z.ltb_lt ?%Z.eqb_eq]; lia|]].
    rewrite (proj2 (Z.ltb_lt _ _)), (proj2 (Z.eqb_eq _ _)) by lia. done. }
  rewrite !filter_cons. destruct (decide (finishes s s' l)) as [[Hf Hz]|Hnf].
  - rewrite decide_True, decide_False by lia. cbn [map]. rewrite Ec, IH, <-Permutation_middle. done.
  - unfold finishes in Hnf. destruct (decide (RemainingTime (deref (mem s) l) = 0)) as [Hz|Hz].
    + rewrite decide_True by auto. cbn [map app]. by rewrite Ec, IH.
    + rewrite decide_False by lia. exact IH.
Qed.

(** Time passes while nobody is ready. *)
Lemma plan_idle q s s1 s' : reachable s -> io_total s = 0 -> punctual s -> decided s s1 s' -> currentProcess s1 = None ->
  currentProcess s' = None /\ plan q s = plan q s'.
Proof.
  intros Hr Hio Hp [Hd K T Hin _ _] Hc. destruct (reachable_wf _ Hr) as [Hwf _].
  destruct (decision_keeps s Hwf) as [Hwf2 _]. pose proof (dispatch_rotates _ _ _ Hwf2 Hd) as Hrot.
  pose proof (eq_current _ _ (decision_enqueues s)) as Ec. rewrite Ec in Hrot.
  destruct (currentProcess s) as [c|] eqn:Hcs; [subst s1; congruence|].
  destruct (readyQueue (decision_state s)) as [|x xs] eqn:Ed; [|by destruct Hrot; congruence].
  unfold dispatch in Hd. rewrite Ec in Hd. injection Hd as Hd.
  destruct (scheduleNextProcess_keeps _ _ Hwf2 Ec) as [_ Di]. destruct (di_empty _ _ Di Ed) as [_ Eq1]. rewrite Hd in Eq1.
  assert (Hnone : forall l, ~ (l ∈ readyQueue s' \/ currentProcess s' = Some l)).
  { intros l [Hl|Hl]%Hin; [rewrite Eq1 in Hl; by apply elem_of_nil in Hl|congruence]. }
  assert (Ec' : currentProcess s' = None) by (destruct (currentProcess s') as [c|]; [destruct (Hnone c); by right|done]).
  assert (Eq' : readyQueue s' = []) by (destruct (readyQueue s') as [|x xs]; [done|destruct (Hnone x); left; left]).
  split; [done|]. pose proof (decision_queue s Hr Hio) as Eq. rewrite Ed in Eq. symmetry in Eq.
  apply app_nil in Eq as [Eqs Earr]. pose proof (arriving_joining s Hr Hp) as Ej. rewrite Earr in Ej.
  unfold plan. rewrite Hcs, Ec', Eqs, Eq', (tk_time _ _ T), (coming_tick s s' T). cbn [map].
  assert (Hlate : forall j, j ∈ coming s -> currentTime s + 1 <= arrival j).
  { intros j Hj. destruct (Z.le_gt_cases (currentTime s + 1) (arrival j)) as [|Hlt]; [done|exfalso].
    assert (Hjin : enters j ∈ joining (currentTime s + 1) (coming s)).
    { apply list_elem_of_fmap. exists j. split; [done|]. apply list_elem_of_filter. split; [lia|done]. }
    rewrite <-Ej in Hjin. by apply elem_of_nil in Hjin. }
  rewrite (proj2 (joining_all _ _ Hlate)). destruct (coming s) as [|j js]; [done|].
  specialize (Hlate j ltac:(left)). rewrite !round_robin_jump. by rewrite !Z.max_r by lia.
Qed.

(** A tick moves the completions the reference predicts from the plan to the record. *)
Lemma plan_tick s s' : reachable s -> reachable s' -> currentTime s < max_int -> io_total s = 0 ->
  punctual s -> in_slice s -> executeTimeUnit s = Some s' ->
  punctual s' /\ in_slice s' /\ quantum (scheduler s') = quantum (scheduler s) /\
  completions s ++ plan (quantum (scheduler s)) s ≡ₚ completions s' ++ plan (quantum (scheduler s)) s'.
Proof.
  intros Hr Hr' Ht Hio Hp Hu E. destruct (tick_decided s s' Hr Ht E) as (s1 & s2 & D & Erun & Es').
  pose proof (rw_sched _ _ _ (executeTimeUnit_rewinds (f := quantum) _ _ E)) as Eq'.
  split; [by apply (punctual_tick s s1)|]. pose proof D as [Hd K T _ _ Hcase].
  rewrite (completions_tick s s' Hr Ht E T). destruct (reachable_wf _ Hr) as [Hwf Ht0].
  destruct (currentProcess s1) as [c|] eqn:Hc.
  - destruct (decision_plan _ s s1 c Hr Hio Hp Hu eq_refl K Hd Hc) as [Hu1 ->].
    assert (Eq1 : quantum (scheduler s1) = quantum (scheduler s)).
    { etransitivity; [exact (rw_sched quantum _ _ (dispatch_rewinds _ _ Hd))|].
      exact (decision_rewinds (f := quantum) s). }
    destruct (plan_ran s s1 s2 s' c Hr Hr' Ht Hio D Hc Erun Es' Eq1 Eq' Hu1) as [Hu' ->].
    split; [done|]. split; [done|]. rewrite <-app_assoc. f_equiv. f_equiv.
    pose proof (rn_remaining _ _ _ Hcase) as Er. pose proof (rn_positive _ _ _ Hcase) as Hpos.
    assert (Ef : filter (finishes s s') (processes s) ≡ₚ if RemainingTime (deref (mem s) c) =? 1 then [c] else []).
    { apply NoDup_Permutation; [apply NoDup_filter, (wf_nodup _ _ _ _ _ _ (proj1 Hwf))|by destruct (_ =? _); [apply NoDup_singleton|constructor]|].
      intros l. rewrite list_elem_of_filter. unfold finishes. destruct (decide (l = c)) as [->|Hne].
      - rewrite Er. pose proof (rn_elem _ _ _ Hcase). destruct (Z.eqb_spec (RemainingTime (deref (mem s) c)) 1); set_solver by lia.
      - rewrite (rn_others _ _ _ Hcase l Hne). destruct (_ =? _); set_solver by lia. }
    rewrite Ef. by destruct (_ =? _).
  - assert (Ef : filter (finishes s s') (processes s) = []).
    { rewrite (filter_ext_elem _ (fun _ => False)); [by clear; induction (processes s)|]. intros l _. unfold finishes.
      rewrite (id_remaining _ _ Hcase). split; [lia|done]. }
    rewrite Ef, app_nil_r. destruct (plan_idle (quantum (scheduler s)) s s1 s' Hr Hio Hp D Hc) as [Ec' ->].
    split; [|done]. intros [c Hc']. congruence.
Qed.

Lemma plan_run fuel : forall s s', reachable s -> io_total s = 0 -> punctual s -> in_slice s ->
  currentTime s + Z.of_nat fuel <= max_int -> runToCompletion fuel s = Some s' ->
  processes s' = processes s /\ (forall l, config (deref (mem s') l) = config (deref (mem s) l)) /\
  reachable s' /\ isComplete s' = true /\
  punctual s' /\ completions s ++ plan (quantum (scheduler s)) s ≡ₚ completions s' ++ plan (quantum (scheduler s)) s'.
Proof.
  induction fuel as [|fuel IH]; intros s s' Hr Hio Hp Hu Hmax; [done|]. simpl.
  destruct (reachable_tick s Hr) as (s1 & E & Hr1 & T); [lia|]. rewrite E. simpl.
  destruct (plan_tick s s1 Hr Hr1 ltac:(lia) Hio Hp Hu E) as (Hp1 & Hu1 & Eq1 & Hplan).
  destruct (isComplete s1) eqn:Hc.
  - intros [= <-]. split; [apply (tk_procs _ _ T)|]. split; [apply (tk_config _ _ T)|]. done.
  - intros Hrun. destruct (reachable_wf _ Hr1) as [Hwf1 _]. pose proof (tk_io _ _ T).
    destruct (work_left_nonneg 0 _ _ Hwf1) as (_ & ? & _).
    destruct (IH s1 s' Hr1 ltac:(lia) Hp1 Hu1 ltac:(rewrite (tk_time _ _ T); lia) Hrun) as (E1 & E2 & E3 & E4 & Hp' & E5).
    rewrite Eq1 in E5. split; [by rewrite E1, (tk_procs _ _ T)|].
    split; [intros l; by rewrite E2, (tk_config _ _ T)|]. do 3 (split; [done|]). by etransitivity.
Qed.

(** Nothing is planned for a complete simulation. *)
Lemma plan_complete q s : reachable s -> punctual s -> isComplete s = true -> plan q s = [] /\
  completions s = map (completion s) (processes s).
Proof.
  intros Hr Hp Hc. destruct (reachable_wf _ Hr) as [Hwf _]. pose proof (complete_served _ _ Hwf Hc) as Hz.
  assert (Hnone : forall l, ~ (l ∈ readyQueue s \/ currentProcess s = Some l)).
  { intros l [Hl Hpos]%(line_positive _ s l Hwf). specialize (Hz l Hl). lia. }
  split; [|unfold completions; by rewrite filter_keep].
  assert (Ec : currentProcess s = None) by (destruct (currentProcess s) as [c|]; [destruct (Hnone c); by right|done]).
  assert (Eq : readyQueue s = []) by (destruct (readyQueue s) as [|x xs]; [done|destruct (Hnone x); left; left]).
  unfold plan, coming. rewrite Ec, Eq, (filter_ext_elem _ (fun _ => False)).
  - assert (E : forall ls : list loc, filter (fun _ => False) ls = []) by (by induction ls). by rewrite E.
  - intros l Hl. split; [|done]. intros Ha. apply (Hp l Hl) in Ha.
    pose proof (wf_procs _ _ _ _ _ _ (proj1 Hwf) l Hl) as W. pose proof (pw_new _ _ W Ha). pose proof (co_burst _ (pw_config _ _ W)).
    specialize (Hz l Hl). lia.
Qed.
End plan.

Lemma setup_scheduler {Sd} `{Scheduler Sd} `{GoSort} ps (sched : Sd) : scheduler (setup ps sched) = sched.
Proof.
  unfold setup, AddProcesses. change sched with (scheduler (NewSimulator sched)) at 2.
  generalize (NewSimulator sched). induction ps as [|p ps IH]; intros s; [done|]. cbn [fold_left]. by rewrite IH.
Qed.

Lemma RoundRobin_ok q : sched_ok (RoundRobin.NewRoundRobinScheduler q).
Proof. cbn. destruct (Z.ltb_spec q 1); lia. Qed.

(** Only the effective quantum matters. *)
Lemma round_robin_slice {A} p q (clock : Z) (queue : list (A * Z)) coming : slice p = slice q ->
  round_robin p clock queue coming = round_robin q clock queue coming.
Proof.
  revert q. apply_funelim (round_robin p clock queue coming); clear clock queue coming; intros; rename select (slice p = _) into E.
  - by simp round_robin.
  - etransitivity; [by apply H|symmetry; apply round_robin_jump].
  - etransitivity; [|symmetry; apply round_robin_serve]. unfold serve.
    rewrite <-E, decide_True by done. f_equal. by apply H.
  - etransitivity; [|symmetry; apply round_robin_serve]. unfold serve.
    rewrite <-E, decide_False by done. by apply H.
Qed.

Lemma quantum_slice q : slice (RoundRobin.timeQuantum (RoundRobin.NewRoundRobinScheduler q)) = slice q.
Proof. unfold slice. cbn. destruct (Z.ltb_spec q 1); lia. Qed.

(** ** Properties *)

(** C7: Round-Robin is the textbook's: of processes without I/O every one completes when
    the reference [round_robin] completes it, the processes in the order of arrival
    being its jobs: slices of the quantum (one unit if the quantum given is less) or
    to the end of the process, arrivals within a slice queueing before the process
    whose slice ends, arrivals at its end behind it. *)
Theorem round_robin_completion_times `{GoSortLaws} quantum ps A :
  Forall admissible ps -> ps <> [] -> Forall (fun p => IOBursts p = []) ps ->
  Forall (fun p => ArrivalTime p <= A) ps -> 0 <= A -> A + zsum BurstTime ps <= max_int ->
  exists s, runToCompletion (Z.to_nat (A + zsum BurstTime ps))
      (setup ps (RoundRobin.NewRoundRobinScheduler quantum)) = Some s /\
    isComplete s = true /\
    map (fun l => config (deref (mem s) l)) (processes s) ≡ₚ map config ps /\
    StronglySorted (fun l l' => ArrivalTime (deref (mem s) l) <= ArrivalTime (deref (mem s) l')) (processes s) /\
    round_robin quantum 0 [] (map (job s) (processes s)) ≡ₚ map (completion s) (processes s).
Proof.
  intros Hadm Hne Hio HA Hpos Hmax. set (rr := RoundRobin.NewRoundRobinScheduler quantum).
  pose proof (RoundRobin_ok quantum) as Hok. fold rr in Hok.
  destruct (setup_completes rr ps A Hok Hadm Hne Hio HA Hpos Hmax) as (s & Hs & Rs & Cs).
  destruct (setup_spec ps rr Hok Hadm) as (Hr & Ht & _ & _ & HP).
  pose proof (lk_io1 _ _ (setup_lockstep ps rr rr Hok Hok Hadm Hio)) as Hio0.
  pose proof (setup_punctual ps rr Hok Hadm) as Hp. destruct (setup_empty ps rr Hok Hadm) as [Hc Hq].
  pose proof (AddProcesses_perm ps _ (reach_new _ Hok) Hadm) as Hperm.
  change (AddProcesses ps (NewSimulator rr)) with (setup ps rr) in Hperm.
  destruct (plan_run (quantum := RoundRobin.timeQuantum) (Z.to_nat (A + zsum BurstTime ps)) (setup ps rr) s Hr Hio0 Hp)
    as (Ep & Ec & _ & _ & Hp' & Hplan); [unfold in_slice; rewrite Hc; by intros []|unfold max_int in *; lia|done|].
  exists s. do 2 (split; [done|]). split; [|split; [by apply processes_sorted_by_arrival|]].
  - rewrite Ep, (map_ext _ _ Ec), <-map_map. rewrite Hperm. done.
  - assert (Hjobs : map (job s) (processes s) = coming (setup ps rr)).
    { unfold coming. rewrite Ep, Ht, filter_keep.
      - apply map_ext. intros l. unfold job. by destruct (config_eq_inv _ _ (Ec l)) as (_ & _ & -> & -> & _).
      - intros l Hl. apply (co_arrival _ (proj1 (HP admissible Hadm l Hl))). }
    assert (Hfresh : completions (setup ps rr) = []).
    { unfold completions. rewrite (filter_ext_elem _ (fun _ => False)); [by generalize (processes (setup ps rr)) as ls; induction ls|].
      intros l Hl. split; [|done]. pose proof (HP admissible Hadm l Hl) as Ha. pose proof (co_burst _ (proj1 Ha)).
      destruct (admissible_wf 0 _ Ha) as (_ & _ & Hsv). unfold served in Hsv. lia. }
    destruct (plan_complete (RoundRobin.timeQuantum (scheduler (setup ps rr))) s Rs Hp' Cs) as [Enil Eall].
    rewrite Enil, Eall, Hfresh, app_nil_r in Hplan. rewrite <-Hplan, Hjobs. unfold plan. rewrite Hc, Hq, Ht. cbn [map app].
    rewrite (setup_scheduler ps rr). by rewrite (round_robin_slice (RoundRobin.timeQuantum rr) quantum) by apply quantum_slice.
Qed.

(** Two processes and a late one with quantum 2; the slice of process 1 ends when
    process 3 arrives. *)
Definition turns_of_three : list Process :=
  [Example.process 1 0 5; Example.process 2 1 3; Example.process 3 2 1].

Lemma round_robin_completion_times_witness :
  exists s, runToCompletion 11 (setup turns_of_three (RoundRobin.NewRoundRobinScheduler 2)) = Some s /\
    map (fun l => CompletionTime (deref (mem s) l)) (processes s) = [9; 8; 7] /\
    [(2%nat, 7); (1%nat, 8); (0%nat, 9)] ≡ₚ map (completion s) (processes s).
Proof.
  destruct (round_robin_completion_times 2 turns_of_three 2) as (s & Es & _ & _ & _ & Hrr).
  - apply Forall_cons_2; [|apply Forall_cons_2; [|apply Forall_cons_2; [|apply Forall_nil_2]]];
      apply Example.process_admissible; unfold in_int, min_int, max_int; lia.
  - discriminate.
  - repeat constructor.
  - repeat constructor; vm_compute; discriminate.
  - lia.
  - vm_compute. discriminate.
  - exists s. split; [exact Es|]. split.
    + vm_compute in Es. injection Es as <-. vm_compute. reflexivity.
    + rewrite <-Hrr. vm_compute in Es. injection Es as <-. vm_compute. reflexivity.
Defined.
