(* ===== verification/SimCfs.v ===== *)
(** * CFS shares the CPU

    Under CFS the virtual runtime of a process is the CPU time it has received, in
    units of [VRuntimeScale / Weight]. No process gets more than two of its own units
    ahead of one that is runnable all the while, so the CPU time of processes that
    compete is proportional to their weights up to a constant, and none of them
    starves. *)

From S2P Require Import Prelude.
From S2P Require Import Float64.
From S2P Require Import Process.
From S2P Require Import Scheduler.
From S2P Require Import Simulator.
From S2P Require Import SimInvariant.
From S2P Require Import SimSteps.
From S2P Require Import SimTick.
From S2P Require Import SimReach.
From S2P Require Import SimPolicy.
From S2P Require Import SimCpu.
From S2P Require Import SimProgress.
From S2P Require Import SimReset.
From S2P Require Import SimFair.
From S2P Require Import SimOptimal.

(** ** Runnable processes *)

Definition runnable {Sd} (s : Simulator Sd) (l : loc) : Prop :=
  State (deref (mem s) l) = StateReady \/ State (deref (mem s) l) = StateRunning.

Section runnable.
Context {Sd : Type} `{SchedulerLaws Sd} `{GoSortLaws}.
Implicit Types (s : Simulator Sd) (l c : loc).

(** A runnable process is neither new, nor waiting, nor finished. *)
Lemma runnable_iff now s l : sim_wf now s -> l ∈ processes s ->
  runnable s l <-> State (deref (mem s) l) <> StateNew /\ l ∉ ioQueue s /\ 0 < RemainingTime (deref (mem s) l).
Proof.
  intros [Hwf _] Hl. pose proof (wf_procs _ _ _ _ _ _ Hwf l Hl) as Hp. pose proof (pw_done _ _ Hp) as Hd.
  pose proof (pw_remaining _ _ Hp). pose proof (wf_io _ _ _ _ _ _ Hwf l) as Hio. unfold runnable.
  destruct (State (deref (mem s) l)) eqn:Hs; split; try (intros [? ?]; done).
  - intros [?|?]; done.
  - intros _. split; [done|]. split; [by intros [_ ?]%Hio|].
    destruct (Z.eq_dec (RemainingTime (deref (mem s) l)) 0) as [E|]; [by apply Hd in E|lia].
  - by left.
  - intros _. split; [done|]. split; [by intros [_ ?]%Hio|].
    destruct (Z.eq_dec (RemainingTime (deref (mem s) l)) 0) as [E|]; [by apply Hd in E|lia].
  - by right.
  - intros [?|?]; done.
  - intros (_ & Hn & _). by destruct Hn; apply Hio.
  - intros [?|?]; done.
  - intros (_ & _ & Hpos). pose proof (proj2 Hd eq_refl). lia.
Qed.

Lemma checkArrivals_io s : ioQueue (checkArrivals s) = ioQueue s.
Proof.
  unfold checkArrivals. generalize (processes s) as ls. intros ls. revert s.
  induction ls as [|l ls IH]; intros s; [done|]. cbn [fold_left]. rewrite IH. unfold arrive.
  by destruct (_ && _).
Qed.

Lemma tickIO_ref_io todo : forall live s l, l ∈ (tickIO_ref todo live s).1 -> l ∈ live \/ l ∈ todo.
Proof.
  induction todo as [|p todo IH]; intros live s l; cbn [tickIO_ref]; [by left|].
  destruct (_ <=? 0); intros Hl%IH; rewrite elem_of_cons; [tauto|].
  rewrite elem_of_app, list_elem_of_singleton in Hl. tauto.
Qed.

Lemma decision_io s s1 l : dispatch (decision_state s) = Some s1 -> l ∈ ioQueue s1 -> l ∈ ioQueue s.
Proof.
  intros Hd. rewrite (dispatch_io _ _ Hd), <-(checkArrivals_io s). unfold decision_state.
  rewrite tickIOQueue_eq. pose proof (tickIO_ref_io (ioQueue (checkArrivals s)) [] (checkArrivals s) l) as Hio.
  destruct (tickIO_ref _ _ _) as [live s2]. cbn. intros Hl. by destruct (Hio Hl) as [?%elem_of_nil|].
Qed.

(** Runnable processes take part in the decision. *)
Lemma runnable_decided s s1 l : reachable s -> keeps (currentTime s) s s1 ->
  dispatch (decision_state s) = Some s1 -> l ∈ processes s -> runnable s l ->
  currentProcess s1 = Some l \/ l ∈ readyQueue s1.
Proof.
  intros Hr [Hwf1 F1] Hd Hl. destruct (reachable_wf _ Hr) as [Hwf _].
  rewrite (runnable_iff _ s l Hwf Hl). intros (Hn & Hio & Hrem).
  assert (Hl1 : l ∈ processes s1) by (by rewrite (fr_procs _ _ F1)).
  assert (Hr1 : runnable s1 l).
  { apply (runnable_iff _ s1 l Hwf1 Hl1). split; [by intros ?%(fr_new _ _ F1)|].
    split; [by intros ?%(decision_io s)|by rewrite (fr_remaining _ _ F1)]. }
  destruct Hr1 as [Hs|Hs]; [right; by apply (wf_ready _ _ _ _ _ _ (proj1 Hwf1))|].
  left. by apply (wf_cur _ _ _ _ _ _ (proj1 Hwf1)).
Qed.

(** Only the process that runs can start to wait. *)
Lemma checkIO_loop_io c cpu fuel l : forall s s', checkIO_loop fuel c cpu s = Some s' ->
  l ∈ ioQueue s' -> l ∈ ioQueue s \/ l = c.
Proof.
  induction fuel as [|fuel IH]; intros s s'; cbn [checkIO_loop]; [intros [= <-]; by left|].
  destruct (_ <? Z.of_nat _); [|intros [= <-]; by left]. destruct (_ <? 0); [done|].
  destruct (IOBursts _ !! _) as [b|]; [|done]. cbn [mbind option_bind].
  destruct (Completed b); [intros E Hl; exact (IH _ _ E Hl)|]. destruct (_ && _); intros [= <-]; [|by left].
  intros [?|?%list_elem_of_singleton]%elem_of_app; [by left|by right].
Qed.

Lemma executeProcess_io d s s' : executeProcess d s = Some s' ->
  ioQueue s' = ioQueue s /\ (currentProcess s' = currentProcess s \/ currentProcess s' = None).
Proof.
  unfold executeProcess. destruct (currentProcess s) as [c|] eqn:Hc; [|intros [= <-]; auto].
  destruct (Execute _ _ _) as [p|]; [|done]. cbn [mbind option_bind].
  destruct (IsComplete p); intros [= <-]; auto.
Qed.

Lemma checkQuantum_io s s' : checkQuantum s = Some s' -> ioQueue s' = ioQueue s.
Proof.
  unfold checkQuantum. destruct (currentProcess s) as [c|]; [|by intros [= <-]].
  destruct (QuantumFor _ _) as [q|]; [|done]. cbn [mbind option_bind].
  destruct (_ && _); intros [= <-]; [|done]. unfold expireQuantum. by rewrite scheduleNextProcess_io.
Qed.

Lemma runCurrent_io s s' c l : currentProcess s = Some c -> runCurrent s = Some s' ->
  l ∈ ioQueue s' -> l ∈ ioQueue s \/ l = c.
Proof.
  intros Hc. unfold runCurrent. rewrite Hc.
  destruct (executeProcess 1 s) as [s1|] eqn:E1; [|done]. cbn [mbind option_bind].
  apply executeProcess_io in E1 as [<- Hc1]. rewrite Hc in Hc1.
  destruct (checkIOBurst _) as [s3|] eqn:E3; [|done]. cbn [mbind option_bind]. intros E4.
  rewrite (checkQuantum_io _ _ E4). unfold checkIOBurst in E3.
  change (currentProcess (set_timeQuantumUsed _ s1)) with (currentProcess s1) in E3.
  destruct Hc1 as [Hc1|Hc1]; rewrite Hc1 in E3; [|injection E3 as <-; by left].
  destruct (IsComplete _); [injection E3 as <-; by left|]. by apply (checkIO_loop_io c _ _ l _ _ E3).
Qed.

Lemma advanceClock_io s : ioQueue (advanceClock s) = ioQueue s.
Proof.
  unfold advanceClock. generalize (readyQueue (set_currentTime (currentTime s +ᵢ 1) s)) as ls. intros ls.
  enough (Hf : forall s1, ioQueue (fold_left countWaiting ls s1) = ioQueue s1) by (by rewrite Hf).
  induction ls as [|x ls IH]; intros s1; [done|]. cbn [fold_left]. rewrite IH. unfold countWaiting.
  by destruct (_ && _).
Qed.

(** A runnable process that does not run in a tick stays runnable. *)
Lemma runnable_tick s s' l : reachable s -> currentTime s < max_int -> executeTimeUnit s = Some s' ->
  l ∈ processes s -> runnable s l ->
  RemainingTime (deref (mem s') l) = RemainingTime (deref (mem s) l) -> runnable s' l.
Proof.
  intros Hr Ht E Hl Hrun Hsame. pose proof (reach_tick _ _ Hr Ht E) as Hr'.
  destruct (reachable_wf _ Hr) as [Hwf Ht0], (reachable_wf _ Hr') as [Hwf' _].
  destruct (executeTimeUnit_decides s Hwf ltac:(lia)) as (s1 & s2 & Hd & K & _ & E' & _ & T & Hcase).
  rewrite E in E'. injection E' as <-. fold (decision_state s) in Hd.
  pose proof (runnable_decided s s1 l Hr K Hd Hl Hrun) as Hin. destruct K as [Hwf1 F1].
  apply (runnable_iff _ s l Hwf Hl) in Hrun as (Hn & Hio & Hrem).
  destruct (currentProcess s1) as [c|] eqn:Hc.
  2:{ destruct Hin as [?|Hin]; [done|]. destruct (decision_spec s Hwf) as (s1' & E1 & _ & _ & Hidle).
      fold (decision_state s) in E1. rewrite Hd in E1. injection E1 as <-.
      rewrite (proj1 (Hidle Hc)) in Hin. by apply elem_of_nil in Hin. }
  assert (Hne : l <> c) by (intros ->; pose proof (rn_remaining _ _ _ Hcase); lia).
  unfold executeTimeUnit in E. fold (decision_state s) in E. rewrite Hd in E. cbn [mbind option_bind] in E.
  destruct (runCurrent s1) as [s4|] eqn:E4; [|done]. cbn [mbind option_bind] in E. injection E as <-.
  pose proof (fr_time _ _ F1) as Et. rewrite <-Et in Hwf1.
  destruct (runCurrent_busy s1 c Hwf1 ltac:(lia) Hc) as (s4' & E4' & Hwf4 & EX). rewrite E4 in E4'. injection E4' as <-.
  destruct (advanceClock_spec s4) as [_ F4]; [by rewrite (ex_time _ _ _ _ EX)|rewrite (ex_time _ _ _ _ EX), Et; lia|].
  apply (runnable_iff _ (advanceClock s4) l Hwf'); [by rewrite (tk_procs _ _ T)|]. split; [|split].
  - intros Hs%(fr_new _ _ F4). by apply (ex_new _ _ _ _ EX), (fr_new _ _ F1) in Hs.
  - intros Hw. assert (Hw4 : l ∈ ioQueue s4).
    { by rewrite <-(advanceClock_io s4). }
    destruct (runCurrent_io s1 s4 c l Hc E4 Hw4) as [Hw1|]; [|done]. by apply Hio, (decision_io s s1).
  - by rewrite Hsame.
Qed.
End runnable.

(** ** Virtual runtime is CPU time *)

(** What a unit of CPU time costs a process. *)
Definition unit_cost (p : Process) : Z := VRuntimeScale / Weight p.

Lemma unit_cost_range p : 0 < Weight p -> 0 <= unit_cost p <= 2 ^ 20.
Proof.
  intros Hw. unfold unit_cost. change VRuntimeScale with (2 ^ 20).
  split; [apply Z.div_pos; lia|]. apply Z.div_le_upper_bound; nia.
Qed.

Lemma unit_cost_code p : 0 < Weight p -> VRuntimeScale /ᵢ Weight p = unit_cost p.
Proof.
  intros Hw. pose proof (unit_cost_range p Hw) as Hr. unfold unit_cost in *. change VRuntimeScale with (2 ^ 20) in *.
  rewrite Z.quot_div_nonneg by lia. unwrap. done.
Qed.

Lemma unit_cost_config p q : config p = config q -> unit_cost p = unit_cost q.
Proof. intros (_ & _ & _ & _ & _ & _ & Ew & _)%config_eq_inv. unfold unit_cost. by rewrite Ew. Qed.

Section vruntime.
Context {Sd : Type} `{SchedulerLaws Sd} `{GoSortLaws}.
Implicit Types (s : Simulator Sd) (l c : loc).

(** What a tick does to the CPU time received and to the virtual runtime. *)
Lemma tick_vruntime s s' l : reachable s -> currentTime s < max_int -> executeTimeUnit s = Some s' ->
  l ∈ processes s ->
  (served (deref (mem s') l) = served (deref (mem s) l) /\ VRuntime (deref (mem s') l) = VRuntime (deref (mem s) l)) \/
  (served (deref (mem s') l) = served (deref (mem s) l) + 1 /\
   VRuntime (deref (mem s') l) = VRuntime (deref (mem s) l) +ᵢ unit_cost (deref (mem s) l)).
Proof.
  intros Hr Ht E Hl. destruct (reachable_wf _ Hr) as [_ Ht0].
  destruct (tick_field VRuntime s s' Hr Ht E) as (s1 & _ & [Hwf1 F1] & T & V1 & Hcase). unfold served.
  destruct (config_eq_inv _ _ (tk_config _ _ T l)) as (_ & _ & _ & -> & _).
  destruct (currentProcess s1) as [c|] eqn:Hc.
  2:{ destruct Hcase as [I V]. left. rewrite (id_remaining _ _ I). split; [done|apply V]. }
  destruct Hcase as (R & p & Ex & Hp & Ho).
  destruct (decide (l = c)) as [->|Hne]; [right|left; rewrite (rn_others _ _ _ R l Hne); split; [done|by apply Ho]].
  rewrite (rn_remaining _ _ _ R). split; [lia|].
  pose proof (proj1 (wf_cur _ _ _ _ _ _ (proj1 Hwf1) c) Hc) as [Hcp _].
  pose proof (wf_procs _ _ _ _ _ _ (proj1 Hwf1) c Hcp) as Hpc. pose proof (pw_config _ _ Hpc) as Hco.
  pose proof (co_weight _ Hco). pose proof (co_burst _ Hco). pose proof (pw_remaining _ _ Hpc).
  pose proof (rn_positive _ _ _ R). pose proof (fr_remaining _ _ F1 c).
  destruct (Execute_tick (currentTime s) (deref (mem s1) c))
    as (p' & Ex' & _ & _ & _ & _ & _ & _ & _ & _ & HV & _); [lia|lia|lia|].
  rewrite Ex in Ex'. injection Ex' as <-. rewrite Hp, HV, (V1 c), unit_cost_code by done.
  by rewrite (unit_cost_config _ _ (fr_config _ _ F1 c)).
Qed.

(** The virtual runtime is the CPU time received, at the cost of the process. *)
Lemma vruntime_served s : reachable s -> forall l, l ∈ processes s ->
  VRuntime (deref (mem s) l) = wrap64 (served (deref (mem s) l) * unit_cost (deref (mem s) l)).
Proof.
  induction 1 as [sched Hok|p s Hr IH Hp|v s _ IH|b s _ IH|v s _ IH|s s' Hr IH Ht E|s Hr IH]; try done.
  - intros l. rewrite AddProcess_procs, elem_of_app, list_elem_of_singleton, AddProcess_mem, deref_app.
    case_decide as Hl; [intros _|intros [?|?]; [by apply IH|done]].
    destruct (admissible_wf 0 _ Hp) as (_ & _ & Hs). rewrite Hs. destruct Hp as [_ Hp].
    rewrite <-Hp, resetProcess_eq. done.
  - destruct (reachable_tick s Hr Ht) as (s2 & E2 & _ & T). rewrite E in E2. injection E2 as <-.
    intros l. rewrite (tk_procs _ _ T), (unit_cost_config _ _ (tk_config _ _ T l)). intros Hl.
    destruct (tick_vruntime s s' l Hr Ht E Hl) as [[-> ->]|[-> ->]]; [by apply IH|].
    rewrite (IH l Hl), wrap64_add_l. f_equal. lia.
  - destruct (reachable_wf _ Hr) as [Hwf _]. rewrite (resetState_eq _ _ Hwf). cbn [processes mem].
    intros l Hl. rewrite deref_map_reset by (by apply (wf_dom _ _ _ _ _ _ (proj1 Hwf))).
    rewrite resetProcess_eq. unfold served. cbn [VRuntime BurstTime RemainingTime]. by rewrite Z.sub_diag.
Qed.

(** It does not overflow in the first [2^43] time units. *)
Lemma vruntime_exact s l : reachable s -> l ∈ processes s -> currentTime s < 2 ^ 43 ->
  VRuntime (deref (mem s) l) = served (deref (mem s) l) * unit_cost (deref (mem s) l) /\
  0 <= served (deref (mem s) l) <= currentTime s /\ 0 <= unit_cost (deref (mem s) l) <= 2 ^ 20.
Proof.
  intros Hr Hl Ht. destruct (reachable_wf _ Hr) as [[Hwf _] Ht0]. pose proof (wf_procs _ _ _ _ _ _ Hwf l Hl) as Hp.
  pose proof (unit_cost_range _ (co_weight _ (pw_config _ _ Hp))) as Hu. pose proof (pw_remaining _ _ Hp).
  assert (Hs : 0 <= served (deref (mem s) l) <= currentTime s).
  { unfold served. destruct (decide (State (deref (mem s) l) = StateNew)) as [Hn|Hn].
    - rewrite (pw_new _ _ Hp Hn). lia.
    - pose proof (pw_arrived _ _ Hp Hn). pose proof (co_arrival _ (pw_config _ _ Hp)). lia. }
  split; [|done]. rewrite (vruntime_served s Hr l Hl). apply wrap64_small. unfold in_int, min_int, max_int.
  assert (served (deref (mem s) l) * unit_cost (deref (mem s) l) <= (2 ^ 43 - 1) * 2 ^ 20)
    by (apply Z.mul_le_mono_nonneg; lia).
  nia.
Qed.
End vruntime.

(** ** The decision of CFS *)

(** The process on the CPU may lead by the granule of the preemption test. *)
Definition cfs_mark (s : CFS.CFSScheduler) (h : heap) (_ : Z) (l : loc) : Z :=
  Z.min (VRuntime (deref h l))
        (VRuntime (deref h l) -ᵢ ((CFS.minGranularity s *ᵢ VRuntimeScale) /ᵢ Weight (deref h l))).

#[export] Instance CFS_runs_best :
  RunsBest CFS.CFSScheduler (fun _ => True) cfs_mark (fun _ h _ l => VRuntime (deref h l)).
Proof.
  split.
  - intros s h q t l s' _ _ E. pose proof (CFS_selects s h q t) as Hs.
    destruct q as [|y q]; [by rewrite Hs in E|]. destruct Hs as (r & Er & Hmin).
    rewrite Er in E. injection E as -> <-. split; [|done].
    intros x Hx. pose proof (lex_head _ _ _ _ (first_min_le _ _ _ x Hmin Hx)). unfold cfs_mark. lia.
  - intros s h c q t x _ Hp Hx Hpid. cbn in Hp. destruct q as [|y q]; [by apply elem_of_nil in Hx|].
    cbn [length Nat.eqb] in Hp. unfold idiv_checked in Hp. destruct (Weight (deref h c) =? 0); [done|].
    cbn [mbind option_bind] in Hp. injection Hp as Hp. apply Z.ltb_ge in Hp. unfold cfs_mark.
    set (m := VRuntime (deref h c) -ᵢ _) in *.
    destruct (Z.le_gt_cases m (VRuntime (deref h x))) as [|Hgt]; [lia|exfalso].
    assert (CFS.minOther h c (y :: q) < m); [|lia].
    apply minOther_lt; [apply wrap64_range|]. by exists x.
  - intros s h t l st x. unfold cfs_mark.
    rewrite (upd_state VRuntime), (upd_state Weight) by done. done.
Qed.

#[export] Instance CFS_granularity : RunInvariant CFS.CFSScheduler CFS.minGranularity.
Proof. by split. Qed.

Section cfs.
Context `{GoSortLaws}.
Implicit Types (s : Simulator CFS.CFSScheduler) (l i j : loc).

(** A simulation under [NewCFSScheduler]. *)
Record cfs_run s : Prop := {
  cr_reachable : reachable s;
  cr_distinct : distinct_PIDs s;
  cr_granularity : CFS.minGranularity (scheduler s) = 1
}.

Lemma cfs_run_tick s s' : cfs_run s -> currentTime s < max_int -> executeTimeUnit s = Some s' -> cfs_run s'.
Proof.
  intros [Hr Hd Hg] Ht E. destruct (reachable_tick s Hr Ht) as (s2 & E2 & Hr' & T). rewrite E in E2. injection E2 as <-.
  split; [done|by apply (distinct_PIDs_tick s)|].
  rewrite <-Hg. exact (rw_sched CFS.minGranularity _ _ (executeTimeUnit_rewinds _ _ E)).
Qed.

Definition cost s l : Z := unit_cost (deref (mem s) l).
Definition received s l : Z := served (deref (mem s) l).

Lemma cost_tick s s' l : ticked s s' -> cost s' l = cost s l.
Proof. intros T. apply unit_cost_config, (tk_config _ _ T). Qed.

(** Who runs leads a runnable process by at most its own granule. *)
Lemma cfs_runner s s' i j : cfs_run s -> currentTime s < 2 ^ 43 -> executeTimeUnit s = Some s' ->
  i ∈ processes s -> j ∈ processes s -> i <> j -> runnable s j -> received s' i = received s i + 1 ->
  received s i * cost s i - cost s i <= received s j * cost s j.
Proof.
  intros [Hr Hd Hg] Ht E Hi Hj Hne Hrun Hran.
  destruct (tick_field VRuntime s s' Hr ltac:(unfold max_int; lia) E) as (s1 & Hd1 & K & T & V & Hcase).
  destruct (runnable_decided s s1 j Hr K Hd1 Hj Hrun) as [Hc|Hq].
  { exfalso. rewrite Hc in Hcase. destruct Hcase as [R _]. unfold received, served in Hran.
    rewrite (rn_others _ _ _ R i Hne) in Hran. destruct (ticked_config_eq s s' i T) as [_ Eb]. lia. }
  destruct (currentProcess s1) as [c|] eqn:Hc.
  2:{ destruct Hcase as [I _]. unfold received, served in Hran. rewrite (id_remaining _ _ I) in Hran.
      destruct (ticked_config_eq s s' i T) as [_ Eb]. lia. }
  destruct Hcase as [R _].
  assert (i = c) as <-.
  { destruct (decide (i = c)) as [|Hic]; [done|exfalso]. unfold received, served in Hran.
    rewrite (rn_others _ _ _ R i Hic) in Hran. destruct (ticked_config_eq s s' i T) as [_ Eb]. lia. }
  pose proof (decision_runs_best (mark := cfs_mark) (rank := fun _ h _ l => VRuntime (deref h l)) s s1 Hr Hd I Hd1 i j Hc Hq) as Hm.
  assert (Hg1 : CFS.minGranularity (scheduler s1) = 1).
  { rewrite <-Hg. etransitivity; [exact (rw_sched CFS.minGranularity _ _ (dispatch_rewinds _ _ Hd1))|].
    exact (decision_rewinds (f := CFS.minGranularity) s). }
  unfold cfs_mark in Hm. rewrite Hg1, (V i), (V j) in Hm. change (1 *ᵢ VRuntimeScale) with VRuntimeScale in Hm.
  destruct (vruntime_exact s i Hr Hi Ht) as (Ei & Hsi & Hui), (vruntime_exact s j Hr Hj Ht) as (Ej & _ & _).
  destruct K as [Hwf1 F1]. destruct (reachable_wf _ Hr) as [Hwf _].
  rewrite unit_cost_code in Hm by (apply co_weight, (pw_config (currentTime s)), (wf_procs _ _ _ _ _ _ (proj1 Hwf1));
    by rewrite (fr_procs _ _ F1)).
  rewrite (unit_cost_config _ _ (fr_config _ _ F1 i)), Ei, Ej in Hm. unfold received, cost.
  set (u := unit_cost (deref (mem s) i)) in *. set (v := served (deref (mem s) i)) in *.
  assert (0 <= v * u <= (2 ^ 43 - 1) * 2 ^ 20) by (split; [nia|apply Z.mul_le_mono_nonneg; lia]).
  rewrite wrap64_small in Hm by (unfold in_int, min_int, max_int; lia). lia.
Qed.

(** What a tick gives. *)
Lemma received_tick s s' l : reachable s -> currentTime s < max_int -> executeTimeUnit s = Some s' ->
  l ∈ processes s -> received s' l = received s l \/ received s' l = received s l + 1.
Proof.
  unfold received. intros Hr Ht E Hl. destruct (tick_vruntime s s' l Hr Ht E Hl) as [[-> _]|[-> _]]; auto.
Qed.

(** The lead of [i] over [j], in virtual time. *)
Definition lead s i j : Z := received s i * cost s i - received s j * cost s j.

Lemma lead_tick s s' i j : cfs_run s -> currentTime s < 2 ^ 43 -> executeTimeUnit s = Some s' ->
  i ∈ processes s -> j ∈ processes s -> i <> j -> runnable s j ->
  lead s' i j <= Z.max (lead s i j) (2 * cost s i).
Proof.
  intros C Ht E Hi Hj Hne Hrun. assert (Ht' : currentTime s < max_int) by (unfold max_int; lia).
  pose proof (cr_reachable _ C) as Hr. destruct (reachable_tick s Hr Ht') as (s2 & E2 & _ & T).
  rewrite E in E2. injection E2 as <-. unfold lead. rewrite !(cost_tick s s') by done.
  destruct (vruntime_exact s j Hr Hj Ht) as (_ & _ & Hu). fold (cost s j) in Hu.
  destruct (received_tick s s' i Hr Ht' E Hi) as [Ei|Ei], (received_tick s s' j Hr Ht' E Hj) as [Ej|Ej];
    rewrite Ei, Ej; try nia; pose proof (cfs_runner s s' i j C Ht E Hi Hj Hne Hrun Ei); nia.
Qed.

Lemma lead_ticks n : forall s s' i j, cfs_run s -> currentTime s + Z.of_nat n <= 2 ^ 43 -> ticks n s = Some s' ->
  i ∈ processes s -> j ∈ processes s -> i <> j ->
  (forall k u, (k < n)%nat -> ticks k s = Some u -> runnable u j) ->
  lead s' i j <= Z.max (lead s i j) (2 * cost s i).
Proof.
  induction n as [|n IH]; intros s s' i j C Ht E Hi Hj Hne Hrun; [injection E as <-; lia|].
  cbn [ticks] in E. destruct (executeTimeUnit s) as [s1|] eqn:E1; [|done]. cbn [mbind option_bind] in E.
  assert (Ht' : currentTime s < max_int) by (unfold max_int; lia).
  destruct (reachable_tick s (cr_reachable _ C) Ht') as (s2 & E2 & _ & T). rewrite E1 in E2. injection E2 as <-.
  pose proof (lead_tick s s1 i j C ltac:(lia) E1 Hi Hj Hne (Hrun 0%nat s ltac:(lia) eq_refl)) as Hl.
  specialize (IH s1 s' i j (cfs_run_tick s s1 C Ht' E1)). rewrite (tk_time _ _ T), (tk_procs _ _ T), (cost_tick s s1) in IH by done.
  specialize (IH ltac:(lia) E Hi Hj Hne). etransitivity; [apply IH|lia].
  intros k u Hk Eu. apply (Hrun (S k) u); [lia|]. cbn [ticks]. by rewrite E1.
Qed.

(** ** Nobody starves *)

(** What the others can receive before [j] must run. *)
Definition allowance s j i : Z :=
  Z.max 0 (received s j * cost s j / cost s i + 2 - received s i).

Definition patience s j : Z :=
  zsum (fun i => if decide (i = j) then 0 else allowance s j i) (processes s).

Lemma patience_nonneg s j : 0 <= patience s j.
Proof. apply zsum_nonneg. intros i _. unfold allowance. case_decide; lia. Qed.

(** A tick runs [j], or somebody whose allowance shrinks. *)
Lemma patience_tick s s' j : cfs_run s -> currentTime s < 2 ^ 43 -> executeTimeUnit s = Some s' ->
  j ∈ processes s -> runnable s j -> (forall i, i ∈ processes s -> 1 <= cost s i) ->
  RemainingTime (deref (mem s') j) = RemainingTime (deref (mem s) j) - 1 \/
  (runnable s' j /\ patience s' j = patience s j - 1 /\ 1 <= patience s j).
Proof.
  intros C Ht E Hj Hrun Hcost. pose proof (cr_reachable _ C) as Hr. assert (Ht' : currentTime s < max_int) by (unfold max_int; lia).
  destruct (tick_field VRuntime s s' Hr Ht' E) as (s1 & Hd & K & T & _ & Hcase).
  destruct (reachable_wf _ Hr) as [Hwf _].
  destruct (currentProcess s1) as [c|] eqn:Hc.
  2:{ exfalso. destruct (runnable_decided s s1 j Hr K Hd Hj Hrun) as [?|Hq]; [congruence|].
      destruct (decision_spec s Hwf) as (s2 & E2 & _ & _ & Hidle). fold (decision_state s) in E2.
      rewrite Hd in E2. injection E2 as <-. rewrite (proj1 (Hidle Hc)) in Hq. by apply elem_of_nil in Hq. }
  destruct Hcase as [R _]. pose proof (rn_elem _ _ _ R) as Hcp.
  destruct (decide (c = j)) as [->|Hne]; [left; apply (rn_remaining _ _ _ R)|right].
  assert (Hsame : forall l, l <> c -> received s' l = received s l).
  { intros l Hl. unfold received, served. destruct (ticked_config_eq s s' l T) as [_ ->].
    by rewrite (rn_others _ _ _ R l Hl). }
  assert (Hran : received s' c = received s c + 1).
  { unfold received, served. destruct (ticked_config_eq s s' c T) as [_ ->].
    rewrite (rn_remaining _ _ _ R). lia. }
  split; [by eapply runnable_tick; [..|apply (rn_others _ _ _ R); congruence]|].
  pose proof (cfs_runner s s' c j C Ht E Hcp Hj Hne Hrun Hran) as Hle. specialize (Hcost c Hcp).
  assert (Hdiv : received s c <= received s j * cost s j / cost s c + 1).
  { assert (received s c - 1 <= received s j * cost s j / cost s c) by (apply Z.div_le_lower_bound; nia). lia. }
  assert (Hac : allowance s' j c = allowance s j c - 1 /\ 1 <= allowance s j c).
  { unfold allowance. rewrite Hran, !(cost_tick s s'), (Hsame j) by congruence || done. lia. }
  assert (Hao : forall i, i <> c -> allowance s' j i = allowance s j i).
  { intros i Hi. unfold allowance. by rewrite !(cost_tick s s'), (Hsame j), (Hsame i) by congruence || done. }
  unfold patience. rewrite (tk_procs _ _ T).
  rewrite (zsum_change (fun i => if decide (i = j) then 0 else allowance s' j i)
    (fun i => if decide (i = j) then 0 else allowance s j i) _ c (wf_nodup _ _ _ _ _ _ (proj1 Hwf)) Hcp)
    by (intros i _ Hi; case_decide; [done|by apply Hao]).
  rewrite !decide_False by done. split; [lia|].
  etransitivity; [|apply (zsum_elem _ _ c); [intros i _; case_decide; unfold allowance; lia|done]].
  cbn beta. rewrite decide_False by done. lia.
Qed.

Lemma cfs_turn m : forall s j, cfs_run s -> currentTime s + Z.of_nat m < 2 ^ 43 -> patience s j <= Z.of_nat m ->
  j ∈ processes s -> runnable s j -> (forall i, i ∈ processes s -> 1 <= cost s i) ->
  exists n s1 s2, Z.of_nat n <= Z.of_nat m /\ ticks n s = Some s1 /\ executeTimeUnit s1 = Some s2 /\
    RemainingTime (deref (mem s2) j) = RemainingTime (deref (mem s1) j) - 1.
Proof.
  induction m as [|m IH]; intros s j C Ht Hm Hj Hrun Hcost;
    assert (Ht' : currentTime s < max_int) by (unfold max_int; lia);
    destruct (reachable_tick s (cr_reachable _ C) Ht') as (s' & E & _ & T);
    (destruct (patience_tick s s' j C ltac:(lia) E Hj Hrun Hcost) as [Hran|(Hrun' & Hp & Hp1)];
      [exists 0%nat, s, s'; split; [lia|done]|]); [lia|].
  destruct (IH s' j (cfs_run_tick s s' C Ht' E)) as (n & s1 & s2 & Hn & E1 & E2 & Hran).
  - rewrite (tk_time _ _ T). lia.
  - lia.
  - by rewrite (tk_procs _ _ T).
  - done.
  - intros i. rewrite (tk_procs _ _ T), (cost_tick s s') by done. apply Hcost.
  - exists (S n), s1, s2. split; [lia|]. split; [|done]. cbn [ticks]. by rewrite E.
Qed.
End cfs.

(** ** Properties *)

(** C10: CFS shares the CPU by weight. In units of virtual time (CPU time received
    times [VRuntimeScale / Weight]) the lead of a process over one that is runnable
    for the whole of [n] ticks stays within what it was or two of its own units,
    whatever arrives, waits or completes meanwhile; so of two processes that compete
    throughout neither gets ahead by more than two units, and their CPU times stay
    in proportion. The unit depends on the weight alone, not on the number of ready
    processes, and I/O resets nothing. *)
Theorem cfs_shares_by_weight `{GoSortLaws} (s s' : Simulator CFS.CFSScheduler) n i j :
  cfs_run s -> ticks n s = Some s' -> currentTime s + Z.of_nat n <= 2 ^ 43 ->
  i ∈ processes s -> j ∈ processes s -> i <> j ->
  (forall k u, (k < n)%nat -> ticks k s = Some u -> runnable u j) ->
  lead s' i j <= Z.max (lead s i j) (2 * cost s i) /\
  ((forall k u, (k < n)%nat -> ticks k s = Some u -> runnable u i) ->
   Z.abs (lead s' i j) <= Z.max (Z.abs (lead s i j)) (2 * Z.max (cost s i) (cost s j))).
Proof.
  intros C E Ht Hi Hj Hne Hrj. pose proof (lead_ticks n s s' i j C Ht E Hi Hj Hne Hrj) as Hij.
  split; [done|]. intros Hri. pose proof (lead_ticks n s s' j i C Ht E Hj Hi ltac:(congruence) Hri) as Hji.
  assert (forall u, lead u j i = - lead u i j) as Hneg by (intros u; unfold lead; lia).
  rewrite !Hneg in Hji. lia.
Qed.

(** C11: CFS starves nobody: with weights up to the scale (every nice value has one)
    a runnable process gets the CPU within a number of ticks that only depends on
    what it has already received and on the weights, whatever arrives meanwhile. *)
Theorem cfs_starves_nobody `{GoSortLaws} (s : Simulator CFS.CFSScheduler) j :
  cfs_run s -> j ∈ processes s -> runnable s j ->
  (forall i, i ∈ processes s -> Weight (deref (mem s) i) <= VRuntimeScale) ->
  let wait := zsum (fun i => if decide (i = j) then 0 else received s j * cost s j / cost s i + 2) (processes s) in
  currentTime s + wait < 2 ^ 43 ->
  exists n s1 s2, Z.of_nat n <= wait /\ ticks n s = Some s1 /\ executeTimeUnit s1 = Some s2 /\
    RemainingTime (deref (mem s2) j) = RemainingTime (deref (mem s1) j) - 1.
Proof.
  intros C Hj Hrun Hw wait Ht. pose proof (cr_reachable _ C) as Hr. destruct (reachable_wf _ Hr) as [[Hwf _] Ht0].
  assert (Hcost : forall i, i ∈ processes s -> 1 <= cost s i).
  { intros i Hi. pose proof (co_weight _ (pw_config _ _ (wf_procs _ _ _ _ _ _ Hwf i Hi))).
    unfold cost, unit_cost. apply Z.div_le_lower_bound; [done|]. specialize (Hw i Hi). lia. }
  assert (Hrec : forall i, i ∈ processes s -> 0 <= received s i).
  { intros i Hi. pose proof (pw_remaining _ _ (wf_procs _ _ _ _ _ _ Hwf i Hi)). unfold received, served. lia. }
  assert (Hq : forall i, i ∈ processes s -> 0 <= received s j * cost s j / cost s i).
  { intros i Hi. apply Z.div_pos; [|specialize (Hcost i Hi); lia]. apply Z.mul_nonneg_nonneg; [by apply Hrec|].
    specialize (Hcost j Hj). lia. }
  assert (Hp : patience s j <= wait).
  { apply zsum_le. intros i Hi. case_decide; [lia|]. unfold allowance. pose proof (Hrec i Hi). specialize (Hq i Hi). lia. }
  assert (Hw0 : 0 <= wait) by (pose proof (patience_nonneg s j); lia).
  destruct (cfs_turn (Z.to_nat wait) s j C) as (n & s1 & s2 & Hn & E1 & E2 & Hran); [lia|lia|done..|].
  exists n, s1, s2. split; [lia|done].
Qed.

(** Two processes, one nice -5 (weight 3125, 335 per unit) and one nice 0 (1024 per
    unit), and the state after eight ticks: six units and two. *)
Definition nicer (nice : Z) (p : Process) : Process := default inhabitant (SetNice nice p).

Lemma nicer_admissible nice p : admissible p -> admissible (nicer nice p).
Proof.
  intros Hp. unfold nicer. destruct (SetNice nice p) as [q|] eqn:E; [by eapply SetNice_admissible|].
  unfold SetNice in E. by destruct (niceToWeight_range _ (clampNice_range nice)) as (w & Ew & _); rewrite Ew in E.
Qed.

Definition pair : Simulator CFS.CFSScheduler :=
  setup [nicer (-5) (Example.process 1 0 9); nicer 0 (Example.process 2 0 9)] CFS.NewCFSScheduler.

Lemma pair_run : cfs_run pair.
Proof.
  assert (Hadm : Forall admissible [nicer (-5) (Example.process 1 0 9); nicer 0 (Example.process 2 0 9)]).
  { apply Forall_cons_2; [|apply Forall_cons_2; [|apply Forall_nil_2]]; apply nicer_admissible, Example.process_admissible;
      unfold in_int, min_int, max_int; lia. }
  split.
  - apply setup_spec; [exact I|done].
  - apply setup_distinct; [exact I|done|]. apply (bool_decide_unpack _). vm_compute. exact I.
  - vm_compute. reflexivity.
Qed.

Definition pair_ticked (n : nat) : Simulator CFS.CFSScheduler := default pair (ticks n pair).

Lemma pair_ticked_run : cfs_run (pair_ticked 1).
Proof. apply (cfs_run_tick pair); [exact pair_run|vm_compute; reflexivity|vm_compute; reflexivity]. Qed.

Lemma cfs_shares_by_weight_witness :
  let s := pair_ticked 1 in let s' := pair_ticked 8 in
  received s' 0 = 6 /\ received s' 1 = 2 /\
  Z.abs (lead s' 0 1) <= Z.max (Z.abs (lead s 0 1)) (2 * Z.max (cost s 0) (cost s 1)).
Proof.
  intros s s'. split; [vm_compute; reflexivity|]. split; [vm_compute; reflexivity|].
  assert (Hrun : forall l, (l < 2)%nat -> forall k u, (k < 7)%nat -> ticks k s = Some u -> runnable u l).
  { intros l Hl k u Hk Eu. unfold runnable.
    destruct l as [|[|l]]; [| |lia]; (destruct k as [|[|[|[|[|[|[|k]]]]]]]; [..|lia]);
      vm_compute in Eu; injection Eu as <-; vm_compute; auto. }
  destruct (cfs_shares_by_weight s s' 7 0%nat 1%nat) as [_ Hboth].
  - exact pair_ticked_run.
  - vm_compute. reflexivity.
  - vm_compute. discriminate.
  - apply (bool_decide_unpack _). vm_compute. exact I.
  - apply (bool_decide_unpack _). vm_compute. exact I.
  - discriminate.
  - apply Hrun. lia.
  - apply Hboth, Hrun. lia.
Defined.

Lemma cfs_starves_nobody_witness :
  let s := pair_ticked 1 in
  exists n s1 s2, Z.of_nat n <= 2 /\ ticks n s = Some s1 /\ executeTimeUnit s1 = Some s2 /\
    RemainingTime (deref (mem s2) 1) = RemainingTime (deref (mem s1) 1) - 1.
Proof.
  intros s. apply (cfs_starves_nobody s 1%nat).
  - exact pair_ticked_run.
  - apply (bool_decide_unpack _). vm_compute. exact I.
  - vm_compute. auto.
  - intros i Hi. assert (Hb : Forall (fun i => Weight (deref (mem s) i) <= VRuntimeScale) (processes s))
      by (apply (bool_decide_unpack _); vm_compute; exact I).
    rewrite Forall_forall in Hb. by apply Hb.
  - vm_compute. reflexivity.
Defined.
