(* ===== verification/SimAging.v ===== *)
(** * Aging starves nobody

    Under the Priority policy a process that waits gains a priority level per aging
    interval. Once it is at the top, only processes that arrived no later are chosen
    before it, and one that is running already. This bounds its wait, whatever arrives
    after it, in the preemptive and in the non-preemptive mode. *)

From S2P Require Import Prelude.
From S2P Require Import Float64.
From S2P Require Import Process.
From S2P Require Import Scheduler.
From S2P Require Import Simulator.
From S2P Require Import SimInvariant.
From S2P Require Import SimSteps.
From S2P Require Import SimTick.
From S2P Require Import SimReach.
From S2P Require Import SimPolicy.
From S2P Require Import SimCpu.
From S2P Require Import SimProgress.
From S2P Require Import SimReset.
From S2P Require Import SimFair.
From S2P Require Import SimOptimal.
From S2P Require Import SimArrivals.
From S2P Require Import SimCfs.
Import PriorityPolicy.

#[export] Instance LastExecuted_cpu : CpuField LastExecuted.
Proof. done. Qed.

#[export] Instance Priority_interval : RunInvariant PriorityScheduler agingInterval.
Proof. by split. Qed.

Section last_executed.
Context {Sd : Type} `{SchedulerLaws Sd} `{GoSortLaws}.
Implicit Types (s : Simulator Sd) (l : loc).

(** The time of last execution moves with the CPU. *)
Lemma tick_last_executed s s' l : reachable s -> currentTime s < max_int -> executeTimeUnit s = Some s' ->
  RemainingTime (deref (mem s') l) = RemainingTime (deref (mem s) l) /\
    LastExecuted (deref (mem s') l) = LastExecuted (deref (mem s) l) \/
  RemainingTime (deref (mem s') l) = RemainingTime (deref (mem s) l) - 1 /\
    LastExecuted (deref (mem s') l) = currentTime s + 1.
Proof.
  intros Hr Ht E. destruct (reachable_wf _ Hr) as [_ Ht0].
  destruct (tick_field LastExecuted s s' Hr Ht E) as (s1 & _ & [Hwf1 F1] & T & V1 & Hcase).
  destruct (currentProcess s1) as [c|] eqn:Hc.
  2:{ destruct Hcase as [I V]. left. rewrite (id_remaining _ _ I). split; [done|apply V]. }
  destruct Hcase as (R & p & Ex & Hp & Ho).
  destruct (decide (l = c)) as [->|Hne]; [right|left; rewrite (rn_others _ _ _ R l Hne); split; [done|by apply Ho]].
  split; [apply (rn_remaining _ _ _ R)|]. pose proof (proj1 (wf_cur _ _ _ _ _ _ (proj1 Hwf1) c) Hc) as [Hcp _].
  pose proof (wf_procs _ _ _ _ _ _ (proj1 Hwf1) c Hcp) as Hpc. pose proof (pw_config _ _ Hpc) as Hco.
  pose proof (co_weight _ Hco). pose proof (co_burst _ Hco). pose proof (pw_remaining _ _ Hpc).
  pose proof (rn_positive _ _ _ R). pose proof (fr_remaining _ _ F1 c).
  destruct (Execute_tick (currentTime s) (deref (mem s1) c)) as (p' & Ex' & _ & _ & _ & _ & _ & _ & El & _); [lia|lia|lia|].
  rewrite Ex in Ex'. injection Ex' as <-. by rewrite Hp.
Qed.

Lemma last_executed_bound s : reachable s -> forall l, l ∈ processes s -> LastExecuted (deref (mem s) l) <= currentTime s.
Proof.
  induction 1 as [sched Hok|p s Hr IH Hp|v s _ IH|b s _ IH|v s _ IH|s s' Hr IH Ht E|s Hr IH]; try done.
  - intros l. rewrite AddProcess_procs, elem_of_app, list_elem_of_singleton, AddProcess_mem, deref_app.
    case_decide as Hl; [intros _|intros [?|?]; [by apply IH|done]].
    destruct Hp as [_ Hp]. rewrite <-Hp, resetProcess_eq. cbn. destruct (reachable_wf _ Hr). lia.
  - destruct (reachable_tick s Hr Ht) as (s2 & E2 & _ & T). rewrite E in E2. injection E2 as <-.
    intros l. rewrite (tk_procs _ _ T), (tk_time _ _ T). intros Hl. specialize (IH l Hl).
    destruct (tick_last_executed s s' l Hr Ht E) as [[_ ->]|[_ ->]]; lia.
  - destruct (reachable_wf _ Hr) as [Hwf _]. rewrite (resetState_eq _ _ Hwf). cbn [processes mem currentTime].
    intros l Hl. rewrite deref_map_reset by (by apply (wf_dom _ _ _ _ _ _ (proj1 Hwf))). by rewrite resetProcess_eq.
Qed.
End last_executed.

Section aging.
Context `{GoSortLaws}.
Implicit Types (s : Simulator PriorityScheduler) (l c p : loc).

Lemma effectivePriority_nonneg v q t : 0 < agingInterval v -> 0 <= effectivePriority v q t.
Proof.
  intros Ha. unfold effectivePriority. destruct (Z.leb_spec (agingInterval v) 0); [lia|].
  match goal with |- context [if ?e <? 0 then _ else _] => destruct (Z.ltb_spec e 0) end; lia.
Qed.

(** Time until [p] is at the top, if it does not run. *)
Definition aged_at s p : Z :=
  Z.max (ArrivalTime (deref (mem s) p)) (LastExecuted (deref (mem s) p)) +
  Priority (deref (mem s) p) * agingInterval (scheduler s).

(** CPU time of the processes that go before [p] then. *)
Definition before s p : Z :=
  zsum (fun l => if decide (l = p) then 0
                 else if ArrivalTime (deref (mem s) l) <=? ArrivalTime (deref (mem s) p)
                 then RemainingTime (deref (mem s) l) else 0) (processes s).

(** CPU time of the current process, if it arrived after [p]. *)
Definition late s p : Z :=
  match currentProcess s with
  | Some c => if ArrivalTime (deref (mem s) c) <=? ArrivalTime (deref (mem s) p) then 0
              else RemainingTime (deref (mem s) c)
  | None => 0
  end.

(** How long [p] may have to wait, [B] bounding the bursts. *)
Definition aging_patience B s p : Z :=
  if currentTime s <? aged_at s p then aged_at s p - currentTime s + before s p + B
  else before s p + late s p.

(** The decision keeps the current process or makes the best choice of a queue with
    [p] in it. *)
Lemma aging_dispatch now s s1 c p : sim_wf now s -> dispatch s = Some s1 ->
  currentProcess s1 = Some c -> p ∈ readyQueue s1 ->
  currentProcess s = Some c \/
  lex_ltb (key (scheduler s) (mem s) (currentTime s) p) (key (scheduler s) (mem s) (currentTime s) c) = false.
Proof.
  assert (Hchoice : forall u, sim_wf now u -> currentProcess u = None ->
    currentProcess (scheduleNextProcess u) = Some c -> p ∈ readyQueue (scheduleNextProcess u) ->
    lex_ltb (key (scheduler u) (mem u) (currentTime u) p) (key (scheduler u) (mem u) (currentTime u) c) = false).
  { intros u Hwf Hn Hc Hp. destruct (scheduleNextProcess_keeps now u Hwf Hn) as [_ D].
    destruct (decide (readyQueue u = [])) as [E|E]; [by destruct (di_empty _ _ D E); congruence|].
    destruct (di_choice _ _ D E) as (x & Hx & Es & Ec & Er). rewrite Hc in Ec. injection Ec as <-.
    pose proof (Priority_selects (scheduler u) (mem u) (readyQueue u) (currentTime u)) as Hs.
    destruct (readyQueue u) as [|y q]; [done|]. destruct Hs as (r & Er' & Hmin). rewrite Er' in Es. injection Es as ->.
    apply (first_min_le _ _ _ p Hmin). rewrite Er in Hp. rewrite (remove_first_perm c _ Hx). by right. }
  intros Hwf Hd Hc Hp. unfold dispatch in Hd. destruct (currentProcess s) as [c0|] eqn:Hc0.
  - rewrite (running_not_complete _ _ _ Hwf Hc0) in Hd.
    destruct (shouldPreempt s) as [[]|]; simpl in Hd; [| |done]; injection Hd as <-; [|left; congruence].
    destruct (preemptCurrentProcess_keeps _ _ _ Hwf Hc0) as ([Hwf1 F1] & Hn & _).
    right. specialize (Hchoice _ Hwf1 Hn Hc Hp). revert Hchoice. unfold preemptCurrentProcess. rewrite Hc0.
    unfold key. cbn [scheduler mem currentTime set_currentProcess set_readyQueue upd set_mem set_contextSwitches addEvent set_events].
    rewrite !(upd_state (fun q => effectivePriority (scheduler s) q (currentTime s))), !(upd_state ArrivalTime) by done. done.
  - injection Hd as <-. right. by apply Hchoice.
Qed.

(** At the top only those that arrived no later go before [p]. *)
Lemma choice_before s c p : 1 <= agingInterval (scheduler s) -> 0 <= currentTime s <= max_int ->
  0 <= ArrivalTime (deref (mem s) p) <= max_int -> LastExecuted (deref (mem s) p) <= max_int ->
  0 <= Priority (deref (mem s) p) <= max_int -> aged_at s p <= currentTime s ->
  lex_ltb (key (scheduler s) (mem s) (currentTime s) p) (key (scheduler s) (mem s) (currentTime s) c) = false ->
  ArrivalTime (deref (mem s) c) <= ArrivalTime (deref (mem s) p).
Proof.
  intros Ha Ht Harr Hle Hprio Haged.
  destruct (priority_aging (scheduler s) (deref (mem s) p) (currentTime s)) as (_ & _ & Hzero); [lia..|].
  unfold key. cbn [lex_ltb]. rewrite (Hzero Haged).
  pose proof (effectivePriority_nonneg (scheduler s) (deref (mem s) c) (currentTime s) ltac:(lia)).
  intros [Hk1 Hk2]%orb_false_iff. apply Z.ltb_ge in Hk1.
  assert (E : effectivePriority (scheduler s) (deref (mem s) c) (currentTime s) = 0) by lia.
  rewrite E in Hk2. cbn in Hk2. rewrite andb_false_r, orb_false_r in Hk2. by apply Z.ltb_ge in Hk2.
Qed.

(** Who runs before a process at the top was there already, or arrived no later. *)
Lemma aged_dispatch s s1 c p : reachable s -> 1 <= agingInterval (scheduler s) -> p ∈ processes s ->
  0 <= Priority (deref (mem s) p) <= max_int -> aged_at s p <= currentTime s ->
  dispatch (decision_state s) = Some s1 -> currentProcess s1 = Some c -> p ∈ readyQueue s1 ->
  currentProcess s = Some c \/ ArrivalTime (deref (mem s) c) <= ArrivalTime (deref (mem s) p).
Proof.
  intros Hr Ha Hp Hprio Haged Hd Hc Hq. destruct (reachable_wf _ Hr) as [Hwf Ht].
  destruct (decision_keeps s Hwf) as [Hwf2 F]. pose proof (decision_enqueues s) as [_ Ec _].
  destruct (aging_dispatch _ _ _ _ _ Hwf2 Hd Hc Hq) as [Hk|Hk]; [left; congruence|right].
  pose proof (decision_rewinds (f := agingInterval) s) as Ea. pose proof (fr_time _ _ F) as Et.
  destruct (config_eq_inv _ _ (fr_config _ _ F p)) as (_ & _ & Earr & _ & Epr & _).
  destruct (config_eq_inv _ _ (fr_config _ _ F c)) as (_ & _ & Earrc & _).
  pose proof (decision_state_field LastExecuted s p) as El.
  pose proof (co_arrival _ (pw_config _ _ (wf_procs _ _ _ _ _ _ (proj1 Hwf) p Hp))).
  pose proof (last_executed_bound s Hr p Hp). unfold aged_at in Haged.
  pose proof (choice_before (decision_state s) c p) as Hb. unfold aged_at in Hb.
  rewrite Ea, Et, Earr, Earrc, Epr, El in Hb. rewrite Et in Hk. apply Hb; done || lia.
Qed.

(** The work before [p], when [c] has run for a unit. *)
Lemma before_ran s s' c p : ticked s s' -> ran c s s' -> p <> c ->
  before s' p <= before s p /\
  (ArrivalTime (deref (mem s) c) <= ArrivalTime (deref (mem s) p) -> before s' p + 1 <= before s p).
Proof.
  intros T R Hne. unfold before. rewrite (tk_procs _ _ T).
  assert (Hle : forall l, l ∈ processes s ->
    (if decide (l = p) then 0 else if ArrivalTime (deref (mem s') l) <=? ArrivalTime (deref (mem s') p)
      then RemainingTime (deref (mem s') l) else 0) <=
    (if decide (l = p) then 0 else if ArrivalTime (deref (mem s) l) <=? ArrivalTime (deref (mem s) p)
      then RemainingTime (deref (mem s) l) else 0)).
  { intros l _. rewrite (proj1 (ticked_config_eq s s' l T)), (proj1 (ticked_config_eq s s' p T)).
    destruct (decide (l = p)); [lia|]. destruct (_ <=? _); [|lia].
    destruct (decide (l = c)) as [->|Hl]; [rewrite (rn_remaining _ _ _ R)|rewrite (rn_others _ _ _ R l Hl)]; lia. }
  split; [by apply zsum_le|]. intros Hc. apply (zsum_le_strict _ _ _ c); [exact Hle|apply (rn_elem _ _ _ R)|].
  rewrite !decide_False by done. rewrite (proj1 (ticked_config_eq s s' c T)), (proj1 (ticked_config_eq s s' p T)).
  rewrite (proj2 (Z.leb_le _ _) Hc), (rn_remaining _ _ _ R). lia.
Qed.

(** The same for the current process. *)
Lemma late_ran s s' c p : ticked s s' -> ran c s s' -> currentProcess s' = Some c \/ currentProcess s' = None ->
  late s' p <= if ArrivalTime (deref (mem s) c) <=? ArrivalTime (deref (mem s) p) then 0
               else RemainingTime (deref (mem s) c) - 1.
Proof.
  intros T R Hc. pose proof (rn_positive _ _ _ R). unfold late.
  destruct Hc as [-> | ->]; [|destruct (_ <=? _); lia].
  rewrite (proj1 (ticked_config_eq s s' c T)), (proj1 (ticked_config_eq s s' p T)), (rn_remaining _ _ _ R).
  destruct (_ <=? _); lia.
Qed.

Lemma late_nonneg s p : reachable s -> 0 <= late s p.
Proof.
  intros Hr. destruct (reachable_wf _ Hr) as [[Hwf _] _]. unfold late.
  destruct (currentProcess s) as [c|] eqn:Hc; [|lia]. destruct (_ <=? _); [lia|].
  destruct (proj1 (wf_cur _ _ _ _ _ _ Hwf c) eq_refl) as [Hc' _].
  apply (pw_remaining _ _ (wf_procs _ _ _ _ _ _ Hwf c Hc')).
Qed.

Lemma aged_at_tick s s' p : reachable s -> currentTime s < max_int -> executeTimeUnit s = Some s' -> ticked s s' ->
  RemainingTime (deref (mem s') p) = RemainingTime (deref (mem s) p) -> aged_at s' p = aged_at s p.
Proof.
  intros Hr Ht E T Hsame. unfold aged_at.
  destruct (config_eq_inv _ _ (tk_config _ _ T p)) as (_ & _ & -> & _ & -> & _).
  rewrite (rw_sched agingInterval _ _ (executeTimeUnit_rewinds _ _ E)).
  destruct (tick_last_executed s s' p Hr Ht E) as [[_ ->]|[? _]]; [done|lia].
Qed.

(** A tick runs [p] or takes a unit from its aging_patience. *)
Lemma aging_patience_tick B s s' p : reachable s -> currentTime s < max_int -> executeTimeUnit s = Some s' ->
  1 <= agingInterval (scheduler s) -> p ∈ processes s -> runnable s p ->
  0 <= Priority (deref (mem s) p) <= max_int -> (forall l, l ∈ processes s -> BurstTime (deref (mem s) l) <= B) ->
  RemainingTime (deref (mem s') p) = RemainingTime (deref (mem s) p) - 1 \/
  (runnable s' p /\ aging_patience B s' p + 1 <= aging_patience B s p).
Proof.
  intros Hr Ht E Ha Hp Hrun Hprio HB. destruct (reachable_wf _ Hr) as [Hwf Ht0].
  destruct (tick_decided s s' Hr Ht E) as (s1 & s2 & D & Erun & Es'). pose proof D as [Hd K T _ _ Hcase].
  pose proof (runnable_decided s s1 p Hr K Hd Hp Hrun) as Hp1.
  destruct (currentProcess s1) as [c|] eqn:Hc.
  2:{ destruct (decision_spec s Hwf) as (s3 & E3 & _ & _ & Hidle). fold (decision_state s) in E3.
      rewrite Hd in E3. injection E3 as <-.
      destruct Hp1 as [|Hp1]; [done|]. rewrite (proj1 (Hidle Hc)) in Hp1. by apply elem_of_nil in Hp1. }
  destruct (decide (p = c)) as [->|Hne]; [left; apply (rn_remaining _ _ _ Hcase)|right].
  destruct Hp1 as [Hp1|Hp1]; [congruence|]. pose proof (rn_others _ _ _ Hcase p Hne) as Hsame.
  split; [by apply (runnable_tick s s' p Hr Ht E Hp Hrun)|]. destruct K as [Hwf1 F1]. pose proof (fr_time _ _ F1) as Et.
  assert (Hcur : currentProcess s' = Some c \/ currentProcess s' = None).
  { destruct (advanceClock_frame s2) as (_ & _ & Ec2 & _). rewrite Es', Ec2. rewrite <-Et in Hwf1.
    apply (run_without_quantum s1 c s2); [done|done|lia|done..]. }
  destruct (before_ran s s' c p T Hcase Hne) as [Hb Hb1]. pose proof (late_ran s s' c p T Hcase Hcur) as Hl.
  pose proof (rn_elem _ _ _ Hcase) as Hcp. pose proof (HB c Hcp).
  pose proof (pw_remaining _ _ (wf_procs _ _ _ _ _ _ (proj1 Hwf) c Hcp)). pose proof (rn_positive _ _ _ Hcase).
  unfold aging_patience. rewrite (aged_at_tick s s' p Hr Ht E T Hsame), (tk_time _ _ T).
  destruct (Z.ltb_spec (currentTime s) (aged_at s p)) as [Hy|Haged].
  - destruct (Z.ltb_spec (currentTime s + 1) (aged_at s p)); [lia|]. destruct (_ <=? _); lia.
  - destruct (Z.ltb_spec (currentTime s + 1) (aged_at s p)); [lia|]. pose proof (late_nonneg s p Hr).
    destruct (Z.leb_spec (ArrivalTime (deref (mem s) c)) (ArrivalTime (deref (mem s) p))) as [Hcl|Hcl].
    + specialize (Hb1 Hcl). lia.
    + destruct (aged_dispatch s s1 c p Hr Ha Hp Hprio Haged Hd Hc Hp1) as [Hk|]; [|lia].
      assert (El : late s p = RemainingTime (deref (mem s) c)) by (unfold late; rewrite Hk; ztest; done). lia.
Qed.

Lemma before_nonneg s p : reachable s -> 0 <= before s p.
Proof.
  intros Hr. destruct (reachable_wf _ Hr) as [[Hwf _] _]. unfold before. apply zsum_nonneg.
  intros l Hl. pose proof (pw_remaining _ _ (wf_procs _ _ _ _ _ _ Hwf l Hl)). destruct (decide _); [lia|]. destruct (_ <=? _); lia.
Qed.

Lemma aging_turn B m : forall s p, reachable s -> currentTime s + Z.of_nat m < max_int -> aging_patience B s p <= Z.of_nat m ->
  1 <= agingInterval (scheduler s) -> p ∈ processes s -> runnable s p ->
  0 <= Priority (deref (mem s) p) <= max_int -> (forall l, l ∈ processes s -> BurstTime (deref (mem s) l) <= B) ->
  exists n s1 s2, (n <= m)%nat /\ ticks n s = Some s1 /\ executeTimeUnit s1 = Some s2 /\
    RemainingTime (deref (mem s2) p) = RemainingTime (deref (mem s1) p) - 1.
Proof.
  induction m as [|m IH]; intros s p Hr Ht Hm Ha Hp Hrun Hprio HB;
    destruct (reachable_tick s Hr) as (s' & E & Hr' & T); try lia;
    (destruct (aging_patience_tick B s s' p Hr ltac:(lia) E Ha Hp Hrun Hprio HB) as [Hran|(Hrun' & Hpat)];
      [exists 0%nat, s, s'; split; [lia|done]|]).
  - exfalso. assert (0 <= aging_patience B s' p); [|lia]. unfold aging_patience.
    pose proof (before_nonneg s' p Hr'). pose proof (late_nonneg s' p Hr').
    pose proof (HB p Hp). destruct (reachable_wf _ Hr) as [[Hwf _] _].
    pose proof (co_burst _ (pw_config _ _ (wf_procs _ _ _ _ _ _ Hwf p Hp))).
    destruct (Z.ltb_spec (currentTime s') (aged_at s' p)); lia.
  - destruct (config_eq_inv _ _ (tk_config _ _ T p)) as (_ & _ & _ & _ & Epr & _).
    destruct (IH s' p Hr') as (n & s1 & s2 & Hn & E1 & E2 & Hran).
    + rewrite (tk_time _ _ T). lia.
    + lia.
    + by rewrite (rw_sched agingInterval _ _ (executeTimeUnit_rewinds _ _ E)).
    + by rewrite (tk_procs _ _ T).
    + done.
    + by rewrite Epr.
    + intros l. rewrite (tk_procs _ _ T), (proj2 (ticked_config_eq s s' l T)). apply HB.
    + exists (S n), s1, s2. split; [lia|]. split; [|done]. cbn [ticks]. by rewrite E.
Qed.
End aging.

(** ** Properties *)

(** C12: Aging starves nobody: under the Priority policy with aging, preemptive or not, a
    runnable process gets the CPU within the time until its priority has aged to the
    top, the remaining time of the processes that arrived no later, and one burst,
    whatever arrives after it with whatever priority. *)
Theorem priority_aging_starves_nobody `{GoSortLaws} (s : Simulator PriorityScheduler) p B :
  reachable s -> 1 <= agingInterval (scheduler s) -> p ∈ processes s -> runnable s p ->
  0 <= Priority (deref (mem s) p) <= max_int ->
  (forall l, l ∈ processes s -> BurstTime (deref (mem s) l) <= B) ->
  let wait := Z.max 0 (aged_at s p - currentTime s) + before s p + B in
  currentTime s + wait < max_int ->
  exists n s1 s2, Z.of_nat n <= wait /\ ticks n s = Some s1 /\ executeTimeUnit s1 = Some s2 /\
    RemainingTime (deref (mem s2) p) = RemainingTime (deref (mem s1) p) - 1.
Proof.
  intros Hr Ha Hp Hrun Hprio HB wait Ht. destruct (reachable_wf _ Hr) as [[Hwf _] _].
  pose proof (before_nonneg s p Hr). pose proof (HB p Hp).
  pose proof (co_burst _ (pw_config _ _ (wf_procs _ _ _ _ _ _ Hwf p Hp))).
  assert (Hlate : late s p <= B).
  { unfold late. destruct (currentProcess s) as [c|] eqn:Hc; [|lia]. destruct (_ <=? _); [lia|].
    destruct (proj1 (wf_cur _ _ _ _ _ _ Hwf c) eq_refl) as [Hc' _]. pose proof (HB c Hc').
    pose proof (pw_remaining _ _ (wf_procs _ _ _ _ _ _ Hwf c Hc')). lia. }
  destruct (aging_turn B (Z.to_nat wait) s p Hr) as (n & s1 & s2 & Hn & Hrest); try done; [lia| |].
  - unfold aging_patience. destruct (Z.ltb_spec (currentTime s) (aged_at s p)); lia.
  - exists n, s1, s2. split; [lia|done].
Qed.

(** A process of priority 1 waits, aged after one interval, behind one of priority 0
    that has just started; the state after the first tick. *)
Definition humble : Process := default inhabitant (NewProcess 2 "P2" 0 3 1).

Definition aging_pair : Simulator PriorityScheduler :=
  setup [Example.process 1 0 20; humble] (NewPriorityScheduler true).

Lemma aging_pair_reachable : reachable aging_pair.
Proof.
  apply setup_spec; [exact I|]. apply Forall_cons_2; [|apply Forall_cons_2; [|apply Forall_nil_2]].
  - apply Example.process_admissible; unfold in_int, min_int, max_int; lia.
  - assert (E : NewProcess 2 "P2" 0 3 1 = Some humble) by (vm_compute; reflexivity).
    apply (NewProcess_admissible _ _ _ _ _ _ E); unfold max_int; lia.
Qed.

Lemma priority_aging_starves_nobody_witness :
  exists s, executeTimeUnit aging_pair = Some s /\ readyQueue s = [1%nat] /\
    exists n s1 s2, Z.of_nat n <= 48 /\ ticks n s = Some s1 /\ executeTimeUnit s1 = Some s2 /\
      RemainingTime (deref (mem s2) 1) = RemainingTime (deref (mem s1) 1) - 1.
Proof.
  destruct (executeTimeUnit aging_pair) as [s|] eqn:E; [|vm_compute in E; discriminate].
  assert (Hr : reachable s) by (eapply reach_tick; [exact aging_pair_reachable|vm_compute; reflexivity|exact E]).
  exists s. split; [reflexivity|]. assert (Es := E). vm_compute in Es. injection Es as Es. subst s. split; [vm_compute; reflexivity|].
  apply (priority_aging_starves_nobody _ 1%nat 20 Hr).
  - vm_compute. discriminate.
  - apply (bool_decide_unpack _). vm_compute. exact I.
  - left. vm_compute. reflexivity.
  - vm_compute. split; discriminate.
  - refine (proj1 (Forall_forall _ _) _). apply (bool_decide_unpack _). vm_compute. exact I.
  - vm_compute. reflexivity.
Defined.
