(* ===== verification/RunLoop.v ===== *)
(** * The run goroutine and its control methods (src/internal/simulator/simulator.go)

    [Start], [Pause], [Resume], [Step], [Stop] and [Reset] against the goroutine
    [run], its two one-element channels and its wait group, as an interleaving
    transition system: a section under [s.mu], a channel operation and a tick
    are one step each, and a thread is the program counter of what it does
    next. The wall clock is left open: a tick may come whenever the ticker
    runs. *)

From stdpp Require Import relations.
From S2P Require Import Prelude.
From S2P Require Import Float64.
From S2P Require Import Process.
From S2P Require Import Scheduler.
From S2P Require Import Simulator.
From S2P Require Import SimInvariant.
From S2P Require Import SimSteps.
From S2P Require Import SimTick.
From S2P Require Import SimReach.
From S2P Require Import SimProgress.

(** ** Threads *)

(** Where a thread is. [RSelect] is the outer [select] of [run], with or without
    a running ticker; [RPauseSeen] has read the state paused and will send to
    [pauseChan]; [RPaused] is the inner loop; [RSend] and [RLast] are about to
    call [sendUpdate]; [RReturn] runs the deferred
    [wg.Done]. The [C] threads are the control methods after their first locked
    section; the flag of [CStopSend] and [CStopWait] says that [Reset] called
    [Stop]. *)
Inductive pc :=
| RSelect (ticking : bool) | RPauseSeen | RPaused | RTick | RSend | RCheck | RFinish | RLast | RReturn
| CResume
| CStepExec | CStepSend | CStepCheck | CStepFinish | CStepLast
| CStopSend (reset : bool) | CStopWait (reset : bool)
| CDrainPause | CDrainStop | CReset.

#[export] Instance pc_eq_dec : EqDecision pc.
Proof. solve_decision. Defined.

(** The threads [wg] counts. *)
Definition is_run (p : pc) : bool :=
  match p with
  | RSelect _ | RPauseSeen | RPaused | RTick | RSend | RCheck | RFinish | RLast | RReturn => true
  | _ => false
  end.

(** The threads that hold [stepMu]. *)
Definition is_step (p : pc) : bool :=
  match p with CStepExec | CStepSend | CStepCheck | CStepFinish | CStepLast => true | _ => false end.

(** The threads that are about to call [sendUpdate]. *)
Definition sends (p : pc) : bool :=
  match p with RSend | RLast | CStepSend | CStepLast => true | _ => false end.

(** What the threads share; [pauseChan] and [stopChan] say whether the channel's
    one slot is taken. *)
Record Shared (Sd : Type) := mkShared {
  eng : Simulator Sd;
  wg : Z;
  pauseChan : bool;
  stopChan : bool
}.
Arguments mkShared {Sd}.
Arguments eng {Sd} _.
Arguments wg {Sd} _.
Arguments pauseChan {Sd} _.
Arguments stopChan {Sd} _.

Section run_loop.
Context {Sd : Type} `{SchedulerLaws Sd} `{GoSortLaws}.

Definition with_eng (e : Simulator Sd) (w : Shared Sd) : Shared Sd :=
  mkShared e (wg w) (pauseChan w) (stopChan w).
Definition with_wg (n : Z) (w : Shared Sd) : Shared Sd :=
  mkShared (eng w) n (pauseChan w) (stopChan w).
Definition with_pause (b : bool) (w : Shared Sd) : Shared Sd :=
  mkShared (eng w) (wg w) b (stopChan w).
Definition with_stop (b : bool) (w : Shared Sd) : Shared Sd :=
  mkShared (eng w) (wg w) (pauseChan w) b.
Definition with_state (st : SimulationState) (w : Shared Sd) : Shared Sd :=
  with_eng (set_state st (eng w)) w.

(** One step of one thread; [None] is its end. *)
Inductive thread_step : pc -> Shared Sd -> option pc -> Shared Sd -> Prop :=
(* the outer select of run *)
| run_stopped b w : stopChan w = true ->
    thread_step (RSelect b) w (Some RReturn) (with_stop false w)
| run_paused b w : pauseChan w = true ->
    thread_step (RSelect b) w (Some RPaused) (with_pause false w)
| run_tick w : state (eng w) = SimStateRunning ->
    thread_step (RSelect true) w (Some RTick) w
| run_tick_paused w : state (eng w) = SimStatePaused ->
    thread_step (RSelect true) w (Some RPauseSeen) w
| run_tick_ignored w : state (eng w) <> SimStateRunning -> state (eng w) <> SimStatePaused ->
    thread_step (RSelect true) w (Some (RSelect true)) w
| run_send_pause w :
    thread_step RPauseSeen w (Some (RSelect false)) (with_pause true w)
(* the paused loop *)
| run_resumed w : pauseChan w = true ->
    thread_step RPaused w (Some (RSelect true)) (with_pause false w)
| run_paused_stopped w : stopChan w = true ->
    thread_step RPaused w (Some RReturn) (with_stop false w)
(* a tick *)
| run_exec w e : currentTime (eng w) < max_int -> executeTimeUnit (eng w) = Some e ->
    thread_step RTick w (Some RSend) (with_eng e w)
| run_send w :
    thread_step RSend w (Some RCheck) w
| run_more w : isComplete (eng w) = false ->
    thread_step RCheck w (Some (RSelect true)) w
| run_complete w : isComplete (eng w) = true ->
    thread_step RCheck w (Some RFinish) w
| run_finish w :
    thread_step RFinish w (Some RLast) (with_state SimStateComplete w)
| run_last w :
    thread_step RLast w (Some RReturn) w
| run_return w :
    thread_step RReturn w None (with_wg (wg w - 1) w)
(* Resume after its locked section *)
| resume_send w :
    thread_step CResume w None (with_pause true w)
(* Step *)
| step_exec w e : currentTime (eng w) < max_int -> executeTimeUnit (eng w) = Some e ->
    thread_step CStepExec w (Some CStepSend) (with_eng e w)
| step_send w :
    thread_step CStepSend w (Some CStepCheck) w
| step_more w : isComplete (eng w) = false ->
    thread_step CStepCheck w None w
| step_complete w : isComplete (eng w) = true ->
    thread_step CStepCheck w (Some CStepFinish) w
| step_finish w :
    thread_step CStepFinish w (Some CStepLast) (with_state SimStateComplete w)
| step_last w :
    thread_step CStepLast w None w
(* Stop *)
| stop_send r w :
    thread_step (CStopSend r) w (Some (CStopWait r)) (with_stop true w)
| stop_wait w : wg w = 0 ->
    thread_step (CStopWait false) w None w
(* Reset after Stop *)
| reset_wait w : wg w = 0 ->
    thread_step (CStopWait true) w (Some CDrainPause) w
| reset_drain_pause w :
    thread_step CDrainPause w (Some CDrainStop) (with_pause false w)
| reset_drain_stop w :
    thread_step CDrainStop w (Some CReset) (with_stop false w)
| reset_state w :
    thread_step CReset w None (with_eng (resetState (eng w)) w).

(** The first locked section of a control method called from outside: the new
    shared state and the threads it leaves. *)
Definition Start (w : Shared Sd) : Shared Sd * list pc :=
  match state (eng w) with
  | SimStateRunning => (w, [])
  | _ => (with_wg (wg w + 1) (with_state SimStateRunning w), [RSelect true])
  end.

Definition Pause (w : Shared Sd) : Shared Sd * list pc :=
  match state (eng w) with
  | SimStateRunning => (with_state SimStatePaused w, [])
  | _ => (w, [])
  end.

Definition Resume (w : Shared Sd) : Shared Sd * list pc :=
  match state (eng w) with
  | SimStatePaused => (with_state SimStateRunning w, [CResume])
  | _ => (w, [])
  end.

(** Called with [stepMu] free. *)
Definition StepCall (w : Shared Sd) : Shared Sd * list pc :=
  match state (eng w) with
  | SimStateRunning | SimStateComplete => (w, [])
  | SimStateIdle => (with_state SimStatePaused w, [CStepExec])
  | SimStatePaused => (w, [CStepExec])
  end.

Definition StopCall (reset : bool) (w : Shared Sd) : Shared Sd * list pc :=
  match state (eng w) with
  | SimStateRunning | SimStatePaused => (with_state SimStateIdle w, [CStopSend reset])
  | SimStateComplete => (with_state SimStateIdle w, [CStopWait reset])
  | SimStateIdle => (w, if reset then [CDrainPause] else [])
  end.

(** ** Worlds *)

Definition World : Type := Shared Sd * list pc.

Definition threads_of (o : option pc) : list pc := match o with Some p => [p] | None => [] end.

(** The scheduler of the Go runtime runs some thread. *)
Inductive internal : World -> World -> Prop :=
| internal_step w w' p o ps1 ps2 : thread_step p w o w' ->
    internal (w, ps1 ++ p :: ps2) (w', ps1 ++ threads_of o ++ ps2).

(** A method is called from outside. *)
Inductive external : World -> World -> Prop :=
| ext_start w ps : external (w, ps) ((Start w).1, ps ++ (Start w).2)
| ext_pause w ps : external (w, ps) ((Pause w).1, ps ++ (Pause w).2)
| ext_resume w ps : external (w, ps) ((Resume w).1, ps ++ (Resume w).2)
| ext_step w ps : forallb (fun p => negb (is_step p)) ps = true ->
    external (w, ps) ((StepCall w).1, ps ++ (StepCall w).2)
| ext_stop r w ps : external (w, ps) ((StopCall r w).1, ps ++ (StopCall r w).2)
| ext_add p w ps : admissible p -> external (w, ps) (with_eng (AddProcess p (eng w)) w, ps)
| ext_speed v w ps : external (w, ps) (with_eng (SetSpeed v (eng w)) w, ps)
| ext_callback b w ps : external (w, ps) (with_eng (SetUpdateCallback b (eng w)) w, ps).

Inductive world : World -> Prop :=
| world_init sched : sched_ok sched -> world (mkShared (NewSimulator sched) 0 false false, [])
| world_internal x y : world x -> internal x y -> world y
| world_external x y : world x -> external x y -> world y.

(** ** Safety *)

Definition running_threads (ps : list pc) : Z := zsum (fun p => if is_run p then 1 else 0) ps.

(** The engine stays reachable, and the wait group counts the run goroutines. *)
Lemma thread_step_safe p w o w' : thread_step p w o w' -> reachable (eng w) ->
  reachable (eng w') /\
  wg w' = wg w - (if is_run p then 1 else 0) + running_threads (threads_of o).
Proof.
  intros Hs Hr. unfold running_threads. destruct Hs; simpl; (split; [|try lia]); try done;
    try (by apply reach_state); try (by eapply reach_tick).
  by apply reach_reset.
Qed.

Lemma running_threads_app ps1 ps2 :
  running_threads (ps1 ++ ps2) = running_threads ps1 + running_threads ps2.
Proof. apply zsum_app. Qed.

Lemma running_threads_length ps : running_threads ps = Z.of_nat (length (List.filter is_run ps)).
Proof.
  unfold running_threads. induction ps as [|p ps IH]; [done|].
  cbn [zsum List.filter]. destruct (is_run p); cbn [length]; rewrite IH; lia.
Qed.

Lemma world_safe x : world x -> reachable (eng x.1) /\ wg x.1 = running_threads x.2.
Proof.
  induction 1 as [sched Hok|x y _ [Hr Hw] Hs|x y _ [Hr Hw] Hs].
  - simpl. split; [by apply reach_new|done].
  - destruct Hs as [w w' p o ps1 ps2 Hs]. simpl in *.
    destruct (thread_step_safe _ _ _ _ Hs Hr) as [Hr' ->]. split; [done|].
    rewrite Hw, !running_threads_app. unfold running_threads at 2. simpl. fold (running_threads ps2). lia.
  - destruct Hs as [w ps|w ps|w ps|w ps _|r w ps|p w ps Hp|v w ps|b w ps]; simpl in *;
      rewrite ?running_threads_app.
    + unfold Start. destruct (state (eng w)); cbn; (split; [try done; by apply reach_state|lia]).
    + unfold Pause. destruct (state (eng w)); cbn; (split; [try done; by apply reach_state|lia]).
    + unfold Resume. destruct (state (eng w)); cbn; (split; [try done; by apply reach_state|lia]).
    + unfold StepCall. destruct (state (eng w)); cbn; (split; [try done; by apply reach_state|lia]).
    + unfold StopCall. destruct (state (eng w)), r; cbn; (split; [try done; by apply reach_state|lia]).
    + split; [by apply reach_add|done].
    + split; [by apply reach_speed|done].
    + split; [by apply reach_callback|done].
Qed.
End run_loop.

(** ** Progress *)

(** What can block a thread. *)
Definition blocked {Sd} (p : pc) (w : Shared Sd) : Prop :=
  match p with
  | RSelect false | RPaused => pauseChan w = false /\ stopChan w = false
  | CStopWait _ => wg w <> 0
  | _ => False
  end.

Section progress.
Context {Sd : Type} `{SchedulerLaws Sd} `{GoSortLaws}.
Implicit Types (w : Shared Sd) (ps : list pc).

Lemma reachable_exec w : reachable (eng w) -> currentTime (eng w) < max_int ->
  exists e, executeTimeUnit (eng w) = Some e /\ reachable e /\ currentTime e = currentTime (eng w) + 1.
Proof.
  intros Hr Ht. destruct (reachable_tick (eng w) Hr Ht) as (e & He & Hr' & T).
  exists e. split; [done|]. split; [done|]. apply (tk_time _ _ T).
Qed.

Lemma thread_progress p w : reachable (eng w) -> currentTime (eng w) < max_int -> ~ blocked p w ->
  exists o w', thread_step p w o w'.
Proof.
  intros Hr Ht Hb. destruct (reachable_exec w Hr Ht) as (e & He & _).
  destruct p as [[]| | | | | | | | | | | | | | |r|r| | |]; simpl in Hb; try (by eauto using thread_step).
  - destruct (decide (state (eng w) = SimStateRunning)); [by eauto using thread_step|].
    destruct (decide (state (eng w) = SimStatePaused)); by eauto using thread_step.
  - destruct (stopChan w) eqn:Es; [by eauto using thread_step|].
    destruct (pauseChan w) eqn:Ep; [by eauto using thread_step|tauto].
  - destruct (stopChan w) eqn:Es; [by eauto using thread_step|].
    destruct (pauseChan w) eqn:Ep; [by eauto using thread_step|tauto].
  - destruct (isComplete (eng w)) eqn:Ec; by eauto using thread_step.
  - destruct (isComplete (eng w)) eqn:Ec; by eauto using thread_step.
  - destruct (Z.eq_dec (wg w) 0); [|tauto]. destruct r; by eauto using thread_step.
Qed.

Lemma internal_one w w' p p' ps1 ps2 : thread_step p w (Some p') w' ->
  internal (w, ps1 ++ p :: ps2) (w', ps1 ++ p' :: ps2).
Proof. intros Hs. by apply (internal_step w w' p (Some p') ps1 ps2). Qed.

Lemma internal_end w w' p ps1 ps2 : thread_step p w None w' ->
  internal (w, ps1 ++ p :: ps2) (w', ps1 ++ ps2).
Proof. intros Hs. by apply (internal_step w w' p None ps1 ps2). Qed.

Lemma internal_inv w ps y : internal (w, ps) y ->
  exists ps1 p ps2 o w', ps = ps1 ++ p :: ps2 /\ thread_step p w o w' /\
    y = (w', ps1 ++ threads_of o ++ ps2).
Proof. intros Hy. inversion Hy. subst. eauto 10. Qed.

(** A run goroutine that finds a stop signal can exit. *)
Definition exits ps1 ps2 w p : Prop :=
  exists w', rtc internal (w, ps1 ++ p :: ps2) (w', ps1 ++ ps2) /\ wg w' = wg w - 1.

Lemma exits_step ps1 ps2 w p w' p' : thread_step p w (Some p') w' -> wg w' = wg w ->
  exits ps1 ps2 w' p' -> exits ps1 ps2 w p.
Proof.
  intros Hs Hw (v & Hrtc & Hv). exists v. split; [|congruence].
  eapply rtc_l; [by apply internal_one|done].
Qed.

Lemma exits_return ps1 ps2 w : exits ps1 ps2 w RReturn.
Proof.
  eexists. split; [apply rtc_once, internal_end, run_return|done].
Qed.

Lemma exits_select ps1 ps2 w b : stopChan w = true -> exits ps1 ps2 w (RSelect b).
Proof. intros Hs. eapply exits_step; [by apply run_stopped|done|apply exits_return]. Qed.

Lemma exits_finish ps1 ps2 w : exits ps1 ps2 w RFinish.
Proof.
  eapply exits_step; [apply run_finish|done|].
  eapply exits_step; [apply run_last|done|apply exits_return].
Qed.

Lemma exits_check ps1 ps2 w : stopChan w = true -> exits ps1 ps2 w RCheck.
Proof.
  intros Hs. destruct (isComplete (eng w)) eqn:Ec.
  - eapply exits_step; [by apply run_complete|done|apply exits_finish].
  - eapply exits_step; [by apply run_more|done|by apply exits_select].
Qed.

Lemma run_can_exit ps1 ps2 w p : reachable (eng w) -> currentTime (eng w) < max_int ->
  stopChan w = true -> is_run p = true -> exits ps1 ps2 w p.
Proof.
  intros Hr Ht Hs Hp. destruct p; try discriminate.
  - by apply exits_select.
  - eapply exits_step; [apply run_send_pause|done|by apply exits_select].
  - eapply exits_step; [by apply run_paused_stopped|done|apply exits_return].
  - destruct (reachable_exec w Hr Ht) as (e & He & _).
    eapply exits_step; [by apply run_exec|done|].
    eapply exits_step; [apply run_send|done|by apply exits_check].
  - eapply exits_step; [apply run_send|done|by apply exits_check].
  - by apply exits_check.
  - apply exits_finish.
  - eapply exits_step; [apply run_last|done|apply exits_return].
  - apply exits_return.
Qed.

Lemma one_run_thread ps : running_threads ps = 1 ->
  exists ps1 p ps2, ps = ps1 ++ p :: ps2 /\ is_run p = true.
Proof.
  induction ps as [|p ps IH]; [done|]. unfold running_threads. cbn [zsum].
  destruct (is_run p) eqn:Ep.
  - intros _. by exists [], p, ps.
  - intros Hps. destruct IH as (ps1 & q & ps2 & -> & Hq); [unfold running_threads; lia|].
    by exists (p :: ps1), q, ps2.
Qed.
End progress.

(** ** Properties *)

(** C20: Whatever the order in which the control methods and the run goroutines
    interleave, the engine only goes through reachable states, so all its
    invariants hold at every moment; the wait group is exactly the number of
    live run goroutines, and no thread panics or blocks except in the [select]
    of a goroutine that has stopped its ticker with both channels empty, and in
    the wait of [Stop] for a live goroutine. *)
Theorem control_interleavings_safe {Sd} `{SchedulerLaws Sd} `{GoSortLaws} (w : Shared Sd) ps :
  world (w, ps) ->
  reachable (eng w) /\
  wg w = Z.of_nat (length (List.filter is_run ps)) /\
  (currentTime (eng w) < max_int -> forall p, p ∈ ps ->
     (exists o w', thread_step p w o w') \/
     ((p = RSelect false \/ p = RPaused) /\ pauseChan w = false /\ stopChan w = false) \/
     ((exists r, p = CStopWait r) /\ exists q, q ∈ ps /\ is_run q = true)).
Proof.
  intros Hw. destruct (world_safe _ Hw) as [Hr Hwg]. simpl in *. split; [done|].
  pose proof (running_threads_length ps) as Hcount.
  split; [congruence|]. intros Ht p Hp.
  assert (Hdec : blocked p w \/ ~ blocked p w).
  { destruct p as [[]| | | | | | | | | | | | | | |r|r| | |]; simpl; try tauto;
      destruct (pauseChan w), (stopChan w), (Z.eq_dec (wg w) 0); auto; right; naive_solver. }
  destruct Hdec as [Hb|Hb]; [right|left; by apply thread_progress].
  destruct p as [[]| | | | | | | | | | | | | | |r|r| | |]; simpl in Hb; try done.
  - left. auto.
  - left. auto.
  - right. split; [by exists r|].
    destruct (List.filter is_run ps) as [|q qs] eqn:Ef; [simpl in Hcount; lia|].
    exists q. assert (In q (List.filter is_run ps)) as Hq by (rewrite Ef; by left).
    apply filter_In in Hq as [Hq ?]. split; [by apply list_elem_of_In|done].
Qed.

(** Adding processes first. *)
Lemma world_setup {Sd} `{SchedulerLaws Sd} `{GoSortLaws} (sched : Sd) ps :
  sched_ok sched -> Forall admissible ps -> world (mkShared (setup ps sched) 0 false false, []).
Proof.
  intros Hok. unfold setup, AddProcesses.
  pose proof (world_init sched Hok) as W0. revert W0. generalize (NewSimulator sched).
  induction ps as [|p ps IH]; intros s W0 Hadm; [done|].
  apply Forall_cons in Hadm as [Hp Hadm]. apply (IH (AddProcess p s)); [|done].
  by apply (world_external _ _ W0), (ext_add p (mkShared s 0 false false)).
Qed.

Lemma setup_state {Sd} `{Scheduler Sd} `{GoSort} (sched : Sd) ps :
  state (setup ps sched) = SimStateIdle.
Proof.
  unfold setup, AddProcesses. change SimStateIdle with (state (NewSimulator sched)).
  generalize (NewSimulator sched). induction ps as [|p ps IH]; intros s; [done|].
  cbn [fold_left]. by rewrite IH.
Qed.

(** The example engine, started: one run goroutine. *)
Definition started : World := ((Start (mkShared Example.start 0 false false)).1, [RSelect true]).

Lemma started_world : world started.
Proof.
  assert (world (mkShared Example.start 0 false false, [])) as W0.
  { assert (Hadm : forall pid a b, 1 <= pid <= 2 -> 0 <= a <= 1 -> 1 <= b <= 2 ->
      admissible (Example.process pid a b))
      by (intros; apply Example.process_admissible; unfold in_int, min_int, max_int; lia).
    eapply world_external; [|apply (ext_add (Example.process 2 1 1)
      (mkShared (AddProcess (Example.process 1 0 2) (NewSimulator FCFS.NewFCFSScheduler)) 0 false false));
      apply Hadm; lia].
    eapply world_external; [|apply (ext_add (Example.process 1 0 2)
      (mkShared (NewSimulator FCFS.NewFCFSScheduler) 0 false false)); apply Hadm; lia].
    by apply world_init. }
  eapply world_external; [exact W0|]. apply (ext_start (mkShared Example.start 0 false false) []).
Qed.

Lemma control_interleavings_safe_witness : wg started.1 = 1 /\ reachable (eng started.1).
Proof.
  split; [reflexivity|].
  destruct (control_interleavings_safe started.1 started.2) as [Hr _].
  - exact started_world.
  - exact Hr.
Defined.

(** [Stop] can return: once it has left its signal, if one run goroutine is
    alive it can exit wherever it is (in a tick, in the outer or in the paused
    select, or completing), after which the wait group is zero and the waiting
    [Stop] is not blocked. *)
Theorem stop_can_return {Sd} `{SchedulerLaws Sd} `{GoSortLaws} (w : Shared Sd) ps r :
  world (w, ps) -> currentTime (eng w) < max_int -> stopChan w = true ->
  wg w = 1 -> CStopWait r ∈ ps ->
  exists w' ps', rtc internal (w, ps) (w', ps') /\ wg w' = 0 /\
    List.filter is_run ps' = [] /\ CStopWait r ∈ ps' /\
    exists o w'', thread_step (CStopWait r) w' o w''.
Proof.
  intros Hw Ht Hs Hwg Hin. destruct (world_safe _ Hw) as [Hr Hcount]. simpl in *.
  destruct (one_run_thread ps) as (ps1 & p & ps2 & -> & Hp); [congruence|].
  destruct (run_can_exit ps1 ps2 w p Hr Ht Hs Hp) as (w' & Hrtc & Hw').
  exists w', (ps1 ++ ps2). split; [done|]. split; [lia|]. split; [|split].
  - assert (running_threads (ps1 ++ p :: ps2) = 1 + running_threads (ps1 ++ ps2)) as E.
    { rewrite !running_threads_app. unfold running_threads at 2. cbn [zsum].
      fold (running_threads ps2). rewrite Hp. lia. }
    apply nil_length_inv. pose proof (running_threads_length (ps1 ++ ps2)). lia.
  - rewrite elem_of_app, elem_of_cons in Hin. rewrite elem_of_app.
    destruct Hin as [?|[<-|?]]; [by left|done|by right].
  - assert (wg w' = 0) by lia. destruct r; eauto using thread_step.
Qed.

(** [Stop] on the started example, its signal sent. *)
Definition stopping : World :=
  (with_stop true (StopCall false started.1).1, [RSelect true; CStopWait false]).

Lemma stopping_world : world stopping.
Proof.
  eapply world_internal; [eapply world_external; [exact started_world|
    apply (ext_stop false started.1 started.2)]|].
  apply (internal_step (StopCall false started.1).1 _ (CStopSend false) (Some (CStopWait false))
    [RSelect true] []). apply stop_send.
Qed.

Lemma stop_can_return_witness :
  exists w' ps', rtc internal stopping (w', ps') /\ wg w' = 0.
Proof.
  destruct (stop_can_return stopping.1 stopping.2 false) as (w' & ps' & Hrtc & Hwg & _).
  - exact stopping_world.
  - vm_compute. reflexivity.
  - reflexivity.
  - reflexivity.
  - apply list_elem_of_In. simpl. tauto.
  - exists w', ps'. split; [exact Hrtc|exact Hwg].
Defined.

(** C29: Pausing and resuming within one tick freezes the simulation: the signal of
    [Resume] reaches the goroutine in its outer [select], which takes it for a
    pause. In the world reached the state is running and the goroutine alive,
    but no thread can take a step, and [Start], [Resume] and [Step] change
    nothing; only another [Pause] and [Resume], or [Stop], gets out of it. *)
Theorem quick_pause_resume_freezes {Sd} `{SchedulerLaws Sd} `{GoSortLaws} (sched : Sd) ps :
  sched_ok sched -> Forall admissible ps ->
  exists w, world (w, [RPaused]) /\ state (eng w) = SimStateRunning /\
    eng w = set_state SimStateRunning (setup ps sched) /\
    (forall y, ~ internal (w, [RPaused]) y) /\
    Start w = (w, []) /\ Resume w = (w, []) /\ StepCall w = (w, []).
Proof.
  intros Hok Hadm.
  set (w0 := mkShared (setup ps sched) 0 false false).
  assert (W0 : world (w0, [])) by (by apply world_setup).
  assert (Hidle : state (eng w0) = SimStateIdle) by apply setup_state.
  pose proof (world_external _ _ W0 (ext_start _ _)) as W1.
  unfold Start in W1. rewrite Hidle in W1. simpl in W1.
  pose proof (world_external _ _ W1 (ext_pause _ _)) as W2. unfold Pause in W2. simpl in W2.
  pose proof (world_external _ _ W2 (ext_resume _ _)) as W3. unfold Resume in W3. simpl in W3.
  pose proof (world_internal _ _ W3 (internal_end _ _ CResume [RSelect true] [] (resume_send _))) as W4.
  eassert (W5 : world (_, [RPaused])).
  { eapply world_internal; [exact W4|].
    apply (internal_one _ _ (RSelect true) RPaused [] []), run_paused. reflexivity. }
  eexists. split; [exact W5|]. split; [done|]. split; [done|]. split; [|done].
  intros y Hy. destruct (internal_inv _ _ _ Hy) as (qs1 & p & qs2 & o & w' & Eps & Hstep & _).
  destruct qs1 as [|q qs1]; [|by destruct qs1]. injection Eps as <- <-. by inversion Hstep.
Qed.

Lemma quick_pause_resume_freezes_witness :
  exists w, world (w, [RPaused]) /\ state (eng (Sd := FCFS.FCFSScheduler) w) = SimStateRunning.
Proof.
  destruct (quick_pause_resume_freezes FCFS.NewFCFSScheduler gap) as (w & Hw & Hs & _).
  - exact I.
  - exact gap_admissible.
  - exists w. split; [exact Hw|exact Hs].
Defined.

(** C30: Starting a paused simulation spawns a second run goroutine, and stopping
    then never returns: only one goroutine takes the stop signal, the other
    ignores its ticks from there on, and in the world reached the only step any
    thread can take changes nothing, while [Stop] still waits. *)
Theorem start_while_paused_deadlocks_stop {Sd} `{SchedulerLaws Sd} `{GoSortLaws} (sched : Sd) ps :
  sched_ok sched -> Forall admissible ps ->
  exists w, world (w, [RSelect true; CStopWait false]) /\ wg w = 1 /\
    state (eng w) = SimStateIdle /\
    forall y, rtc internal (w, [RSelect true; CStopWait false]) y ->
      y = (w, [RSelect true; CStopWait false]).
Proof.
  intros Hok Hadm.
  set (w0 := mkShared (setup ps sched) 0 false false).
  assert (W0 : world (w0, [])) by (by apply world_setup).
  assert (Hidle : state (eng w0) = SimStateIdle) by apply setup_state.
  pose proof (world_external _ _ W0 (ext_start _ _)) as W1.
  unfold Start in W1. rewrite Hidle in W1. simpl in W1.
  pose proof (world_external _ _ W1 (ext_pause _ _)) as W2. unfold Pause in W2. simpl in W2.
  pose proof (world_external _ _ W2 (ext_start _ _)) as W3. unfold Start in W3. simpl in W3.
  pose proof (world_external _ _ W3 (ext_stop false _ _)) as W4. unfold StopCall in W4. simpl in W4.
  pose proof (world_internal _ _ W4 (internal_one _ _ (CStopSend false) (CStopWait false)
    [RSelect true; RSelect true] [] (stop_send false _))) as W5. simpl in W5.
  eassert (W6 : world (_, [RReturn; RSelect true; CStopWait false])).
  { eapply world_internal; [exact W5|].
    apply (internal_one _ _ (RSelect true) RReturn [] [RSelect true; CStopWait false]), run_stopped.
    reflexivity. }
  pose proof (world_internal _ _ W6 (internal_end _ _ RReturn [] [RSelect true; CStopWait false]
    (run_return _))) as W7.
  eexists. split; [exact W7|]. split; [done|]. split; [done|].
  intros y Hy. remember (_, _) as x eqn:Ex in Hy at 1. revert Ex.
  induction Hy as [|x1 x2 x3 Hstep _ IH]; intros Ex; [done|]. apply IH. clear IH. subst x1.
  destruct (internal_inv _ _ _ Hstep) as (qs1 & p & qs2 & o & w' & Eps & Hs & ->).
  destruct qs1 as [|q1 qs1]; [injection Eps as <- <-; by inversion Hs|].
  destruct qs1 as [|q2 qs1]; [injection Eps as <- <- <-; by inversion Hs|].
  destruct qs1; by injection Eps.
Qed.

Lemma start_while_paused_deadlocks_stop_witness :
  exists w, world (w, [RSelect true; CStopWait false]) /\ wg w = 1 /\
    currentTime (eng (Sd := FCFS.FCFSScheduler) w) = currentTime (eng w).
Proof.
  destruct (start_while_paused_deadlocks_stop FCFS.NewFCFSScheduler gap) as (w & Hw & Hwg & _).
  - exact I.
  - exact gap_admissible.
  - exists w. split; [exact Hw|]. split; [exact Hwg|reflexivity].
Defined.

(** The first tick of a fresh simulation that [Step] has set to paused. *)
Lemma first_tick {Sd} `{SchedulerLaws Sd} `{GoSortLaws} (sched : Sd) ps :
  sched_ok sched -> Forall admissible ps -> Exists (fun p => 2 <= BurstTime p) ps ->
  exists e, executeTimeUnit (set_state SimStatePaused (setup ps sched)) = Some e /\
    state e = SimStatePaused /\ currentTime e = 1 /\ isComplete e = false.
Proof.
  intros Hok Hadm Hex. destruct (setup_spec ps sched Hok Hadm) as (Hr & Ht & _ & _ & HP).
  assert (Hr1 : reachable (set_state SimStatePaused (setup ps sched))) by (by apply reach_state).
  destruct (reachable_tick _ Hr1) as (e & He & Hre & T).
  { change (currentTime (setup ps sched) < max_int). by rewrite Ht. }
  exists e. split; [done|]. split; [apply (tk_state _ _ T)|].
  pose proof (tk_time _ _ T) as Hte.
  change (currentTime e = currentTime (setup ps sched) + 1) in Hte. rewrite Ht in Hte.
  split; [done|]. destruct (isComplete e) eqn:Hc; [exfalso|done].
  apply Exists_exists in Hex as (p & Hp & Hburst).
  assert (Hin : p ∈ map (deref (mem (setup ps sched))) (processes (setup ps sched))).
  { pose proof (AddProcesses_perm ps (NewSimulator sched) (reach_new sched Hok) Hadm) as Hperm.
    cbn zeta in Hperm. fold (setup ps sched) in Hperm. rewrite Hperm. simpl. done. }
  apply list_elem_of_In, in_map_iff in Hin as (l & Hlp & Hl%list_elem_of_In).
  assert (Hrem : RemainingTime (deref (mem (setup ps sched)) l) = BurstTime p).
  { rewrite Hlp. apply admissible_work. rewrite Forall_forall in Hadm. by apply Hadm. }
  destruct (reachable_wf _ Hre) as [Hwf _].
  assert (H0l : RemainingTime (deref (mem e) l) = 0).
  { apply (complete_served _ _ Hwf Hc). rewrite (tk_procs _ _ T). done. }
  destruct (tk_work _ _ T) as [[c [_ _ _ Hc1 _ Ho]]|Hid].
  - destruct (decide (l = c)) as [->|Hne].
    + rewrite H0l in Hc1. change (0 = RemainingTime (deref (mem (setup ps sched)) c) - 1) in Hc1. lia.
    + rewrite Ho in H0l by done. change (RemainingTime (deref (mem (setup ps sched)) l) = 0) in H0l. lia.
  - rewrite (id_remaining _ _ Hid) in H0l.
    change (RemainingTime (deref (mem (setup ps sched)) l) = 0) in H0l. lia.
Qed.

(** Stepping an idle simulation leaves it paused without a goroutine; resuming
    it then sets the state to running although nothing runs: no thread is left
    and [Start] refuses to start one, because the state is running already. *)
Theorem resume_after_step_runs_nothing {Sd} `{SchedulerLaws Sd} `{GoSortLaws} (sched : Sd) ps :
  sched_ok sched -> Forall admissible ps -> Exists (fun p => 2 <= BurstTime p) ps ->
  exists w, world (w, []) /\ state (eng w) = SimStateRunning /\ currentTime (eng w) = 1 /\
    wg w = 0 /\ isComplete (eng w) = false /\ Start w = (w, []) /\ StepCall w = (w, []).
Proof.
  intros Hok Hadm Hex.
  destruct (first_tick sched ps Hok Hadm Hex) as (e & He & Hst & Hte & Hce).
  set (w0 := mkShared (setup ps sched) 0 false false).
  assert (W0 : world (w0, [])) by (by apply world_setup).
  assert (Hidle : state (eng w0) = SimStateIdle) by apply setup_state.
  pose proof (world_external _ _ W0 (ext_step w0 [] eq_refl)) as W1.
  unfold StepCall in W1. rewrite Hidle in W1. simpl in W1.
  assert (Ht0 : currentTime (eng w0) = 0) by (by apply setup_spec).
  pose proof (world_internal _ _ W1 (internal_one _ (with_eng e (with_state SimStatePaused w0))
    CStepExec CStepSend [] [] (step_exec (with_state SimStatePaused w0) e
      (ltac:(change (currentTime (eng w0) < max_int); rewrite Ht0; done)) He))) as W2.
  pose proof (world_internal _ _ W2 (internal_one _ _ CStepSend CStepCheck [] []
    (step_send _))) as W2'. simpl in W2'.
  pose proof (world_internal _ _ W2' (internal_end _ _ CStepCheck [] []
    (step_more (with_eng e (with_state SimStatePaused w0)) Hce))) as W3. simpl in W3.
  pose proof (world_external _ _ W3 (ext_resume _ _)) as W4. unfold Resume in W4. simpl in W4.
  rewrite Hst in W4. simpl in W4.
  pose proof (world_internal _ _ W4 (internal_end _ _ CResume [] [] (resume_send _))) as W5.
  eexists. split; [exact W5|]. split; [done|]. split; [exact Hte|]. split; [done|].
  split; [exact Hce|]. done.
Qed.

Lemma resume_after_step_runs_nothing_witness :
  exists w, world (w, []) /\ state (eng w) = SimStateRunning /\
    (Start (Sd := FCFS.FCFSScheduler) w).1 = w.
Proof.
  destruct (resume_after_step_runs_nothing FCFS.NewFCFSScheduler gap) as
    (w & Hw & Hs & _ & _ & _ & Hst & _).
  - exact I.
  - exact gap_admissible.
  - apply Exists_cons_hd. vm_compute. discriminate.
  - exists w. split; [exact Hw|]. split; [exact Hs|]. rewrite Hst. reflexivity.
Defined.
