(* ===== verification/Store.v ===== *)
(** * The simulation store (src/internal/store/store.go)

    The history of completed simulations: a bounded queue of records, read newest
    first. The mutex makes every method one step, so a method is a function on
    the store. *)

From S2P Require Import Prelude.
From S2P Require Import Float64.
From S2P Require Import Process.
From S2P Require Import Scheduler.
From S2P Require Import Simulator.

Record IOBurstInput := mkIOBurstInput { inAfterCPUTime : Z; inDuration : Z }.

Record ProcessInput := mkProcessInput {
  inPID : Z;
  inName : string;
  inArrival : Z;
  inBurst : Z;
  inPriority : Z;
  inIOBursts : list IOBurstInput
}.

Record SimulationConfig := {
  cAlgorithm : string;
  cTimeQuantum : Z;
  cSpeed : Z;
  cProcesses : list ProcessInput
}.

(** Times and durations are the [int64] nanoseconds of the [time] package. *)
Record SimRecord := {
  rID : string;
  rAlgorithm : string;
  rCreatedAt : Z;
  rDuration : Z;
  rConfig : SimulationConfig;
  rFinalState : SimulationUpdate
}.

Record Store := mkStore { records : list SimRecord; capacity : Z }.

Definition New (capacity : Z) : Store :=
  let capacity := if capacity <? 1 then 100 else capacity in
  {| records := []; capacity := capacity |}.

Definition Save (r : SimRecord) (s : Store) : Store :=
  let recs := if capacity s <=? Z.of_nat (length (records s)) then tail (records s) else records s in
  {| records := recs ++ [r]; capacity := capacity s |}.

Definition Get (id : string) (s : Store) : option SimRecord :=
  List.find (fun r => (rID r =? id)%string) (records s).

(** The loop writes [records[i]] to [out[len-1-i]]. *)
Fixpoint list_loop (i : nat) (recs out : list SimRecord) (n : nat) : list SimRecord :=
  match recs with
  | [] => out
  | r :: recs => list_loop (S i) recs (<[(n - 1 - i)%nat := r]> out) n
  end.

(** [zero] is the zero record [make] fills the slice with. *)
Definition List_ (zero : SimRecord) (s : Store) : list SimRecord :=
  list_loop 0 (records s) (replicate (length (records s)) zero) (length (records s)).

Definition Clear (s : Store) : Store := {| records := []; capacity := capacity s |}.

(** ** Lemmas *)

(** The representation invariant. *)
Definition store_ok (s : Store) : Prop :=
  1 <= capacity s /\ Z.of_nat (length (records s)) <= capacity s.

Lemma New_ok c : store_ok (New c).
Proof. unfold store_ok, New. simpl. destruct (Z.ltb_spec c 1); lia. Qed.

Lemma Save_ok r s : store_ok s -> store_ok (Save r s).
Proof.
  intros [Hc Hl]. unfold store_ok, Save. simpl. split; [done|]. rewrite length_app. simpl.
  destruct (Z.leb_spec (capacity s) (Z.of_nat (length (records s)))); [|lia].
  destruct (records s); simpl in *; lia.
Qed.

(** The last [n] elements. *)
Definition lastn {A} (n : nat) (l : list A) : list A := drop (length l - n) l.

Lemma lastn_snoc {A} n (l : list A) x : (1 <= n)%nat ->
  lastn n (l ++ [x]) = (if (n <=? length (lastn n l))%nat then tail (lastn n l) else lastn n l) ++ [x].
Proof.
  intros Hn. unfold lastn. rewrite length_app, length_drop. simpl.
  destruct (Nat.leb_spec n (length l - (length l - n))).
  - rewrite drop_app_le by lia. f_equal.
    replace (length l + 1 - n)%nat with (length l - n + 1)%nat by lia.
    rewrite <-drop_drop. by destruct (drop (length l - n) l).
  - rewrite drop_app_le by lia. do 2 f_equal. lia.
Qed.

Definition save_all (rs : list SimRecord) (s : Store) : Store :=
  fold_left (fun s r => Save r s) rs s.

Lemma save_all_records rs c :
  records (save_all rs (New c)) = lastn (Z.to_nat (capacity (New c))) rs /\
  capacity (save_all rs (New c)) = capacity (New c).
Proof.
  pose proof (New_ok c) as [Hc _]. set (n := capacity (New c)) in *.
  induction rs as [|r rs [IH1 IH2]] using rev_ind; [done|].
  unfold save_all in *. rewrite fold_left_app. cbn [fold_left].
  set (s := fold_left _ rs _) in *. split; [|exact IH2].
  change (records (Save r s)) with
    ((if capacity s <=? Z.of_nat (length (records s)) then tail (records s) else records s) ++ [r]).
  rewrite IH1, IH2, lastn_snoc by lia.
  destruct (Z.leb_spec n (Z.of_nat (length (lastn (Z.to_nat n) rs))));
    destruct (Nat.leb_spec (Z.to_nat n) (length (lastn (Z.to_nat n) rs))); (done || lia).
Qed.

Lemma list_loop_spec recs : forall i out,
  (i + length recs = length out)%nat ->
  list_loop i recs out (length out) = rev recs ++ drop (length recs) out.
Proof.
  induction recs as [|r recs IH]; intros i out Hlen; cbn [list_loop rev length] in *; [done|].
  assert (Hk : (length out - 1 - i = length recs)%nat) by lia.
  rewrite Hk. rewrite <-(length_insert out (length recs) r).
  rewrite IH by (rewrite length_insert; lia).
  rewrite <-app_assoc. f_equal. simpl.
  rewrite (drop_S _ r) by (apply list_lookup_insert_eq; lia).
  by rewrite drop_insert_lt by lia.
Qed.

Lemma List_rev zero s : List_ zero s = rev (records s).
Proof.
  unfold List_.
  pose proof (list_loop_spec (records s) 0 (replicate (length (records s)) zero)) as H.
  rewrite length_replicate in H. rewrite H by done.
  rewrite drop_ge by (by rewrite length_replicate). apply app_nil_r.
Qed.

(** ** Properties *)

(** A store built with capacity c (100 when c is below 1) holds, after any
    sequence of saves, exactly the last c records saved, oldest first; [List]
    returns them newest first, never more than the capacity, and [Get] finds an
    id exactly when a retained record has it, returning the oldest such record. *)
Theorem store_keeps_last_records c zero rs id :
  let s := save_all rs (New c) in
  let n := if c <? 1 then 100 else c in
  records s = drop (length rs - Z.to_nat n) rs /\
  List_ zero s = rev (drop (length rs - Z.to_nat n) rs) /\
  Z.of_nat (length (List_ zero s)) = Z.min n (Z.of_nat (length rs)) /\
  (forall r, Get id s = Some r <->
     exists before after, records s = before ++ r :: after /\ rID r = id /\
       forall r', r' ∈ before -> rID r' <> id) /\
  (Get id s = None <-> forall r, r ∈ records s -> rID r <> id).
Proof.
  intros s n. pose proof (save_all_records rs c) as [Hr _]. fold s in Hr.
  change (capacity (New c)) with n in Hr.
  assert (Hn : 1 <= n) by (unfold n; destruct (Z.ltb_spec c 1); lia).
  assert (Hlist : List_ zero s = rev (drop (length rs - Z.to_nat n) rs)) by (by rewrite List_rev, Hr).
  split; [done|]. split; [done|]. split.
  { rewrite Hlist, length_rev, length_drop. lia. }
  unfold Get. clear Hr Hlist. split.
  - intros r. induction (records s) as [|x xs IH]; simpl.
    + split; [done|]. by intros ([|? ?] & after & ? & _).
    + destruct (String.eqb_spec (rID x) id) as [E|E].
      * split.
        -- intros [= <-]. exists [], xs. split; [done|]. split; [done|]. by intros r' ?%elem_of_nil.
        -- intros ([|y ys] & after & [= -> ?] & Hid & Hb); [done|].
           exfalso. apply (Hb y); [left|done].
      * rewrite IH. split.
        -- intros (b & a & -> & Hid & Hb). exists (x :: b), a. split; [done|]. split; [done|].
           intros r' [->|Hr']%elem_of_cons; auto.
        -- intros ([|y ys] & a & [= -> ->] & Hid & Hb); [done|]. exists ys, a.
           split; [done|]. split; [done|]. intros r' Hr'. apply Hb. by right.
  - induction (records s) as [|x xs IH]; simpl.
    + split; [by intros _ r ?%elem_of_nil|done].
    + destruct (String.eqb_spec (rID x) id) as [E|E].
      * split; [done|]. intros Hall. exfalso. apply (Hall x); [left|done].
      * rewrite IH. split; intros Hall r Hr.
        -- apply elem_of_cons in Hr as [->|Hr]; auto.
        -- apply Hall. by right.
Qed.
