(* ===== verification/Logging.v ===== *)
(** * Request identifiers and log settings (src/internal/logging/logging.go)

    The base-36 identifiers the logger hands out, with the code's fixed buffer,
    and what [Init] reads from the configured level and format. The [slog]
    handlers are library code; a context's values are a finite map. *)

From Stdlib Require Import Ascii.
From S2P Require Import Prelude.
From S2P Require Import Float64.
From S2P Require Import Text.

(** ** Identifiers *)

Definition digits : list ascii := chars "0123456789abcdefghijklmnopqrstuvwxyz".

(** The loop of [fmtUint32Base36]: [i] is the index into the buffer; a panic (the
    buffer too small) is [None], and so is an empty fuel. *)
Fixpoint fmt_loop (fuel : nat) (n i : Z) (buf : list ascii) : option (Z * list ascii) :=
  match fuel with
  | O => None
  | S fuel =>
      if 0 <? n then
        let i := i - 1 in
        if i <? 0 then None else
        c ← digits !! Z.to_nat (n mod 36);
        fmt_loop fuel (n / 36) i (<[Z.to_nat i := c]> buf)
      else Some (i, buf)
  end.

Definition fmtUint32Base36 (n : Z) : option string :=
  if n =? 0 then Some "0"%string else
  let buf := replicate 7 zero in
  '(i, buf) ← fmt_loop 8 n (Z.of_nat (length buf)) buf;
  Some (ofChars (drop (Z.to_nat i) buf)).

(** [atomic.AddUint32]: the counter wraps at 32 bits. *)
Definition wrapU32 (z : Z) : Z := z mod 2 ^ 32.

(** The new counter and the identifier. *)
Definition NextRequestID (counter : Z) : Z * option string :=
  let n := wrapU32 (counter + 1) in (n, fmtUint32Base36 n).

(** ** Settings *)

Inductive Level := LevelDebug | LevelInfo | LevelWarn | LevelError.
Inductive Format := TextFormat | JSONFormat.

Definition Init `{GoUnicode} (level format : string) : Level * Format :=
  let lvl := ToLower level in
  let fmt := ToLower format in
  (if (lvl =? "debug")%string then LevelDebug
   else if (lvl =? "info")%string then LevelInfo
   else if (lvl =? "warn")%string then LevelWarn
   else if (lvl =? "error")%string then LevelError
   else LevelInfo,
   if (fmt =? "text")%string then TextFormat else JSONFormat).

(** The request context: the identifier stored under the package's key, if any. *)
Definition Context : Type := option string.

Definition ContextWithRequestID (ctx : Context) (id : string) : Context := Some id.
Definition RequestIDFromContext (ctx : Context) : string := default ""%string ctx.

(** The attribute [FromContext] adds to the logger. *)
Definition FromContext (ctx : Context) : option string :=
  match ctx with
  | Some id => if (id =? "")%string then None else Some id
  | None => None
  end.

(** ** The identifiers are numerals *)

(** Value of a digit and of a numeral. *)
Definition digitVal (c : ascii) : Z :=
  if isDigit c then byteZ c - 48 else byteZ c - 87.
Definition decode (l : list ascii) : Z := fold_left (fun acc c => acc * 36 + digitVal c) l 0.

(** The digits of a positive number, as the loop writes them. *)
Fixpoint numeral (fuel : nat) (n : Z) (acc : list ascii) : list ascii :=
  match fuel with
  | O => acc
  | S fuel => if 0 <? n then numeral fuel (n / 36) (default zero (digits !! Z.to_nat (n mod 36)) :: acc)
              else acc
  end.

Lemma digit_lookup k : 0 <= k < 36 ->
  exists c, digits !! Z.to_nat k = Some c /\ digitVal c = k /\ c ∈ digits.
Proof.
  intros Hk. assert (Hall : forallb (fun i => match digits !! i with
    | Some c => digitVal c =? Z.of_nat i | None => false end) (seq 0 36) = true) by (vm_compute; reflexivity).
  rewrite forallb_forall in Hall. specialize (Hall (Z.to_nat k)).
  rewrite in_seq in Hall. specialize (Hall ltac:(lia)). cbv beta in Hall.
  destruct (digits !! Z.to_nat k) as [c|] eqn:E; [|done]. exists c. split; [done|].
  apply Z.eqb_eq in Hall. rewrite Z2Nat.id in Hall by lia.
  split; [done|by eapply list_elem_of_lookup_2].
Qed.

Lemma fold_decode l : forall acc,
  fold_left (fun acc c => acc * 36 + digitVal c) l acc = acc * 36 ^ Z.of_nat (length l) + decode l.
Proof.
  unfold decode. induction l as [|c l IH]; intros acc; cbn [fold_left length]; [lia|].
  rewrite (IH (acc * 36 + digitVal c)), (IH (0 * 36 + digitVal c)), Nat2Z.inj_succ, Z.pow_succ_r by lia.
  ring.
Qed.

Lemma decode_cons c l : decode (c :: l) = digitVal c * 36 ^ Z.of_nat (length l) + decode l.
Proof. unfold decode at 1. cbn [fold_left]. by rewrite fold_decode. Qed.

(** A numeral decodes to its number, with enough fuel. *)
Lemma numeral_decode fuel : forall n acc, 0 <= n < 36 ^ Z.of_nat fuel ->
  decode (numeral fuel n acc) = n * 36 ^ Z.of_nat (length acc) + decode acc.
Proof.
  induction fuel as [|fuel IH]; intros n acc Hn; cbn [numeral].
  - change (36 ^ Z.of_nat 0) with 1 in Hn. replace n with 0 by lia. lia.
  - destruct (Z.ltb_spec 0 n); [|replace n with 0 by lia; lia].
    rewrite Nat2Z.inj_succ, Z.pow_succ_r in Hn by lia.
    rewrite IH by (split; [apply Z.div_pos; lia|apply Z.div_lt_upper_bound; lia]).
    destruct (digit_lookup (n mod 36)) as (c & -> & Hc & _); [by apply Z.mod_pos_bound|].
    change (default zero (Some c)) with c. rewrite decode_cons, Hc. cbn [length]. rewrite Nat2Z.inj_succ, Z.pow_succ_r by lia.
    pose proof (Z.div_mod n 36 ltac:(lia)). nia.
Qed.

Lemma numeral_length fuel : forall n acc,
  (length (numeral fuel n acc) <= fuel + length acc)%nat /\
  (length acc <= length (numeral fuel n acc))%nat.
Proof.
  induction fuel as [|fuel IH]; intros n acc; cbn [numeral]; [lia|].
  destruct (0 <? n); [|lia]. destruct (IH (n / 36) (default zero (digits !! Z.to_nat (n mod 36)) :: acc)) as [H1 H2].
  cbn [length] in *. lia.
Qed.

Lemma numeral_digits fuel : forall n acc, Forall (fun c => c ∈ digits) acc ->
  Forall (fun c => c ∈ digits) (numeral fuel n acc).
Proof.
  induction fuel as [|fuel IH]; intros n acc Ha; cbn [numeral]; [done|].
  destruct (0 <? n); [|done]. apply IH. constructor; [|done].
  destruct (digit_lookup (n mod 36)) as (c & -> & _ & Hc); [by apply Z.mod_pos_bound|exact Hc].
Qed.

(** A positive number's numeral is not empty. *)
Lemma numeral_pos fuel n acc : 0 < n -> (length acc < length (numeral (S fuel) n acc))%nat.
Proof.
  intros Hn. cbn [numeral]. rewrite (proj2 (Z.ltb_lt 0 n)) by done.
  pose proof (proj2 (numeral_length fuel (n / 36) (default zero (digits !! Z.to_nat (n mod 36)) :: acc))).
  cbn [length] in *. lia.
Qed.

(** The loop fills the buffer from the right with the numeral. *)
Lemma fmt_loop_numeral fuel : forall n i buf acc,
  0 <= n < 36 ^ Z.of_nat fuel -> Z.of_nat fuel <= i <= Z.of_nat (length buf) ->
  drop (Z.to_nat i) buf = acc ->
  exists i' buf', fmt_loop (S fuel) n i buf = Some (i', buf') /\
    drop (Z.to_nat i') buf' = numeral fuel n acc.
Proof.
  induction fuel as [|fuel IH]; intros n i buf acc Hn Hi Hd.
  - change (36 ^ Z.of_nat 0) with 1 in Hn. replace n with 0 by lia. exists i, buf. done.
  - cbn [fmt_loop numeral]. destruct (Z.ltb_spec 0 n); [|exists i, buf; done].
    destruct (Z.ltb_spec (i - 1) 0); [lia|].
    destruct (digit_lookup (n mod 36)) as (c & -> & _ & _); [by apply Z.mod_pos_bound|].
    change (default zero (Some c)) with c. cbn [mbind option_bind].
    rewrite Nat2Z.inj_succ, Z.pow_succ_r in Hn by lia.
    destruct (IH (n / 36) (i - 1) (<[Z.to_nat (i - 1) := c]> buf) (c :: acc)) as (i' & buf' & E & Hd');
      [split; [apply Z.div_pos; lia|apply Z.div_lt_upper_bound; lia]|rewrite length_insert; lia| |].
    + rewrite (drop_S (<[Z.to_nat (i - 1) := c]> buf) c) by (apply list_lookup_insert_eq; lia).
      rewrite drop_insert_lt by lia. replace (S (Z.to_nat (i - 1))) with (Z.to_nat i) by lia. by rewrite Hd.
    + exists i', buf'. split; [exact E|done].
Qed.

Lemma fmt_numeral n : 0 < n < 2 ^ 32 -> fmtUint32Base36 n = Some (ofChars (numeral 7 n [])).
Proof.
  intros Hn. unfold fmtUint32Base36. rewrite (proj2 (Z.eqb_neq n 0)) by lia.
  destruct (fmt_loop_numeral 7 n 7 (replicate 7 zero) []) as (i & buf & E & Hd);
    [change (36 ^ Z.of_nat 7) with 78364164096; lia|cbn; lia|done|].
  cbn [length replicate] in *. change (Z.of_nat 7) with 7. rewrite E. cbn [mbind option_bind].
  by rewrite Hd.
Qed.

(** Every counter value has an identifier, which decodes to it. *)
Lemma fmt_ok m : 0 <= m < 2 ^ 32 -> exists s, fmtUint32Base36 m = Some s /\
  decode (chars s) = m /\ (1 <= String.length s <= 7)%nat /\ Forall (fun c => c ∈ digits) (chars s).
Proof.
  intros Hm. destruct (Z.eq_dec m 0) as [->|Hne].
  - exists "0"%string. repeat split; [simpl; lia..|]. apply Forall_singleton. by left.
  - rewrite fmt_numeral by lia. eexists. split; [done|]. rewrite <-length_chars, chars_ofChars.
    split; [|split].
    + rewrite numeral_decode by (change (36 ^ Z.of_nat 7) with 78364164096; lia).
      cbn [length]. change (decode []) with 0. lia.
    + pose proof (numeral_length 7 m []) as [H1 _]. pose proof (numeral_pos 6 m [] ltac:(lia)) as H2.
      cbn [length] in *. lia.
    + by apply numeral_digits.
Qed.

(** ** Properties *)

(** C37: The identifier of every 32-bit counter value fits the 7-byte buffer, is a
    non-empty word over the 36 digits and is read back as the number it was made
    from; so the identifiers of any two of 2^32 consecutive requests differ. *)
Theorem request_ids_roundtrip (n c k : Z) :
  0 <= n < 2 ^ 32 -> 0 <= c -> 0 < k < 2 ^ 32 ->
  (exists s, fmtUint32Base36 n = Some s /\ decode (chars s) = n /\
     (1 <= String.length s <= 7)%nat /\ Forall (fun c => c ∈ digits) (chars s)) /\
  (NextRequestID c).2 <> (NextRequestID (c + k)).2.
Proof.
  intros Hn Hc Hk. split; [by apply fmt_ok|]. intros E. unfold NextRequestID in E. cbn [snd] in E.
  assert (Hw : forall z, 0 <= wrapU32 z < 2 ^ 32) by (intros z; by apply Z.mod_pos_bound).
  destruct (fmt_ok _ (Hw (c + 1))) as (s & Es & Ds & _), (fmt_ok _ (Hw (c + k + 1))) as (t & Et & Dt & _).
  assert (Heq : wrapU32 (c + 1) = wrapU32 (c + k + 1)) by congruence.
  unfold wrapU32 in Heq. replace (c + k + 1) with (c + 1 + k) in Heq by lia.
  pose proof (Z.div_mod (c + 1) (2 ^ 32) ltac:(lia)). pose proof (Z.div_mod (c + 1 + k) (2 ^ 32) ltac:(lia)).
  assert (k = 2 ^ 32 * ((c + 1 + k) / 2 ^ 32 - (c + 1) / 2 ^ 32)) by lia. nia.
Qed.

Lemma request_ids_roundtrip_witness :
  fmtUint32Base36 4294967295 = Some "1z141z3"%string /\
  (NextRequestID 4294967295).2 = Some "0"%string /\
  (NextRequestID 4294967295).2 <> (NextRequestID (4294967295 + 1)).2.
Proof.
  split; [vm_compute; reflexivity|]. split; [vm_compute; reflexivity|].
  apply (request_ids_roundtrip 5 4294967295 1); lia.
Defined.
