(* ===== verification/Config.v ===== *)
(** * Configuration (src/internal/config/config.go)

    The defaults, the overrides from the environment and their validation; the
    environment is a function from names to values, the empty string meaning that
    a variable is not set. With it, the two other places that read [PORT]: the
    server's [DefaultPort] and the health probe of the entry point. *)

From Stdlib Require Import Ascii.
From S2P Require Import Prelude.
From S2P Require Import Float64.
From S2P Require Import Text.

(** Durations are [int64] nanoseconds. *)
Definition Second : Z := 1000000000.

Record Config := mkConfig {
  Port : string;
  ReadTimeout : Z;
  WriteTimeout : Z;
  IdleTimeout : Z;
  ShutdownTimeout : Z;
  StaticDir : string;
  LogLevel : string;
  LogFormat : string;
  DefaultSpeed : Z;
  DefaultTimeQuantum : Z;
  BroadcastBufferSize : Z;
  MaxClients : Z;
  WSReadLimit : Z;
  WSWriteWait : Z;
  WSPongWait : Z;
  WSPingPeriod : Z;
  WSOriginAllow : list string;
  AllowLocalOrigin : bool;
  SimConcurrencyLimit : Z;
  EnableMetrics : bool
}.

Definition Default : Config := {|
  Port := ":8082";
  ReadTimeout := 5 * Second;
  WriteTimeout := 30 * Second;
  IdleTimeout := 120 * Second;
  ShutdownTimeout := 5 * Second;
  StaticDir := "./web/static";
  LogLevel := "info";
  LogFormat := "json";
  DefaultSpeed := 100;
  DefaultTimeQuantum := 4;
  BroadcastBufferSize := 64;
  MaxClients := 0;
  WSReadLimit := 4 * 1024;
  WSWriteWait := 10 * Second;
  WSPongWait := 60 * Second;
  WSPingPeriod := 30 * Second;
  WSOriginAllow := [];
  AllowLocalOrigin := true;
  SimConcurrencyLimit := 10;
  EnableMetrics := true
|}.

Definition normalizePort (v : string) : string :=
  if negb (HasPrefix v ":") then (":" ++ v)%string else v.

(** [if v := os.Getenv(name); v != "" { ... }] around an assignment. *)
Definition override {A} (v : string) (old : A) (f : string -> A) : A :=
  if (v =? "")%string then old else f v.

(** The assignments that only happen for a value that parses and passes a test. *)
Definition parsed (parse : string -> option Z) (ok : Z -> bool) (old : Z) (v : string) : Z :=
  match parse v with
  | Some n => if ok n then n else old
  | None => old
  end.

Definition isTrue (v : string) : bool := EqualFold v "true" || (v =? "1")%string.

(** Every override assigns one field of its own. *)
Definition FromEnv `{GoUnicode} (Getenv : string -> string) : Config :=
  let c := Default in
  let positive := fun n => 0 <? n in
  let natural := fun n => 0 <=? n in
  let parseDur := fun name old => override (Getenv name) old (parsed ParseDuration positive old) in
  {| Port := override (Getenv "PORT") (Port c) normalizePort;
     ReadTimeout := parseDur "READ_TIMEOUT"%string (ReadTimeout c);
     WriteTimeout := parseDur "WRITE_TIMEOUT"%string (WriteTimeout c);
     IdleTimeout := parseDur "IDLE_TIMEOUT"%string (IdleTimeout c);
     ShutdownTimeout := parseDur "SHUTDOWN_TIMEOUT"%string (ShutdownTimeout c);
     StaticDir := override (Getenv "STATIC_DIR") (StaticDir c) (fun v => v);
     LogLevel := override (Getenv "LOG_LEVEL") (LogLevel c) ToLower;
     LogFormat := override (Getenv "LOG_FORMAT") (LogFormat c) ToLower;
     DefaultSpeed := override (Getenv "DEFAULT_SPEED") (DefaultSpeed c)
       (parsed Atoi positive (DefaultSpeed c));
     DefaultTimeQuantum := override (Getenv "DEFAULT_TIME_QUANTUM") (DefaultTimeQuantum c)
       (parsed Atoi positive (DefaultTimeQuantum c));
     BroadcastBufferSize := override (Getenv "BROADCAST_BUFFER_SIZE") (BroadcastBufferSize c)
       (parsed Atoi positive (BroadcastBufferSize c));
     MaxClients := override (Getenv "MAX_CLIENTS") (MaxClients c)
       (parsed Atoi natural (MaxClients c));
     WSReadLimit := override (Getenv "WS_READ_LIMIT_BYTES") (WSReadLimit c)
       (parsed Atoi positive (WSReadLimit c));
     WSWriteWait := parseDur "WS_WRITE_WAIT"%string (WSWriteWait c);
     WSPongWait := parseDur "WS_PONG_WAIT"%string (WSPongWait c);
     WSPingPeriod := parseDur "WS_PING_PERIOD"%string (WSPingPeriod c);
     WSOriginAllow := override (Getenv "ALLOWED_ORIGINS") (WSOriginAllow c) (fun v =>
       fold_left (fun acc o => let o := TrimSpace o in if (o =? "")%string then acc else acc ++ [o])
         (Split v ",") (WSOriginAllow c));
     AllowLocalOrigin := override (Getenv "ALLOW_LOCAL_ORIGIN") (AllowLocalOrigin c) isTrue;
     SimConcurrencyLimit := override (Getenv "SIM_CONCURRENCY_LIMIT") (SimConcurrencyLimit c)
       (parsed Atoi natural (SimConcurrencyLimit c));
     EnableMetrics := override (Getenv "ENABLE_METRICS") (EnableMetrics c) isTrue |}.

(** The errors of [Validate], with what their messages quote. *)
Inductive ConfigError :=
| PortEmpty
| PortNoColon (port : string)
| PortNotNumeric (port : string)
| InvalidLogLevel (level : string)
| InvalidLogFormat (format : string)
| ReadTimeoutNotPositive
| IdleTimeoutNotPositive
| PingNotBelowPong (ping pong : Z).

Definition WSPongPeriodValid (c : Config) : option ConfigError :=
  if WSPongWait c <=? WSPingPeriod c
  then Some (PingNotBelowPong (WSPingPeriod c) (WSPongWait c)) else None.

(** The configuration is returned unchanged along with the error. *)
Definition Validate (c : Config) : Config * option ConfigError :=
  if (Port c =? "")%string then (c, Some PortEmpty)
  else if negb (HasPrefix (Port c) ":") then (c, Some (PortNoColon (Port c)))
  else match Atoi (TrimByte (Port c) ":") with
  | None => (c, Some (PortNotNumeric (Port c)))
  | Some _ =>
  if negb (existsb (String.eqb (LogLevel c)) ["debug"; "info"; "warn"; "error"]%string)
  then (c, Some (InvalidLogLevel (LogLevel c)))
  else if negb (existsb (String.eqb (LogFormat c)) ["json"; "text"]%string)
  then (c, Some (InvalidLogFormat (LogFormat c)))
  else if ReadTimeout c <=? 0 then (c, Some ReadTimeoutNotPositive)
  else if IdleTimeout c <=? 0 then (c, Some IdleTimeoutNotPositive)
  else match WSPongPeriodValid c with
       | Some err => (c, Some err)
       | None => (c, None)
       end
  end.

(** ** The other readers of [PORT] *)

(** [web.DefaultPort] *)
Definition DefaultPort (Getenv : string -> string) (fallback : string) : string :=
  let p := Getenv "PORT"%string in
  if (p =? "")%string then fallback
  else match Atoi p with
       | Some _ => (":" ++ p)%string
       | None => fallback
       end.

(** The URL the probe [--health] asks. *)
Definition healthURL (Getenv : string -> string) : string :=
  let port := Getenv "PORT"%string in
  let port := if (port =? "")%string then ":8082"%string else port in
  let port := match String.get 0 port with
              | Some c => if Ascii.eqb c ":" then port else (":" ++ port)%string
              | None => port
              end in
  ("http://localhost" ++ port ++ "/health")%string.

(** ** Lemmas *)

Lemma override_ind {A} (P : A -> Prop) v old f : P old -> (forall v, P (f v)) -> P (override v old f).
Proof. unfold override. by destruct (v =? "")%string. Qed.

Lemma parsed_ind (P : Z -> Prop) parse ok old v : P old ->
  (forall s n, parse s = Some n -> ok n = true -> P n) -> P (parsed parse ok old v).
Proof.
  intros Hold Hok. unfold parsed. destruct (parse v) as [n|] eqn:E; [|done].
  destruct (ok n) eqn:En; [by eapply Hok|done].
Qed.

(** A positive (or natural) [int64] from a parser that stays in range. *)
Lemma override_positive parse v old : (forall s n, parse s = Some n -> in_int n) -> 0 < old <= max_int ->
  0 < override v old (parsed parse (fun n => 0 <? n) old) <= max_int.
Proof.
  intros Hp Hold. apply override_ind; [done|]. intros w. apply parsed_ind; [done|].
  intros s n Hs Hn. destruct (Hp s n Hs). lia.
Qed.

Lemma override_natural parse v old : (forall s n, parse s = Some n -> in_int n) -> 0 <= old <= max_int ->
  0 <= override v old (parsed parse (fun n => 0 <=? n) old) <= max_int.
Proof.
  intros Hp Hold. apply override_ind; [done|]. intros w. apply parsed_ind; [done|].
  intros s n Hs Hn. destruct (Hp s n Hs). lia.
Qed.

Lemma normalizePort_prefix v : HasPrefix (normalizePort v) ":" = true.
Proof.
  unfold normalizePort. destruct (HasPrefix v ":") eqn:E; [done|]. cbn. by destruct v.
Qed.

Lemma origins_nonempty `{GoUnicode} l : forall acc, Forall (fun o => o <> ""%string) acc ->
  Forall (fun o => o <> ""%string)
    (fold_left (fun acc o => let o := TrimSpace o in if (o =? "")%string then acc else acc ++ [o]) l acc).
Proof.
  induction l as [|o l IH]; intros acc Ha; [done|]. cbn [fold_left]. apply IH.
  cbv zeta. destruct (String.eqb_spec (TrimSpace o) ""); [done|].
  apply Forall_app. split; [done|]. by apply Forall_singleton.
Qed.

(** What the overrides guarantee of the numbers. *)
Lemma FromEnv_ranges `{GoUnicode} (Getenv : string -> string) :
  let c := FromEnv Getenv in
  (0 < DefaultSpeed c <= max_int /\ 0 < DefaultTimeQuantum c <= max_int /\
   0 < BroadcastBufferSize c <= max_int /\ 0 < WSReadLimit c <= max_int) /\
  (0 <= MaxClients c <= max_int /\ 0 <= SimConcurrencyLimit c <= max_int) /\
  Forall (fun d => 0 < d <= max_int)
    [ReadTimeout c; WriteTimeout c; IdleTimeout c; ShutdownTimeout c;
     WSWriteWait c; WSPongWait c; WSPingPeriod c].
Proof.
  cbv zeta. pose proof Atoi_range as Ha. pose proof ParseDuration_range as Hd. split; [|split].
  - repeat split; apply override_positive; done.
  - repeat split; apply override_natural; done.
  - repeat apply List.Forall_cons; try apply List.Forall_nil; apply override_positive; done.
Qed.

Lemma FromEnv_port `{GoUnicode} Getenv : HasPrefix (Port (FromEnv Getenv)) ":" = true.
Proof. apply (override_ind (fun p => HasPrefix p ":" = true)); [done|apply normalizePort_prefix]. Qed.

Lemma Validate_same c : (Validate c).1 = c.
Proof.
  unfold Validate. repeat (destruct (_ : bool); [done|]). destruct (Atoi _); [|done].
  repeat (destruct (_ : bool); [done|]). by destruct (WSPongPeriodValid c).
Qed.

(** A [PORT] of the form HOST:PORT is loaded with a colon in front, and refused. *)
Lemma host_port_refused `{GoUnicode} (Getenv : string -> string) host port :
  host <> ""%string -> Getenv "PORT"%string = (host ++ ":" ++ port)%string ->
  (Validate (FromEnv Getenv)).2 = Some (PortNotNumeric (Port (FromEnv Getenv))).
Proof.
  intros Hne E. pose proof (FromEnv_port Getenv) as Hp.
  assert (Hc : ":"%char ∈ chars (TrimByte (Port (FromEnv Getenv)) ":")).
  { cbn [FromEnv Port]. rewrite E. unfold override, normalizePort, HasPrefix.
    destruct host as [|a host]; [done|].
    assert (Hin : ":"%char ∈ chars (host ++ String ":" port)).
    { rewrite chars_app. apply elem_of_app. right. by left. }
    change ((String a host ++ ":" ++ port)%string) with (String a (host ++ String ":" port)).
    cbn [String.eqb String.prefix]. destruct (ascii_dec ":" a) as [<-|Hna].
    - destruct (host ++ String ":" port)%string; exact Hin.
    - exact (list_elem_of_further _ a _ Hin). }
  unfold Validate. rewrite (Atoi_colon _ Hc), Hp. destruct (String.eqb_spec (Port (FromEnv Getenv)) "") as [Ez|_]; [|done].
  by rewrite Ez in Hp.
Qed.

(** The health probe asks the port the server listens on, whatever [PORT] holds;
    [DefaultPort] agrees with both when [PORT] is an integer, or unset with the
    default as the fallback. *)
Lemma health_probe_asks_the_port `{GoUnicode} (Getenv : string -> string) :
  healthURL Getenv = ("http://localhost" ++ Port (FromEnv Getenv) ++ "/health")%string /\
  (forall n, Atoi (Getenv "PORT"%string) = Some n -> forall fallback,
     DefaultPort Getenv fallback = Port (FromEnv Getenv)) /\
  DefaultPort (fun _ => ""%string) ":8082" = Port (FromEnv (fun _ => ""%string)).
Proof.
  split; [|split; [|done]].
  - unfold healthURL. cbn [FromEnv Port]. unfold override, normalizePort, HasPrefix.
    destruct (Getenv "PORT"%string) as [|a s]; [done|]. cbn [String.eqb String.get String.prefix].
    destruct (ascii_dec ":" a) as [<-|Hne].
    + by destruct s.
    + destruct (Ascii.eqb_spec a ":"); [congruence|done].
  - intros n Hn fallback. unfold DefaultPort. cbn [FromEnv Port]. unfold override, normalizePort, HasPrefix.
    destruct (Getenv "PORT"%string) as [|a s] eqn:E; [done|]. rewrite Hn. cbn [String.eqb String.prefix].
    destruct (ascii_dec ":" a) as [<-|Hne]; [|done]. exfalso. revert Hn. unfold Atoi. cbn [chars].
    by destruct s.
Qed.

(** ** Properties *)

(** C36: Whatever the environment holds, the loaded configuration is in range: speed,
    quantum, buffer and read limit are positive 64-bit integers, the client and
    concurrency limits are not negative (0 is no limit), every timeout is positive, the
    port starts with a colon and no allowed origin is empty: values that do not parse or
    are out of range leave the defaults. [PORT] can only be a number with or without its
    colon: of the form HOST:PORT it is loaded with a colon in front, and [Validate]
    refuses it as not numeric. *)
Theorem FromEnv_well_formed `{GoUnicode} (Getenv : string -> string) :
  let c := FromEnv Getenv in
  (0 < DefaultSpeed c <= max_int /\ 0 < DefaultTimeQuantum c <= max_int /\
   0 < BroadcastBufferSize c <= max_int /\ 0 < WSReadLimit c <= max_int) /\
  (0 <= MaxClients c <= max_int /\ 0 <= SimConcurrencyLimit c <= max_int) /\
  Forall (fun d => 0 < d <= max_int)
    [ReadTimeout c; WriteTimeout c; IdleTimeout c; ShutdownTimeout c;
     WSWriteWait c; WSPongWait c; WSPingPeriod c] /\
  HasPrefix (Port c) ":" = true /\ Forall (fun o => o <> ""%string) (WSOriginAllow c) /\
  (forall host port, host <> ""%string -> Getenv "PORT"%string = (host ++ ":" ++ port)%string ->
     (Validate c).2 = Some (PortNotNumeric (Port c))).
Proof.
  cbv zeta. destruct (FromEnv_ranges Getenv) as (Hn & Hl & Ht). do 3 (split; [done|]).
  split; [apply FromEnv_port|]. split; [|apply host_port_refused].
  apply (override_ind (Forall (fun o => o <> ""%string))); [constructor|].
  intros v. apply origins_nonempty. constructor.
Qed.

(** [Validate] accepts exactly the configurations whose port is a colon and an
    integer, whose level and format are known, whose read and idle timeouts are
    positive and whose ping period is below the pong wait, and it never changes the
    configuration. Loaded from the environment, the timeouts and the colon cannot
    fail: only the number of the port, the two names and the ping period can. *)
Theorem Validate_accepts_exactly `{GoUnicode} (c : Config) (Getenv : string -> string) :
  ((Validate c).1 = c /\
   ((Validate c).2 = None <->
    (exists p n, Port c = String ":" p /\ Atoi p = Some n) /\
    LogLevel c ∈ ["debug"; "info"; "warn"; "error"]%string /\ LogFormat c ∈ ["json"; "text"]%string /\
    0 < ReadTimeout c /\ 0 < IdleTimeout c /\ WSPingPeriod c < WSPongWait c)) /\
  (forall err, (Validate (FromEnv Getenv)).2 = Some err ->
     match err with
     | PortNotNumeric _ | InvalidLogLevel _ | InvalidLogFormat _ | PingNotBelowPong _ _ => True
     | _ => False
     end).
Proof.
  assert (Hex : forall x l, existsb (String.eqb x) l = true <-> x ∈ l).
  { intros x l. rewrite existsb_exists, list_elem_of_In. split.
    - intros (y & Hy & ->%String.eqb_eq). done.
    - intros Hx. exists x. by rewrite String.eqb_refl. }
  split.
  - unfold Validate, WSPongPeriodValid.
    destruct (Port c) as [|a p] eqn:Ep; [split; [done|]; split; [done|]; by intros ((? & ? & ? & _) & _)|].
    cbn [String.eqb HasPrefix String.prefix TrimByte].
    destruct (ascii_dec ":" a) as [<-|Hne].
    2:{ cbn. split; [done|]. split; [done|]. intros ((? & ? & [= -> _] & _) & _). done. }
    destruct p; cbn [negb]; change (Ascii.eqb ":" ":") with true; cbv iota;
    (destruct (Atoi _) as [n|] eqn:En;
      [|split; [done|]; split; [done|]; intros ((? & ? & [= <-] & ?) & _); congruence]);
    rewrite <-!Hex;
    (destruct (existsb (String.eqb (LogLevel c)) _); cbn [negb];
      [|split; [done|]; split; [done|]; by intros (_ & ? & _)]);
    (destruct (existsb (String.eqb (LogFormat c)) _); cbn [negb];
      [|split; [done|]; split; [done|]; by intros (_ & _ & ? & _)]);
    (destruct (Z.leb_spec (ReadTimeout c) 0); [split; [done|]; split; [done|]; lia|]);
    (destruct (Z.leb_spec (IdleTimeout c) 0); [split; [done|]; split; [done|]; lia|]);
    (destruct (Z.leb_spec (WSPongWait c) (WSPingPeriod c)); [split; [done|]; split; [done|]; lia|]);
    (split; [done|]; split; [|done]; intros _; split; [eauto|]; done).
  - intros err. pose proof ParseDuration_range as Hd.
    pose proof (FromEnv_port Getenv) as Hp.
    assert (Hr : 0 < ReadTimeout (FromEnv Getenv)) by (by apply override_positive).
    assert (Hi : 0 < IdleTimeout (FromEnv Getenv)) by (by apply override_positive).
    revert Hp Hr Hi. generalize (FromEnv Getenv). intros c' Hp Hr Hi. unfold Validate, WSPongPeriodValid.
    destruct (String.eqb_spec (Port c') "") as [E|_]; [by rewrite E in Hp|]. rewrite Hp. cbn [negb].
    rewrite (proj2 (Z.leb_gt _ _) Hr), (proj2 (Z.leb_gt _ _) Hi).
    destruct (Atoi _); [|by intros [= <-]].
    destruct (negb _); [by intros [= <-]|]. destruct (negb _); [by intros [= <-]|].
    destruct (_ <=? _); [by intros [= <-]|done].
Qed.

(** *** Witnesses *)

(** Letters and spaces beyond ASCII as they are. *)
#[local] Instance plainUnicode : GoUnicode := {| lowerUnicode := fun s => s; trimUnicode := fun s => s |}.

Lemma FromEnv_well_formed_witness :
  let Getenv := fun k => if (k =? "PORT")%string then "localhost:8082"%string else ""%string in
  Port (FromEnv Getenv) = ":localhost:8082"%string /\ 0 < DefaultSpeed (FromEnv Getenv) /\
  (Validate (FromEnv Getenv)).2 = Some (PortNotNumeric ":localhost:8082").
Proof.
  intros Getenv. destruct (FromEnv_well_formed Getenv) as ((Hs & _) & _ & _ & _ & _ & Hr).
  split; [reflexivity|]. split; [exact (proj1 Hs)|].
  exact (Hr "localhost"%string "8082"%string ltac:(discriminate) eq_refl).
Defined.
