(* ===== verification/Metrics.v ===== *)
(** * Metrics (src/internal/metrics/metrics.go)

    The metrics the package declares and registers, and its functions as the calls
    they make on them, in order: the metric, the label values and the operation.
    The metrics themselves (their storage and exposition) are Prometheus objects;
    what its documentation asks of a call is [accepted]. *)

From Stdlib Require Import Ascii.
From S2P Require Import Prelude.

(** ** Declarations *)

(** A float64 constant of the source, as a fraction. *)
Definition Constant : Type := Z * positive.

Inductive Buckets :=
| DefBuckets
| ExponentialBuckets (start factor : Constant) (count : Z).

Inductive Kind := CounterVec | HistogramVec (b : Buckets) | Gauge.

#[export] Instance Buckets_eq_dec : EqDecision Buckets.
Proof. solve_decision. Defined.
#[export] Instance Kind_eq_dec : EqDecision Kind.
Proof. solve_decision. Defined.

Record Metric := mkMetric {
  metricName : string;
  metricHelp : string;
  metricKind : Kind;
  metricLabels : list string
}.

#[export] Instance Metric_eq_dec : EqDecision Metric.
Proof. solve_decision. Defined.

Definition httpRequestsTotal : Metric :=
  mkMetric "scheduler_http_requests_total" "Total HTTP requests by method, path, and status class."
    CounterVec ["method"; "path"; "status"]%string.
Definition httpRequestDuration : Metric :=
  mkMetric "scheduler_http_request_duration_seconds" "HTTP request latency in seconds."
    (HistogramVec DefBuckets) ["method"; "path"]%string.
Definition httpRequestSize : Metric :=
  mkMetric "scheduler_http_request_bytes" "HTTP request body size in bytes."
    (HistogramVec (ExponentialBuckets (64, 1%positive) (4, 1%positive) 10)) ["method"; "path"]%string.
Definition wsClientsGauge : Metric :=
  mkMetric "scheduler_ws_clients" "Current number of connected WebSocket clients." Gauge [].
Definition wsErrorsTotal : Metric :=
  mkMetric "scheduler_ws_errors_total" "WebSocket read/write errors by direction."
    CounterVec ["direction"]%string.
Definition simStartedTotal : Metric :=
  mkMetric "scheduler_sim_started_total" "Simulations started by algorithm."
    CounterVec ["algorithm"]%string.
Definition simCompletedTotal : Metric :=
  mkMetric "scheduler_sim_completed_total" "Simulations completed by algorithm."
    CounterVec ["algorithm"]%string.
Definition simStepsTotal : Metric :=
  mkMetric "scheduler_sim_steps_total" "Simulation time units executed by algorithm."
    CounterVec ["algorithm"]%string.
Definition simDuration : Metric :=
  mkMetric "scheduler_sim_duration_seconds" "End-to-end simulation wall-clock duration by algorithm."
    (HistogramVec (ExponentialBuckets (1, 1000%positive) (2, 1%positive) 15)) ["algorithm"]%string.

(** What a registry holds, in the order of its registration. *)
Inductive Collector := GoCollector | BuildInfoCollector | Of (m : Metric).

(** [register], on the registry's collectors. *)
Definition register (reg : list Collector) : list Collector :=
  reg ++ map Of
    [httpRequestsTotal; httpRequestDuration; httpRequestSize;
     wsClientsGauge; wsErrorsTotal;
     simStartedTotal; simCompletedTotal; simStepsTotal; simDuration].

(** [init] *)
Definition registry : list Collector := register ([] ++ [GoCollector] ++ [BuildInfoCollector]).

(** What [promhttp.HandlerFor] is given: the registry and [EnableOpenMetrics]. *)
Definition metricsHandler : list Collector * bool := (registry, true).

(** ** Calls *)

(** A value handed to a metric: [float64(n)] or a duration's [Seconds()]. *)
Inductive Value := Float64Of (n : Z) | Seconds (nanoseconds : Z).

Inductive Op := Inc | Dec | Add (v : Value) | Observe (v : Value).

Record MetricCall := mkCall { target : Metric; labelValues : list string; op : Op }.

(** [v.WithLabelValues(values...)] and an operation on the result. *)
Definition on (m : Metric) (values : list string) (o : Op) : MetricCall := mkCall m values o.

Definition IncClient : list MetricCall := [on wsClientsGauge [] Inc].
Definition DecClient : list MetricCall := [on wsClientsGauge [] Dec].
Definition IncWSError (direction : string) : list MetricCall := [on wsErrorsTotal [direction] Inc].
Definition SimStarted (algorithm : string) : list MetricCall := [on simStartedTotal [algorithm] Inc].
Definition SimCompleted (algorithm : string) (duration : Z) : list MetricCall :=
  [on simCompletedTotal [algorithm] Inc; on simDuration [algorithm] (Observe (Seconds duration))].
Definition SimSteps (algorithm : string) (steps : Z) : list MetricCall :=
  [on simStepsTotal [algorithm] (Add (Float64Of steps))].

Definition statusClass (status : Z) : string :=
  if 500 <=? status then "5xx"%string
  else if 400 <=? status then "4xx"%string
  else if 300 <=? status then "3xx"%string
  else if 200 <=? status then "2xx"%string
  else itoa status.

Definition ObserveHTTPRequest (method path : string) (status duration reqBytes : Z) : list MetricCall :=
  let sc := statusClass status in
  [on httpRequestsTotal [method; path; sc] Inc;
   on httpRequestDuration [method; path] (Observe (Seconds duration))] ++
  (if 0 <? reqBytes then [on httpRequestSize [method; path] (Observe (Float64Of reqBytes))] else []).

(** ** What the calls have to satisfy *)

Definition nonnegative (v : Value) : bool :=
  match v with Float64Of n | Seconds n => 0 <=? n end.

(** The operations of a kind; a counter panics on a negative addition. *)
Definition supports (k : Kind) (o : Op) : bool :=
  match k, o with
  | CounterVec, Inc | Gauge, Inc | Gauge, Dec | HistogramVec _, Observe _ => true
  | CounterVec, Add v => nonnegative v
  | _, _ => false
  end.

(** A call on an exposed metric with as many values as it has labels
    ([WithLabelValues] panics otherwise) that its kind supports. *)
Definition accepted (c : MetricCall) : Prop :=
  Of (target c) ∈ registry /\
  length (labelValues c) = length (metricLabels (target c)) /\
  supports (metricKind (target c)) (op c) = true.

(** What an operation adds to a counter or gauge. *)
Definition amount (o : Op) : Z :=
  match o with Inc => 1 | Dec => -1 | Add (Float64Of n) => n | _ => 0 end.

(** The value of a counter or gauge after the calls, over all labels; a metric is
    identified by its name ([registry_names]). *)
Definition total (m : Metric) (calls : list MetricCall) : Z :=
  zsum (fun c => if (metricName (target c) =? metricName m)%string then amount (op c) else 0) calls.

Lemma total_app m l1 l2 : total m (l1 ++ l2) = total m l1 + total m l2.
Proof. apply zsum_app. Qed.

Definition metricNames : list string :=
  flat_map (fun c => match c with Of m => [metricName m] | _ => [] end) registry.

Lemma registry_names : NoDup metricNames.
Proof. apply (bool_decide_unpack _). vm_compute. exact I. Qed.

Lemma registered_metric m : Of m ∈ registry <->
  m ∈ [httpRequestsTotal; httpRequestDuration; httpRequestSize; wsClientsGauge; wsErrorsTotal;
       simStartedTotal; simCompletedTotal; simStepsTotal; simDuration].
Proof.
  unfold registry, register. rewrite elem_of_app. split.
  - intros [Hin|Hin].
    + cbn in Hin. rewrite !elem_of_cons, elem_of_nil in Hin. naive_solver.
    + apply list_elem_of_fmap in Hin as (m' & [= <-] & Hin). exact Hin.
  - intros Hin. right. by apply list_elem_of_fmap_2.
Qed.

(** Discharges [accepted] of a call on one of the metrics. *)
Ltac accept :=
  repeat constructor; cbn; try done; try (apply registered_metric; set_solver); try (apply Z.leb_le; lia).

Lemma ObserveHTTPRequest_accepted method path status duration bytes :
  Forall accepted (ObserveHTTPRequest method path status duration bytes).
Proof. unfold ObserveHTTPRequest. destruct (0 <? bytes); accept. Qed.
