(* ===== verification/Middleware.v ===== *)
(** * HTTP middleware (src/internal/middleware/middleware.go)

    A handler is a state transformer on the world of one request: the response
    writer, the identifier counter, the log and the metric calls; it may end in a
    panic. The response writer follows [net/http]: the first [WriteHeader] or
    [Write] sends the headers as they are then. *)

From stdpp Require Import gmap strings.
From Stdlib Require Import Ascii.
From S2P Require Import Prelude.
From S2P Require Import Float64.
From S2P Require Import Text.
From S2P Require Import Logging.
From S2P Require Import Metrics.

(** ** Requests and responses *)

Notation Header := (gmap string string).

Record Request := mkRequest {
  Method : string;
  Path : string;                 (* r.URL.Path *)
  RouteValue : string;           (* r.PathValue("route") *)
  rHeader : Header;
  RemoteAddr : string;
  ContentLength : Z;
  ctx : Logging.Context
}.

(** [r.Header.Get] of a canonical name. *)
Definition GetHeader (r : Request) (k : string) : string := default ""%string (rHeader r !! k).

Definition WithContext (r : Request) (c : Logging.Context) : Request :=
  mkRequest (Method r) (Path r) (RouteValue r) (rHeader r) (RemoteAddr r) (ContentLength r) c.

(** A line of the log, with the request identifier the logger attaches. *)
Inductive LogLine :=
| LogRequest (id : option string) (method path route : string) (status bytes duration : Z) (remote : string)
| LogPanic (id : option string).

(** [captures]: the [statusWriter]s around the writer, innermost first, each the
    status and the bytes it has seen. [taken]: the connection has been hijacked, and
    the response its new owner wrote to it. [written]: the bytes of the body the
    server's writer took. *)
Record World := mkWorld {
  header : Header;
  sent : option (Z * Header);
  taken : option (Z * Header);
  written : Z;
  captures : list (Z * Z);
  idCount : Z;
  logged : list LogLine;
  observed : list MetricCall
}.

Definition set_header v w := mkWorld v (sent w) (taken w) (written w) (captures w) (idCount w) (logged w) (observed w).
Definition set_sent v w := mkWorld (header w) v (taken w) (written w) (captures w) (idCount w) (logged w) (observed w).
Definition set_taken v w := mkWorld (header w) (sent w) v (written w) (captures w) (idCount w) (logged w) (observed w).
Definition set_written v w := mkWorld (header w) (sent w) (taken w) v (captures w) (idCount w) (logged w) (observed w).
Definition set_captures v w := mkWorld (header w) (sent w) (taken w) (written w) v (idCount w) (logged w) (observed w).
Definition set_idCount v w := mkWorld (header w) (sent w) (taken w) (written w) (captures w) v (logged w) (observed w).
Definition set_logged v w := mkWorld (header w) (sent w) (taken w) (written w) (captures w) (idCount w) v (observed w).
Definition set_observed v w := mkWorld (header w) (sent w) (taken w) (written w) (captures w) (idCount w) (logged w) v.

(** The result and whether it panicked. *)
Definition Handler : Type := Request -> World -> World * bool.

(** ** The response writer *)

Definition SetHeader (k v : string) (w : World) : World := set_header (<[k := v]> (header w)) w.
Definition DelHeader (k : string) (w : World) : World := set_header (delete k (header w)) w.

(** [WriteHeader] of the server's writer, for a final status; it has no effect on a
    connection that was hijacked. *)
Definition sendStatus (code : Z) (w : World) : World :=
  match taken w, sent w with
  | None, None => set_sent (Some (code, header w)) w
  | _, _ => w
  end.

(** [statusWriter.WriteHeader], of every wrapper down to the server's writer. *)
Definition WriteHeader (code : Z) (w : World) : World :=
  sendStatus code (set_captures
    (map (fun c => (if c.1 =? 0 then code else c.1, c.2)) (captures w)) w).

(** The status that went out, 0 before that. *)
Definition statusOf (w : World) : Z := match sent w with Some (c, _) => c | None => 0 end.

(** A response with such a status has no body: [net/http] refuses to write it. *)
Definition bodyAllowed (status : Z) : bool := negb ((status =? 204) || (status =? 304)).

(** [statusWriter.Write] of [n] bytes: the status as above, then what the server's
    writer took, nothing if the connection was hijacked. *)
Definition Write (n : Z) (w : World) : World :=
  let w := sendStatus 200 (set_captures
    (map (fun c => (if c.1 =? 0 then 200 else c.1, c.2)) (captures w)) w) in
  let n := if bodyAllowed (statusOf w) && bool_decide (taken w = None) then n else 0 in
  set_written (written w + n) (set_captures (map (fun c => (c.1, c.2 + n)) (captures w)) w).

(** What the client gets of the body: the server's writer takes the body of a response
    to a HEAD request, counts it and throws it away. *)
Definition delivered (r : Request) (w : World) : Z :=
  if (Method r =? "HEAD")%string then 0 else written w.

(** [statusWriter.Hijack] of a connection, and the response its new owner writes to it:
    from then on the writer is out of use, and a second hijacking is refused. *)
Definition Hijack (reply : Z * Header) (w : World) : World :=
  match taken w with
  | None => set_taken (Some reply) w
  | Some _ => w
  end.

(** [http.Error], which writes the message and a newline. *)
Definition httpError (msg : string) (code : Z) (w : World) : World :=
  let w := DelHeader "Content-Length" w in
  let w := SetHeader "Content-Type" "text/plain; charset=utf-8" w in
  let w := SetHeader "X-Content-Type-Options" "nosniff" w in
  Write (Z.of_nat (String.length msg) + 1) (WriteHeader code w).

(** ** The middlewares *)

Definition csp : string :=
  "default-src 'self'; script-src 'self'; style-src 'self' 'unsafe-inline'; connect-src 'self' ws: wss:".

Definition SecureHeaders (next : Handler) : Handler := fun r w =>
  let w := SetHeader "X-Content-Type-Options" "nosniff" w in
  let w := SetHeader "X-Frame-Options" "DENY" w in
  let w := SetHeader "Referrer-Policy" "strict-origin-when-cross-origin" w in
  let w := SetHeader "Content-Security-Policy" csp w in
  next r w.

Definition sanitizeHeaderValue (s : string) : string := ofChars (List.filter printable (chars s)).

(** [logging.NextRequestID] on the world's counter. *)
Definition nextID (w : World) : option (string * World) :=
  let '(n, id) := NextRequestID (idCount w) in
  id ← id; Some (id, set_idCount n w).

Definition RequestID (next : Handler) : Handler := fun r w =>
  let id := GetHeader r "X-Request-ID" in
  let res :=
    if (id =? "")%string then nextID w
    else let id := sanitizeHeaderValue id in
         if (id =? "")%string then nextID w else Some (id, w) in
  match res with
  | None => (w, true)
  | Some (id, w) =>
      let id := if (64 <? String.length id)%nat then String.substring 0 64 id else id in
      let c := ContextWithRequestID (ctx r) id in
      next (WithContext r c) (SetHeader "X-Request-ID" id w)
  end.

Definition routePath (r : Request) : string :=
  if negb (RouteValue r =? "")%string then RouteValue r
  else let p := Path r in
       if HasPrefix p "/api/simulations/" then "/api/simulations/{id}"%string
       else if HasPrefix p "/api/simulate" then "/api/simulate"%string
       else p.

(** [duration] is what the clock says of the request. A panic passes by the
    statements after the call. *)
Definition LogAndMetrics (duration : Z) (next : Handler) : Handler := fun r w =>
  let '(w', panicked) := next r (set_captures ((0, 0) :: captures w) w) in
  let '(status, bytes) := default (0, 0) (head (captures w')) in
  let w' := set_captures (tail (captures w')) w' in
  if panicked : bool then (w', true) else
  let path := routePath r in
  let w' := set_observed (observed w' ++
    ObserveHTTPRequest (Method r) path status duration (ContentLength r)) w' in
  (set_logged (logged w' ++ [LogRequest (FromContext (ctx r)) (Method r) (Path r) path status bytes
     duration (RemoteAddr r)]) w', false).

Definition Recovery (next : Handler) : Handler := fun r w =>
  let '(w', panicked) := next r w in
  if panicked : bool then
    (httpError "internal server error" 500 (set_logged (logged w' ++ [LogPanic (FromContext (ctx r))]) w'), false)
  else (w', false).

Definition originAllowed (origin : string) (allowed : list string) : bool :=
  existsb (fun a => (a =? "*")%string || (a =? origin)%string) allowed.

Definition CORS (allowedOrigins : list string) (next : Handler) : Handler := fun r w =>
  let origin := GetHeader r "Origin" in
  let w :=
    if negb (origin =? "")%string && originAllowed origin allowedOrigins then
      let w := SetHeader "Access-Control-Allow-Origin" origin w in
      let w := SetHeader "Vary" "Origin" w in
      let w := SetHeader "Access-Control-Allow-Methods" "GET, POST, OPTIONS" w in
      let w := SetHeader "Access-Control-Allow-Headers" "Content-Type, X-Request-ID" w in
      let w := SetHeader "Access-Control-Expose-Headers" "X-Request-ID" w in
      SetHeader "Access-Control-Max-Age" "300" w
    else w in
  if (Method r =? "OPTIONS")%string then (WriteHeader 204 w, false) else next r w.

(** From the last middleware to the first. *)
Definition Chain (h : Handler) (mws : list (Handler -> Handler)) : Handler :=
  fold_left (fun h mw => mw h) (rev mws) h.

(** The handler of the entry point around its router. *)
Definition serverHandler (duration : Z) (allowed : list string) (mux : Handler) : Handler :=
  Chain mux [Recovery; SecureHeaders; RequestID; LogAndMetrics duration; CORS allowed].

(** ** The rate limiter

    [golang.org/x/time/rate] is a parameter: a limiter's state, its constructor
    and [Allow] at a time. *)
Section rate_limiter.
Context {Limiter Rate : Type} (NewLimiter : Rate -> Z -> Limiter) (Allow : Z -> Limiter -> bool * Limiter).

Record RateLimiter := mkRateLimiter { rlClients : gmap string Limiter; rlRate : Rate; rlBurst : Z }.

Definition NewRateLimiter (r : Rate) (b : Z) : RateLimiter := mkRateLimiter ∅ r b.

(** The bucket of an address, made on first use. *)
Definition limiter (ip : string) (rl : RateLimiter) : Limiter * RateLimiter :=
  match rlClients rl !! ip with
  | Some l => (l, rl)
  | None => let l := NewLimiter (rlRate rl) (rlBurst rl) in
            (l, mkRateLimiter (<[ip := l]> (rlClients rl)) (rlRate rl) (rlBurst rl))
  end.

(** One request at time [now]: whether it may pass. *)
Definition admitRequest (ip : string) (now : Z) (rl : RateLimiter) : bool * RateLimiter :=
  let '(l, rl) := limiter ip rl in
  let '(ok, l) := Allow now l in
  (ok, mkRateLimiter (<[ip := l]> (rlClients rl)) (rlRate rl) (rlBurst rl)).

(** [Handler]: [host] is the host part of the remote address. *)
Definition RateLimited (host : string -> string) (now : Z) (rl : RateLimiter) (next : Handler)
    (r : Request) (w : World) : (World * bool) * RateLimiter :=
  let '(ok, rl) := admitRequest (host (RemoteAddr r)) now rl in
  (if ok : bool then next r w
   else (httpError (String (ascii_of_nat 123) (String (ascii_of_nat 34) "error")
          ++ String (ascii_of_nat 34) (String ":"%char (String (ascii_of_nat 34) "rate limit exceeded"))
          ++ String (ascii_of_nat 34) (String (ascii_of_nat 125) ""))%string 429 w, false), rl).
End rate_limiter.

(** ** Scripted handlers

    A handler can do nothing to the response but call the writer: [f] says what it
    calls for a request, and whether it then panics. *)
Inductive Op := OSet (k v : string) | ODel (k : string) | OStatus (code : Z) | OWrite (n : Z)
| OHijack (reply : Z * Header).

Definition runOp (w : World) (o : Op) : World :=
  match o with
  | OSet k v => SetHeader k v w
  | ODel k => DelHeader k w
  | OStatus code => WriteHeader code w
  | OWrite n => Write n w
  | OHijack reply => Hijack reply w
  end.

(** The reply of the first hijacker. *)
Definition hijackReply (ops : list Op) : option (Z * Header) :=
  head (omap (fun o => match o with OHijack reply => Some reply | _ => None end) ops).

Definition scripted (f : Request -> list Op * bool) : Handler := fun r w =>
  (fold_left runOp (f r).1 w, (f r).2).

(** The headers the middlewares promise. *)
Definition protectedHeaders : list string :=
  ["X-Content-Type-Options"; "X-Frame-Options"; "Referrer-Policy"; "Content-Security-Policy";
   "X-Request-ID"; "Access-Control-Allow-Origin"]%string.

(** The router and its handlers set [Content-Type] and the like, and [nosniff] as
    [http.Error] does; statuses are final ones. *)
Definition harmless (o : Op) : Prop :=
  match o with
  | OSet k v => k ∉ protectedHeaders \/ (k = "X-Content-Type-Options" /\ v = "nosniff")%string
  | ODel k => k ∉ protectedHeaders
  | OStatus code => 200 <= code <= 999
  | OWrite _ => True
  | OHijack _ => True
  end.

(** ** Hijacking and flushing through the wrappers

    Whether a writer is a [http.Hijacker] or a [http.Flusher], and what its method
    then does: a value of [A], an error, or flushing. The server's writer is given. *)
Section passing.
Context {A : Type}.

Inductive ResponseWriter :=
| ServerWriter (hijack : option (string + A)) (flushes : bool)
| StatusWriter (w : ResponseWriter).

(** [w.(http.Hijacker)]: a [statusWriter] always is one. *)
Fixpoint asHijacker (w : ResponseWriter) : option (string + A) :=
  match w with
  | ServerWriter h _ => h
  | StatusWriter w => Some
      match asHijacker w with
      | None => inl "statusWriter: underlying ResponseWriter does not implement http.Hijacker"%string
      | Some r => r
      end
  end.

(** [Flush]: whether the server's writer is flushed. *)
Fixpoint Flush (w : ResponseWriter) : bool :=
  match w with
  | ServerWriter _ f => f
  | StatusWriter w => Flush w
  end.

Definition wrap (n : nat) (w : ResponseWriter) : ResponseWriter := Nat.iter n StatusWriter w.

(** A WebSocket upgrade gets through any number of wrappers as if there were none, and
    where the server's writer cannot be hijacked it gets an error. *)
Lemma wrapped_hijack n w :
  asHijacker (wrap (S n) w) = Some match asHijacker w with
    | None => inl "statusWriter: underlying ResponseWriter does not implement http.Hijacker"%string
    | Some r => r
    end.
Proof. induction n as [|n IH]; [done|]. change (wrap (S (S n)) w) with (StatusWriter (wrap (S n) w)).
  cbn [asHijacker]. by rewrite IH. Qed.

Lemma wrapped_flush n w : Flush (wrap n w) = Flush w.
Proof. by induction n. Qed.
End passing.

(** ** Lemmas *)

(** The header of [h] agrees with [w0]'s on what is promised. *)
Definition agrees (h : Header) (w0 : World) : Prop :=
  forall k, k ∈ protectedHeaders -> h !! k = header w0 !! k.

(** What writing to the response keeps, from a state [w0] where nothing is sent. *)
Record guarded (w0 w : World) : Prop := {
  gd_header : agrees (header w) w0;
  gd_sent : forall c h, sent w = Some (c, h) -> 0 < c /\ agrees h w0;
  gd_capture : forall b, captures w0 = [(0, b)] -> exists st b', captures w = [(st, b')] /\
    (taken w = None -> st = statusOf w);
  gd_ids : idCount w = idCount w0;
  gd_logged : logged w = logged w0;
  gd_observed : observed w = observed w0
}.

Lemma guarded_refl w : sent w = None -> guarded w w.
Proof.
  intros Hs. split; try done.
  - intros c h. congruence.
  - intros b Hb. exists 0, b. unfold statusOf. by rewrite Hs.
Qed.

Lemma set_header_guarded w0 w h : guarded w0 w -> agrees h w0 -> guarded w0 (set_header h w).
Proof. intros [] Hh. by split. Qed.

Lemma WriteHeader_guarded w0 w code : guarded w0 w -> 0 < code -> guarded w0 (WriteHeader code w).
Proof.
  intros [G1 G2 G3 G4 G5 G6] Hc. unfold WriteHeader, sendStatus. cbn [sent taken set_captures].
  destruct (taken w) as [reply|] eqn:Et, (sent w) as [[c h]|] eqn:Es; split; cbn; try done;
    try (rewrite Es; exact G2); try (by intros c' h' [= <- <-]);
    intros b Hb; destruct (G3 b Hb) as (st & b' & E & Hst); rewrite E; cbn; do 2 eexists;
    (split; [reflexivity|]); unfold statusOf; cbn; rewrite ?Et, ?Es; try done;
    intros _; specialize (Hst eq_refl); unfold statusOf in Hst; rewrite Es in Hst; subst st; [|done].
  destruct (Z.eqb_spec c 0); [|done]. destruct (G2 _ _ eq_refl). lia.
Qed.

Lemma Write_guarded w0 w n : guarded w0 w -> guarded w0 (Write n w).
Proof.
  intros G. destruct (WriteHeader_guarded w0 w 200 G eq_refl) as [G1 G2 G3 G4 G5 G6].
  unfold Write. fold (WriteHeader 200 w). set (m := if _ && _ then n else 0).
  split; cbn; try done. intros b Hb. destruct (G3 b Hb) as (st & b' & E & Hst).
  exists st, (b' + m). by rewrite E.
Qed.

Lemma Hijack_guarded w0 w reply : guarded w0 w -> guarded w0 (Hijack reply w).
Proof.
  intros G. unfold Hijack. destruct (taken w); [done|]. destruct G as [G1 G2 G3 G4 G5 G6].
  split; cbn; try done. intros b Hb. destruct (G3 b Hb) as (st & b' & E & _). by exists st, b'.
Qed.

(** *** Who takes the connection over *)

Lemma WriteHeader_taken code w : taken (WriteHeader code w) = taken w.
Proof. unfold WriteHeader, sendStatus. cbn. destruct w as [? [?|] [?|] ? ? ? ? ?]; reflexivity. Qed.

Lemma Write_taken n w : taken (Write n w) = taken w.
Proof. unfold Write. fold (WriteHeader 200 w). apply WriteHeader_taken. Qed.

(** The first of the hijackers, unless the connection is taken already. *)
Lemma runOps_taken ops : forall w,
  taken (fold_left runOp ops w) = match taken w with Some reply => Some reply | None => hijackReply ops end.
Proof.
  induction ops as [|o ops IH]; intros w; [by cbn; destruct (taken w)|]. cbn [fold_left]. rewrite IH.
  destruct o as [k v|k|code|n|reply]; cbn [runOp]; try done.
  - by rewrite WriteHeader_taken.
  - by rewrite Write_taken.
  - unfold Hijack. by destruct (taken w) eqn:E; cbn; rewrite ?E.
Qed.

Lemma httpError_taken msg code w : taken (httpError msg code w) = taken w.
Proof. unfold httpError. by rewrite Write_taken, WriteHeader_taken. Qed.

Lemma insert_agrees h w0 k v : agrees h w0 ->
  k ∉ protectedHeaders \/ header w0 !! k = Some v -> agrees (<[k := v]> h) w0.
Proof.
  intros Hh Hk k' Hk'. destruct (decide (k = k')) as [->|Hne].
  - rewrite lookup_insert_eq. by destruct Hk as [Hk| ->].
  - rewrite lookup_insert_ne by done. by apply Hh.
Qed.

Lemma runOps_guarded w0 ops : header w0 !! "X-Content-Type-Options"%string = Some "nosniff"%string ->
  Forall harmless ops -> forall w, guarded w0 w -> guarded w0 (fold_left runOp ops w).
Proof.
  intros Hns Hops. induction Hops as [|o ops Ho _ IH]; intros w G; [done|]. cbn [fold_left]. apply IH.
  destruct o as [k v|k|code|n|reply]; cbn [runOp harmless] in *.
  - apply set_header_guarded; [done|]. apply insert_agrees; [apply G|].
    destruct Ho as [?|[-> ->]]; [by left|by right].
  - apply set_header_guarded; [done|]. intros k' Hk'. rewrite lookup_delete_ne by (by intros ->).
    by apply (gd_header _ _ G).
  - apply WriteHeader_guarded; [done|lia].
  - by apply Write_guarded.
  - by apply Hijack_guarded.
Qed.

Lemma httpError_guarded w0 w msg code : header w0 !! "X-Content-Type-Options"%string = Some "nosniff"%string ->
  guarded w0 w -> 0 < code -> guarded w0 (httpError msg code w).
Proof.
  intros Hns G Hc. unfold httpError. apply Write_guarded, WriteHeader_guarded; [|done].
  apply (runOps_guarded w0 [ODel "Content-Length"; OSet "Content-Type" "text/plain; charset=utf-8";
    OSet "X-Content-Type-Options" "nosniff"]%string Hns); [|done].
  repeat apply List.Forall_cons; try apply List.Forall_nil; cbn; try (by right);
    try left; apply (bool_decide_unpack _); vm_compute; exact I.
Qed.

(** *** Identifiers *)

(** What a reflected identifier is. *)
Definition wellFormedID (id : string) : Prop :=
  (1 <= String.length id <= 64)%nat /\ Forall (fun c => printable c = true) (chars id).

Lemma Forall_printable l : forallb printable l = true -> Forall (fun c => printable c = true) l.
Proof. intros Hl. apply Forall_forall. intros c Hc%list_elem_of_In. by eapply forallb_forall in Hc. Qed.

Lemma digits_printable : Forall (fun c => printable c = true) digits.
Proof. apply Forall_printable. vm_compute. reflexivity. Qed.

Lemma nextID_ok w : exists id n, nextID w = Some (id, set_idCount n w) /\ wellFormedID id.
Proof.
  unfold nextID, NextRequestID. set (n := wrapU32 (idCount w + 1)).
  destruct (fmt_ok n) as (id & -> & _ & Hl & Hd); [by apply Z.mod_pos_bound|].
  exists id, n. split; [done|]. split; [lia|]. eapply Forall_impl; [exact Hd|].
  intros c Hc. by apply (proj1 (Forall_forall _ _) digits_printable).
Qed.

Lemma substring_chars n : forall s, chars (String.substring 0 n s) = take n (chars s).
Proof.
  induction n as [|n IH]; intros [|c s]; simpl; try done. by rewrite IH.
Qed.

Lemma sanitize_printable s : Forall (fun c => printable c = true) (chars (sanitizeHeaderValue s)).
Proof.
  unfold sanitizeHeaderValue. rewrite chars_ofChars. apply Forall_forall.
  intros c Hc%list_elem_of_In%filter_In. apply Hc.
Qed.

Lemma sanitize_id s : Forall (fun c => printable c = true) (chars s) -> sanitizeHeaderValue s = s.
Proof.
  intros Hs. unfold sanitizeHeaderValue. rewrite <-(ofChars_chars s) at 2. f_equal.
  induction Hs as [|c l Hc _ IH]; [done|]. cbn. by rewrite Hc, IH.
Qed.

Lemma truncate_ok id : id <> ""%string -> Forall (fun c => printable c = true) (chars id) ->
  wellFormedID (if (64 <? String.length id)%nat then String.substring 0 64 id else id).
Proof.
  intros Hne Hp. destruct (Nat.ltb_spec 64 (String.length id)).
  - split; [|rewrite substring_chars; by apply Forall_take].
    rewrite <-length_chars, substring_chars, length_take, length_chars. lia.
  - split; [|done]. destruct id; [done|]. cbn in *. lia.
Qed.

(** [RequestID] passes on with some identifier; the client's own if it is fit. *)
Lemma RequestID_spec next r w : exists id n,
  RequestID next r w = next (WithContext r (Some id)) (SetHeader "X-Request-ID" id (set_idCount n w)) /\
  wellFormedID id /\ (wellFormedID (GetHeader r "X-Request-ID") -> id = GetHeader r "X-Request-ID").
Proof.
  unfold RequestID. set (given := GetHeader r "X-Request-ID").
  assert (Hfresh : exists id n, nextID w = Some (id, set_idCount n w) /\ wellFormedID id /\
  (64 <? String.length id)%nat = false).
  { destruct (nextID_ok w) as (id & n & E & Hw). exists id, n. split; [done|]. split; [done|].
    apply Nat.ltb_ge, Hw. }
  destruct Hfresh as (id & n & Hid & Hwf & Hlt).
  destruct (String.eqb_spec given "") as [E|Hne].
  { exists id, n. rewrite Hid, Hlt. split; [done|]. split; [done|]. rewrite E. intros [[Hl _] _]. cbn in Hl. lia. }
  destruct (String.eqb_spec (sanitizeHeaderValue given) "") as [E|Hs].
  { exists id, n. rewrite Hid, Hlt. split; [done|]. split; [done|]. intros [_ Hp].
    by rewrite sanitize_id in E. }
  eexists _, (idCount w). split; [by destruct w|]. split.
  - apply truncate_ok; [done|apply sanitize_printable].
  - intros [[_ Hl] Hp]. rewrite sanitize_id by done. by rewrite (proj2 (Nat.ltb_ge 64 _) Hl).
Qed.

(** *** The stack *)

(** The origin whose requests get CORS headers. *)
Definition corsOrigin (allowed : list string) (r : Request) : option string :=
  let origin := GetHeader r "Origin" in
  if negb (origin =? "")%string && originAllowed origin allowed then Some origin else None.

Lemma CORS_spec allowed f r w :
  sent w = None -> taken w = None ->
  header w !! "X-Content-Type-Options"%string = Some "nosniff"%string ->
  header w !! "Access-Control-Allow-Origin"%string = None -> Forall harmless (f r).1 ->
  exists w0 w' p, CORS allowed (scripted f) r w = (w', p) /\ guarded w0 w' /\ sent w0 = None /\
    header w0 !! "Access-Control-Allow-Origin"%string = corsOrigin allowed r /\
    (forall k, k ∈ protectedHeaders -> k <> "Access-Control-Allow-Origin"%string ->
       header w0 !! k = header w !! k) /\
    captures w0 = captures w /\ idCount w0 = idCount w /\ logged w0 = logged w /\
    observed w0 = observed w /\
    taken w' = (if (Method r =? "OPTIONS")%string then None else hijackReply (f r).1) /\
    (Method r = "OPTIONS"%string -> p = false /\ statusOf w' = 204).
Proof.
  intros Hs Htk Hns Hco Hf. unfold CORS, corsOrigin.
  set (c := negb (GetHeader r "Origin" =? "")%string && originAllowed (GetHeader r "Origin") allowed).
  set (w0 := if c then _ else w).
  assert (Hw0 : sent w0 = None /\ taken w0 = None /\ captures w0 = captures w /\ idCount w0 = idCount w /\
    logged w0 = logged w /\ observed w0 = observed w) by (subst w0; by destruct c).
  assert (Hother : forall k, k ∈ protectedHeaders -> k <> "Access-Control-Allow-Origin"%string ->
    header w0 !! k = header w !! k).
  { intros k Hk Hne. subst w0. destruct c; [|done]. unfold SetHeader, set_header. cbn [header].
    unfold protectedHeaders in Hk. rewrite !lookup_insert_ne; [done|..];
      intros <-; by repeat (apply elem_of_cons in Hk as [?|Hk]; [done|]); apply elem_of_nil in Hk. }
  assert (Horigin : header w0 !! "Access-Control-Allow-Origin"%string =
    (if c then Some (GetHeader r "Origin") else None)).
  { subst w0. destruct c; [|done]. unfold SetHeader, set_header. cbn [header].
    repeat (rewrite lookup_insert_ne; [|done]). by rewrite lookup_insert_eq. }
  destruct Hw0 as (Hs0 & Ht0 & Hc0 & Hi0 & Hl0 & Ho0). pose proof (guarded_refl w0 Hs0) as G.
  destruct (String.eqb_spec (Method r) "OPTIONS") as [Hm|Hm].
  - exists w0, (WriteHeader 204 w0), false. split; [done|]. split; [by apply WriteHeader_guarded|].
    do 7 (split; [done|]). split; [by rewrite WriteHeader_taken|]. intros _. split; [done|].
    unfold WriteHeader, sendStatus. cbn [sent taken set_captures]. by rewrite Hs0, Ht0.
  - exists w0, (fold_left runOp (f r).1 w0), (f r).2. split; [done|]. split.
    + apply runOps_guarded; [|done|done]. rewrite Hother; [done| |done]. by left.
    + do 7 (split; [done|]). split; [by rewrite runOps_taken, Ht0|done].
Qed.

(** The headers of every response, but for CORS. *)
Definition promised (id : string) : list (string * string) :=
  [("X-Content-Type-Options", "nosniff"); ("X-Frame-Options", "DENY");
   ("Referrer-Policy", "strict-origin-when-cross-origin"); ("Content-Security-Policy", csp);
   ("X-Request-ID", id)]%string.

(** What the whole stack does with a request, up to the identifier it chooses and
    the state [w0] in which the router's writing starts. *)
Lemma stack_spec duration allowed f r w :
  sent w = None -> taken w = None -> captures w = [] -> header w = ∅ -> (forall r', Forall harmless (f r').1) ->
  exists id w0 w1 st p w',
    serverHandler duration allowed (scripted f) r w = (w', false) /\
    wellFormedID id /\ (wellFormedID (GetHeader r "X-Request-ID") -> id = GetHeader r "X-Request-ID") /\
    Forall (fun kv => header w0 !! kv.1 = Some kv.2) (promised id) /\
    header w0 !! "Access-Control-Allow-Origin"%string = corsOrigin allowed r /\
    (forall c h, sent w' = Some (c, h) -> agrees h w0) /\
    (Method r = "OPTIONS"%string -> p = false /\ statusOf w' = 204) /\
    taken w' = (if (Method r =? "OPTIONS")%string then None
                else hijackReply (f (WithContext r (Some id))).1) /\
    (taken w' = None -> st = statusOf w1) /\
    (if p : bool then
       (taken w' = None -> st = 0 -> statusOf w' = 500) /\ (statusOf w1 <> 0 -> sent w' = sent w1) /\
       observed w' = observed w /\ logged w' = logged w ++ [LogPanic (FromContext (ctx r))]
     else
       sent w' = sent w1 /\
       observed w' = observed w ++
         ObserveHTTPRequest (Method r) (routePath r) st duration (ContentLength r) /\
       exists bytes, logged w' = logged w ++ [LogRequest (FromContext (Some id)) (Method r) (Path r)
         (routePath r) st bytes duration (RemoteAddr r)]).
Proof.
  intros Hs Htk Hc Hh Hf. unfold serverHandler, Chain. cbn [rev app fold_left].
  unfold Recovery, SecureHeaders. set (w1 := SetHeader "Content-Security-Policy" csp _).
  destruct (RequestID_spec (LogAndMetrics duration (CORS allowed (scripted f))) r w1)
    as (id & n & -> & Hwf & Hsame).
  set (r' := WithContext r (Some id)). set (w2 := SetHeader "X-Request-ID" id (set_idCount n w1)).
  unfold LogAndMetrics. set (w3 := set_captures ((0, 0) :: captures w2) w2).
  assert (Eh : header w3 = (<["X-Request-ID" := id]> (<["Content-Security-Policy" := csp]>
    (<["Referrer-Policy" := "strict-origin-when-cross-origin"]> (<["X-Frame-Options" := "DENY"]>
    (<["X-Content-Type-Options" := "nosniff"]> ∅)))))%string) by (subst w3 w2 w1; cbn; by rewrite Hh).
  destruct (CORS_spec allowed f r' w3) as (w0 & w5 & p & -> & G & _ & Hco & Hoth & Hcap & _ & Hl & Ho & Ht & Hopt);
    [exact Hs|exact Htk|rewrite Eh; by simplify_map_eq|rewrite Eh; by simplify_map_eq|apply Hf|].
  destruct (gd_capture _ _ G 0) as (st & b & Hb & Hst); [rewrite Hcap; cbn; by rewrite Hc|].
  rewrite Hb. change (default (0, 0) (head [(st, b)])) with (st, b). cbn [tail].
  assert (Hget : forall k v, header w3 !! k = Some v -> k ∈ protectedHeaders ->
    k <> "Access-Control-Allow-Origin"%string -> header w0 !! k = Some v).
  { intros k v Hv Hk Hne. by rewrite Hoth. }
  assert (Hns : header w0 !! "X-Content-Type-Options"%string = Some "nosniff"%string).
  { apply Hget; [rewrite Eh; by simplify_map_eq|by left|done]. }
  assert (Hall : Forall (fun kv => header w0 !! kv.1 = Some kv.2) (promised id)).
  { unfold promised. repeat apply List.Forall_cons; try apply List.Forall_nil; cbn [fst snd];
      (apply Hget; [rewrite Eh; by simplify_map_eq|apply (bool_decide_unpack _); vm_compute; exact I|done]). }
  destruct p.
  - eexists id, w0, w5, st, true, _. split; [reflexivity|].
    do 2 (split; [done|]). split; [exact Hall|]. split; [exact Hco|]. split; [|split; [|split; [|split]]].
    + set (x := set_logged _ _). set (b0 := mkWorld (header w0) None None 0 [] (idCount x) (logged x) (observed x)).
      assert (Gx : guarded b0 x).
      { split; try done; [apply (gd_header _ _ G)|]. intros c h. apply (gd_sent _ _ G). }
      intros c h Hsent. exact (proj2 (gd_sent _ _ (httpError_guarded b0 x _ 500 Hns Gx eq_refl) c h Hsent)).
    + intros Hm. by destruct (Hopt Hm).
    + rewrite httpError_taken. exact Ht.
    + rewrite httpError_taken. exact Hst.
    + rewrite httpError_taken. cbn [taken set_logged set_captures].
      pose proof (gd_sent _ _ G) as Hpos. pose proof (gd_observed _ _ G) as E1.
      pose proof (gd_logged _ _ G) as E2. clear Hb.
      destruct w5 as [h5 [[c h]|] [reply|] n5 c5 i5 l5 o5]; cbn in *; rewrite E1, E2, Ho, Hl;
        (split; [|split; done]); try done.
      intros Hn Hz. rewrite (Hst Hn) in Hz. subst c. by destruct (Hpos 0 h eq_refl).
  - eexists id, w0, w5, st, false, _. split; [reflexivity|].
    do 2 (split; [done|]). split; [exact Hall|]. split; [exact Hco|].
    split; [intros c h Hsent; exact (proj2 (gd_sent _ _ G c h Hsent))|]. split; [exact Hopt|].
    split; [exact Ht|]. split; [exact Hst|].
    split; [done|]. cbn. rewrite (gd_observed _ _ G), (gd_logged _ _ G), Ho, Hl. split; [done|]. by eexists.
Qed.

(** What of it the client sees. *)
Lemma stack_protects duration allowed f r w :
  sent w = None -> taken w = None -> captures w = [] -> header w = ∅ ->
  (forall r', Forall harmless (f r').1) ->
  exists w' id, serverHandler duration allowed (scripted f) r w = (w', false) /\
    wellFormedID id /\ (wellFormedID (GetHeader r "X-Request-ID") -> id = GetHeader r "X-Request-ID") /\
    (forall code h, sent w' = Some (code, h) ->
       Forall (fun kv => h !! kv.1 = Some kv.2) (promised id) /\
       h !! "Access-Control-Allow-Origin"%string = corsOrigin allowed r) /\
    taken w' = (if (Method r =? "OPTIONS")%string then None
                else hijackReply (f (WithContext r (Some id))).1) /\
    (Method r = "OPTIONS"%string -> statusOf w' = 204).
Proof.
  intros Hs Htk Hc Hh Hf.
  destruct (stack_spec duration allowed f r w Hs Htk Hc Hh Hf)
    as (id & w0 & w1 & st & p & w' & E & Hwf & Hsame & Hall & Hco & Hag & Hopt & Ht & _).
  exists w', id. do 3 (split; [done|]). split; [|split; [exact Ht|by intros Hm; apply Hopt]].
  intros code h Hsent. pose proof (Hag code h Hsent) as Ha. split.
  - unfold promised in *. repeat apply Forall_cons in Hall as [?Hv Hall].
    repeat apply List.Forall_cons; try apply List.Forall_nil; cbn [fst snd] in *;
      (rewrite Ha; [assumption|apply (bool_decide_unpack _); vm_compute; exact I]).
  - by rewrite Ha by (apply (bool_decide_unpack _); vm_compute; exact I).
Qed.

Lemma preflight_skips_router duration allowed mux1 mux2 r w : Method r = "OPTIONS"%string ->
  serverHandler duration allowed mux1 r w = serverHandler duration allowed mux2 r w.
Proof.
  intros Hm. unfold serverHandler, Chain. cbn [rev app fold_left].
  unfold Recovery, SecureHeaders, RequestID. set (w1 := SetHeader "Content-Security-Policy" csp _).
  destruct (if (GetHeader r "X-Request-ID" =? "")%string then _ else _) as [[id w2]|]; [|done].
  unfold LogAndMetrics, CORS. cbn [Method WithContext]. by rewrite Hm.
Qed.

(** ** The rate limiter's clients are independent *)

Section isolation.
Context {Limiter Rate : Type} (NewLimiter : Rate -> Z -> Limiter) (Allow : Z -> Limiter -> bool * Limiter).

(** The decisions on a sequence of requests, each an address and a time. *)
Fixpoint admitAll (reqs : list (string * Z)) (rl : RateLimiter) : list (string * bool) :=
  match reqs with
  | [] => []
  | (ip, now) :: reqs =>
      let '(ok, rl) := admitRequest NewLimiter Allow ip now rl in (ip, ok) :: admitAll reqs rl
  end.

(** The bucket an address has or would get. *)
Definition bucket (ip : string) (rl : RateLimiter (Limiter := Limiter) (Rate := Rate)) : Limiter :=
  default (NewLimiter (rlRate rl) (rlBurst rl)) (rlClients rl !! ip).

Lemma admitRequest_spec ip now rl : exists rl',
  admitRequest NewLimiter Allow ip now rl = ((Allow now (bucket ip rl)).1, rl') /\
  bucket ip rl' = (Allow now (bucket ip rl)).2 /\
  (forall ip', ip' <> ip -> bucket ip' rl' = bucket ip' rl).
Proof.
  unfold admitRequest, limiter, bucket.
  destruct (rlClients rl !! ip) as [l|] eqn:E; cbn [from_option];
    (destruct (Allow now _) as [ok l'] eqn:Ea; eexists; split; [reflexivity|]);
    cbn [rlClients rlRate rlBurst];
    (split; [by rewrite lookup_insert_eq|]); intros ip' Hne; by rewrite ?lookup_insert_ne.
Qed.

Lemma admitAll_isolated ip reqs : forall rl1 rl2, bucket ip rl1 = bucket ip rl2 ->
  List.filter (fun x => (x.1 =? ip)%string) (admitAll reqs rl1) =
  admitAll (List.filter (fun x => (x.1 =? ip)%string) reqs) rl2.
Proof.
  induction reqs as [|[jp now] reqs IH]; intros rl1 rl2 E; [done|]. cbn [admitAll List.filter fst].
  destruct (admitRequest_spec jp now rl1) as (rl1' & -> & Hb1 & Ho1). cbn [List.filter fst].
  destruct (String.eqb_spec jp ip) as [->|Hne].
  - cbn [admitAll]. destruct (admitRequest_spec ip now rl2) as (rl2' & -> & Hb2 & _).
    rewrite E. f_equal. apply IH. congruence.
  - apply IH. rewrite Ho1 by done. exact E.
Qed.
End isolation.

(** ** Properties *)

(** C34: Every response that goes through the response writer, whatever the router does
    (set its own headers, fail, panic, write nothing), and also an error after a panic,
    carries the four security headers, the CORS origin exactly when the request's origin
    is in the configured list ([ALLOW_LOCAL_ORIGIN] plays no part), and a request
    identifier of 1 to 64 printable ASCII bytes, so none can break out of its header
    line; a client's own identifier of that form is kept. Only a handler that hijacks
    the connection, as the WebSocket upgrade does, gets past the middlewares: the client
    then gets that handler's reply as it is, with no header of theirs. No panic leaves
    the stack, and a preflight request is answered 204 without reaching the router. *)
Theorem every_response_is_guarded duration allowed f (r : Request) (w : World) :
  sent w = None -> taken w = None -> captures w = [] -> header w = ∅ ->
  (forall r', Forall harmless (f r').1) ->
  exists w' id, serverHandler duration allowed (scripted f) r w = (w', false) /\
    wellFormedID id /\ (wellFormedID (GetHeader r "X-Request-ID") -> id = GetHeader r "X-Request-ID") /\
    (forall code h, sent w' = Some (code, h) ->
       h !! "X-Content-Type-Options"%string = Some "nosniff"%string /\
       h !! "X-Frame-Options"%string = Some "DENY"%string /\
       h !! "Referrer-Policy"%string = Some "strict-origin-when-cross-origin"%string /\
       h !! "Content-Security-Policy"%string = Some csp /\
       h !! "Access-Control-Allow-Origin"%string = corsOrigin allowed r /\
       h !! "X-Request-ID"%string = Some id) /\
    taken w' = (if (Method r =? "OPTIONS")%string then None
                else hijackReply (f (WithContext r (Some id))).1) /\
    (Method r = "OPTIONS"%string -> statusOf w' = 204 /\
       forall mux, serverHandler duration allowed mux r w = (w', false)).
Proof.
  intros Hs Htk Hc Hh Hf.
  destruct (stack_protects duration allowed f r w Hs Htk Hc Hh Hf)
    as (w' & id & E & Hwf & Hsame & Hall & Ht & Hopt).
  exists w', id. do 3 (split; [done|]). split; [|split; [exact Ht|]].
  - intros code h Hsent. destruct (Hall code h Hsent) as [Hp Hco]. unfold promised in Hp.
    repeat apply Forall_cons in Hp as [?Hv Hp]. cbn [fst snd] in *. by do 5 (split; [assumption|]).
  - intros Hm. split; [by apply Hopt|]. intros mux. by rewrite (preflight_skips_router _ _ _ (scripted f)).
Qed.

(** A request whose handler returns is logged once, under the identifier its
    response carries, and counted once by method, route and the class of the status
    that was sent, or 0 when the handler wrote nothing (where the server sends 200);
    a request whose handler panics is missing from both, only the panic is logged,
    and the client gets a 500 unless a status had already been sent. The statuses are
    those of responses that were not written to a hijacked connection. *)
Theorem access_log_and_metrics duration allowed f (r : Request) (w : World) :
  sent w = None -> taken w = None -> captures w = [] -> header w = ∅ ->
  (forall r', Forall harmless (f r').1) ->
  exists w' status,
    serverHandler duration allowed (scripted f) r w = (w', false) /\
    (((taken w' = None -> statusOf w' = status) /\
      observed w' = observed w ++
        ObserveHTTPRequest (Method r) (routePath r) status duration (ContentLength r) /\
      exists id bytes, logged w' = logged w ++ [LogRequest (FromContext (Some id)) (Method r) (Path r)
        (routePath r) status bytes duration (RemoteAddr r)] /\
        (forall code h, sent w' = Some (code, h) -> h !! "X-Request-ID"%string = Some id)) \/
     (Method r <> "OPTIONS"%string /\ observed w' = observed w /\
      logged w' = logged w ++ [LogPanic (FromContext (ctx r))] /\
      (taken w' = None -> statusOf w' = (if status =? 0 then 500 else status)))).
Proof.
  intros Hs Htk Hc Hh Hf.
  destruct (stack_spec duration allowed f r w Hs Htk Hc Hh Hf)
    as (id & w0 & w1 & st & p & w' & E & _ & _ & Hall & _ & Hag & Hopt & _ & Hst & Hcase).
  exists w', st. split; [done|]. destruct p.
  - right. destruct Hcase as (H0 & H1 & Ho & Hl). split; [|split; [done|split; [done|]]].
    + intros Hm. by destruct (Hopt Hm).
    + intros Hn. destruct (Z.eqb_spec st 0) as [Ez|Ez]; [by apply H0|].
      rewrite (Hst Hn) in *. unfold statusOf at 1. by rewrite (H1 Ez).
  - left. destruct Hcase as (Hsent & Ho & bytes & Hl).
    split; [intros Hn; rewrite (Hst Hn); unfold statusOf; by rewrite Hsent|].
    split; [done|]. exists id, bytes. split; [done|]. intros code h Hse.
    rewrite (Hag code h Hse) by (apply (bool_decide_unpack _); vm_compute; exact I).
    repeat apply Forall_cons in Hall as [?Hh Hall]. cbn [fst snd] in *. assumption.
Qed.

(** The rate limiter's clients do not influence each other: the decisions on one
    address in any sequence of requests are those of a limiter that sees only its
    requests, for every bucket algorithm. *)
Theorem rate_limiter_isolates_clients {Limiter Rate : Type} (NewLimiter : Rate -> Z -> Limiter)
    (Allow : Z -> Limiter -> bool * Limiter) (r : Rate) (b : Z) (ip : string) (reqs : list (string * Z)) :
  List.filter (fun x => (x.1 =? ip)%string) (admitAll NewLimiter Allow reqs (NewRateLimiter r b)) =
  admitAll NewLimiter Allow (List.filter (fun x => (x.1 =? ip)%string) reqs) (NewRateLimiter r b).
Proof. by apply admitAll_isolated. Qed.

(** *** Witnesses *)

Definition freshWorld (n : Z) : World := mkWorld ∅ None None 0 [] n [] [].

(** The reply of a WebSocket upgrade without headers of the handler's own. *)
Definition upgradeReply : Z * Header :=
  (101, <["Upgrade" := "websocket"]> (<["Connection" := "Upgrade"]> ∅))%string.

(** A router that answers the root, upgrades [/ws] and panics elsewhere. *)
Definition exampleRouter (r : Request) : list Op * bool :=
  if (Path r =? "/")%string then ([OSet "Content-Type" "application/json"; OWrite 5], false)
  else if (Path r =? "/ws")%string then ([OHijack upgradeReply], false)
  else ([], true).

Definition exampleRequest (path : string) : Request :=
  mkRequest "GET" path "" (<["X-Request-ID"%string := "trace-7"%string]> ∅) "10.0.0.1:4000" 0 None.

Lemma exampleRouter_harmless r : Forall harmless (exampleRouter r).1.
Proof.
  unfold exampleRouter. destruct (Path r =? "/")%string.
  - apply Forall_cons. split; [left; apply (bool_decide_unpack _); vm_compute; exact I|].
    by apply Forall_singleton.
  - destruct (Path r =? "/ws")%string; [by apply Forall_singleton|constructor].
Qed.

Lemma every_response_is_guarded_witness :
  (exists w', serverHandler 1 [] (scripted exampleRouter) (exampleRequest "/boom") (freshWorld 0) = (w', false) /\
    statusOf w' = 500 /\
    forall code h, sent w' = Some (code, h) -> h !! "X-Frame-Options"%string = Some "DENY"%string) /\
  exists w', serverHandler 1 [] (scripted exampleRouter) (exampleRequest "/ws") (freshWorld 0) = (w', false) /\
    taken w' = Some upgradeReply /\ upgradeReply.2 !! "X-Frame-Options"%string = None.
Proof.
  split.
  - destruct (every_response_is_guarded 1 [] exampleRouter (exampleRequest "/boom") (freshWorld 0)
      eq_refl eq_refl eq_refl eq_refl exampleRouter_harmless) as (w' & id & E & _ & _ & Hh & _).
    exists w'. split; [exact E|]. split.
    + assert (Hst : statusOf (serverHandler 1 [] (scripted exampleRouter) (exampleRequest "/boom")
        (freshWorld 0)).1 = 500) by (vm_compute; reflexivity).
      rewrite E in Hst. exact Hst.
    + intros code h Hsent. exact (proj1 (proj2 (Hh code h Hsent))).
  - destruct (every_response_is_guarded 1 [] exampleRouter (exampleRequest "/ws") (freshWorld 0)
      eq_refl eq_refl eq_refl eq_refl exampleRouter_harmless) as (w' & id & E & _ & _ & _ & Ht & _).
    exists w'. split; [exact E|]. split; [exact Ht|vm_compute; reflexivity].
Defined.

Lemma access_log_and_metrics_witness :
  exists w', serverHandler 1 [] (scripted exampleRouter) (exampleRequest "/") (freshWorld 0) = (w', false) /\
    length (logged w') = 1%nat /\ length (observed w') = 2%nat.
Proof.
  destruct (access_log_and_metrics 1 [] exampleRouter (exampleRequest "/") (freshWorld 0)
    eq_refl eq_refl eq_refl eq_refl exampleRouter_harmless) as (w' & st & E & Hcase).
  exists w'. split; [exact E|].
  assert (Hlen : (fun w => (length (logged w), length (observed w)))
    (serverHandler 1 [] (scripted exampleRouter) (exampleRequest "/") (freshWorld 0)).1 = (1%nat, 2%nat))
    by (vm_compute; reflexivity).
  rewrite E in Hlen. cbn [fst] in Hlen. injection Hlen as H1 H2. split; [exact H1|exact H2].
Defined.
