(* ===== verification/Api.v ===== *)
(** * The REST API (src/internal/api/api.go)

    Request validation, scheduler construction and the five handlers. JSON
    decoding, time formatting and the clock are library code: a handler receives
    the decoded request or the decoder's error, and the environment's choices
    (which [select] case fires, what the clock says) are arguments. *)

From Stdlib Require Import Ascii.
From S2P Require Import Prelude.
From S2P Require Import Text.
From S2P Require Import Version.
From S2P Require Import Float64.
From S2P Require Import Process.
From S2P Require Import Scheduler.
From S2P Require Import MultiLevel.
From S2P Require Import Lottery.
From S2P Require Import Simulator.
From S2P Require Import SimInvariant.
From S2P Require Import SimSteps.
From S2P Require Import SimReach.
From S2P Require Import SimAccounting.
From S2P Require Import SimProgress.
From S2P Require Import Store.
From S2P Require Import Metrics.

(** ** Schedulers as interface values *)

(** A value of the Go interface [scheduler.Scheduler]: a dynamic type, its
    method set, and a value. *)
Record AnyScheduler := mkAny {
  dynType : Type;
  dynMethods : Scheduler dynType;
  dynLaws : SchedulerLaws dynType;
  dynValue : dynType
}.

Definition pack {S} {M : Scheduler S} {L : SchedulerLaws S} (v : S) : AnyScheduler :=
  mkAny S M L v.

Definition redyn (a : AnyScheduler) (v : dynType a) : AnyScheduler :=
  mkAny (dynType a) (dynMethods a) (dynLaws a) v.

#[export] Instance Any_Scheduler : Scheduler AnyScheduler := {
  Schedule a h q t :=
    let '(l, v) := @Schedule _ (dynMethods a) (dynValue a) h q t in (l, redyn a v);
  sched_AddProcess a h l := redyn a (@sched_AddProcess _ (dynMethods a) (dynValue a) h l);
  sched_RemoveProcess a l := redyn a (@sched_RemoveProcess _ (dynMethods a) (dynValue a) l);
  Preempt a h c q t := @Preempt _ (dynMethods a) (dynValue a) h c q t;
  sched_Name a := @sched_Name _ (dynMethods a) (dynValue a);
  QuantumFor a c := @QuantumFor _ (dynMethods a) (dynValue a) c;
  OnQuantumExpired a c := redyn a (@OnQuantumExpired _ (dynMethods a) (dynValue a) c);
  sched_Reset a := redyn a (@sched_Reset _ (dynMethods a) (dynValue a))
}.

#[export] Instance Any_laws : SchedulerLaws AnyScheduler.
Proof.
  refine {| sched_ok := fun a => @sched_ok _ _ (dynLaws a) (dynValue a) |};
    intros [S M L v]; simpl; intros.
  - pose proof (ok_Schedule v h q t) as Hk. destruct (Schedule v h q t). by apply Hk.
  - by apply ok_AddProcess.
  - by apply ok_RemoveProcess.
  - by apply ok_OnQuantumExpired.
  - by apply ok_Reset.
  - pose proof (Schedule_empty v h t) as Hk. by destruct (Schedule v h [] t).
  - destruct (Schedule_member v h q t) as (l & Hk & Hl); [done|done|].
    exists l. by destruct (Schedule v h q t).
  - by apply Preempt_total.
  - by apply QuantumFor_total.
Defined.

(** The fallthrough of the switch is an error. *)
Definition buildScheduler (algorithm : string) (timeQuantum : Z)
    : string + AnyScheduler :=
  if (algorithm =? "fcfs")%string then inr (pack FCFS.NewFCFSScheduler)
  else if (algorithm =? "sjf")%string then inr (pack SJF.NewSJFScheduler)
  else if (algorithm =? "srtf")%string then inr (pack SRTF.NewSRTFScheduler)
  else if (algorithm =? "rr")%string then inr (pack (RoundRobin.NewRoundRobinScheduler timeQuantum))
  else if (algorithm =? "priority")%string then inr (pack (PriorityPolicy.NewPriorityScheduler true))
  else if (algorithm =? "priority_np")%string then inr (pack (PriorityPolicy.NewPriorityScheduler false))
  else if (algorithm =? "cfs")%string then inr (pack CFS.NewCFSScheduler)
  else if (algorithm =? "mlfq")%string then inr (pack MLFQ.NewMLFQScheduler)
  else if (algorithm =? "lottery")%string then
    inr (pack (Lottery.NewLotteryScheduler (Ext := Empty_set) timeQuantum None))
  else if (algorithm =? "mlq")%string then inr (pack (MLQ.NewMLQScheduler 3 timeQuantum))
  else inl ("unknown algorithm: " ++ algorithm)%string.

Definition validateProcess (p : ProcessInput) : option string :=
  if inPID p <? 0 then Some "pid must be >= 0"%string
  else if inArrival p <? 0 then Some "arrivalTime must be >= 0"%string
  else if inBurst p <=? 0 then Some "burstTime must be >= 1"%string
  else None.

(** ** Requests and responses *)

Record simulateRequest := mkRequest {
  rqAlgorithm : string;
  rqTimeQuantum : Z;
  rqSpeed : Z;
  rqProcesses : list ProcessInput
}.

Record Algorithm := mkAlgorithm {
  algID : string;
  algName : string;
  algPreemptive : bool;
  algNeedsQuantum : bool;
  algDescription : string
}.

(** The body of a response, by the handler that writes it. *)
Inductive Body :=
| BError (msg : string)
| BVersion (version : string)
| BAlgorithms (l : list Algorithm)
| BSimulated (id algorithm : string) (durationMs : Z) (st : SimulationUpdate)
| BRecords (l : list SimRecord)
| BRecord (r : SimRecord).

Definition Response : Type := Z * Body.

Definition writeError (status : Z) (msg : string) : Response := (status, BError msg).

(** [simSem] is the capacity of the semaphore and the tokens in it; the counter of
    the identifiers and the metrics are the packages' globals. *)
Record Handler := mkHandler {
  hStore : Store;
  defaultQuantum : Z;
  defaultSpeed : Z;
  simSem : option (Z * Z);
  idCounter : Z;
  hMetrics : list MetricCall
}.

Definition set_hStore (v : Store) (h : Handler) : Handler :=
  mkHandler v (defaultQuantum h) (defaultSpeed h) (simSem h) (idCounter h) (hMetrics h).
Definition set_simSem (v : option (Z * Z)) (h : Handler) : Handler :=
  mkHandler (hStore h) (defaultQuantum h) (defaultSpeed h) v (idCounter h) (hMetrics h).
Definition set_idCounter (v : Z) (h : Handler) : Handler :=
  mkHandler (hStore h) (defaultQuantum h) (defaultSpeed h) (simSem h) v (hMetrics h).

(** Calls on the metrics. *)
Definition measure (l : list MetricCall) (h : Handler) : Handler :=
  mkHandler (hStore h) (defaultQuantum h) (defaultSpeed h) (simSem h) (idCounter h) (hMetrics h ++ l).

Definition NewHandler (st : Store) (defaultQuantum defaultSpeed concurrencyLimit : Z) : Handler :=
  {| hStore := st; defaultQuantum := defaultQuantum; defaultSpeed := defaultSpeed;
     simSem := if 0 <? concurrencyLimit then Some (concurrencyLimit, 0) else None;
     idCounter := 0; hMetrics := [] |}.

(** The non-blocking send of the guard; [None] is the default case. *)
Definition acquire (h : Handler) : option Handler :=
  match simSem h with
  | None => Some h
  | Some (cap, n) => if n <? cap then Some (set_simSem (Some (cap, n + 1)) h) else None
  end.

(** The deferred receive. *)
Definition release (h : Handler) : Handler :=
  match simSem h with
  | None => h
  | Some (cap, n) => set_simSem (Some (cap, n - 1)) h
  end.

(** [format] is [time.Time.Format] with the layout of the code. *)
Definition generateID (format : Z -> string) (algorithm : string) (t : Z) (h : Handler)
    : string * Handler :=
  let n := wrapU64 (idCounter h + 1) in
  ((algorithm ++ "-" ++ format t ++ "-" ++ itoa n)%string, set_idCounter n h).

(** ** Building the simulation of a request *)

(** One process of the request, as the loop body builds it; [None] is a panic. *)
Definition addInput `{GoSort} (p : ProcessInput) (sim : Simulator AnyScheduler)
    : option (string + Simulator AnyScheduler) :=
  match validateProcess p with
  | Some err => Some (inl err)
  | None =>
      proc ← NewProcess (inPID p) (inName p) (inArrival p) (inBurst p) (inPriority p);
      let bursts := fold_left (fun acc b =>
        if 0 <? inDuration b
        then acc ++ [{| AfterCPUTime := inAfterCPUTime b; Duration := inDuration b;
                        Completed := false |}]
        else acc) (inIOBursts p) (IOBursts proc) in
      Some (inr (AddProcess (set_IOBursts bursts proc) sim))
  end.

Fixpoint addInputs `{GoSort} (ps : list ProcessInput) (sim : Simulator AnyScheduler)
    : option (string + Simulator AnyScheduler) :=
  match ps with
  | [] => Some (inr sim)
  | p :: ps =>
      r ← addInput p sim;
      match r with
      | inl err => Some (inl err)
      | inr sim => addInputs ps sim
      end
  end.

(** The part of [handleSimulate] before the simulation starts: a response, or
    the simulation, the scheduler's name and the request with its defaults. *)
Definition prepare `{GoSort} (h : Handler) (decoded : string + simulateRequest)
    : option (Response + (Simulator AnyScheduler * string * simulateRequest)) :=
  match decoded with
  | inl err => Some (inl (writeError 400 ("invalid request body: " ++ err)))
  | inr req =>
      if (length (rqProcesses req) =? 0)%nat
      then Some (inl (writeError 400 "at least one process is required")) else
      let tq := if rqTimeQuantum req <=? 0 then defaultQuantum h else rqTimeQuantum req in
      let sp := if rqSpeed req <=? 0 then defaultSpeed h else rqSpeed req in
      let req := mkRequest (rqAlgorithm req) tq sp (rqProcesses req) in
      match buildScheduler (rqAlgorithm req) (rqTimeQuantum req) with
      | inl err => Some (inl (writeError 400 err))
      | inr sched =>
          r ← addInputs (rqProcesses req) (NewSimulator sched);
          match r with
          | inl err => Some (inl (writeError 400 err))
          | inr sim => Some (inr (sim, sched_Name sched, req))
          end
      end
  end.

(** Which case of the final [select] fires. The run completes within the
    deadline ([fuel] ticks; [clock] is what [time.Now] tells the final metrics),
    or the deadline or the client's departure comes first. [dur] is the time since the
    start. *)
Inductive Outcome :=
| Completes (fuel : nat) (clock dur : Z)
| TimesOut (dur : Z)
| ClientGone.

(** The update the callback delivers: the first one whose state is complete. *)
Definition finalUpdate {S} `{Scheduler S} (clock : Z) (s : Simulator S) : SimulationUpdate :=
  snapshotState clock (set_state SimStateComplete s).

Definition simulate `{GoSort} (format : Z -> string) (h : Handler)
    (decoded : string + simulateRequest) (start : Z) (o : Outcome) : option (Response * Handler) :=
  r ← prepare h decoded;
  match r with
  | inl resp => Some (resp, h)
  | inr (sim, name, req) =>
      let h := measure (SimStarted name) h in
      let sim := SetSpeed 1 (SetUpdateCallback true sim) in
      match o with
      | TimesOut dur => Some (writeError 504 "simulation timed out (30s)", measure (SimCompleted name dur) h)
      | ClientGone => Some (writeError 499 "client closed request", h)
      | Completes fuel clock dur =>
          final ← runToCompletion fuel sim;
          let u := finalUpdate clock final in
          let h := measure (SimSteps name (uCurrentTime u)) (measure (SimCompleted name dur) h) in
          let '(id, h) := generateID format name start h in
          let rec_ := {| rID := id; rAlgorithm := name; rCreatedAt := start; rDuration := dur;
                         rConfig := {| cAlgorithm := rqAlgorithm req;
                                       cTimeQuantum := rqTimeQuantum req;
                                       cSpeed := rqSpeed req; cProcesses := rqProcesses req |};
                         rFinalState := u |} in
          Some ((200, BSimulated id name (Z.quot dur 1000000) u), set_hStore (Save rec_ (hStore h)) h)
      end
  end.

Definition handleSimulate `{GoSort} (format : Z -> string) (h : Handler)
    (decoded : string + simulateRequest) (start : Z) (o : Outcome) : option (Response * Handler) :=
  match acquire h with
  | None => Some (writeError 503 "server busy: too many concurrent simulations", h)
  | Some h =>
      r ← simulate format h decoded start o;
      Some (r.1, release r.2)
  end.

(** ** The read-only handlers *)

(** [v] is the [limit] parameter of the query, empty if there is none. *)
Definition listLimit (v : string) : Z :=
  if (v =? "")%string then 50 else
  match Atoi v with
  | Some n => if (0 <? n) && (n <=? 500) then n else 50
  | None => 50
  end.

Definition handleList (zero : SimRecord) (v : string) (h : Handler) : Response :=
  let limit := listLimit v in
  let all := List_ zero (hStore h) in
  let limit := if Z.of_nat (length all) <? limit then Z.of_nat (length all) else limit in
  (200, BRecords (take (Z.to_nat limit) all)).

Definition handleGet (id : string) (h : Handler) : Response :=
  if (id =? "")%string then writeError 400 "missing id" else
  match Get id (hStore h) with
  | None => writeError 404 "simulation not found"
  | Some r => (200, BRecord r)
  end.

Definition handleVersion (X : string -> option string) : Response := (200, BVersion (Version X)).

Definition algorithms : list Algorithm :=
  [ mkAlgorithm "fcfs" "First-Come-First-Served" false false "Non-preemptive; runs processes in arrival order.";
    mkAlgorithm "sjf" "Shortest Job First" false false "Non-preemptive; selects the shortest burst time.";
    mkAlgorithm "srtf" "Shortest Remaining Time First" true false "Preemptive SJF.";
    mkAlgorithm "rr" "Round-Robin" true true "Time-sliced; each process runs for `timeQuantum`.";
    mkAlgorithm "priority" "Priority (Preemptive)" true false "Preempts on higher-priority arrivals.";
    mkAlgorithm "priority_np" "Priority (Non-Preemptive)" false false "Runs to completion once started.";
    mkAlgorithm "cfs" "Completely Fair Scheduler" true false "Proportional-share via vruntime; Linux-like.";
    mkAlgorithm "mlfq" "Multi-Level Feedback Queue" true false "Demotes processes on quantum expiry.";
    mkAlgorithm "lottery" "Lottery (Proportional Share)" true true "Random proportional-share by ticket weight.";
    mkAlgorithm "mlq" "Multi-Level Queue (Fixed)" true true "Fixed priority queues; strict priority between queues."
  ]%string.

Definition handleAlgorithms : Response := (200, BAlgorithms algorithms).

(** ** Requests that decode

    [encoding/json] stores only values that fit the field's type. *)

Record decodable (p : ProcessInput) : Prop := {
  de_pid : in_int (inPID p);
  de_arrival : in_int (inArrival p);
  de_burst : in_int (inBurst p);
  de_bursts : Forall (fun b => inDuration b <= max_int) (inIOBursts p);
  de_length : Z.of_nat (length (inIOBursts p)) <= max_int
}.

(** The bursts of the input the simulator keeps. *)
Definition kept_bursts (p : ProcessInput) : list IOBurst :=
  map (fun b => {| AfterCPUTime := inAfterCPUTime b; Duration := inDuration b; Completed := false |})
    (List.filter (fun b => 0 <? inDuration b) (inIOBursts p)).

(** Process [q] is the one input [p] asks for. *)
Record built_from (p : ProcessInput) (q : Process) : Prop := {
  bf_admissible : admissible q;
  bf_pid : PID q = inPID p;
  bf_name : Name q = inName p;
  bf_arrival : ArrivalTime q = inArrival p;
  bf_burst : BurstTime q = inBurst p;
  bf_priority : Priority q = inPriority p;
  bf_bursts : IOBursts q = kept_bursts p
}.

Section requests.
Context `{GoSortLaws}.

Lemma kept_fold bs : forall acc,
  fold_left (fun acc b =>
    if 0 <? inDuration b
    then acc ++ [{| AfterCPUTime := inAfterCPUTime b; Duration := inDuration b;
                    Completed := false |}]
    else acc) bs acc =
  acc ++ map (fun b => {| AfterCPUTime := inAfterCPUTime b; Duration := inDuration b; Completed := false |})
    (List.filter (fun b => 0 <? inDuration b) bs).
Proof.
  induction bs as [|b bs IH]; intros acc; simpl; [by rewrite app_nil_r|].
  rewrite IH. destruct (0 <? inDuration b); simpl; [by rewrite <-app_assoc|done].
Qed.

Lemma validateProcess_None p :
  validateProcess p = None <-> 0 <= inPID p /\ 0 <= inArrival p /\ 1 <= inBurst p.
Proof.
  unfold validateProcess.
  destruct (Z.ltb_spec (inPID p) 0); [split; [done|lia]|].
  destruct (Z.ltb_spec (inArrival p) 0); [split; [done|lia]|].
  destruct (Z.leb_spec (inBurst p) 0); split; done || lia.
Qed.

Lemma kept_length p : (length (kept_bursts p) <= length (inIOBursts p))%nat.
Proof. unfold kept_bursts. rewrite length_map. apply filter_length_le. Qed.

Lemma NewProcess_fields pid name arrival burst priority p :
  NewProcess pid name arrival burst priority = Some p ->
  PID p = pid /\ Name p = name /\ ArrivalTime p = arrival /\ BurstTime p = burst /\
  Priority p = priority /\ IOBursts p = [].
Proof.
  unfold NewProcess. destruct (generateColor pid); simpl; [|done]. by intros [= <-].
Qed.

(** A new process with valid arguments and bursts that have not fired. *)
Lemma built_admissible pid name arrival burst priority bs p :
  NewProcess pid name arrival burst priority = Some p ->
  in_int pid -> 0 <= arrival <= max_int -> 1 <= burst <= max_int ->
  Forall (fun b => Completed b = false /\ Duration b <= max_int) bs ->
  Z.of_nat (length bs) <= max_int ->
  admissible (set_IOBursts bs p).
Proof.
  intros E Hpid Ha Hb Hbs Hlen. unfold NewProcess in E.
  destruct (generateColor pid) as [c|]; simpl in E; [|done]. injection E as <-.
  unfold in_int in *. split.
  - split; simpl; try lia. eapply Forall_impl; [exact Hbs|]. by intros b [].
  - rewrite resetProcess_eq. unfold set_IOBursts. simpl. f_equal.
    clear -Hbs. induction Hbs as [|b bs [Hb _] _ IH]; simpl; [done|].
    rewrite IH. f_equal. destruct b; simpl in *. by subst.
Qed.
Lemma addInput_valid p : decodable p -> validateProcess p = None ->
  exists q, built_from p q /\ forall sim, addInput p sim = Some (inr (AddProcess q sim)).
Proof.
  intros [Hpid Harr Hbur Hdur Hlen] Hv. unfold addInput. rewrite Hv.
  apply validateProcess_None in Hv as (Hp & Ha & Hb).
  destruct (NewProcess (inPID p) (inName p) (inArrival p) (inBurst p) (inPriority p)) as [q|] eqn:E.
  2:{ unfold NewProcess in E. destruct (generateColor_total _ Hpid) as [c Hc]. by rewrite Hc in E. }
  simpl. eexists. split; [|intros sim; reflexivity]. rewrite kept_fold.
  assert (Hnil : IOBursts q = []) by apply (NewProcess_fields _ _ _ _ _ _ E).
  rewrite Hnil. cbn [app]. fold (kept_bursts p).
  pose proof (kept_length p). unfold in_int in *. split.
  - apply (built_admissible _ _ _ _ _ _ _ E); try lia; [done|].
    unfold kept_bursts. rewrite Forall_forall. intros b (i & <- & Hi)%list_elem_of_In%in_map_iff.
    apply filter_In in Hi as [Hi%list_elem_of_In _]. split; [done|].
    by apply (proj1 (Forall_forall _ _) Hdur).
  - apply (NewProcess_fields _ _ _ _ _ _ E).
  - apply (NewProcess_fields _ _ _ _ _ _ E).
  - apply (NewProcess_fields _ _ _ _ _ _ E).
  - apply (NewProcess_fields _ _ _ _ _ _ E).
  - apply (NewProcess_fields _ _ _ _ _ _ E).
  - done.
Qed.

Lemma addInputs_valid ps : Forall decodable ps -> Forall (fun p => validateProcess p = None) ps ->
  exists qs, Forall2 built_from ps qs /\
    forall sim, addInputs ps sim = Some (inr (AddProcesses qs sim)).
Proof.
  induction ps as [|p ps IH]; intros Hd Hv; simpl; [by exists []|].
  apply Forall_cons in Hd as [Hp Hd], Hv as [Hvp Hv].
  destruct (addInput_valid p Hp Hvp) as (q & Hq & E). destruct (IH Hd Hv) as (qs & Hqs & E').
  exists (q :: qs). split; [by constructor|]. intros sim. rewrite E. simpl. by rewrite E'.
Qed.

(** The first invalid process decides the message. *)
Lemma addInputs_invalid ps1 p ps2 err sim :
  Forall decodable ps1 -> Forall (fun p => validateProcess p = None) ps1 ->
  validateProcess p = Some err -> addInputs (ps1 ++ p :: ps2) sim = Some (inl err).
Proof.
  revert sim. induction ps1 as [|q ps1 IH]; intros sim Hd Hv Hp; simpl.
  - unfold addInput. by rewrite Hp.
  - apply Forall_cons in Hd as [Hq Hd], Hv as [Hvq Hv].
    destruct (addInput_valid q Hq Hvq) as (r & _ & ->). simpl. by apply IH.
Qed.

(** Every scheduler the API builds keeps the engine's contract. *)
Lemma buildScheduler_ok a q sched : buildScheduler a q = inr sched -> sched_ok sched.
Proof.
  unfold buildScheduler.
  repeat match goal with |- context [(a =? ?x)%string] => destruct (a =? x)%string end;
    intros [= <-]; simpl; try exact I.
  - destruct (Z.ltb_spec q 1); lia.
  - exact NewMLFQ_ok.
  - destruct (Z.ltb_spec q 1); lia.
  - apply NewMLQ_ok. unfold max_int. lia.
Qed.

Lemma buildScheduler_known a q :
  (exists sched, buildScheduler a q = inr sched) <-> a ∈ map algID algorithms.
Proof.
  split.
  - intros [sched E]. apply list_elem_of_In. revert E. unfold buildScheduler.
    repeat match goal with |- context [(a =? ?x)%string] => destruct (String.eqb_spec a x);
      [subst; intros _; simpl; tauto|] end. done.
  - intros Ha. unfold algorithms in Ha. simpl in Ha. unfold buildScheduler.
    repeat (apply elem_of_cons in Ha as [->|Ha]; [simpl; eauto|]). by apply elem_of_nil in Ha.
Qed.

(** ** Accepted requests *)

(** The inputs a request must have to be simulated. *)
Definition acceptable (req : simulateRequest) : Prop :=
  rqProcesses req <> [] /\ rqAlgorithm req ∈ map algID algorithms /\
  Forall (fun p => validateProcess p = None) (rqProcesses req).

Definition with_defaults (h : Handler) (req : simulateRequest) : simulateRequest :=
  mkRequest (rqAlgorithm req)
    (if rqTimeQuantum req <=? 0 then defaultQuantum h else rqTimeQuantum req)
    (if rqSpeed req <=? 0 then defaultSpeed h else rqSpeed req) (rqProcesses req).

(** The processes of a request, the same whatever the algorithm. *)
Lemma prepare_builds ps : Forall decodable ps -> Forall (fun p => validateProcess p = None) ps ->
  exists qs, Forall2 built_from ps qs /\
    forall h req, rqProcesses req = ps -> acceptable req ->
    exists sched, sched_ok sched /\
      buildScheduler (rqAlgorithm req) (rqTimeQuantum (with_defaults h req)) = inr sched /\
      prepare h (inr req) = Some (inr (setup qs sched, sched_Name sched, with_defaults h req)).
Proof.
  intros Hd Hv. destruct (addInputs_valid ps Hd Hv) as (qs & Hqs & E). exists qs. split; [done|].
  intros h req Eps (Hne & Ha & _). unfold prepare.
  rewrite (proj2 (Nat.eqb_neq _ _)) by (by destruct (rqProcesses req)).
  cbn [rqAlgorithm rqTimeQuantum rqProcesses].
  destruct (proj2 (buildScheduler_known (rqAlgorithm req)
    (rqTimeQuantum (with_defaults h req))) Ha) as [sched Es].
  exists sched. split; [by eapply buildScheduler_ok|]. split; [done|].
  unfold with_defaults in *. cbn [rqTimeQuantum] in Es. by rewrite Es, Eps, E.
Qed.

Lemma prepare_accepts h req : Forall decodable (rqProcesses req) -> acceptable req ->
  exists sched qs, sched_ok sched /\ Forall2 built_from (rqProcesses req) qs /\
    prepare h (inr req) = Some (inr (setup qs sched, sched_Name sched, with_defaults h req)).
Proof.
  intros Hd Ha. destruct (prepare_builds _ Hd (proj2 (proj2 Ha))) as (qs & Hqs & E).
  destruct (E h req eq_refl Ha) as (sched & Hok & _ & Ep). by exists sched, qs.
Qed.

Lemma first_invalid ps : ~ Forall (fun p => validateProcess p = None) ps ->
  exists ps1 p ps2 err, ps = ps1 ++ p :: ps2 /\ Forall (fun p => validateProcess p = None) ps1 /\
    validateProcess p = Some err.
Proof.
  induction ps as [|p ps IH]; intros Hn; [by destruct Hn|].
  destruct (validateProcess p) as [err|] eqn:E.
  - exists [], p, ps, err. auto.
  - destruct IH as (ps1 & q & ps2 & err & -> & Hv & Hq); [intros Hv; apply Hn; by constructor|].
    exists (p :: ps1), q, ps2, err. split; [done|]. split; [by constructor|done].
Qed.

Lemma prepare_rejects h req : Forall decodable (rqProcesses req) -> ~ acceptable req ->
  exists msg, prepare h (inr req) = Some (inl (400, BError msg)).
Proof.
  intros Hd Hn. unfold prepare.
  destruct (rqProcesses req) as [|p ps] eqn:Eps; [by eexists|]. cbn [length Nat.eqb].
  cbn [rqAlgorithm rqTimeQuantum rqProcesses].
  set (tq := if rqTimeQuantum req <=? 0 then _ else _).
  destruct (buildScheduler (rqAlgorithm req) tq) as [err|sched] eqn:E; [by eexists|].
  destruct (first_invalid (p :: ps)) as (ps1 & q & ps2 & err & Eq & Hv & Hq).
  { intros Hv. apply Hn. unfold acceptable. rewrite Eps. split; [done|].
    split; [apply (buildScheduler_known _ tq); eauto|done]. }
  rewrite Eq in *. apply Forall_app in Hd as [Hd _].
  rewrite (addInputs_invalid ps1 q ps2 err) by done. by eexists.
Qed.

(** The completed run of an accepted request. *)
Lemma setup_run qs sched A fuel :
  sched_ok sched -> Forall admissible qs -> qs <> [] ->
  Forall (fun p => ArrivalTime p <= A) qs -> 0 <= A ->
  let work := zsum BurstTime qs in
  let io := zsum (fun p => zsum (fun b => Z.max 0 (Duration b)) (IOBursts p)) qs in
  A + work + io <= max_int -> A + work + io <= Z.of_nat fuel ->
  let sim := SetSpeed 1 (SetUpdateCallback true (setup qs sched)) in
  exists s', runToCompletion fuel sim = Some s' /\ reachable s' /\ isComplete s' = true /\
    currentTime s' <= A + work + io /\
    map config (map (deref (mem s')) (processes s')) ≡ₚ map config qs.
Proof.
  intros Hok Hadm Hne HA Hpos work io Hmax Hfuel sim.
  destruct (setup_incomplete qs sched A Hok Hadm Hne HA Hpos) as (Hc & Hby & Hw).
  destruct (setup_spec qs sched Hok Hadm) as (Hr & Ht & _ & _ & _).
  assert (Hrs : reachable sim) by (by apply reach_speed, reach_callback).
  fold work io in Hw.
  assert (Hws : work_left A sim = A + work + io) by exact Hw.
  assert (Hts : currentTime sim = 0) by exact Ht.
  destruct (run_terminates_reachable A fuel sim Hrs Hby Hc) as (s' & Hrun & Hr' & Hd & [Cp Cc] & Hb);
    [by rewrite Hws|by rewrite Hws, Hts|].
  exists s'. split; [done|]. split; [done|]. split; [done|]. split; [lia|].
  rewrite Cp, map_map, (map_ext _ (fun l => config (deref (mem sim) l))) by done.
  rewrite <-map_map. apply Permutation_map.
  exact (AddProcesses_perm qs (NewSimulator sched) (reach_new sched Hok) Hadm).
Qed.
End requests.

Lemma Forall2_zsum {A B} (R : A -> B -> Prop) f g l1 l2 :
  Forall2 R l1 l2 -> (forall x y, R x y -> f x = g y) -> zsum f l1 = zsum g l2.
Proof. intros HR Hfg. induction HR as [|x y l1 l2 Hxy _ IH]; simpl; [done|]. by rewrite (Hfg x y), IH. Qed.

Lemma kept_io p : zsum (fun b => Z.max 0 (Duration b)) (kept_bursts p) =
  zsum (fun b => Z.max 0 (inDuration b)) (inIOBursts p).
Proof.
  unfold kept_bursts. induction (inIOBursts p) as [|b bs IH]; [done|].
  cbn [List.filter zsum]. destruct (Z.ltb_spec 0 (inDuration b)); cbn [map zsum Duration]; lia.
Qed.

Lemma built_Forall2 (P : ProcessInput -> Prop) (Q : Process -> Prop) ps qs :
  Forall2 built_from ps qs -> Forall P ps -> (forall p q, built_from p q -> P p -> Q q) -> Forall Q qs.
Proof.
  intros HR. induction HR as [|p q ps qs Hpq _ IH]; intros HP HQ; [constructor|].
  apply Forall_cons in HP as [Hp HP]. constructor; eauto.
Qed.

Lemma built_all ps qs : Forall2 built_from ps qs -> Forall admissible qs.
Proof.
  intros Hqs. eapply (built_Forall2 (fun _ => True)); [exact Hqs|by apply Forall_true|by intros p q []].
Qed.

(** What the request and its processes have in common. *)
Lemma built_sums ps qs : Forall2 built_from ps qs ->
  zsum BurstTime qs = zsum inBurst ps /\
  zsum (fun p => zsum (fun b => Z.max 0 (Duration b)) (IOBursts p)) qs =
    zsum (fun p => zsum (fun b => Z.max 0 (inDuration b)) (inIOBursts p)) ps /\
  map PID qs = map inPID ps.
Proof.
  intros Hqs. split; [|split].
  - symmetry. eapply Forall2_zsum; [exact Hqs|]. by intros p q [].
  - symmetry. eapply Forall2_zsum; [exact Hqs|]. intros p q [_ _ _ _ _ _ ->]. by rewrite kept_io.
  - induction Hqs as [|p q ps qs [_ E _ _ _ _ _] _ IH]; simpl; congruence.
Qed.

(** The update of a completed engine. *)
Lemma finalUpdate_processes {S} `{Scheduler S} clock (s : Simulator S) : isComplete s = true ->
  uCompletedProcesses (finalUpdate clock s) = map (deref (mem s)) (processes s).
Proof.
  intros Hc. assert (Hall : List.filter (fun l => IsComplete (deref (mem s) l)) (processes s) = processes s).
  { unfold isComplete in Hc. clear -Hc. induction (processes s) as [|l ls IH]; [done|].
    simpl in *. apply andb_true_iff in Hc as [-> Hc]. by rewrite IH. }
  unfold finalUpdate. simpl. rewrite Hall. apply map_ext. intros l. apply Clone_eq.
Qed.

Lemma finalUpdate_complete `{GoSortLaws} {S} `{!Scheduler S} `{!SchedulerLaws S} clock (s : Simulator S) :
  reachable s -> isComplete s = true ->
  uCurrentProcess (finalUpdate clock s) = None /\
  uCompletedProcesses (finalUpdate clock s) = map (deref (mem s)) (processes s) /\
  Forall (fun p => RemainingTime p = 0) (uCompletedProcesses (finalUpdate clock s)).
Proof.
  intros Hr Hc. destruct (reachable_wf _ Hr) as [Hwf _]. pose proof (finalUpdate_processes clock s Hc) as Hup.
  split; [|split; [exact Hup|]].
  - unfold finalUpdate. simpl. destruct (currentProcess s) as [c|] eqn:Ec; [|done].
    pose proof (running_not_complete _ _ _ Hwf Ec) as Hn.
    apply (wf_cur _ _ _ _ _ _ (proj1 Hwf)) in Ec as [Hcp _].
    unfold isComplete in Hc. rewrite forallb_forall in Hc. apply list_elem_of_In in Hcp.
    rewrite Hc in Hn by done. done.
  - rewrite Hup. apply Forall_map, Forall_forall. intros l Hl. by apply (complete_served _ _ Hwf Hc).
Qed.

(** ** Concurrent requests *)

(** The guard under interleaving: [active] handlers are past it. *)
Inductive guard_step : Handler * Z -> Handler * Z -> Prop :=
| guard_enter h h' n : acquire h = Some h' -> guard_step (h, n) (h', n + 1)
| guard_reject h n : acquire h = None -> guard_step (h, n) (h, n)
| guard_leave h n : 0 < n -> guard_step (h, n) (release h, n - 1).

Inductive guarded (limit : Z) : Handler * Z -> Prop :=
| guarded_init st q sp : guarded limit (NewHandler st q sp limit, 0)
| guarded_next x y : guarded limit x -> guard_step x y -> guarded limit y.

Lemma guarded_spec limit x : guarded limit x ->
  0 <= x.2 /\ if 0 <? limit then simSem x.1 = Some (limit, x.2) /\ x.2 <= limit
              else simSem x.1 = None.
Proof.
  induction 1 as [st q sp|x y _ IH Hstep].
  - unfold NewHandler. simpl. destruct (Z.ltb_spec 0 limit); (split; [lia|]); [split; [done|lia]|done].
  - destruct Hstep as [h h' n Ha|h n Ha|h n Hn]; simpl in *; destruct IH as [Hn0 IH].
    + unfold acquire in Ha. destruct (0 <? limit).
      * destruct IH as [E Hl]. rewrite E in Ha. destruct (Z.ltb_spec n limit); simplify_eq.
        simpl. split; [lia|]. split; [done|lia].
      * rewrite IH in Ha. simplify_eq. split; [lia|done].
    + done.
    + unfold release. destruct (0 <? limit).
      * destruct IH as [-> Hl]. simpl. split; [lia|]. split; [done|lia].
      * rewrite IH. split; [lia|done].
Qed.

Lemma acquire_store h h' : acquire h = Some h' -> hStore h' = hStore h.
Proof.
  unfold acquire. destruct (simSem h) as [[cap n]|]; [|by intros [= <-]].
  destruct (n <? cap); [|done]. by intros [= <-].
Qed.

Lemma release_store h : hStore (release h) = hStore h.
Proof. unfold release. by destruct (simSem h) as [[cap n]|]. Qed.

(** What runs between the two does not touch the semaphore. *)
Lemma acquire_release h h' h2 : acquire h = Some h' -> simSem h2 = simSem h' ->
  simSem (release h2) = simSem h.
Proof.
  unfold acquire, release. destruct (simSem h) as [[cap k]|] eqn:E.
  - destruct (k <? cap); [|done]. intros [= <-] ->. simpl. do 2 f_equal. lia.
  - intros [= <-] E2. by rewrite E2, E, E2, E.
Qed.

(** ** Properties *)

(** C17: [handleSimulate] validates exactly: a request that decodes is rejected
    with status 400 if and only if it has no process, names none of the listed
    algorithms, or has a process with a negative id or arrival or a burst below
    1; preparing it never panics, and an accepted one yields a reachable engine
    state whose processes are exactly the requested ones, each with the
    configuration asked for. Nothing else is a ground for rejection: several processes
    may have the same id, and I/O bursts without a duration are dropped. *)
Theorem simulate_request_validation `{GoSortLaws} h req :
  Forall decodable (rqProcesses req) ->
  ((exists msg, prepare h (inr req) = Some (inl (400, BError msg))) <->
     rqProcesses req = [] \/ rqAlgorithm req ∉ map algID algorithms \/
     Exists (fun p => inPID p < 0 \/ inArrival p < 0 \/ inBurst p < 1) (rqProcesses req)) /\
  ((exists msg, prepare h (inr req) = Some (inl (400, BError msg))) \/
   exists sim name req', prepare h (inr req) = Some (inr (sim, name, req')) /\ reachable sim /\
     exists qs, Forall2 built_from (rqProcesses req) qs /\
       map (deref (mem sim)) (processes sim) ≡ₚ qs).
Proof.
  intros Hd.
  assert (Hiff : ~ acceptable req <-> rqProcesses req = [] \/ rqAlgorithm req ∉ map algID algorithms \/
     Exists (fun p => inPID p < 0 \/ inArrival p < 0 \/ inBurst p < 1) (rqProcesses req)).
  { assert (Hex : Exists (fun p => inPID p < 0 \/ inArrival p < 0 \/ inBurst p < 1) (rqProcesses req) <->
      ~ Forall (fun p => validateProcess p = None) (rqProcesses req)).
    { split.
      - intros (p & Hp & Hbad)%Exists_exists Hall. rewrite Forall_forall in Hall.
        specialize (Hall p Hp). rewrite validateProcess_None in Hall. lia.
      - intros (ps1 & p & ps2 & err & -> & _ & Hp)%first_invalid. apply Exists_exists.
        exists p. split; [set_solver|]. assert (validateProcess p <> None) as Hn by congruence.
        rewrite validateProcess_None in Hn. lia. }
    rewrite Hex. unfold acceptable.
    destruct (decide (rqProcesses req = [])), (decide (rqAlgorithm req ∈ map algID algorithms)),
      (decide (Forall (fun p => validateProcess p = None) (rqProcesses req))); tauto. }
  destruct (decide (rqProcesses req <> [] /\ rqAlgorithm req ∈ map algID algorithms /\
    Forall (fun p => validateProcess p = None) (rqProcesses req))) as [Ha|Ha].
  - destruct (prepare_accepts h req Hd Ha) as (sched & qs & Hok & Hqs & E).
    assert (Hadm : Forall admissible qs).
    { by eapply built_all. }
    split.
    + rewrite <-Hiff, E. split; [by intros [msg ?]|done].
    + right. exists (setup qs sched), (sched_Name sched), (with_defaults h req).
      split; [done|]. split; [by apply setup_spec|]. exists qs. split; [done|].
      exact (AddProcesses_perm qs (NewSimulator sched) (reach_new sched Hok) Hadm).
  - pose proof (prepare_rejects h req Hd Ha) as E. split; [|by left]. by rewrite <-Hiff.
Qed.

(** A request for two processes, one with I/O, under Round-Robin. *)
Definition sample_request : simulateRequest :=
  mkRequest "rr" 0 0
    [mkProcessInput 1 "A" 0 3 0 [mkIOBurstInput 1 2; mkIOBurstInput 2 0];
     mkProcessInput 2 "B" 1 2 0 []].

Definition sample_handler : Handler := NewHandler (New 10) 4 500 2.

Lemma sample_decodable : Forall decodable (rqProcesses sample_request).
Proof.
  apply Forall_cons_2; [|apply Forall_cons_2; [|apply Forall_nil_2]];
    (split; cbn [inPID inArrival inBurst inIOBursts length];
     try (unfold in_int, min_int, max_int; lia));
    repeat (apply Forall_cons_2 || apply Forall_nil_2); unfold max_int; simpl; lia.
Qed.

Lemma simulate_request_validation_witness :
  exists sim name req', prepare sample_handler (inr sample_request) = Some (inr (sim, name, req')) /\
    reachable sim.
Proof.
  destruct (simulate_request_validation sample_handler sample_request)
    as [Hiff [(msg & E)|(sim & name & req' & E & Hr & _)]].
  - exact sample_decodable.
  - exfalso. apply (ex_intro (fun msg => prepare sample_handler (inr sample_request)
      = Some (inl (400, BError msg))) msg), Hiff in E.
    destruct E as [E|[E|E]].
    + discriminate.
    + apply E. apply list_elem_of_In. vm_compute. tauto.
    + apply Exists_cons in E as [E|E]; [simpl in E; lia|].
      apply Exists_cons in E as [E|E]; [simpl in E; lia|by apply Exists_nil in E].
  - exists sim, name, req'. split; [exact E|exact Hr].
Defined.

(** C16: An accepted request whose run finishes before the deadline is answered
    with status 200 and the final state: with enough ticks (last arrival plus
    bursts plus I/O durations, which must fit an [int]) the run completes, the
    update returned is complete, lists exactly the requested processes as
    completed, its clock is within that bound, the record is saved under the
    returned id, and the semaphore is as before. *)
Theorem simulate_returns_completed_run `{GoSortLaws} format h req start A fuel clock dur :
  Forall decodable (rqProcesses req) -> acceptable req -> acquire h <> None ->
  Forall (fun p => inArrival p <= A) (rqProcesses req) ->
  let bound := A + zsum inBurst (rqProcesses req) +
    zsum (fun p => zsum (fun b => Z.max 0 (inDuration b)) (inIOBursts p)) (rqProcesses req) in
  bound <= max_int -> bound <= Z.of_nat fuel ->
  exists id name u h',
    handleSimulate format h (inr req) start (Completes fuel clock dur) =
      Some ((200, BSimulated id name (Z.quot dur 1000000) u), h') /\
    uState u = SimStateComplete /\ uCurrentTime u <= bound /\
    uCurrentProcess u = None /\
    map PID (uCompletedProcesses u) ≡ₚ map inPID (rqProcesses req) /\
    Forall (fun p => RemainingTime p = 0) (uCompletedProcesses u) /\
    (exists r, hStore h' = Save r (hStore h) /\ rID r = id /\ rFinalState r = u) /\
    simSem h' = simSem h.
Proof.
  intros Hd Hacc Hsem HA bound Hmax Hfuel.
  unfold handleSimulate. destruct (acquire h) as [h1|] eqn:Eacq; [|done].
  unfold simulate. destruct (prepare_accepts h1 req Hd Hacc) as (sched & qs & Hok & Hqs & ->).
  cbn [mbind option_bind].
  pose proof (built_all _ _ Hqs) as Hadm. destruct (built_sums _ _ Hqs) as (Hwork & Hio & Hpids).
  assert (HAq : Forall (fun q => ArrivalTime q <= A) qs).
  { eapply built_Forall2; [exact Hqs|exact HA|]. simpl. by intros p q [_ _ _ -> _ _ _]. }
  assert (Hne : qs <> []) by (intros ->; inversion Hqs as [Hnil|]; by apply Hacc).
  assert (HA0 : 0 <= A).
  { destruct qs as [|q qs]; [done|]. apply Forall_cons in HAq as [Hq _], Hadm as [[Ha _] _].
    pose proof (co_arrival _ Ha). lia. }
  destruct (setup_run qs sched A fuel Hok Hadm Hne HAq HA0) as (s' & Hrun & Hr & Hc & Ht & Hperm);
    [rewrite Hwork, Hio; exact Hmax|rewrite Hwork, Hio; exact Hfuel|].
  rewrite Hwork, Hio in Ht. fold bound in Ht. rewrite Hrun. cbn [mbind option_bind].
  destruct (finalUpdate_complete clock s' Hr Hc) as (Hcur & Hup & Hrem).
  eexists _, _, _, _. split; [reflexivity|].
  split; [done|]. split; [exact Ht|]. split; [exact Hcur|]. split; [|split; [exact Hrem|split]].
  - rewrite Hup, (map_ext _ (fun p => (config p).1.1.1.1.1)) by done.
    rewrite <-Hpids, <-(map_map config (fun c => c.1.1.1.1.1)), Hperm, map_map. done.
  - eexists. rewrite release_store. simpl. rewrite (acquire_store _ _ Eacq). split; [reflexivity|done].
  - by eapply acquire_release.
Qed.

Lemma sample_acceptable : acceptable sample_request.
Proof.
  split; [discriminate|]. split; [apply list_elem_of_In; vm_compute; tauto|].
  apply Forall_cons_2; [reflexivity|]. apply Forall_cons_2; [reflexivity|]. apply Forall_nil_2.
Qed.

Lemma simulate_returns_completed_run_witness :
  exists id name u h',
    handleSimulate (fun _ => "t"%string) sample_handler (inr sample_request) 0 (Completes 8 0 0) =
      Some ((200, BSimulated id name 0 u), h') /\ uCurrentTime u <= 8.
Proof.
  destruct (simulate_returns_completed_run (fun _ => "t"%string) sample_handler sample_request
              0 1 8 0 0) as (id & name & u & h' & E & _ & Ht & _).
  - exact sample_decodable.
  - exact sample_acceptable.
  - discriminate.
  - apply Forall_cons_2; [simpl; lia|]. apply Forall_cons_2; [simpl; lia|]. apply Forall_nil_2.
  - vm_compute. discriminate.
  - vm_compute. discriminate.
  - exists id, name, u, h'. split; [exact E|exact Ht].
Defined.

(** The concurrency guard is safe under any interleaving of requests: with a
    positive limit the semaphore holds exactly one token per active handler,
    never more than the limit, and a request is turned away exactly when the
    limit is reached; with a limit of 0 no request is ever turned away. *)
Theorem concurrency_guard_exact limit h n :
  guarded limit (h, n) ->
  0 <= n /\ (0 < limit -> n <= limit) /\
  (acquire h = None <-> 0 < limit /\ n = limit).
Proof.
  intros [Hn Hg]%guarded_spec. simpl in *. split; [done|]. unfold acquire.
  destruct (Z.ltb_spec 0 limit) as [Hl|Hl].
  - destruct Hg as [-> Hle]. split; [done|].
    destruct (Z.ltb_spec n limit); (split; [done || lia|]); [lia|done].
  - rewrite Hg. split; [lia|]. split; [done|lia].
Qed.

Lemma concurrency_guard_exact_witness :
  acquire (set_simSem (Some (1, 1)) (NewHandler (New 1) 4 500 1)) = None.
Proof.
  apply (concurrency_guard_exact 1 (set_simSem (Some (1, 1)) (NewHandler (New 1) 4 500 1)) 1).
  - apply (guarded_next 1 (NewHandler (New 1) 4 500 1, 0)); [constructor|].
    by apply (guard_enter _ _ 0).
  - split; [lia|reflexivity].
Defined.

Lemma append_assoc (a b c : string) : ((a ++ b) ++ c)%string = (a ++ (b ++ c))%string.
Proof. induction a as [|x a IH]; [done|].
  change (String x ((a ++ b) ++ c) = String x (a ++ (b ++ c)))%string. congruence. Qed.

Lemma generateID_inj format a1 t1 h1 a2 t2 h2 :
  (generateID format a1 t1 h1).1 = (generateID format a2 t2 h2).1 ->
  wrapU64 (idCounter h1 + 1) = wrapU64 (idCounter h2 + 1).
Proof.
  unfold generateID. simpl. intros E. apply itoa_inj.
  apply (after_last_separator "-"%char (a1 ++ "-" ++ format t1)%string (a2 ++ "-" ++ format t2)%string);
    [apply itoa_digits, wrapU64_range..|].
  rewrite !append_assoc. exact E.
Qed.

Lemma generateID_nonempty format a t h : (generateID format a t h).1 <> ""%string.
Proof. unfold generateID. simpl. by destruct a. Qed.

Section served.
Context `{GoSortLaws} (format : Z -> string).

(** The handler after any number of requests. *)
Inductive served : Handler -> Prop :=
| served_init c q sp limit : served (NewHandler (New c) q sp limit)
| served_simulate h decoded start o resp h' :
    served h -> idCounter h < 2 ^ 64 - 1 ->
    handleSimulate format h decoded start o = Some (resp, h') -> served h'.

(** Every id in the store was issued under an earlier value of the counter. *)
Definition issued (h : Handler) : Prop :=
  0 <= idCounter h < 2 ^ 64 /\ store_ok (hStore h) /\
  forall r, r ∈ records (hStore h) -> exists a t h0,
    rID r = (generateID format a t h0).1 /\ 0 <= idCounter h0 < idCounter h.

(** What a request does to counter and store. *)
Lemma handleSimulate_cases h decoded start o resp h' :
  handleSimulate format h decoded start o = Some (resp, h') ->
  (idCounter h' = idCounter h /\ hStore h' = hStore h /\ exists msg, resp.2 = BError msg) \/
  (exists name r ms, idCounter h' = wrapU64 (idCounter h + 1) /\
     hStore h' = Save r (hStore h) /\ rID r = (generateID format name start h).1 /\
     resp = (200, BSimulated (rID r) name ms (rFinalState r))).
Proof.
  unfold handleSimulate. destruct (acquire h) as [h1|] eqn:Ea.
  2:{ intros [= <- <-]. left. eauto. }
  pose proof (acquire_store _ _ Ea) as Es.
  assert (Ec : idCounter h1 = idCounter h).
  { unfold acquire in Ea. destruct (simSem h) as [[cap n]|]; [|by simplify_eq].
    destruct (n <? cap); [|done]. by simplify_eq. }
  assert (Er : forall x, idCounter (release x) = idCounter x)
    by (intros x; unfold release; by destruct (simSem x) as [[? ?]|]).
  unfold simulate. destruct (prepare h1 decoded) as [[e|[[sim name] req]]|] eqn:Ep; [..|done];
    cbn [mbind option_bind].
  - intros [= <- <-]. left. simpl. rewrite Er, release_store. split; [done|]. split; [done|].
    clear -Ep. unfold prepare in Ep. destruct decoded as [err|rq]; [by simplify_eq; eexists|].
    destruct (_ =? _)%nat; [by simplify_eq; eexists|].
    destruct (buildScheduler _ _) as [err|sched]; [by simplify_eq; eexists|].
    destruct (addInputs _ _) as [[err|sim]|]; simpl in Ep; by simplify_eq; eexists.
  - destruct o as [fuel clock dur| |]; cbn [mbind option_bind].
    + destruct (runToCompletion fuel _) as [final|]; [|done]. cbn [mbind option_bind].
      intros [= <- <-]. right. eexists name, _, _. simpl.
      rewrite Er, release_store. simpl. rewrite Ec, Es. split; [done|]. split; [reflexivity|].
      done.
    + intros [= <- <-]. left. simpl. rewrite Er, release_store. eauto.
    + intros [= <- <-]. left. simpl. rewrite Er, release_store. eauto.
Qed.

Lemma wrapU64_succ n : 0 <= n < 2 ^ 64 - 1 -> wrapU64 (n + 1) = n + 1.
Proof. intros Hn. unfold wrapU64. apply Z.mod_small. lia. Qed.

Lemma elem_of_Save r r' st : r' ∈ records (Save r st) -> r' ∈ records st \/ r' = r.
Proof.
  unfold Save. simpl. rewrite elem_of_app, list_elem_of_singleton.
  intros [Hr|Hr]; [left|by right]. destruct (_ <=? _); [|done].
  destruct (records st); simpl in *; [done|by right].
Qed.

Lemma served_issued h : served h -> issued h.
Proof.
  induction 1 as [c q sp limit|h decoded start o resp h' _ [Hc [Hs Hi]] Hlt E].
  - split; [simpl; lia|]. split; [apply New_ok|]. by intros r ?%elem_of_nil.
  - destruct (handleSimulate_cases _ _ _ _ _ _ E) as
      [(Ec & Es & _)|(name & r & ms & Ec & Es & Er & _)]; unfold issued; rewrite Ec, Es; [done|].
    rewrite wrapU64_succ by lia. split; [lia|]. split; [by apply Save_ok|].
    intros r' [Hr'| ->]%elem_of_Save.
    + destruct (Hi r' Hr') as (a & t & h0 & ? & ?). exists a, t, h0. split; [done|lia].
    + exists name, start, h. split; [done|lia].
Qed.

Lemma find_new r rs : (forall r', r' ∈ rs -> rID r' <> rID r) ->
  List.find (fun x => (rID x =? rID r)%string) (rs ++ [r]) = Some r.
Proof.
  induction rs as [|x rs IH]; intros Hne; simpl; [by rewrite String.eqb_refl|].
  rewrite (proj2 (String.eqb_neq _ _)) by (apply Hne; left).
  apply IH. intros r' Hr'. apply Hne. by right.
Qed.

Lemma Get_Save r st : (forall r', r' ∈ records st -> rID r' <> rID r) -> Get (rID r) (Save r st) = Some r.
Proof.
  intros Hne. unfold Get, Save. simpl. apply find_new. intros r' Hr'. apply Hne.
  destruct (_ <=? _); [|done]. destruct (records st); simpl in *; [done|by right].
Qed.
End served.

(** C40: Whatever the algorithm names and timestamps are, no two saved simulations
    share an id (until the 64-bit counter wraps): after any sequence of requests,
    a simulation answered with status 200 is found by its id, with exactly the
    final state that was answered. *)
Theorem answered_simulation_is_found `{GoSortLaws} format h decoded start o id name ms u h' :
  served format h -> idCounter h < 2 ^ 64 - 1 ->
  handleSimulate format h decoded start o = Some ((200, BSimulated id name ms u), h') ->
  (forall r, r ∈ records (hStore h) -> rID r <> id) /\
  exists r, handleGet id h' = (200, BRecord r) /\ rID r = id /\ rFinalState r = u.
Proof.
  intros Hs Hlt E. destruct (served_issued _ _ Hs) as (Hc & _ & Hi).
  destruct (handleSimulate_cases _ _ _ _ _ _ _ E) as
    [(_ & _ & msg & [=])|(nm & r & ms' & _ & Est & Er & [= -> -> -> ->])].
  assert (Hnew : forall r', r' ∈ records (hStore h) -> rID r' <> rID r).
  { intros r' Hr' Heq. destruct (Hi r' Hr') as (a & t & h0 & E0 & H0').
    rewrite E0, Er in Heq. apply generateID_inj in Heq. rewrite !wrapU64_succ in Heq by lia. lia. }
  split; [done|]. exists r. split; [|done]. unfold handleGet.
  rewrite (proj2 (String.eqb_neq _ _)) by (rewrite Er; apply generateID_nonempty).
  by rewrite Est, Get_Save.
Qed.

Lemma answered_simulation_is_found_witness :
  exists id u h' r, handleSimulate (fun _ => "t"%string) sample_handler (inr sample_request) 0
      (Completes 8 0 0) = Some ((200, BSimulated id "Round-Robin (Quantum=4)" 0 u), h') /\
    handleGet id h' = (200, BRecord r).
Proof.
  destruct (handleSimulate (fun _ => "t"%string) sample_handler (inr sample_request) 0
      (Completes 8 0 0)) as [[[st b] h']|] eqn:E; [|vm_compute in E; discriminate].
  destruct b as [m|v|l|id nm ms u|l|r]; try (vm_compute in E; discriminate).
  assert (Hst : (st, nm, ms) = (200, "Round-Robin (Quantum=4)"%string, 0))
    by (vm_compute in E; injection E; intros; subst; reflexivity).
  injection Hst as -> -> ->.
  destruct (answered_simulation_is_found (fun _ => "t"%string) sample_handler (inr sample_request)
    0 (Completes 8 0 0) id "Round-Robin (Quantum=4)" 0 u h') as (_ & r & Hg & _).
  - apply served_init.
  - vm_compute. reflexivity.
  - exact E.
  - exists id, u, h', r. split; [reflexivity|exact Hg].
Defined.

(** [GET /api/simulations] answers with the newest records first, as many as
    there are up to the limit: the [limit] parameter when it is between 1 and
    500, and 50 otherwise. *)
Theorem list_returns_newest zero v h :
  let limit := listLimit v in
  exists rs, handleList zero v h = (200, BRecords rs) /\
    rs = take (Z.to_nat limit) (rev (records (hStore h))) /\
    (length rs <= 500)%nat /\ 1 <= limit <= 500.
Proof.
  intros limit.
  assert (Hlim : 1 <= limit <= 500).
  { unfold limit, listLimit. destruct (v =? "")%string; [lia|]. destruct (Atoi v) as [n|]; [|lia].
    destruct (Z.ltb_spec 0 n), (Z.leb_spec n 500); simpl; lia. }
  eexists. split; [reflexivity|]. unfold handleList. fold limit. rewrite List_rev.
  assert (E : take (Z.to_nat (if Z.of_nat (length (rev (records (hStore h)))) <? limit
      then Z.of_nat (length (rev (records (hStore h)))) else limit)) (rev (records (hStore h)))
    = take (Z.to_nat limit) (rev (records (hStore h)))).
  { destruct (Z.ltb_spec (Z.of_nat (length (rev (records (hStore h))))) limit); [|done].
    rewrite Nat2Z.id, !take_ge by lia. done. }
  split; [exact E|]. split; [|done]. rewrite E, length_take. lia.
Qed.
