(* ===== verification/Interface.v ===== *)
(** * Policies behind the interface value (src/internal/api/api.go, src/web/server.go)

    The program only ever runs engines over interface values ([AnyScheduler]); the
    theorems about policies are about engines over the policies' own types. Here the
    two are connected: an engine over an interface value is the engine over its
    dynamic type, tick by tick; so what a policy promises, the answers of the API keep. *)

From S2P Require Import Prelude.
From S2P Require Import Float64.
From S2P Require Import Process.
From S2P Require Import Scheduler.
From S2P Require Import MultiLevel.
From S2P Require Import Lottery.
From S2P Require Import Simulator.
From S2P Require Import SimInvariant.
From S2P Require Import SimSteps.
From S2P Require Import SimReach.
From S2P Require Import SimProgress.
From S2P Require Import SimFair.
From S2P Require Import SimOptimal.
From S2P Require Import SimMorphism.
From S2P Require Import SimInTurn.
From S2P Require Import Store.
From S2P Require Import Metrics.
From S2P Require Import Api.

(** ** Interface values *)

#[local] Existing Instances dynMethods dynLaws.

#[export] Instance redyn_morphism (a : AnyScheduler) : Morphism (redyn a).
Proof.
  destruct a as [S M L v]. split; try done. cbn. intros w h q t. destruct (Schedule w h q t). reflexivity.
Qed.

(** The engine over the dynamic type, seen through the interface. *)
Definition behind (a : AnyScheduler) (s : Simulator (dynType a)) : Simulator AnyScheduler :=
  retype (redyn a) id id s.

Lemma redyn_own a : redyn a (dynValue a) = a.
Proof. by destruct a. Qed.

Lemma behind_new a : NewSimulator a = behind a (NewSimulator (dynValue a)).
Proof. unfold behind, retype. cbn. by rewrite redyn_own. Qed.

Lemma reachable_behind `{GoSortLaws} (s : Simulator AnyScheduler) : reachable s ->
  exists a s0, reachable s0 /\ s = behind a s0.
Proof.
  induction 1 as [a Hok|p s _ (a & s0 & Hr & ->) Hp|v s _ (a & s0 & Hr & ->)|b s _ (a & s0 & Hr & ->)
    |v s _ (a & s0 & Hr & ->)|s s' _ (a & s0 & Hr & ->) Ht E|s _ (a & s0 & Hr & ->)].
  - exists a, (NewSimulator (dynValue a)). split; [by apply reach_new|apply behind_new].
  - exists a, (AddProcess p s0). split; [by apply reach_add|done].
  - exists a, (SetSpeed v s0). split; [by apply reach_speed|done].
  - exists a, (SetUpdateCallback b s0). split; [by apply reach_callback|done].
  - exists a, (set_state v s0). split; [by apply reach_state|done].
  - unfold behind in E. rewrite (executeTimeUnit_retype (redyn a)) in E.
    destruct (executeTimeUnit s0) as [s1|] eqn:E0; [|done]. injection E as <-.
    exists a, s1. split; [|done]. eapply reach_tick; [exact Hr|exact Ht|exact E0].
  - exists a, (resetState s0). split; [exact (reach_reset s0 Hr)|].
    exact (resetState_retype (redyn a) id id s0).
Qed.

(** ** Answers *)

(** The sum of a time over the processes of an answer. *)
Definition answered (t : Process -> Z) (u : SimulationUpdate) : Z := zsum t (uCompletedProcesses u).

(** The run behind an answer: that of the algorithm's scheduler on the processes. *)
Lemma answered_run `{GoSortLaws} format h req start fuel clock dur id nm ms u h' qs :
  (forall h1, exists sched, sched_ok sched /\
     buildScheduler (rqAlgorithm req) (rqTimeQuantum (with_defaults h1 req)) = inr sched /\
     prepare h1 (inr req) = Some (inr (setup qs sched, sched_Name sched, with_defaults h1 req))) ->
  handleSimulate format h (inr req) start (Completes fuel clock dur) =
    Some ((200, BSimulated id nm ms u), h') ->
  exists q sched s, sched_ok sched /\ buildScheduler (rqAlgorithm req) q = inr sched /\
    runToCompletion fuel (setup qs sched) = Some s /\
    forall t, isComplete s = true -> answered t u = zsum (fun l => t (deref (mem s) l)) (processes s).
Proof.
  intros Hp. unfold handleSimulate. destruct (acquire h) as [h1|]; [|done].
  unfold simulate. destruct (Hp h1) as (sched & Hok & Hb & ->). cbn [mbind option_bind].
  change (SetSpeed 1 (SetUpdateCallback true (setup qs sched)))
    with (retype (@Datatypes.id AnyScheduler) (fun _ => 1) (fun _ => true) (setup qs sched)).
  rewrite (runToCompletion_retype (@Datatypes.id AnyScheduler)).
  destruct (runToCompletion fuel (setup qs sched)) as [s|] eqn:E; [|done].
  cbn [mbind option_bind fmap option_fmap option_map]. intros [= _ _ _ <- _].
  eexists _, sched, s. split; [exact Hok|]. split; [exact Hb|]. split; [exact E|].
  intros t Hc. unfold answered. rewrite finalUpdate_processes by exact Hc. apply zsum_map.
Qed.

(** Two answers to requests for the same processes. *)
Lemma answers_compare `{GoSortLaws} {Sp} {SS : Scheduler Sp} {SL : SchedulerLaws Sp} (best : Sp) qs A
    fuel1 fuel2 (sched2 : AnyScheduler) (s1 s2 : Simulator AnyScheduler) :
  no_policy_beats best qs A -> sched_ok sched2 ->
  runToCompletion fuel1 (setup qs (pack best)) = Some s1 ->
  runToCompletion fuel2 (setup qs sched2) = Some s2 ->
  isComplete s1 = true /\ isComplete s2 = true /\
  zsum (fun l => TurnaroundTime (deref (mem s1) l)) (processes s1) <=
    zsum (fun l => TurnaroundTime (deref (mem s2) l)) (processes s2) /\
  zsum (fun l => WaitingTime (deref (mem s1) l)) (processes s1) <=
    zsum (fun l => WaitingTime (deref (mem s2) l)) (processes s2).
Proof.
  intros Hbest Hok E1 E2. destruct (Hbest _ _ _ sched2 Hok) as (s & r & Es & Er & Cs & Cr & Ht & Hw).
  rewrite (run_unique _ _ _ _ _ E2 Er).
  change (pack best) with (redyn (pack best) best) in E1.
  rewrite (setup_retype (redyn (pack best))), (runToCompletion_retype (redyn (pack best))) in E1.
  change (retype (redyn (pack best)) id id <$> runToCompletion fuel1 (setup qs best) = Some s1) in E1.
  destruct (runToCompletion fuel1 (setup qs best)) as [s0|] eqn:E0; [|discriminate E1]. injection E1 as <-.
  rewrite (run_unique _ _ _ _ _ E0 Es). exact (conj Cs (conj Cr (conj Ht Hw))).
Qed.

Lemma answered_acceptable `{GoSortLaws} format h req start o id nm ms u h' :
  Forall decodable (rqProcesses req) ->
  handleSimulate format h (inr req) start o = Some ((200, BSimulated id nm ms u), h') -> acceptable req.
Proof.
  intros Hd. unfold handleSimulate. destruct (acquire h) as [h1|]; [|done]. unfold simulate.
  destruct (decide (acceptable req)) as [|Hn]; [done|].
  by destruct (prepare_rejects h1 req Hd Hn) as [msg ->].
Qed.

Lemma kept_none p : Forall (fun b => inDuration b <= 0) (inIOBursts p) -> kept_bursts p = [].
Proof.
  unfold kept_bursts. induction 1 as [|b bs Hb _ IH]; [done|]. cbn [List.filter].
  by rewrite (proj2 (Z.ltb_ge _ _) Hb).
Qed.

(** What the theorems on policies ask of the processes, in terms of the request. *)
Lemma built_plain ps qs A : Forall2 built_from ps qs ->
  Forall (fun p => Forall (fun b => inDuration b <= 0) (inIOBursts p)) ps ->
  Forall (fun p => inArrival p <= A) ps ->
  Forall (fun q => IOBursts q = []) qs /\ Forall (fun q => ArrivalTime q <= A) qs.
Proof.
  intros Hqs Hio HA. split.
  - eapply built_Forall2; [exact Hqs|exact Hio|]. cbn. intros p q [_ _ _ _ _ _ ->]. apply kept_none.
  - eapply built_Forall2; [exact Hqs|exact HA|]. cbn. by intros p q [_ _ _ -> _ _ _].
Qed.

(** The request the optimal algorithms are for. *)
Definition optimal_for (algorithm : string) (ps : list ProcessInput) (A : Z) : Prop :=
  algorithm = "srtf"%string /\ NoDup (map inPID ps) \/
  algorithm = "sjf"%string /\ Forall (fun p => inArrival p = A) ps.

Lemma optimal_scheduler `{GoSortLaws} a q ps qs A : optimal_for a ps A -> Forall2 built_from ps qs -> ps <> [] ->
  Forall (fun p => Forall (fun b => inDuration b <= 0) (inIOBursts p)) ps ->
  Forall (fun p => inArrival p <= A) ps -> A + zsum inBurst ps <= max_int ->
  exists Sp (SS : Scheduler Sp) (SL : SchedulerLaws Sp) (best : Sp),
    buildScheduler a q = inr (pack best) /\ no_policy_beats best qs A.
Proof.
  intros Ho Hqs Hne Hio HA Hmax. pose proof (built_all _ _ Hqs) as Hadm.
  destruct (built_sums _ _ Hqs) as (Hw & _ & Hpid), (built_plain _ _ A Hqs Hio HA) as [Hi Ha].
  assert (Hqne : qs <> []) by (intros ->; by inversion Hqs).
  rewrite <-Hw in Hmax. destruct Ho as [[-> Hnd]|[-> Heq]].
  - exists SRTF.SRTFScheduler, _, _, SRTF.NewSRTFScheduler. split; [done|].
    apply (least_first_optimal (inv := distinct_PIDs)); try done.
    + apply setup_distinct; [done|done|by rewrite Hpid].
    + destruct qs as [|p qs]; [done|]. apply Forall_cons in Hadm as [[Hp _] _], Ha as [? _].
      pose proof (co_arrival _ Hp). lia.
  - exists SJF.SJFScheduler, _, _, SJF.NewSJFScheduler. split; [done|].
    assert (Hqa : Forall (fun p => ArrivalTime p = A) qs).
    { eapply built_Forall2; [exact Hqs|exact Heq|]. cbn. by intros p x [_ _ _ -> _ _ _]. }
    apply (least_first_optimal (inv := batch)); try done.
    + by apply setup_batch with A.
    + destruct qs as [|p qs]; [done|]. apply Forall_cons in Hadm as [[Hp _] _], Ha as [? _].
      pose proof (co_arrival _ Hp). lia.
Qed.

(** ** Properties *)

(** C5: The optimal algorithms are optimal through the API: of all answers to requests
    for the same processes without I/O, whatever the algorithm, the quantum and the
    state of the server, none shows a smaller total turnaround or waiting time than
    the answer for [srtf] (with distinct ids), or for [sjf] when all processes arrive
    together. *)
Theorem optimal_answers `{GoSortLaws} format ps A h1 h2 req1 req2 start1 start2 fuel1 fuel2
    clock1 clock2 dur1 dur2 id1 id2 n1 n2 m1 m2 u1 u2 h1' h2' :
  rqProcesses req1 = ps -> rqProcesses req2 = ps -> Forall decodable ps ->
  Forall (fun p => Forall (fun b => inDuration b <= 0) (inIOBursts p)) ps ->
  Forall (fun p => inArrival p <= A) ps -> A + zsum inBurst ps <= max_int ->
  optimal_for (rqAlgorithm req1) ps A ->
  handleSimulate format h1 (inr req1) start1 (Completes fuel1 clock1 dur1) =
    Some ((200, BSimulated id1 n1 m1 u1), h1') ->
  handleSimulate format h2 (inr req2) start2 (Completes fuel2 clock2 dur2) =
    Some ((200, BSimulated id2 n2 m2 u2), h2') ->
  answered TurnaroundTime u1 <= answered TurnaroundTime u2 /\
  answered WaitingTime u1 <= answered WaitingTime u2.
Proof.
  intros E1 E2 Hd Hio HA Hmax Ho H1' H2'.
  assert (Ha1 : acceptable req1) by (eapply answered_acceptable; [by rewrite E1|exact H1']).
  assert (Ha2 : acceptable req2) by (eapply answered_acceptable; [by rewrite E2|exact H2']).
  pose proof (proj2 (proj2 Ha1)) as Hv. rewrite E1 in Hv.
  destruct (prepare_builds ps Hd Hv) as (qs & Hqs & Hp).
  destruct (answered_run _ _ _ _ _ _ _ _ _ _ _ _ qs (fun h => Hp h req1 E1 Ha1) H1')
    as (q1 & sched1 & s1 & _ & Hb & Hs1 & Hu1).
  destruct (answered_run _ _ _ _ _ _ _ _ _ _ _ _ qs (fun h => Hp h req2 E2 Ha2) H2')
    as (q2 & sched2 & s2 & Hok2 & _ & Hs2 & Hu2).
  destruct (optimal_scheduler _ q1 ps qs A Ho Hqs) as (Sp & SS & SL & best & Hb' & Hbest);
    [rewrite <-E1; apply Ha1|done|done|done|].
  rewrite Hb in Hb'. injection Hb' as ->.
  destruct (answers_compare best qs A fuel1 fuel2 sched2 s1 s2 Hbest Hok2 Hs1 Hs2) as (C1 & C2 & Ht & Hw).
  rewrite !(Hu1 _ C1), !(Hu2 _ C2). by split.
Qed.

(** *** Witnesses *)

(** A long job and two short ones that arrive while it runs. *)
Definition convoy_request (algorithm : string) : simulateRequest :=
  mkRequest algorithm 0 0
    [mkProcessInput 1 "A" 0 8 0 []; mkProcessInput 2 "B" 1 2 0 []; mkProcessInput 3 "C" 2 1 0 []].

Lemma convoy_decodable : Forall decodable (rqProcesses (convoy_request "srtf")).
Proof.
  repeat (apply Forall_cons_2 || apply Forall_nil_2);
    (split; cbn [inPID inArrival inBurst inIOBursts length];
     try (unfold in_int, min_int, max_int; lia); try apply Forall_nil_2).
Qed.

Lemma convoy_answer algorithm : algorithm = "srtf"%string \/ algorithm = "fcfs"%string ->
  exists id n u h', handleSimulate (fun _ => "t"%string) sample_handler (inr (convoy_request algorithm)) 0
    (Completes 11 0 0) = Some ((200, BSimulated id n 0 u), h') /\
    answered TurnaroundTime u = (if (algorithm =? "srtf")%string then 15 else 26).
Proof.
  intros [-> | ->]; (destruct (handleSimulate (fun _ => "t"%string) sample_handler _ 0 (Completes 11 0 0))
    as [[[st b] h']|] eqn:E; [|vm_compute in E; discriminate]);
  (destruct b as [m|v|l|id n ms u|l|r]; try (vm_compute in E; discriminate));
  exists id, n, u, h';
  (assert (Hst : (st, ms, answered TurnaroundTime u) = (200, 0, answered TurnaroundTime u))
     by (vm_compute in E; injection E; intros; subst; reflexivity));
  injection Hst as -> ->; (split; [reflexivity|]);
  vm_compute in E; injection E as _ _ <- _; vm_compute; reflexivity.
Qed.

Lemma optimal_answers_witness :
  exists id1 n1 u1 h1 id2 n2 u2 h2,
    handleSimulate (fun _ => "t"%string) sample_handler (inr (convoy_request "srtf")) 0 (Completes 11 0 0) =
      Some ((200, BSimulated id1 n1 0 u1), h1) /\
    handleSimulate (fun _ => "t"%string) sample_handler (inr (convoy_request "fcfs")) 0 (Completes 11 0 0) =
      Some ((200, BSimulated id2 n2 0 u2), h2) /\
    answered TurnaroundTime u1 = 15 /\ answered TurnaroundTime u2 = 26 /\
    answered WaitingTime u1 <= answered WaitingTime u2.
Proof.
  destruct (convoy_answer "srtf" (or_introl eq_refl)) as (id1 & n1 & u1 & h1 & E1 & T1).
  destruct (convoy_answer "fcfs" (or_intror eq_refl)) as (id2 & n2 & u2 & h2 & E2 & T2).
  exists id1, n1, u1, h1, id2, n2, u2, h2. do 2 (split; [assumption|]). split; [exact T1|]. split; [exact T2|].
  assert (Hw : answered TurnaroundTime u1 <= answered TurnaroundTime u2 /\
    answered WaitingTime u1 <= answered WaitingTime u2); [|exact (proj2 Hw)].
  eapply (optimal_answers (fun _ => "t"%string) (rqProcesses (convoy_request "srtf")) 2
    sample_handler sample_handler (convoy_request "srtf") (convoy_request "fcfs"));
    [reflexivity|reflexivity|exact convoy_decodable|..|exact E1|exact E2].
  - repeat constructor.
  - repeat constructor; vm_compute; discriminate.
  - vm_compute. discriminate.
  - left. split; [reflexivity|]. apply (bool_decide_unpack _). vm_compute. exact I.
Defined.
