(* ===== verification/Web.v ===== *)
(** * The WebSocket protocol (src/web/server.go)

    Messages are JSON objects decoded by [encoding/json] into Go maps. Parsing,
    validation and dispatch are pure: a handler yields the script of effects its
    goroutine performs, in the code's order, on the simulator it read at its
    start. [Server.v] runs the scripts. *)

From Stdlib Require Import Ascii.
From S2P Require Import Prelude.
From S2P Require Import Float64.
From S2P Require Import Process.
From S2P Require Import Scheduler.
From S2P Require Import MultiLevel.
From S2P Require Import Lottery.
From S2P Require Import Simulator.
From S2P Require Import SimInvariant.
From S2P Require Import SimSteps.
From S2P Require Import SimReach.
From S2P Require Import SimProgress.
From S2P Require Import Store.
From S2P Require Import Api.

(** ** JSON values

    What [json.Unmarshal] stores in an [interface{}]; an object is the entries
    of its map, one per key. *)
Inductive Json :=
| JNull
| JBool (b : bool)
| JNumber (f : spec_float)
| JString (s : string)
| JArray (l : list Json)
| JObject (fields : list (string * Json)).

Definition Fields : Type := list (string * Json).

(** [v, ok := m[key]] *)
Fixpoint field (key : string) (m : Fields) : option Json :=
  match m with
  | [] => None
  | (k, v) :: m => if (k =? key)%string then Some v else field key m
  end.

(** [m[key].(float64)] and its siblings, in the two-result form. *)
Definition numberField (key : string) (m : Fields) : option spec_float :=
  match field key m with Some (JNumber f) => Some f | _ => None end.
Definition stringField (key : string) (m : Fields) : option string :=
  match field key m with Some (JString s) => Some s | _ => None end.
Definition arrayField (key : string) (m : Fields) : option (list Json) :=
  match field key m with Some (JArray l) => Some l | _ => None end.
Definition objectField (key : string) (m : Fields) : option Fields :=
  match field key m with Some (JObject o) => Some o | _ => None end.

(** [int(f)]: outside the range of [int] the value is the implementation's. *)
Class GoFloatToInt := {
  outOfRange : spec_float -> Z;
  outOfRange_int : forall f, in_int (outOfRange f)
}.

(** On amd64 the conversion instruction yields the least integer. *)
#[export] Instance amd64 : GoFloatToInt.
Proof. refine {| outOfRange := fun _ => min_int |}. intros _. unfold in_int, min_int, max_int. lia. Defined.

Definition int_of `{GoFloatToInt} (f : spec_float) : Z := default (outOfRange f) (Float64.to_int f).

Lemma int_of_range `{GoFloatToInt} f : in_int (int_of f).
Proof.
  unfold int_of. destruct (Float64.to_int f) as [z|] eqn:E; [|apply outOfRange_int].
  unfold Float64.to_int in E. destruct f as [| | |s m e]; try done; simpl in *.
  - injection E as <-. unfold in_int, min_int, max_int. lia.
  - destruct (_ && _) eqn:Eb in E; [|done]. injection E as <-.
    apply andb_true_iff in Eb as [H1%Z.leb_le H2%Z.leb_le]. done.
Qed.

(** [strconv.Quote], the verb [%q]: only used in messages. *)
Class GoQuote := Quote : string -> string.

(** ** [parseProcess] *)

Section parse.
Context `{GoFloatToInt} `{GoQuote}.

Definition getInt (m : Fields) (key : string) : string + Z :=
  match field key m with
  | None => inl ("missing field " ++ Quote key)%string
  | Some (JNumber f) => inr (int_of f)
  | Some _ => inl ("field " ++ Quote key ++ " must be a number")%string
  end.

Definition getString (m : Fields) (key : string) : string + string :=
  match field key m with
  | None => inl ("missing field " ++ Quote key)%string
  | Some (JString s) => inr s
  | Some _ => inl ("field " ++ Quote key ++ " must be a string")%string
  end.

(** One round of the [ioBursts] loop. *)
Definition addBurst (acc : list IOBurst) (item : Json) : list IOBurst :=
  match item with
  | JObject b =>
      let afterCPU := match numberField "afterCPUTime" b with Some v => int_of v | None => 0 end in
      let dur := match numberField "duration" b with Some v => int_of v | None => 0 end in
      if 0 <? dur
      then acc ++ [{| AfterCPUTime := afterCPU; Duration := dur; Completed := false |}]
      else acc
  | _ => acc
  end.

(** [None] is a panic. *)
Definition parseProcess (m : Fields) : option (string + Process) :=
  match getInt m "pid" with
  | inl err => Some (inl err)
  | inr pid =>
  let name := match getString m "name" with inl _ => ("P" ++ itoa pid)%string | inr s => s end in
  match getInt m "arrivalTime" with
  | inl err => Some (inl err)
  | inr arrival =>
  match getInt m "burstTime" with
  | inl err => Some (inl err)
  | inr burst =>
  let priority := match getInt m "priority" with inl _ => 0 | inr n => n end in
  if arrival <? 0 then Some (inl "arrivalTime must be >= 0"%string)
  else if burst <=? 0 then Some (inl "burstTime must be >= 1"%string)
  else if pid <? 0 then Some (inl "pid must be >= 0"%string)
  else
    p ← NewProcess pid name arrival burst priority;
    match arrayField "ioBursts" m with
    | Some burstList => Some (inr (set_IOBursts (fold_left addBurst burstList (IOBursts p)) p))
    | None => Some (inr p)
    end
  end end end.

(** The loop of [handleInit] over the [processes] array. *)
Fixpoint parseProcesses (l : list Json) (acc : list Process) : option (string + list Process) :=
  match l with
  | [] => Some (inr acc)
  | JObject m :: l =>
      r ← parseProcess m;
      match r with
      | inl err => Some (inl ("Invalid process data: " ++ err)%string)
      | inr p => parseProcesses l (acc ++ [p])
      end
  | _ :: _ => Some (inl "Invalid process entry: expected object"%string)
  end.
End parse.

(** ** Scripts *)

(** What a client is told. *)
Inductive Reply :=
| RError (message : string)
| RSuccess (message : string).

(** A call on the simulator the handler holds. *)
Inductive Method :=
| MStart | MPause | MResume | MStop | MReset | MStep
| MSetSpeed (v : Z)
| MAddProcess (p : Process).

Inductive Act :=
| AReply (r : Reply)                              (* sendError, sendSuccess *)
| AMethod (m : Method)
| AInstall (sim : Simulator AnyScheduler)         (* s.simulator = newSim *)
| AWriteState                                     (* wc.writeJSON(sim.GetCurrentState()) *)
| ABroadcastState.                                (* the select on s.broadcast *)

Definition sendError (m : string) : Act := AReply (RError m).
Definition sendSuccess (m : string) : Act := AReply (RSuccess m).

(** The handlers that forward one call; [live] says that a simulator exists. *)
Definition forward (live : bool) (m : Method) (ok : string) : list Act :=
  if live then [AMethod m; sendSuccess ok] else [sendError "Simulator not initialized"].

Definition handleStart (live : bool) : list Act := forward live MStart "Simulation started".
Definition handlePause (live : bool) : list Act := forward live MPause "Simulation paused".
Definition handleResume (live : bool) : list Act := forward live MResume "Simulation resumed".
Definition handleStop (live : bool) : list Act := forward live MStop "Simulation stopped".
Definition handleStep (live : bool) : list Act := forward live MStep "Step executed".
Definition handleReset (live : bool) : list Act :=
  if live then [AMethod MReset; sendSuccess "Simulation reset"; ABroadcastState]
  else [sendError "Simulator not initialized"].
Definition handleGetState (live : bool) : list Act :=
  if live then [AWriteState] else [sendError "Simulator not initialized"].

(** The switch of [handleInit]. *)
Definition initScheduler (algorithm : string) (timeQuantum : Z) : option AnyScheduler :=
  if (algorithm =? "fcfs")%string then Some (pack FCFS.NewFCFSScheduler)
  else if (algorithm =? "sjf")%string then Some (pack SJF.NewSJFScheduler)
  else if (algorithm =? "srtf")%string then Some (pack SRTF.NewSRTFScheduler)
  else if (algorithm =? "rr")%string then Some (pack (RoundRobin.NewRoundRobinScheduler timeQuantum))
  else if (algorithm =? "priority")%string then Some (pack (PriorityPolicy.NewPriorityScheduler true))
  else if (algorithm =? "priority_np")%string then Some (pack (PriorityPolicy.NewPriorityScheduler false))
  else if (algorithm =? "cfs")%string then Some (pack CFS.NewCFSScheduler)
  else if (algorithm =? "mlfq")%string then Some (pack MLFQ.NewMLFQScheduler)
  else if (algorithm =? "lottery")%string then
    Some (pack (Lottery.NewLotteryScheduler (Ext := Empty_set) timeQuantum None))
  else if (algorithm =? "mlq")%string then Some (pack (MLQ.NewMLQScheduler 3 timeQuantum))
  else None.

Section handlers.
Context `{GoFloatToInt} `{GoQuote} `{GoSort}.

Definition handleSpeed (live : bool) (msg : Fields) : list Act :=
  if live then
    match numberField "speed" msg with
    | None => [sendError "Invalid speed value"]
    | Some speed =>
        if SFltb speed (Float64.of_int 1) then [sendError "speed must be >= 1"]
        else [AMethod (MSetSpeed (int_of speed));
              sendSuccess ("Speed set to " ++ itoa (int_of speed) ++ " ms/unit")]
    end
  else [sendError "Simulator not initialized"].

Definition handleAddProcess (live : bool) (msg : Fields) : option (list Act) :=
  if live then
    match objectField "process" msg with
    | None => Some [sendError "Invalid process data"]
    | Some processData =>
        r ← parseProcess processData;
        match r with
        | inl err => Some [sendError ("Invalid process data: " ++ err)]
        | inr proc => Some [AMethod (MAddProcess proc);
                            sendSuccess ("Process " ++ Name proc ++ " added"); ABroadcastState]
        end
    end
  else Some [sendError "Simulator not initialized"].

(** The new simulator: a constructor, the callback, and the processes in turn. *)
Definition newSimulator (sched : AnyScheduler) (procs : list Process) : Simulator AnyScheduler :=
  AddProcesses procs (SetUpdateCallback true (NewSimulator sched)).

Definition handleInit (live : bool) (msg : Fields) : option (list Act) :=
  let algorithm := default ""%string (stringField "algorithm" msg) in
  let timeQuantum := match numberField "timeQuantum" msg with Some tq => int_of tq | None => 4 end in
  match initScheduler algorithm timeQuantum with
  | None => Some [sendError ("unknown algorithm " ++ Quote algorithm ++
      "; valid values: fcfs, sjf, srtf, rr, priority, priority_np, cfs, mlfq, lottery, mlq")]
  | Some sched =>
      r ← match arrayField "processes" msg with
          | Some processesData => parseProcesses processesData []
          | None => Some (inr [])
          end;
      match r with
      | inl err => Some [sendError err]
      | inr parsedProcs =>
          if (length parsedProcs =? 0)%nat then Some [sendError "at least one process is required"]
          else Some ((if live then [AMethod MStop] else []) ++
            [AInstall (newSimulator sched parsedProcs); sendSuccess "Simulator initialized"; AWriteState])
      end
  end.

Definition handleMessage (live : bool) (msg : Fields) : option (list Act) :=
  match stringField "type" msg with
  | None => Some [sendError "Invalid message format: missing 'type'"]
  | Some t =>
      if (t =? "init")%string then handleInit live msg
      else if (t =? "start")%string then Some (handleStart live)
      else if (t =? "pause")%string then Some (handlePause live)
      else if (t =? "resume")%string then Some (handleResume live)
      else if (t =? "stop")%string then Some (handleStop live)
      else if (t =? "reset")%string then Some (handleReset live)
      else if (t =? "step")%string then Some (handleStep live)
      else if (t =? "speed")%string then Some (handleSpeed live msg)
      else if (t =? "addProcess")%string then handleAddProcess live msg
      else if (t =? "getState")%string then Some (handleGetState live)
      else Some [sendError ("Unknown message type: " ++ t)]
  end.
End handlers.

(** [CheckOrigin] of the upgrader: [allowed] and [allowLocal] come from the
    configuration, [host] and [origin] from the request. *)
Definition isLocal (origin p : string) : bool :=
  (origin =? p)%string ||
  ((String.length p <? String.length origin)%nat &&
   (String.substring 0 (String.length p) origin =? p)%string &&
   match String.get (String.length p) origin with
   | Some c => Ascii.eqb c ":"%char
   | None => false
   end).

Definition checkOrigin (allowed : list string) (allowLocal : bool) (host origin : string) : bool :=
  if (origin =? "")%string then true
  else if (origin =? "http://" ++ host)%string || (origin =? "https://" ++ host)%string then true
  else if existsb (fun a => (a =? "*")%string || (a =? origin)%string) allowed then true
  else allowLocal && existsb (isLocal origin) ["http://localhost"; "http://127.0.0.1"]%string.

(** ** Lemmas *)

Lemma initScheduler_build a q :
  initScheduler a q = match buildScheduler a q with inr sched => Some sched | inl _ => None end.
Proof.
  unfold initScheduler, buildScheduler.
  repeat match goal with |- context [(a =? ?x)%string] => destruct (a =? x)%string; [done|] end. done.
Qed.

Lemma initScheduler_ok a q sched : initScheduler a q = Some sched -> sched_ok sched.
Proof.
  rewrite initScheduler_build. destruct (buildScheduler a q) eqn:E; [done|].
  intros [= ->]. by apply buildScheduler_ok in E.
Qed.

Lemma initScheduler_known a q :
  (exists sched, initScheduler a q = Some sched) <-> a ∈ map algID algorithms.
Proof.
  rewrite <-(buildScheduler_known a q), initScheduler_build.
  destruct (buildScheduler a q) as [e|s]; split; intros [x Hx]; try done; by eexists.
Qed.

(** *** Processes *)

(** The burst an element of [ioBursts] stands for, if any. *)
Definition burstOf `{GoFloatToInt} (item : Json) : option IOBurst :=
  match item with
  | JObject b =>
      let dur := match numberField "duration" b with Some v => int_of v | None => 0 end in
      if 0 <? dur then
        Some {| AfterCPUTime := match numberField "afterCPUTime" b with Some v => int_of v | None => 0 end;
                Duration := dur; Completed := false |}
      else None
  | _ => None
  end.

(** Field [key] is a number that converts to [z]. *)
Definition isInt `{GoFloatToInt} (m : Fields) (key : string) (z : Z) : Prop :=
  exists f, field key m = Some (JNumber f) /\ int_of f = z.

(** A slice's length is an [int]. *)
Definition fits (m : Fields) : Prop :=
  forall l, arrayField "ioBursts" m = Some l -> Z.of_nat (length l) <= max_int.

(** What a process object must have. *)
Definition wellFormed `{GoFloatToInt} (m : Fields) : Prop :=
  exists pid arrival burst, isInt m "pid" pid /\ isInt m "arrivalTime" arrival /\
    isInt m "burstTime" burst /\ 0 <= pid /\ 0 <= arrival /\ 1 <= burst.

(** The process it describes. *)
Record parsed_from `{GoFloatToInt} (m : Fields) (p : Process) : Prop := {
  pf_admissible : admissible p;
  pf_pid : isInt m "pid" (PID p);
  pf_arrival : isInt m "arrivalTime" (ArrivalTime p);
  pf_burst : isInt m "burstTime" (BurstTime p);
  pf_name : Name p = match stringField "name" m with
                     | Some s => s
                     | None => ("P" ++ itoa (PID p))%string
                     end;
  pf_priority : Priority p = match numberField "priority" m with Some f => int_of f | None => 0 end;
  pf_bursts : IOBursts p = omap burstOf (default [] (arrayField "ioBursts" m))
}.

Section parsing.
Context `{GoFloatToInt} `{GoQuote}.

Lemma addBurst_fold l : forall acc, fold_left addBurst l acc = acc ++ omap burstOf l.
Proof.
  induction l as [|x l IH]; intros acc; cbn [fold_left]; [by rewrite app_nil_r|].
  rewrite IH. assert (Hx : addBurst acc x = acc ++ default [] ((fun b => [b]) <$> burstOf x)).
  { destruct x; simpl; rewrite ?app_nil_r; try done. by destruct (0 <? _); simpl; rewrite ?app_nil_r. }
  rewrite Hx, <-app_assoc. f_equal. change (omap burstOf (x :: l)) with
    (match burstOf x with Some y => y :: omap burstOf l | None => omap burstOf l end).
  by destruct (burstOf x).
Qed.

Lemma bursts_valid l : Forall (fun b => Completed b = false /\ Duration b <= max_int) (omap burstOf l).
Proof.
  apply Forall_forall. intros b (x & Hx & E)%list_elem_of_omap.
  destruct x; simpl in E; try done. destruct (0 <? _); [|done]. injection E as <-. simpl.
  split; [done|]. destruct (numberField _ _) as [f|]; [apply (int_of_range f)|].
  unfold max_int. lia.
Qed.

Lemma omap_length_le {A B} (f : A -> option B) l : (length (omap f l) <= length l)%nat.
Proof.
  induction l as [|x l IH]; [done|].
  change (omap f (x :: l)) with (match f x with Some y => y :: omap f l | None => omap f l end).
  destruct (f x); simpl; lia.
Qed.

Lemma getInt_isInt m key z : getInt m key = inr z -> isInt m key z.
Proof.
  unfold getInt, isInt. destruct (field key m) as [[]|]; try done. intros [= <-]. eauto.
Qed.

Lemma isInt_getInt m key z : isInt m key z -> getInt m key = inr z.
Proof. intros (f & E & <-). unfold getInt. by rewrite E. Qed.

Lemma isInt_range m key z : isInt m key z -> in_int z.
Proof. intros (f & _ & <-). apply int_of_range. Qed.

End parsing.

Section specification.
Context `{GoFloatToInt} `{GoQuote}.

Lemma wellFormed_or m :
  wellFormed m \/ exists err, parseProcess m = Some (inl err) /\ ~ wellFormed m.
Proof.
  unfold parseProcess.
  destruct (getInt m "pid") as [e|pid] eqn:Ep; [right; eexists; split; [done|]|].
  { intros (x & y & z & Hx%isInt_getInt & _). congruence. }
  destruct (getInt m "arrivalTime") as [e|arr] eqn:Ea; [right; eexists; split; [done|]|].
  { intros (x & y & z & _ & Hy%isInt_getInt & _). congruence. }
  destruct (getInt m "burstTime") as [e|bur] eqn:Eb; [right; eexists; split; [done|]|].
  { intros (x & y & z & _ & _ & Hz%isInt_getInt & _). congruence. }
  assert (Huniq : wellFormed m -> 0 <= pid /\ 0 <= arr /\ 1 <= bur).
  { intros (x & y & z & Hx%isInt_getInt & Hy%isInt_getInt & Hz%isInt_getInt & Hr).
    assert (x = pid) by congruence. assert (y = arr) by congruence. assert (z = bur) by congruence.
    lia. }
  destruct (Z.ltb_spec arr 0); [right; eexists; split; [done|intros Hw%Huniq; lia]|].
  destruct (Z.leb_spec bur 0); [right; eexists; split; [done|intros Hw%Huniq; lia]|].
  destruct (Z.ltb_spec pid 0); [right; eexists; split; [done|intros Hw%Huniq; lia]|].
  left. exists pid, arr, bur. repeat split; try lia; by apply getInt_isInt.
Qed.

Lemma parse_wellFormed m : fits m -> wellFormed m ->
  exists p, parseProcess m = Some (inr p) /\ parsed_from m p.
Proof.
  intros Hfit (pid & arr & bur & Hp & Ha & Hb & H1 & H2 & H3).
  pose proof (isInt_range _ _ _ Hp) as Rp. pose proof (isInt_range _ _ _ Ha) as Ra.
  pose proof (isInt_range _ _ _ Hb) as Rb.
  unfold parseProcess. rewrite (isInt_getInt _ _ _ Hp), (isInt_getInt _ _ _ Ha), (isInt_getInt _ _ _ Hb).
  rewrite (proj2 (Z.ltb_ge arr 0)), (proj2 (Z.leb_gt bur 0)), (proj2 (Z.ltb_ge pid 0)) by lia.
  set (name := match getString m "name" with inl _ => _ | inr s => s end).
  set (prio := match getInt m "priority" with inl _ => 0 | inr n => n end).
  destruct (generateColor_total pid Rp) as [c Hc].
  destruct (NewProcess pid name arr bur prio) as [p|] eqn:E;
    [|unfold NewProcess in E; by rewrite Hc in E].
  destruct (NewProcess_fields _ _ _ _ _ _ E) as (Fp & Fn & Fa & Fb & Fr & Fi).
  set (bs := omap burstOf (default [] (arrayField "ioBursts" m))).
  assert (Hlen : Z.of_nat (length bs) <= max_int).
  { unfold bs, fits in *. destruct (arrayField "ioBursts" m) as [l|] eqn:El; simpl;
      [specialize (Hfit l eq_refl); pose proof (omap_length_le burstOf l); lia|unfold max_int; lia]. }
  assert (Hadm : admissible (set_IOBursts bs p)).
  { unfold in_int in *. eapply built_admissible; [exact E|split; lia|lia|lia| |exact Hlen].
    apply bursts_valid. }
  assert (Hpf : parsed_from m (set_IOBursts bs p)).
  { split; [exact Hadm| | | | | |done]; simpl.
    - by rewrite Fp. - by rewrite Fa. - by rewrite Fb.
    - rewrite Fn, Fp. unfold name, getString, stringField.
      by destruct (field "name" m) as [[]|].
    - rewrite Fr. unfold prio, getInt, numberField. by destruct (field "priority" m) as [[]|]. }
  assert (Hsame : arrayField "ioBursts" m = None -> set_IOBursts bs p = p).
  { intros En. unfold bs. rewrite En. simpl. rewrite <-Fi. by destruct p. }
  cbn [mbind option_bind]. destruct (arrayField "ioBursts" m) as [l|] eqn:El.
  - exists (set_IOBursts bs p). split; [|done]. by rewrite addBurst_fold, Fi.
  - exists p. split; [done|]. by rewrite <-Hsame.
Qed.

(** The objects of the array, and the loop over it. *)
Definition wellFormedItem (j : Json) : Prop :=
  match j with JObject m => wellFormed m | _ => False end.
Definition fitsItem (j : Json) : Prop :=
  match j with JObject m => fits m | _ => True end.
Definition itemOf (j : Json) (p : Process) : Prop :=
  match j with JObject m => parsed_from m p | _ => False end.

Lemma parseProcesses_valid l : Forall fitsItem l -> Forall wellFormedItem l -> forall acc,
  exists ps, parseProcesses l acc = Some (inr (acc ++ ps)) /\ Forall2 itemOf l ps.
Proof.
  induction l as [|j l IH]; intros Hf Hw acc; simpl; [exists []; by rewrite app_nil_r|].
  apply Forall_cons in Hf as [Hf1 Hf], Hw as [Hw1 Hw]. destruct j; try done.
  destruct (parse_wellFormed _ Hf1 Hw1) as (p & -> & Hp). cbn [mbind option_bind].
  destruct (IH Hf Hw (acc ++ [p])) as (ps & -> & Hps).
  exists (p :: ps). rewrite <-app_assoc. split; [done|]. by constructor.
Qed.

Lemma wellFormedItems_or l : Forall wellFormedItem l \/ ~ Forall wellFormedItem l.
Proof.
  induction l as [|j l IH]; [by left; constructor|].
  assert (Hj : wellFormedItem j \/ ~ wellFormedItem j).
  { destruct j; simpl; try tauto. destruct (wellFormed_or fields) as [|(? & _ & ?)]; tauto. }
  rewrite Forall_cons. tauto.
Qed.

Lemma parseProcesses_invalid l : Forall fitsItem l -> ~ Forall wellFormedItem l -> forall acc,
  exists err, parseProcesses l acc = Some (inl err).
Proof.
  induction l as [|j l IH]; intros Hf Hw acc; [by destruct Hw|].
  apply Forall_cons in Hf as [Hf1 Hf]. destruct j as [| | | | |m]; try (by eexists).
  simpl. destruct (wellFormed_or m) as [Hm|(err & -> & _)]; [|by eexists].
  destruct (parse_wellFormed _ Hf1 Hm) as (p & -> & Hp). cbn [mbind option_bind].
  apply IH; [done|]. intros Hl. apply Hw. by constructor.
Qed.
End specification.

(** What an [init] message must have to replace the simulator. *)
Definition initialises `{GoFloatToInt} (msg : Fields) : Prop :=
  default ""%string (stringField "algorithm" msg) ∈ map algID algorithms /\
  default [] (arrayField "processes" msg) <> [] /\
  Forall wellFormedItem (default [] (arrayField "processes" msg)).

Lemma newSimulator_reachable `{GoSortLaws} sched procs : sched_ok sched -> Forall admissible procs ->
  reachable (newSimulator sched procs).
Proof.
  intros Hs Hp. unfold newSimulator, AddProcesses.
  assert (Hr : reachable (SetUpdateCallback true (NewSimulator sched))) by (by apply reach_callback, reach_new).
  revert Hr. generalize (SetUpdateCallback true (NewSimulator sched)).
  induction Hp as [|p ps Hp _ IH]; intros s Hr; simpl; [done|].
  apply IH. by apply reach_add.
Qed.

Lemma handleInit_cases `{GoFloatToInt} `{GoQuote} `{GoSortLaws} (live : bool) (msg : Fields) :
  Forall fitsItem (default [] (arrayField "processes" msg)) ->
  (initialises msg /\ exists sched ps,
     buildScheduler (default ""%string (stringField "algorithm" msg))
       (match numberField "timeQuantum" msg with Some tq => int_of tq | None => 4 end) = inr sched /\
     Forall2 itemOf (default [] (arrayField "processes" msg)) ps /\
     reachable (newSimulator sched ps) /\
     handleInit live msg = Some ((if live then [AMethod MStop] else []) ++
       [AInstall (newSimulator sched ps); sendSuccess "Simulator initialized"; AWriteState])) \/
  (~ initialises msg /\ exists err, handleInit live msg = Some [sendError err]).
Proof.
  intros Hf. unfold handleInit, initialises.
  set (alg := default ""%string (stringField "algorithm" msg)).
  set (tq := match numberField "timeQuantum" msg with Some tq => int_of tq | None => 4 end).
  pose proof (initScheduler_known alg tq) as Hk.
  destruct (initScheduler alg tq) as [sched|] eqn:Es.
  2:{ right. split; [|by eexists]. intros (Ha & _). apply Hk in Ha as [? ?]. done. }
  set (l := default [] (arrayField "processes" msg)) in *.
  assert (El : match arrayField "processes" msg with
               | Some processesData => parseProcesses processesData []
               | None => Some (inr [])
               end = parseProcesses l []) by (unfold l; by destruct (arrayField "processes" msg)).
  rewrite El. clear El.
  destruct (wellFormedItems_or l) as [Hw|Hw].
  2:{ destruct (parseProcesses_invalid l Hf Hw []) as (err & ->). cbn [mbind option_bind].
      right. split; [tauto|by eexists]. }
  destruct (parseProcesses_valid l Hf Hw []) as (ps & -> & Hps). cbn [mbind option_bind app].
  pose proof (Forall2_length _ _ _ Hps) as Hlen.
  destruct ps as [|p ps].
  { right. split; [|by eexists]. intros (_ & Hne & _). by destruct l. }
  left. split; [split; [apply Hk; eauto|]; split; [by destruct l|done]|].
  exists sched, (p :: ps). rewrite initScheduler_build in Es.
  destruct (buildScheduler alg tq) as [|sched'] eqn:Eb; [done|]. injection Es as ->.
  split; [done|]. split; [done|]. split; [|done].
  apply newSimulator_reachable; [by apply buildScheduler_ok in Eb|].
  clear -Hps. induction Hps as [|j q js qs Hq _ IH]; constructor; [|done].
  destruct j; try done. apply Hq.
Qed.

(** ** Scripts of messages *)

(** A slice's length is an [int], everywhere in the message. *)
Definition messageFits (msg : Fields) : Prop :=
  Forall fitsItem (default [] (arrayField "processes" msg)) /\
  (forall o, objectField "process" msg = Some o -> fits o).

(** An effect that keeps the engine within its contract. *)
Definition safeAct `{GoSort} (a : Act) : Prop :=
  match a with
  | AMethod (MAddProcess p) => admissible p
  | AInstall sim => reachable sim
  | _ => True
  end.

Definition isReply (a : Act) : bool := match a with AReply _ => true | _ => false end.
Definition onSimulator (a : Act) : bool :=
  match a with AMethod _ | ABroadcastState => true | _ => false end.

(** The script of one message: one reply, or the state for [getState]; an error
    is all there is; without a simulator no call on one; safe for the engine. *)
Record answers `{GoSort} (live : bool) (acts : list Act) : Prop := {
  an_reply : List.filter isReply acts = [] /\ acts = [AWriteState] \/
             exists r, List.filter isReply acts = [AReply r];
  an_error : forall e, AReply (RError e) ∈ acts -> acts = [AReply (RError e)];
  an_dead : live = false -> List.filter onSimulator acts = [];
  an_safe : Forall safeAct acts
}.

Section scripts.
Context `{GoFloatToInt} `{GoQuote} `{GoSortLaws}.

Lemma answers_error live e : answers live [sendError e].
Proof.
  split; [right; by eexists| |done|by repeat constructor].
  intros e'. rewrite list_elem_of_singleton. by intros [= ->].
Qed.

(** A successful script: the reply at some place among calls that are safe. *)
Lemma answers_success live pre m post :
  List.filter isReply pre = [] -> List.filter isReply post = [] ->
  (live = false -> List.filter onSimulator (pre ++ post) = []) ->
  Forall safeAct pre -> Forall safeAct post ->
  answers live (pre ++ sendSuccess m :: post).
Proof.
  intros Hpre Hpost Hdead Spre Spost.
  assert (Hno : forall l e, List.filter isReply l = [] -> AReply (RError e) ∉ l).
  { intros l e Hl Hin. assert (Hf : In (AReply (RError e)) (List.filter isReply l))
      by (apply filter_In; split; [by apply list_elem_of_In|done]). by rewrite Hl in Hf. }
  split.
  - right. exists (RSuccess m). rewrite List.filter_app. cbn. by rewrite Hpre, Hpost.
  - intros e [Hin|[Hin|Hin]%elem_of_cons]%elem_of_app; [|done|];
      exfalso; by eapply Hno; [|exact Hin].
  - intros Hl. specialize (Hdead Hl). rewrite List.filter_app in Hdead |- *. exact Hdead.
  - apply Forall_app. split; [done|]. by constructor.
Qed.

Lemma answers_forward live m ok : safeAct (AMethod m) -> answers live (forward live m ok).
Proof.
  intros Hs. destruct live; cbn; [|apply answers_error].
  apply (answers_success true [AMethod m] ok []); try done; by repeat constructor.
Qed.

Lemma answers_speed live msg : answers live (handleSpeed live msg).
Proof.
  destruct live; [|apply answers_error]. cbn.
  destruct (numberField "speed" msg) as [f|]; [|apply answers_error].
  destruct (SFltb _ _); [apply answers_error|].
  apply (answers_success true [AMethod _] _ []); try done; by repeat constructor.
Qed.

Lemma answers_add live msg : messageFits msg ->
  exists acts, handleAddProcess live msg = Some acts /\ answers live acts.
Proof.
  intros [_ Hf]. unfold handleAddProcess.
  destruct live; [|eexists; split; [done|apply answers_error]].
  destruct (objectField "process" msg) as [o|]; [|eexists; split; [done|apply answers_error]].
  destruct (wellFormed_or o) as [Hw|(e & -> & _)]; [|eexists; split; [done|apply answers_error]].
  destruct (parse_wellFormed o (Hf o eq_refl) Hw) as (p & -> & Hp). cbn [mbind option_bind].
  eexists. split; [done|]. apply (answers_success true [AMethod _] _ [ABroadcastState]); try done.
  - apply Forall_singleton. apply (pf_admissible _ _ Hp).
  - by repeat constructor.
Qed.

Lemma answers_init live msg : messageFits msg ->
  exists acts, handleInit live msg = Some acts /\ answers live acts.
Proof.
  intros [Hf _]. destruct (handleInit_cases live msg Hf) as
    [(_ & sched & ps & _ & _ & Hr & ->)|(_ & e & ->)];
    (eexists; split; [reflexivity|]); [|apply answers_error].
  change (?a ++ [?b; ?c; ?d]) with (a ++ [b] ++ c :: [d]). rewrite app_assoc.
  assert (Hs : Forall safeAct ((if live then [AMethod MStop] else []) ++
    [AInstall (newSimulator sched ps)])).
  { apply Forall_app. split; [destruct live; by repeat constructor|by apply Forall_singleton]. }
  destruct live; apply answers_success; done || by repeat constructor.
Qed.

Lemma handleMessage_answers live msg : messageFits msg ->
  exists acts, handleMessage live msg = Some acts /\ answers live acts.
Proof.
  intros Hf. unfold handleMessage.
  destruct (stringField "type" msg) as [t|]; [|eexists; split; [done|apply answers_error]].
  destruct (t =? "init")%string; [by apply answers_init|].
  repeat match goal with |- context [(t =? ?x)%string] =>
    destruct (t =? x)%string;
      [first [eexists; split; [done|]; by apply answers_forward
             |eexists; split; [done|]; by apply answers_speed
             |by apply answers_add|idtac]|] end.
  - eexists. split; [done|]. destruct live; [|apply answers_error].
    apply (answers_success true [AMethod MReset] _ [ABroadcastState]); try done; by repeat constructor.
  - eexists. split; [done|]. destruct live; [|apply answers_error].
    split; [by left| |done|by repeat constructor]. intros e He. by apply list_elem_of_singleton in He.
  - eexists. split; [done|apply answers_error].
Qed.
End scripts.

(** ** Properties *)

(** C24: [parseProcess] never panics: it accepts exactly the objects whose [pid],
    [arrivalTime] and [burstTime] are numbers that convert to integers of at
    least 0, 0 and 1; the process it returns has these fields, the given or the
    default name and priority, exactly the I/O bursts of positive duration in
    order, and is fit for the engine. *)
Theorem parseProcess_spec `{GoFloatToInt} `{GoQuote} (m : Fields) :
  fits m ->
  (wellFormed m /\ exists p, parseProcess m = Some (inr p) /\ parsed_from m p) \/
  (~ wellFormed m /\ exists err, parseProcess m = Some (inl err)).
Proof.
  intros Hf. destruct (wellFormed_or m) as [Hm|(err & He & Hm)]; [left|right; eauto].
  split; [done|by apply parse_wellFormed].
Qed.

(** C23: An [init] message is all or nothing: if the algorithm is known and there is
    at least one process and every one is well-formed, the running simulator is
    stopped, then replaced by a new one in a reachable state that holds the
    processes of the message in order, under the scheduler the REST API builds for
    the algorithm; any other message only produces an error reply, and the running
    simulator is neither stopped nor replaced. *)
Theorem init_all_or_nothing `{GoFloatToInt} `{GoQuote} `{GoSortLaws} (live : bool) (msg : Fields) :
  Forall fitsItem (default [] (arrayField "processes" msg)) ->
  (initialises msg /\ exists sched ps,
     buildScheduler (default ""%string (stringField "algorithm" msg))
       (match numberField "timeQuantum" msg with Some tq => int_of tq | None => 4 end) = inr sched /\
     Forall2 itemOf (default [] (arrayField "processes" msg)) ps /\
     reachable (newSimulator sched ps) /\
     handleInit live msg = Some ((if live then [AMethod MStop] else []) ++
       [AInstall (newSimulator sched ps); sendSuccess "Simulator initialized"; AWriteState])) \/
  (~ initialises msg /\ exists err, handleInit live msg = Some [sendError err]).
Proof. intros Hf. exact (handleInit_cases live msg Hf). Qed.

(** C25: [handleMessage] never panics, whatever JSON object arrives, and answers each
    message once: its script has exactly one success or error reply, or writes
    the state; an error reply is the whole script, so a refused message changes
    nothing; without a simulator nothing is called on one or broadcast; and what
    the script does to the engine stays within its contract: processes added are
    admissible, simulators installed are in a reachable state. *)
Theorem every_message_is_answered `{GoFloatToInt} `{GoQuote} `{GoSortLaws} (live : bool) (msg : Fields) :
  messageFits msg ->
  exists acts, handleMessage live msg = Some acts /\
    (List.filter isReply acts = [] /\ acts = [AWriteState] \/
     exists r, List.filter isReply acts = [AReply r]) /\
    (forall e, AReply (RError e) ∈ acts -> acts = [AReply (RError e)]) /\
    (live = false -> List.filter onSimulator acts = []) /\
    Forall safeAct acts.
Proof.
  intros Hf. destruct (handleMessage_answers live msg Hf) as (acts & Ha & [A1 A2 A3 A4]). eauto 10.
Qed.

(** *** Origins *)

Lemma substring_all s : String.substring 0 (String.length s) s = s.
Proof. induction s as [|c s IH]; simpl; [done|by rewrite IH]. Qed.

Lemma prefix_split p : forall s c,
  String.substring 0 (String.length p) s = p -> String.get (String.length p) s = Some c ->
  exists rest, s = (p ++ String c rest)%string.
Proof.
  induction p as [|d p IH]; intros [|e s] c; simpl; try done.
  - intros _ [= ->]. by exists s.
  - intros [= -> Hp] Hg. destruct (IH s c Hp Hg) as [rest ->]. by exists rest.
Qed.

Lemma prefix_join p c rest :
  String.substring 0 (String.length p) (p ++ String c rest) = p /\
  String.get (String.length p) (p ++ String c rest) = Some c /\
  (String.length p < String.length (p ++ String c rest))%nat.
Proof.
  induction p as [|d p (IH1 & IH2 & IH3)]; simpl; [repeat split; lia|].
  rewrite IH1. repeat split; [done|lia].
Qed.

Lemma isLocal_iff origin p :
  isLocal origin p = true <-> origin = p \/ exists rest, origin = (p ++ ":" ++ rest)%string.
Proof.
  unfold isLocal. rewrite orb_true_iff, String.eqb_eq, !andb_true_iff, Nat.ltb_lt, String.eqb_eq.
  split; (intros [->|Hr]; [by left|right]).
  - destruct Hr as [[_ Hs] Hg]. destruct (String.get _ origin) as [c|] eqn:Eg; [|done].
    apply Ascii.eqb_eq in Hg as ->. by apply prefix_split.
  - destruct Hr as [rest ->]. change (":" ++ rest)%string with (String ":"%char rest).
    destruct (prefix_join p ":"%char rest) as (H1 & H2 & H3). by rewrite H1, H2.
Qed.

(** The upgrader accepts exactly the requests without an Origin, from the same
    host over http or https, from an allowed origin (or any, if [*] is
    allowed), and, when local origins are allowed, from localhost or 127.0.0.1
    over http with no port or after a colon; in particular a host that only starts
    with [localhost] is refused. *)
Theorem origin_check (allowed : list string) (allowLocal : bool) (host origin : string) :
  (checkOrigin allowed allowLocal host origin = true <->
   origin = ""%string \/ origin = ("http://" ++ host)%string \/ origin = ("https://" ++ host)%string \/
   "*"%string ∈ allowed \/ origin ∈ allowed \/
   (allowLocal = true /\ exists p, p ∈ ["http://localhost"; "http://127.0.0.1"]%string /\
      (origin = p \/ exists rest, origin = (p ++ ":" ++ rest)%string))) /\
  (forall rest, host <> ("localhost." ++ rest)%string ->
     "*"%string ∉ allowed -> ("http://localhost." ++ rest)%string ∉ allowed ->
     checkOrigin allowed allowLocal host ("http://localhost." ++ rest) = false).
Proof.
  assert (Hiff : forall o, checkOrigin allowed allowLocal host o = true <->
    o = ""%string \/ o = ("http://" ++ host)%string \/ o = ("https://" ++ host)%string \/
    "*"%string ∈ allowed \/ o ∈ allowed \/
    (allowLocal = true /\ exists p, p ∈ ["http://localhost"; "http://127.0.0.1"]%string /\
      (o = p \/ exists rest, o = (p ++ ":" ++ rest)%string))).
  { intros o. unfold checkOrigin.
    destruct (String.eqb_spec o ""); [tauto|].
    destruct (String.eqb_spec o ("http://" ++ host)); [tauto|].
    destruct (String.eqb_spec o ("https://" ++ host)); [tauto|]. cbn [orb].
    destruct (existsb (fun a => (a =? "*")%string || (a =? o)%string) allowed) eqn:Ea.
    - apply existsb_exists in Ea as (a & Ha%list_elem_of_In & [->%String.eqb_eq| ->%String.eqb_eq]%orb_true_iff);
        tauto.
    - assert (Hn : "*"%string ∉ allowed /\ o ∉ allowed).
      { split; intros Hin%list_elem_of_In; apply not_true_iff_false in Ea; apply Ea, existsb_exists;
          eexists; (split; [exact Hin|]); rewrite !String.eqb_refl; by rewrite ?orb_true_r. }
      rewrite andb_true_iff, existsb_exists.
      setoid_rewrite isLocal_iff. setoid_rewrite <-list_elem_of_In. tauto. }
  split; [apply Hiff|]. intros rest Hh Hs Ha. apply not_true_iff_false. rewrite Hiff.
  intros [H|[H|[H|[H|[H|(_ & p & Hp & H)]]]]]; try done.
  - apply Hh. injection H as E. symmetry. exact E.
  - apply list_elem_of_In in Hp. destruct Hp as [<-|[<-|[]]], H as [H|[r H]]; done.
Qed.

(** *** Examples *)

Definition num (z : Z) : Json := JNumber (Float64.of_int z).

(** A process with an I/O burst that counts and one that does not. *)
Definition jobFields : Fields :=
  [("pid", num 3); ("arrivalTime", num 2); ("burstTime", num 5); ("priority", JNull);
   ("ioBursts", JArray [JObject [("afterCPUTime", num 2); ("duration", num 4)];
                        JObject [("afterCPUTime", num 3)]; JBool true])]%string.

Definition initMessage : Fields :=
  [("type", JString "init"); ("algorithm", JString "srtf");
   ("processes", JArray [JObject jobFields])]%string.

#[local] Instance plainQuote : GoQuote := fun s => s.

Lemma jobFields_fit : fits jobFields.
Proof. intros l [= <-]. vm_compute. discriminate. Qed.

Lemma initMessage_fits : messageFits initMessage.
Proof.
  split; [|discriminate]. apply Forall_singleton. exact jobFields_fit.
Qed.

Lemma parseProcess_spec_witness :
  exists p, parseProcess jobFields = Some (inr p) /\ parsed_from jobFields p /\
    Name p = "P3"%string /\
    IOBursts p = [{| AfterCPUTime := 2; Duration := 4; Completed := false |}].
Proof.
  destruct (parseProcess_spec jobFields jobFields_fit) as [(_ & p & E & Hp)|(_ & e & E)].
  - exists p. split; [exact E|]. split; [exact Hp|].
    assert (Hn : (fun r => match r with Some (inr p) => (Name p, IOBursts p) | _ => (""%string, []) end)
      (parseProcess jobFields) =
      ("P3"%string, [{| AfterCPUTime := 2; Duration := 4; Completed := false |}]))
      by (vm_compute; reflexivity).
    rewrite E in Hn. injection Hn as Hn Hb. split; [exact Hn|exact Hb].
  - exfalso. assert (Hn : match parseProcess jobFields with Some (inr _) => true | _ => false end = true)
      by (vm_compute; reflexivity). rewrite E in Hn. discriminate Hn.
Defined.

Lemma init_all_or_nothing_witness :
  exists sched ps, handleInit true initMessage =
    Some [AMethod MStop; AInstall (newSimulator sched ps); sendSuccess "Simulator initialized"; AWriteState] /\
    reachable (newSimulator sched ps) /\ map PID ps = [3].
Proof.
  destruct (init_all_or_nothing true initMessage (proj1 initMessage_fits))
    as [(_ & sched & ps & _ & Hps & Hr & E)|(_ & e & E)].
  - exists sched, ps. split; [exact E|]. split; [exact Hr|].
    change (default [] (arrayField "processes" initMessage)) with [JObject jobFields] in Hps.
    inversion Hps as [|? p ? ps' Hp Hnil]. subst. inversion Hnil. subst.
    cbn [map]. destruct (pf_pid _ _ Hp) as (f & Ef & <-). injection Ef as <-. vm_compute. reflexivity.
  - exfalso. assert (Hn : match handleInit true initMessage with
      Some [_; _; _; _] => true | _ => false end = true) by (vm_compute; reflexivity).
    rewrite E in Hn. discriminate Hn.
Defined.

Lemma every_message_is_answered_witness :
  (exists acts, handleMessage false initMessage = Some acts /\ Forall safeAct acts /\ length acts = 3%nat) /\
  handleMessage false [("type", JString "start")]%string = Some [sendError "Simulator not initialized"].
Proof.
  split.
  - destruct (every_message_is_answered false initMessage initMessage_fits)
      as (acts & E & _ & _ & _ & Hs).
    exists acts. split; [exact E|]. split; [exact Hs|].
    assert (Hn : match handleMessage false initMessage with
      Some acts => length acts | None => O end = 3%nat) by (vm_compute; reflexivity).
    rewrite E in Hn. exact Hn.
  - reflexivity.
Defined.
