(* ===== verification/WsConn.v ===== *)
(** * A connection's writers (src/web/server.go, [wsConn])

    The broadcaster, the pinger and the connection's own goroutine write to the same
    socket through [writeJSON] and [writeMessage], which take a mutex. The websocket
    library supports one concurrent writer. The goroutines are threads over the mutex;
    a call of the library is an interval, from its call event to its return event, in
    which the others go on. Locking makes the intervals disjoint, so that a write,
    with its deadline, can be taken as one step, as the server's model does. *)

From stdpp Require Import relations.
From S2P Require Import Prelude.

(** ** The code *)

(** What a method hands to the library: [WriteJSON(v)], of a value that is [json]
    once encoded, or [WriteMessage(msgType, data)]. *)
Inductive Payload := JSON (json : string) | Message (msgType : Z) (data : list Byte.byte).

(** The statements of the methods, as far as the connection sees them. *)
Inductive Stmt := Lock | DeferUnlock | SetWriteDeadline | Write (p : Payload).

Definition wsConn_writeJSON (v : string) : list Stmt := [Lock; DeferUnlock; SetWriteDeadline; Write (JSON v)].
Definition wsConn_writeMessage (msgType : Z) (data : list Byte.byte) : list Stmt :=
  [Lock; DeferUnlock; SetWriteDeadline; Write (Message msgType data)].

(** A call of one of the methods. *)
Inductive WriterCall := writesJSON (v : string) | writesMessage (msgType : Z) (data : list Byte.byte).

Definition body (m : WriterCall) : list Stmt :=
  match m with
  | writesJSON v => wsConn_writeJSON v
  | writesMessage t d => wsConn_writeMessage t d
  end.

Definition payload (m : WriterCall) : Payload :=
  match m with writesJSON v => JSON v | writesMessage t d => Message t d end.

(** What the library's connection sees, by the goroutine: a deadline, the start of a
    write, and its end, in an error or not. *)
Inductive Event :=
| Deadline (i : nat) (t : Z)
| Called (i : nat) (p : Payload)
| Returned (i : nat) (err : bool).

(** A goroutine: the statements to go, the unlocks it has deferred, whether it is
    inside the library's write, and the error it will return. [None]: in no method. *)
Record Frame := mkFrame { stmts : list Stmt; defers : nat; writing : bool; err : bool }.
Notation Goroutine := (option Frame).

(** The connection: the events on the library's [conn], the mutex and [writeWait];
    beside it the goroutines. [fatal]: an unlocked mutex was unlocked. *)
Record wsConn := mkWsConn { conn : list Event; mu : bool; writeWait : Z }.
Record Writers := mkWriters { wc : wsConn; writers : list Goroutine; fatal : bool }.

Definition newWSConn (c : list Event) (wait : Z) : wsConn := mkWsConn c false wait.

Definition log (e : Event) (c : wsConn) : wsConn := mkWsConn (conn c ++ [e]) (mu c) (writeWait c).
Definition set_mu (b : bool) (c : wsConn) : wsConn := mkWsConn (conn c) b (writeWait c).

(** ** The steps *)

(** One step of goroutine [i] in a method, at time [now]. A write returns when the
    library pleases; a blocked [Lock] has no step. *)
Inductive run (i : nat) : wsConn -> Frame -> wsConn -> Frame -> Prop :=
| run_lock c k d e : mu c = false -> run i c (mkFrame (Lock :: k) d false e) (set_mu true c) (mkFrame k d false e)
| run_defer c k d e : run i c (mkFrame (DeferUnlock :: k) d false e) c (mkFrame k (S d) false e)
| run_deadline c k d e now : run i c (mkFrame (SetWriteDeadline :: k) d false e)
    (log (Deadline i (now + writeWait c)) c) (mkFrame k d false e)
| run_call c p k d e : run i c (mkFrame (Write p :: k) d false e) (log (Called i p) c) (mkFrame k d true e)
| run_return c k d e e' : run i c (mkFrame k d true e) (log (Returned i e') c) (mkFrame k d false e').

(** Work on the calls: a step in a method, a deferred unlock, or the return from a
    method that has none left. *)
Inductive work (w : Writers) : Writers -> Prop :=
| w_run i f c' f' : writers w !! i = Some (Some f) -> run i (wc w) f c' f' ->
    work w (mkWriters c' (<[i := Some f']> (writers w)) (fatal w))
| w_unlock i d e : writers w !! i = Some (Some (mkFrame [] (S d) false e)) ->
    work w (mkWriters (set_mu false (wc w)) (<[i := Some (mkFrame [] d false e)]> (writers w))
              (fatal w || negb (mu (wc w))))
| w_return i e : writers w !! i = Some (Some (mkFrame [] 0 false e)) ->
    work w (mkWriters (wc w) (<[i := None]> (writers w)) (fatal w)).

(** A step of the program: work, a new goroutine, or a new call. *)
Inductive wstep (w : Writers) : Writers -> Prop :=
| w_work w' : work w w' -> wstep w w'
| w_spawn : wstep w (mkWriters (wc w) (writers w ++ [None]) (fatal w))
| w_invoke i m : writers w !! i = Some None ->
    wstep w (mkWriters (wc w) (<[i := Some (mkFrame (body m) 0 false false)]> (writers w)) (fatal w)).

Definition started (wait : Z) : Writers := mkWriters (newWSConn [] wait) [] false.

Inductive written (wait : Z) : Writers -> Prop :=
| written_start : written wait (started wait)
| written_step w w' : written wait w -> wstep w w' -> written wait w'.

(** ** Where a goroutine is *)

(** The section between [Lock] and the unlock, by what it still has to do. [None]: the
    goroutine is outside. *)
Inductive stage := Locked | Deferred | Dated (t : Z) | Calling (t : Z) | Finished.

(** A frame at a stage of a call of [m]. *)
Inductive at_stage (m : WriterCall) : stage -> Frame -> Prop :=
| at_locked : at_stage m Locked (mkFrame [DeferUnlock; SetWriteDeadline; Write (payload m)] 0 false false)
| at_deferred : at_stage m Deferred (mkFrame [SetWriteDeadline; Write (payload m)] 1 false false)
| at_dated t : at_stage m (Dated t) (mkFrame [Write (payload m)] 1 false false)
| at_calling t : at_stage m (Calling t) (mkFrame [] 1 true false)
| at_finished e : at_stage m Finished (mkFrame [] 1 false e).

(** Outside: in no method, before [Lock], or about to return. *)
Definition outside (g : Goroutine) : Prop :=
  g = None \/ (exists m, g = Some (mkFrame (body m) 0 false false)) \/ exists e, g = Some (mkFrame [] 0 false e).

Lemma body_payload m : body m = [Lock; DeferUnlock; SetWriteDeadline; Write (payload m)].
Proof. by destruct m. Qed.

(** A write as the library sees it when it is alone. *)
Record Round := mkRound { by_ : nat; deadline : Z; what : Payload; result : bool }.
Definition events (r : Round) : list Event :=
  [Deadline (by_ r) (deadline r); Called (by_ r) (what r); Returned (by_ r) (result r)].

(** What the goroutine in the section has done to the connection so far. *)
Definition so_far (i : nat) (m : WriterCall) (g : stage) : list Event :=
  match g with
  | Locked | Deferred | Finished => []
  | Dated t => [Deadline i t]
  | Calling t => [Deadline i t; Called i (payload m)]
  end.

(** The refinement relation: [rounds] are the writes done, in order; nobody is in the
    section and the mutex is free, or one goroutine is and holds it. *)
Definition idle (rounds : list Round) (w : Writers) : Prop :=
  mu (wc w) = false /\ conn (wc w) = flat_map events rounds /\
  forall i g, writers w !! i = Some g -> outside g.

Definition held (rounds : list Round) (i : nat) (m : WriterCall) (g : stage) (w : Writers) : Prop :=
  mu (wc w) = true /\ conn (wc w) = flat_map events rounds ++ so_far i m g /\
  (exists f, writers w !! i = Some (Some f) /\ at_stage m g f) /\
  forall j h, j <> i -> writers w !! j = Some h -> outside h.

Definition refines (rounds : list Round) (w : Writers) : Prop :=
  fatal w = false /\ (idle rounds w \/ exists i m g, held rounds i m g w).

(** ** The refinement *)

Section refinement.
Implicit Types (w : Writers) (ws : list Goroutine).

Lemma outside_insert (P : nat -> Prop) ws i g :
  (forall j h, P j -> ws !! j = Some h -> outside h) -> outside g ->
  forall j h, P j -> <[i := g]> ws !! j = Some h -> outside h.
Proof.
  intros Hws Hg j h Hj Hl. apply list_lookup_insert_Some in Hl as [(_ & <- & _)|[_ Hl]]; [done|eauto].
Qed.

Lemma outside_spawn (P : nat -> Prop) ws :
  (forall j h, P j -> ws !! j = Some h -> outside h) ->
  forall j h, P j -> (ws ++ [None]) !! j = Some h -> outside h.
Proof.
  intros Hws j h Hj [Hl|[_ Hl]]%lookup_app_Some; [eauto|].
  apply list_lookup_singleton_Some in Hl as [_ <-]. by left.
Qed.

(** Outside the section the only step on the connection is [Lock]. *)
Lemma outside_run i c f c' f' : outside (Some f) -> run i c f c' f' ->
  mu c = false /\ exists m, c' = set_mu true c /\ at_stage m Locked f'.
Proof.
  intros [|[(m & [= ->])|(e & [= ->])]] Hrun; [done| |by inversion Hrun].
  rewrite body_payload in Hrun. inversion Hrun; subst. split; [done|]. exists m. split; [done|constructor].
Qed.

(** In the section every step goes to the next stage; the return of the library's
    write completes a round. *)
Lemma section_run i m g c f c' f' rounds : at_stage m g f -> run i c f c' f' ->
  conn c = flat_map events rounds ++ so_far i m g ->
  mu c' = mu c /\ exists g' rounds', at_stage m g' f' /\ conn c' = flat_map events rounds' ++ so_far i m g' /\
    (rounds' = rounds \/ writing f = true /\ exists t e, rounds' = rounds ++ [mkRound i t (payload m) e]).
Proof.
  intros Hg Hrun Hc. destruct Hg; inversion Hrun; subst; (split; [done|]).
  - exists Deferred, rounds. split; [constructor|]. auto.
  - eexists (Dated _), rounds. split; [constructor|]. cbn in *. rewrite Hc, app_nil_r. auto.
  - exists (Calling t), rounds. split; [constructor|]. cbn in *. rewrite Hc, <-app_assoc. auto.
  - exists Finished. eexists (rounds ++ [mkRound i t (payload m) _]). split; [constructor|]. cbn in *.
    rewrite Hc, flat_map_app, <-!app_assoc. cbn. split; [reflexivity|]. right. split; [done|]. eauto.
Qed.

Lemma refines_started wait : refines [] (started wait).
Proof. split; [done|]. left. split; [done|]. split; [done|]. by intros i g. Qed.

(** A round that a step from [w] completes is the write of a goroutine inside the
    library. *)
Definition completes w rounds rounds' : Prop :=
  rounds' = rounds \/
  exists r f, rounds' = rounds ++ [r] /\ writers w !! by_ r = Some (Some f) /\ writing f = true.

Lemma idle_step rounds w w' : fatal w = false -> idle rounds w -> wstep w w' -> refines rounds w'.
Proof.
  intros Hf (Hmu & Hc & Hout) Hw. assert (Hout' : forall j h, True -> writers w !! j = Some h -> outside h) by eauto.
  destruct Hw as [w' [i f c' f' Hi Hrun|i d e Hi|i e Hi]| |i m Hi]; cbn [writers wc fatal].
  - destruct (outside_run i _ _ _ _ (Hout _ _ Hi) Hrun) as (_ & m & -> & Hg). split; [done|]. right.
    exists i, m, Locked. split; [done|]. split; [cbn; by rewrite Hc, app_nil_r|]. split.
    + exists f'. split; [|done]. apply list_lookup_insert_eq. by eapply lookup_lt_Some.
    + intros j h Hj Hl. cbn [writers] in Hl. rewrite list_lookup_insert_ne in Hl by done. eauto.
  - exfalso. destruct (Hout _ _ Hi) as [|[(m & [=])|(e' & [=])]]; done.
  - split; [done|]. left. do 2 (split; [done|]). intros j h. apply (outside_insert (fun _ => True)); [done|by left|done].
  - split; [done|]. left. do 2 (split; [done|]). intros j h. by apply (outside_spawn (fun _ => True)).
  - split; [done|]. left. do 2 (split; [done|]). intros j h.
    apply (outside_insert (fun _ => True)); [done|right; left; by exists m|done].
Qed.

Lemma held_step rounds i m g w w' : fatal w = false -> held rounds i m g w -> wstep w w' ->
  exists rounds', completes w rounds rounds' /\ refines rounds' w'.
Proof.
  intros Hf (Hmu & Hc & (f & Hi & Hg) & Hout) Hw.
  assert (Hin : ~ outside (Some f)).
  { intros [|[(m' & [= ->])|(e' & [= ->])]]; [done| |by inversion Hg]. rewrite body_payload in Hg. by inversion Hg. }
  assert (Hne : forall j, j <> i -> forall x, <[j := x]> (writers w) !! i = Some (Some f))
    by (intros j Hj x; by rewrite list_lookup_insert_ne).
  destruct Hw as [w' [j f1 c' f' Hj Hrun|j d e Hj|j e Hj]| |j m' Hj]; cbn [writers wc fatal].
  - destruct (decide (j = i)) as [->|Hji].
    2:{ destruct (outside_run j _ _ _ _ (Hout j _ Hji Hj) Hrun) as [? _]. congruence. }
    rewrite Hi in Hj. injection Hj as <-.
    destruct (section_run i m g _ _ _ _ rounds Hg Hrun Hc) as (Emu & g' & rounds' & Hg' & Hc' & Hr).
    exists rounds'. split.
    + destruct Hr as [->|(Hin' & t & e & ->)]; [by left|]. right. by eexists (mkRound i t _ e), f.
    + split; [done|]. right. exists i, m, g'. split; [cbn; congruence|]. split; [done|]. split.
      * exists f'. split; [|done]. apply list_lookup_insert_eq. by eapply lookup_lt_Some.
      * intros k h Hk Hl. cbn [writers] in Hl. rewrite list_lookup_insert_ne in Hl by done. eauto.
  - destruct (decide (j = i)) as [->|Hji].
    + rewrite Hi in Hj. injection Hj as ->. inversion Hg; subst. exists rounds. split; [by left|].
      rewrite Hf, Hmu. split; [done|]. left. split; [done|]. cbn. rewrite Hc, app_nil_r. split; [done|].
      intros k h Hl. cbn [writers] in Hl. destruct (decide (k = i)) as [->|Hk]; [|rewrite list_lookup_insert_ne in Hl by done; eauto].
      rewrite list_lookup_insert_eq in Hl by (by eapply lookup_lt_Some). injection Hl as <-. right. right. eauto.
    + exfalso. destruct (Hout j _ Hji Hj) as [|[(m' & [=])|(e' & [=])]]; done.
  - exists rounds. split; [by left|]. split; [done|]. right. assert (Hji : j <> i).
    { intros ->. apply Hin. rewrite Hi in Hj. injection Hj as ->. right. right. eauto. }
    exists i, m, g. do 2 (split; [done|]). split; [exists f; split; [by apply Hne|done]|].
    apply outside_insert; [done|by left].
  - exists rounds. split; [by left|]. split; [done|]. right. exists i, m, g. do 2 (split; [done|]). split.
    + exists f. split; [|done]. apply lookup_app_l_Some, Hi.
    + by apply outside_spawn.
  - exists rounds. split; [by left|]. split; [done|]. right. assert (Hji : j <> i) by (intros ->; congruence).
    exists i, m, g. do 2 (split; [done|]). split; [exists f; split; [by apply Hne|done]|].
    apply outside_insert; [done|]. right. left. by exists m'.
Qed.

Lemma refines_step rounds w w' : refines rounds w -> wstep w w' ->
  exists rounds', completes w rounds rounds' /\ refines rounds' w'.
Proof.
  intros [Hf [Hi|(i & m & g & Hh)]] Hw; [|by eapply held_step].
  exists rounds. split; [by left|by eapply idle_step].
Qed.

Lemma written_refines wait w : written wait w -> exists rounds, refines rounds w.
Proof.
  induction 1 as [|w w' _ (rounds & IH) Hw]; [exists []; apply refines_started|].
  destruct (refines_step rounds w w' IH Hw) as (rounds' & _ & ?). by exists rounds'.
Qed.

(** ** Progress *)

(** What is left of a call, and of all calls. *)
Definition left_over (g : Goroutine) : nat :=
  match g with
  | None => 0
  | Some f => 1 + 2 * length (stmts f) + defers f + (if writing f then 1 else 0)
  end.
Definition pending w : nat := sum_list_with left_over (writers w).

Lemma pending_insert ws i g h : ws !! i = Some g ->
  (sum_list_with left_over (<[i := h]> ws) + left_over g = sum_list_with left_over ws + left_over h)%nat.
Proof.
  revert i. induction ws as [|x ws IH]; intros [|i] Hl; [done..| |].
  - injection Hl as ->. cbn. lia.
  - specialize (IH i Hl). change (<[S i := h]> (x :: ws)) with (x :: <[i := h]> ws). cbn [sum_list_with]. lia.
Qed.

Lemma work_decreases w w' : work w w' -> (pending w' < pending w)%nat.
Proof.
  unfold pending. intros [i f c' f' Hi Hrun|i d e Hi|i e Hi]; cbn [writers].
  - pose proof (pending_insert _ i _ (Some f') Hi). destruct Hrun; cbn [left_over stmts defers writing length] in *; lia.
  - pose proof (pending_insert _ i _ (Some (mkFrame [] d false e)) Hi). cbn [left_over stmts defers writing length] in *. lia.
  - pose proof (pending_insert _ i _ None Hi). cbn [left_over stmts defers writing length] in *. lia.
Qed.

(** Whoever is in a method, somebody can go on. *)
Lemma work_possible rounds w : refines rounds w -> (exists i f, writers w !! i = Some (Some f)) -> exists w', work w w'.
Proof.
  intros [_ [(Hmu & _ & Hout)|(i & m & g & _ & _ & (f & Hi & Hg) & _)]] (j & h & Hj).
  - destruct (Hout j _ Hj) as [|[(m & [= ->])|(e & [= ->])]]; [done| |eexists; by eapply w_return].
    rewrite body_payload in Hj. eexists. eapply w_run; [exact Hj|]. by apply run_lock.
  - destruct Hg; eexists.
    + eapply w_run; [exact Hi|constructor].
    + eapply w_run; [exact Hi|apply (run_deadline _ _ _ _ _ 0)].
    + eapply w_run; [exact Hi|constructor].
    + eapply w_run; [exact Hi|apply (run_return _ _ _ _ _ false)].
    + by eapply w_unlock.
Qed.

Lemma held_writer rounds w i f : refines rounds w -> writers w !! i = Some (Some f) -> writing f = true ->
  exists m g, held rounds i m g w.
Proof.
  intros [_ [(_ & _ & Hout)|(j & m & g & Hh)]] Hi Hwr.
  - exfalso. destruct (Hout i _ Hi) as [|[(m & [= ->])|(e & [= ->])]]; done.
  - destruct (decide (i = j)) as [->|Hne]; [by exists m, g|exfalso]. destruct Hh as (_ & _ & _ & Hout).
    destruct (Hout i _ Hne Hi) as [|[(m' & [= ->])|(e & [= ->])]]; done.
Qed.

(** The connection has seen whole rounds, and perhaps the beginning of one more. *)
Lemma whole_rounds rounds w : refines rounds w ->
  exists r k, (k < 3)%nat /\ conn (wc w) = flat_map events rounds ++ take k (events r).
Proof.
  intros [_ [(_ & -> & _)|(i & m & g & _ & -> & _)]].
  - exists (mkRound 0 0 (JSON "") false), 0%nat. split; [lia|]. by rewrite app_nil_r.
  - destruct g as [| |t|t|].
    + exists (mkRound i 0 (payload m) false), 0%nat. split; [lia|done].
    + exists (mkRound i 0 (payload m) false), 0%nat. split; [lia|done].
    + exists (mkRound i t (payload m) false), 1%nat. split; [lia|done].
    + exists (mkRound i t (payload m) false), 2%nat. split; [lia|done].
    + exists (mkRound i 0 (payload m) false), 0%nat. split; [lia|done].
Qed.

Lemma work_written wait w w' : written wait w -> rtc work w w' -> written wait w'.
Proof. induction 2 as [|w w1 w' Hw _ IH]; [done|]. apply IH. by eapply written_step, w_work. Qed.

Lemma stuck_returned rounds w : refines rounds w -> (forall w', ~ work w w') ->
  Forall (fun g => g = None) (writers w) /\ mu (wc w) = false.
Proof.
  intros HR Hstuck. assert (Hnone : forall i f, writers w !! i <> Some (Some f)).
  { intros i f Hi. destruct (work_possible rounds w HR) as (w' & Hw); [by exists i, f|]. by apply (Hstuck w'). }
  split.
  - apply Forall_lookup. intros i [f|] Hi; [by destruct (Hnone i f)|done].
  - destruct HR as [_ [(Hmu & _)|(i & m & g & _ & _ & (f & Hi & _) & _)]]; [done|by destruct (Hnone i f)].
Qed.
End refinement.

Lemma brought_to_end wait w : written wait w ->
  exists w', rtc work w w' /\ Forall (fun g => g = None) (writers w').
Proof.
  remember (pending w) as n eqn:En. revert w En. induction n as [n IH] using lt_wf_ind. intros w -> Hw.
  destruct (decide (Forall (fun g => g = None) (writers w))) as [Hall|Hsome]; [by exists w|].
  apply not_Forall_Exists in Hsome; [|apply _]. apply Exists_exists in Hsome as ([f|] & Hin & Hf); [|by destruct Hf].
  apply list_elem_of_lookup in Hin as (i & Hi). destruct (written_refines wait w Hw) as (rounds & HR).
  destruct (work_possible rounds w HR) as (w1 & Hw1); [by exists i, f|].
  destruct (IH (pending w1) (work_decreases _ _ Hw1) w1 eq_refl) as (w' & Hs & Hall); [by eapply written_step, w_work|].
  exists w'. split; [by eapply rtc_l|done].
Qed.

(** ** Properties *)

(** C22: The mutex makes the writes atomic: however the goroutines interleave, the library's
    connection sees the deadline, the call and the return of one write after the other,
    and at most the beginning of a further one; never are two goroutines inside the
    library's write, never is a free mutex unlocked; and every step of the program is,
    on the list of writes done, the append of one whole write by the goroutine inside,
    or no change. *)
Theorem writes_are_atomic wait w : written wait w -> exists rounds, refines rounds w /\
  fatal w = false /\
  (exists r k, (k < 3)%nat /\ conn (wc w) = flat_map events rounds ++ take k (events r)) /\
  (forall i j f h, writers w !! i = Some (Some f) -> writers w !! j = Some (Some h) ->
     writing f = true -> writing h = true -> i = j) /\
  (forall w', wstep w w' -> exists rounds', completes w rounds rounds' /\ refines rounds' w').
Proof.
  intros Hw. destruct (written_refines wait w Hw) as (rounds & HR). exists rounds. split; [done|].
  split; [apply HR|]. split; [by apply whole_rounds|]. split; [|intros w'; by apply refines_step].
  intros i j f h Hi Hj Hf Hh. destruct (held_writer rounds w i f HR Hi Hf) as (m & g & _ & _ & _ & Hout).
  destruct (decide (j = i)) as [->|Hne]; [done|exfalso].
  destruct (Hout j _ Hne Hj) as [|[(m' & [= ->])|(e & [= ->])]]; done.
Qed.

(** The broadcaster is inside the library while a pinger waits for the mutex. *)
Definition broadcasting : Writers :=
  mkWriters (mkWsConn [Deadline 0 15; Called 0 (JSON "{}")] true 10)
    [Some (mkFrame [] 1 true false); Some (mkFrame (wsConn_writeMessage 9 []) 0 false false)] false.

(** A step in the derivation of a reachable state. *)
Ltac next W tac := eapply written_step in W; [|tac]; cbn in W.

Lemma broadcasting_written : written 10 broadcasting.
Proof.
  pose proof (written_start 10) as W.
  next W ltac:(apply w_spawn). next W ltac:(apply w_spawn).
  next W ltac:(by apply (w_invoke _ 0 (writesJSON "{}"))).
  next W ltac:(by apply (w_invoke _ 1 (writesMessage 9 []))).
  next W ltac:(by eapply w_work, (w_run _ 0); [reflexivity|by apply run_lock]).
  next W ltac:(by eapply w_work, (w_run _ 0); [reflexivity|apply run_defer]).
  next W ltac:(by eapply w_work, (w_run _ 0); [reflexivity|apply (run_deadline _ _ _ _ _ 5)]).
  next W ltac:(by eapply w_work, (w_run _ 0); [reflexivity|apply run_call]).
  exact W.
Qed.

Lemma writes_are_atomic_witness : exists rounds, refines rounds broadcasting /\ fatal broadcasting = false /\
  (forall w', wstep broadcasting w' -> exists rounds', completes broadcasting rounds rounds' /\ refines rounds' w').
Proof.
  destruct (writes_are_atomic 10 broadcasting broadcasting_written) as (rounds & HR & Hf & _ & _ & Hstep).
  exists rounds. split; [exact HR|]. split; [exact Hf|exact Hstep].
Defined.

(** C28: Every call returns: from any reachable state the calls under way need at most
    [pending] steps, whatever the order; they can always be brought to an end; and
    where no step is left they have all returned and the mutex is free. *)
Theorem writers_return wait w : written wait w ->
  (forall n w', nsteps work n w w' -> (n <= pending w)%nat) /\
  (exists w', rtc work w w' /\ Forall (fun g => g = None) (writers w')) /\
  (forall w', rtc work w w' -> (forall w2, ~ work w' w2) ->
     Forall (fun g => g = None) (writers w') /\ mu (wc w') = false).
Proof.
  intros Hw. split; [|split].
  - intros n w' Hn. enough (n + pending w' <= pending w)%nat by lia.
    clear Hw. induction Hn as [w|n w w1 w' Hs _ IH]; [lia|]. apply work_decreases in Hs. lia.
  - by apply (brought_to_end wait).
  - intros w' Hs Hstuck. destruct (written_refines wait w') as (rounds & HR); [by eapply work_written|].
    by apply (stuck_returned rounds).
Qed.

Lemma writers_return_witness : written 10 broadcasting /\ pending broadcasting = 12%nat /\
  exists w', rtc work broadcasting w' /\ Forall (fun g => g = None) (writers w').
Proof.
  split; [exact broadcasting_written|]. split; [reflexivity|].
  destruct (writers_return 10 broadcasting broadcasting_written) as (_ & Hend & _). exact Hend.
Defined.
