(* ===== verification/Rest.v ===== *)
(** * The REST API behind its middleware (src/internal/api/api.go, src/cmd/server/main.go)

    The handlers of [Api] as HTTP handlers: how [writeJSON] puts a response on the
    writer, what the middleware stack makes of it, and what a sequence of requests
    leaves in the simulation metrics. The JSON codec is a parameter: [Decode] of what
    a reader yields (and whether it read to its end), [Encode] as the number of bytes
    of an encodable body. *)

From stdpp Require Import gmap strings.
From S2P Require Import Prelude.
From S2P Require Import Float64.
From S2P Require Import Text.
From S2P Require Import Process.
From S2P Require Import Scheduler.
From S2P Require Import Simulator.
From S2P Require Import SimInvariant.
From S2P Require Import SimSteps.
From S2P Require Import SimReach.
From S2P Require Import SimProgress.
From S2P Require Import Store.
From S2P Require Import Logging.
From S2P Require Import Metrics.
From S2P Require Import Middleware.
From S2P Require Import Api.

(** ** Responses on the wire *)

(** [writeJSON] of a value that encodes to [n] bytes, if it encodes. *)
Definition writeJSON (status : Z) (n : option Z) : list Middleware.Op :=
  [OSet "Content-Type" "application/json"; OSet "Cache-Control" "no-store"; OStatus status]%string ++
  match n with Some n => [OWrite n] | None => [] end.

(** ** A JSON response in the stack *)

Definition jsonHeader (h : Header) : Header :=
  (<["Cache-Control" := "no-store"]> (<["Content-Type" := "application/json"]> h))%string.

Lemma writeJSON_spec status n w b : sent w = None -> taken w = None -> 200 <= status -> bodyAllowed status = true ->
  captures w = [(0, b)] ->
  let w' := fold_left runOp (writeJSON status n) w in
  sent w' = Some (status, jsonHeader (header w)) /\ captures w' = [(status, b + default 0 n)] /\
  written w' = written w + default 0 n /\ logged w' = logged w /\ observed w' = observed w.
Proof.
  intros Hs Htk Hst Hb Hc. destruct w as [h se tk wr ca ids lo ob]. cbn in Hs, Htk, Hc. subst se tk ca.
  assert (Hne : (status =? 0) = false) by (apply Z.eqb_neq; lia).
  unfold writeJSON. destruct n as [n|]; cbn -[insert]; [|by rewrite !Z.add_0_r].
  rewrite Hne, Hb. by cbn -[insert].
Qed.

(** The stack around a handler that only answers with a JSON value. *)
Lemma stack_writes_json duration allowed status n r w :
  sent w = None -> taken w = None -> captures w = [] -> 200 <= status -> bodyAllowed status = true ->
  Method r <> "OPTIONS"%string ->
  exists w' h id,
    serverHandler duration allowed (scripted (fun _ => (writeJSON status n, false))) r w = (w', false) /\
    sent w' = Some (status, jsonHeader h) /\ written w' = written w + default 0 n /\
    observed w' = observed w ++
      ObserveHTTPRequest (Method r) (routePath r) status duration (ContentLength r) /\
    logged w' = logged w ++ [LogRequest (FromContext (Some id)) (Method r) (Path r) (routePath r)
      status (default 0 n) duration (RemoteAddr r)].
Proof.
  intros Hs Htk Hc Hst Hb Hm. unfold serverHandler, Chain. cbn [rev app fold_left].
  unfold Recovery, SecureHeaders. set (w1 := SetHeader "Content-Security-Policy" csp _).
  destruct (RequestID_spec (LogAndMetrics duration (CORS allowed (scripted (fun _ => (writeJSON status n, false))))) r w1)
    as (id & k & -> & _). unfold LogAndMetrics. set (w3 := set_captures _ _).
  unfold CORS. cbn [Method WithContext]. rewrite (proj2 (String.eqb_neq _ _) Hm).
  set (w4 := if _ && _ then _ else w3).
  assert (E4 : sent w4 = None /\ taken w4 = None /\ captures w4 = [(0, 0)] /\ written w4 = written w /\
    logged w4 = logged w /\ observed w4 = observed w).
  { subst w4. destruct (_ && _); cbn; by rewrite Hc. }
  destruct E4 as (Es & Et & Ec & Ew & El & Eo).
  destruct (writeJSON_spec status n w4 0 Es Et Hst Hb Ec) as (Hs' & Hc' & Hw' & Hl' & Ho').
  unfold scripted. cbn [fst snd]. set (w5 := fold_left _ _ _) in *.
  rewrite Hc'. cbn [head default tail].
  rewrite <-Ew, <-El, <-Eo, <-Hl', <-Ho'.
  eexists _, (header w4), id. split; [reflexivity|]. split; [exact Hs'|]. by split; [exact Hw'|].
Qed.

(** ** Bodies with a limit *)

(** What reading a body yields: bytes, then an error or the end of the body. *)
Record Reader := mkReader { rdBytes : string; rdError : option string }.

Definition overLimit (body : Reader) (n : Z) : bool := n <? Z.of_nat (String.length (rdBytes body)).

(** [http.MaxBytesReader]: reading beyond [n] bytes is an error. *)
Definition MaxBytesReader (body : Reader) (n : Z) : Reader :=
  if overLimit body n
  then mkReader (String.substring 0 (Z.to_nat n) (rdBytes body)) (Some "http: request body too large"%string)
  else body.

(** What that reader does to the response when the limit is hit: if the writer has the
    server's own unexported method, which a [statusWriter] has not, the connection is
    to be closed after the response. No status is sent. *)
Definition requestTooLarge {A} (w : ResponseWriter (A := A)) : list Middleware.Op :=
  match w with
  | ServerWriter _ _ => [OSet "Connection" "close"]%string
  | StatusWriter _ => []
  end.

Section rest.
Context `{GoSortLaws} (format : Z -> string) (server : ResponseWriter (A := unit))
  (Decode : bool -> Reader -> (string + simulateRequest) * bool)   (* DisallowUnknownFields *)
  (Encode : Body -> option Z).

(** The body of a request, limited to a megabyte, and what that does to the response. *)
Definition decodeJSON (w : ResponseWriter (A := unit)) (body : Reader)
    : (string + simulateRequest) * list Middleware.Op :=
  let limit := Z.shiftl 1 20 in
  let '(res, atEnd) := Decode true (MaxBytesReader body limit) in
  (res, if atEnd && overLimit body limit then requestTooLarge w else []).

(** The response as calls on the writer. *)
Definition respond (resp : Response) : list Middleware.Op := writeJSON resp.1 (Encode resp.2).

(** A request of the API, its answer and the handler after it; the handlers see the
    server's writer through the [statusWriter] of [LogAndMetrics]. *)
Inductive api_step (h : Api.Handler) : Response -> Api.Handler -> Prop :=
| api_version X : api_step h (handleVersion X) h
| api_algorithms : api_step h handleAlgorithms h
| api_simulate body start o resp h' :
    (forall req, (decodeJSON (StatusWriter server) body).1 = inr req -> Forall decodable (rqProcesses req)) ->
    match o with Completes fuel _ _ => Z.of_nat fuel <= max_int | _ => True end ->
    handleSimulate format h (decodeJSON (StatusWriter server) body).1 start o = Some (resp, h') -> api_step h resp h'
| api_list zero v : api_step h (handleList zero v h) h
| api_get id : api_step h (handleGet id h) h.

(** A sequence of requests and their answers. *)
Inductive api_run (h : Api.Handler) : list Response -> Api.Handler -> Prop :=
| api_done : api_run h [] h
| api_next resp h1 resps h2 : api_step h resp h1 -> api_run h1 resps h2 -> api_run h (resp :: resps) h2.

(** ** The simulation metrics *)

(** What an answer says of its simulation: it was run, it ended by itself or by the
    deadline, and how many time units it took. *)
Definition ran (resp : Response) : Z :=
  if bool_decide (resp.1 = 504 \/ resp.1 = 499) then 1 else
  match resp.2 with BSimulated _ _ _ _ => 1 | _ => 0 end.
Definition ended (resp : Response) : Z :=
  if bool_decide (resp.1 = 504) then 1 else match resp.2 with BSimulated _ _ _ _ => 1 | _ => 0 end.
Definition units (resp : Response) : Z :=
  match resp.2 with BSimulated _ _ _ u => uCurrentTime u | _ => 0 end.

(** The calls of one request, with the totals its answer tells. *)
Record measured (resp : Response) (l : list MetricCall) : Prop := {
  me_started : total simStartedTotal l = ran resp;
  me_completed : total simCompletedTotal l = ended resp;
  me_steps : total simStepsTotal l = units resp;
  me_accepted : Forall accepted l
}.

Lemma measured_nothing resp : ran resp = 0 -> ended resp = 0 -> units resp = 0 -> measured resp [].
Proof. intros Hr He Hu. by split. Qed.

Lemma release_metrics h : hMetrics (release h) = hMetrics h.
Proof. unfold release. by destruct (simSem h) as [[cap n]|]. Qed.

Lemma acquire_metrics h h' : acquire h = Some h' -> hMetrics h' = hMetrics h.
Proof.
  unfold acquire. destruct (simSem h) as [[cap n]|]; [|by intros [= <-]].
  destruct (n <? cap); [|done]. by intros [= <-].
Qed.
(** Behind a [statusWriter] the limit leaves no trace on the response. *)
Lemma decodeJSON_silent w body : (decodeJSON (StatusWriter w) body).2 = [].
Proof. unfold decodeJSON. destruct (Decode _ _) as [res atEnd]. by destruct (_ && _). Qed.

Lemma prepare_error h decoded resp : prepare h decoded = Some (inl resp) ->
  exists msg, resp = (400, BError msg).
Proof.
  unfold prepare. destruct decoded as [err|req]; [intros [= <-]; by eexists|].
  destruct (_ =? _)%nat; [intros [= <-]; by eexists|].
  destruct (buildScheduler _ _) as [err|sched]; [intros [= <-]; by eexists|].
  destruct (addInputs _ _) as [[err|sim]|]; cbn; [intros [= <-]; by eexists|done|done].
Qed.

(** The simulation of a request that passes its checks. *)
Lemma prepare_engine h decoded sim name req' :
  (forall req, decoded = inr req -> Forall decodable (rqProcesses req)) ->
  prepare h decoded = Some (inr (sim, name, req')) -> reachable sim /\ currentTime sim = 0.
Proof.
  intros Hd E. destruct decoded as [err|req]; [done|]. specialize (Hd req eq_refl).
  destruct (decide (acceptable req)) as [Ha|Ha].
  - destruct (prepare_accepts h req Hd Ha) as (sched & qs & Hok & Hqs & E').
    rewrite E' in E. injection E as <- _ _.
    destruct (setup_spec qs sched Hok (built_all _ _ Hqs)) as (Hr & Ht & _). by split.
  - destruct (prepare_rejects h req Hd Ha) as [msg E']. by rewrite E' in E.
Qed.

Lemma final_clock fuel clock (sim final : Simulator AnyScheduler) :
  reachable sim -> currentTime sim = 0 -> Z.of_nat fuel <= max_int ->
  runToCompletion fuel (SetSpeed 1 (SetUpdateCallback true sim)) = Some final ->
  0 <= uCurrentTime (finalUpdate clock final).
Proof.
  intros Hr Ht Hf Hrun.
  assert (Hrs : reachable (SetSpeed 1 (SetUpdateCallback true sim))) by (by apply reach_speed, reach_callback).
  assert (Hr' : reachable final).
  { eapply run_reachable; [exact Hrs| |exact Hrun].
    change (currentTime (SetSpeed 1 (SetUpdateCallback true sim))) with (currentTime sim). lia. }
  destruct (reachable_wf _ Hr') as [_ Ht']. exact (proj1 Ht').
Qed.

Lemma handleSimulate_measured h decoded start o resp h' :
  (forall req, decoded = inr req -> Forall decodable (rqProcesses req)) ->
  match o with Completes fuel _ _ => Z.of_nat fuel <= max_int | _ => True end ->
  handleSimulate format h decoded start o = Some (resp, h') ->
  exists l, hMetrics h' = hMetrics h ++ l /\ measured resp l.
Proof.
  intros Hd Hf. unfold handleSimulate. destruct (acquire h) as [h1|] eqn:Ea.
  2:{ intros [= <- <-]. exists []. rewrite app_nil_r. split; [done|]. by apply measured_nothing. }
  rewrite <-(acquire_metrics _ _ Ea). unfold simulate.
  destruct (prepare h1 decoded) as [[e|[[sim name] req]]|] eqn:Ep; [..|done]; cbn [mbind option_bind].
  { intros [= <- <-]. exists []. rewrite release_metrics, app_nil_r. split; [done|].
    destruct (prepare_error _ _ _ Ep) as [msg ->]. by apply measured_nothing. }
  destruct (prepare_engine _ _ _ _ _ Hd Ep) as [Hr Ht].
  destruct o as [fuel clock dur|dur|]; cbn [mbind option_bind].
  - destruct (runToCompletion fuel _) as [final|] eqn:Erun; [|done]. cbn [mbind option_bind].
    intros [= <- <-]. eexists. rewrite release_metrics. cbn -[finalUpdate uCurrentTime].
    rewrite <-!app_assoc. split; [reflexivity|].
    pose proof (final_clock fuel clock sim final Hr Ht Hf Erun) as Hclock.
    split; cbn in *; try lia; accept.
  - intros [= <- <-]. eexists. rewrite release_metrics. cbn.
    rewrite <-!app_assoc. split; [reflexivity|]. split; cbn; try lia; accept.
  - intros [= <- <-]. eexists. rewrite release_metrics. split; [reflexivity|]. split; cbn; try lia; accept.
Qed.
Lemma api_step_measured h resp h' : api_step h resp h' ->
  exists l, hMetrics h' = hMetrics h ++ l /\ measured resp l.
Proof.
  destruct 1 as [v| |body start o resp h' Hd Hf E|zero v|id].
  1,2,4: exists []; rewrite app_nil_r; split; [done|]; by apply measured_nothing.
  - by eapply handleSimulate_measured.
  - exists []. rewrite app_nil_r. split; [done|]. unfold handleGet.
    destruct (id =? "")%string; [by apply measured_nothing|].
    destruct (Get id (hStore h)); by apply measured_nothing.
Qed.

Lemma api_run_measured h resps h' : api_run h resps h' ->
  exists l, hMetrics h' = hMetrics h ++ l /\
    total simStartedTotal l = zsum ran resps /\ total simCompletedTotal l = zsum ended resps /\
    total simStepsTotal l = zsum units resps /\ Forall accepted l.
Proof.
  induction 1 as [h|h resp h1 resps h2 Hstep _ (l2 & E2 & Hs & Hc & Hu & Ha)].
  - exists []. rewrite app_nil_r. split; [done|]. do 3 (split; [done|]). constructor.
  - destruct (api_step_measured _ _ _ Hstep) as (l1 & E1 & [Hs1 Hc1 Hu1 Ha1]).
    exists (l1 ++ l2). rewrite E2, E1, app_assoc, !total_app. cbn [zsum].
    split; [done|]. split; [lia|]. split; [lia|]. split; [lia|]. by apply Forall_app.
Qed.

(** ** Answers *)

(** The statuses of the API. *)
Lemma api_step_status h resp h' : api_step h resp h' -> resp.1 ∈ [200; 400; 404; 499; 503; 504].
Proof.
  destruct 1 as [v| |body start o resp h' Hd Hf E|zero v|id]; try (cbn; set_solver).
  - revert E. unfold handleSimulate. destruct (acquire h) as [h1|]; [|intros [= <- <-]; cbn; set_solver].
    unfold simulate. destruct (prepare h1 _) as [[e|[[sim name] req]]|] eqn:Ep; [..|done]; cbn [mbind option_bind].
    { intros [= <- <-]. destruct (prepare_error _ _ _ Ep) as [msg ->]. cbn. set_solver. }
    destruct o as [fuel clock dur|dur|]; cbn [mbind option_bind].
    + destruct (runToCompletion fuel _); [|done]. cbn. intros [= <- <-]. cbn. set_solver.
    + intros [= <- <-]. cbn. set_solver.
    + intros [= <- <-]. cbn. set_solver.
  - unfold handleGet. destruct (id =? "")%string; [cbn; set_solver|].
    destruct (Get id (hStore h)); cbn; set_solver.
Qed.
End rest.

(** ** Properties *)

(** C18: Every answer of the REST API arrives as it was meant, through the whole
    middleware stack: whatever the request and the state of the API, the client gets
    the status the handler chose, one of 200, 400, 404, 499, 503 and 504 (a body over the
    limit is a 400 like every body that does not decode: hitting the limit does nothing
    to the response), with a JSON body that is not cached, of exactly the bytes the value
    encodes to, or without a body for a HEAD request, under the security headers; it is
    logged with that status and the size of the value and counted once in the HTTP
    metrics, under that status's class, by calls the metrics accept. *)
Theorem answers_through_the_stack `{GoSortLaws} format server Decode Encode
    duration allowed (h h' : Api.Handler) resp (r : Request) (w : World) :
  api_step format server Decode h resp h' ->
  sent w = None -> taken w = None -> captures w = [] -> header w = ∅ -> Method r <> "OPTIONS"%string ->
  resp.1 ∈ [200; 400; 404; 499; 503; 504] /\
  (forall body, (decodeJSON Decode (StatusWriter server) body).2 = []) /\
  exists w' hd id,
    serverHandler duration allowed (scripted (fun _ => (respond Encode resp, false))) r w = (w', false) /\
    sent w' = Some (resp.1, hd) /\
    Forall (fun kv => hd !! kv.1 = Some kv.2)
      [("Content-Type", "application/json"); ("Cache-Control", "no-store");
       ("X-Content-Type-Options", "nosniff"); ("X-Frame-Options", "DENY")]%string /\
    delivered r w' = delivered r w +
      (if (Method r =? "HEAD")%string then 0 else default 0 (Encode resp.2)) /\
    logged w' = logged w ++ [LogRequest (FromContext (Some id)) (Method r) (Path r) (routePath r)
      resp.1 (default 0 (Encode resp.2)) duration (RemoteAddr r)] /\
    exists l, observed w' = observed w ++ l /\ Forall accepted l /\
      l = ObserveHTTPRequest (Method r) (routePath r) resp.1 duration (ContentLength r).
Proof.
  intros Hstep Hs Htk Hc Hh Hm. pose proof (api_step_status _ _ _ _ _ _ Hstep) as Hst.
  split; [exact Hst|]. split; [intros body; apply decodeJSON_silent|].
  assert (Hrange : 200 <= resp.1 <= 999 /\ bodyAllowed (resp.1) = true).
  { rewrite !elem_of_cons, elem_of_nil in Hst.
    repeat (destruct Hst as [->|Hst]; [split; [lia|reflexivity]|]). done. }
  destruct Hrange as [Hr Hb].
  destruct (stack_writes_json duration allowed (resp.1) (Encode resp.2) r w Hs Htk Hc (proj1 Hr) Hb Hm)
    as (w' & h0 & id & E & Hse & Hw & Ho & Hl).
  destruct (stack_protects duration allowed (fun _ => (respond Encode resp, false)) r w Hs Htk Hc Hh)
    as (w2 & id2 & E2 & _ & _ & Hg & _).
  { intros _. unfold respond, writeJSON. cbn [fst]. apply Forall_app. split.
    - repeat apply List.Forall_cons; try apply List.Forall_nil; cbn; try done;
        left; apply (bool_decide_unpack _); vm_compute; exact I.
    - destruct (Encode resp.2); [by apply Forall_singleton|constructor]. }
  unfold respond in *. rewrite E in E2. injection E2 as <-.
  destruct (Hg _ _ Hse) as [Hp _]. unfold promised in Hp.
  apply Forall_cons in Hp as [Hns [Hxf _]%Forall_cons]. cbn [fst snd] in Hns, Hxf.
  exists w', (jsonHeader h0), id. split; [exact E|]. split; [exact Hse|]. split.
  - unfold jsonHeader in *. repeat apply List.Forall_cons; try apply List.Forall_nil; cbn [fst snd].
    + by rewrite lookup_insert_ne, lookup_insert_eq by done.
    + by rewrite lookup_insert_eq.
    + exact Hns.
    + exact Hxf.
  - split; [unfold delivered; rewrite Hw; destruct (_ =? _)%string; lia|]. split; [exact Hl|]. eexists. split; [exact Ho|].
    split; [apply ObserveHTTPRequest_accepted|done].
Qed.

(** The simulation metrics account for the answers: after any sequence of requests to
    a new handler, the started simulations are those that were answered with a result,
    timed out or lost their client; the completed ones are those with a result and
    those that timed out; the time units are the sum of the clocks of the results; and
    the metrics accept every call. *)
Theorem simulation_counters `{GoSortLaws} format server Decode st q sp limit resps h' :
  api_run format server Decode (NewHandler st q sp limit) resps h' ->
  total simStartedTotal (hMetrics h') = zsum ran resps /\
  total simCompletedTotal (hMetrics h') = zsum ended resps /\
  total simStepsTotal (hMetrics h') = zsum units resps /\
  Forall accepted (hMetrics h').
Proof. intros Hrun. destruct (api_run_measured _ _ _ _ _ _ Hrun) as (l & -> & Hl). exact Hl. Qed.

(** *** Witnesses *)

Definition decodeSample (strict : bool) (body : Reader) : (string + simulateRequest) * bool :=
  if (rdBytes body =? "sample")%string then (inr sample_request, true)
  else (inl (default "EOF"%string (rdError body)), true).

Definition plainServer : ResponseWriter (A := unit) := ServerWriter (Some (inr tt)) true.

#[local] Notation sample_step :=
  (api_step (fun _ => "t"%string) plainServer decodeSample).
#[local] Notation sample_run :=
  (api_run (fun _ => "t"%string) plainServer decodeSample).

(** A body that does not decode, and the sample simulation. *)
Lemma sample_rejected : sample_step sample_handler (400, BError "invalid request body: EOF") sample_handler.
Proof.
  apply (api_simulate _ _ _ _ (mkReader "" None) 0 ClientGone); [|exact I|reflexivity]. intros req E. discriminate.
Qed.

Lemma sample_answered : exists resp h', sample_step sample_handler resp h' /\
  (resp.1, ran resp, ended resp, units resp) = (200, 1, 1, 5).
Proof.
  destruct (handleSimulate (fun _ => "t"%string) sample_handler (inr sample_request) 0 (Completes 8 0 0))
    as [[resp h']|] eqn:E; [|vm_compute in E; discriminate].
  exists resp, h'. split.
  - apply (api_simulate _ _ _ _ (mkReader "sample" None) 0 (Completes 8 0 0)); [|vm_compute; discriminate|exact E].
    intros req Hreq. injection Hreq as <-. exact sample_decodable.
  - vm_compute in E. injection E as <- _. vm_compute. reflexivity.
Qed.

Lemma simulation_counters_witness :
  exists resps h', sample_run sample_handler resps h' /\ length resps = 2%nat /\
    total simStartedTotal (hMetrics h') = 1 /\ total simStepsTotal (hMetrics h') = 5.
Proof.
  destruct sample_answered as (resp & h' & Hstep & E). injection E as _ Hr He Hu.
  assert (Hrun : sample_run sample_handler [(400, BError "invalid request body: EOF"); resp] h').
  { eapply api_next; [exact sample_rejected|]. eapply api_next; [exact Hstep|]. apply api_done. }
  destruct (simulation_counters (fun _ => "t"%string) plainServer decodeSample (New 10) 4 500 2 _ _ Hrun)
    as (Hs & _ & Ht & _).
  eexists _, h'. split; [exact Hrun|]. split; [reflexivity|]. split.
  - rewrite Hs. cbn [zsum]. rewrite Hr. reflexivity.
  - rewrite Ht. cbn [zsum]. rewrite Hu. reflexivity.
Defined.

Lemma answers_through_the_stack_witness :
  exists w' hd, serverHandler 7 [] (scripted (fun _ =>
      (respond (fun _ => Some 40) (400, BError "invalid request body: EOF"), false)))
      (exampleRequest "/api/simulate") (freshWorld 0) = (w', false) /\
    sent w' = Some (400, hd) /\ hd !! "Content-Type"%string = Some "application/json"%string /\
    delivered (exampleRequest "/api/simulate") w' = 40.
Proof.
  destruct (answers_through_the_stack (fun _ => "t"%string) plainServer decodeSample (fun _ => Some 40)
    7 [] _ _ _ (exampleRequest "/api/simulate") (freshWorld 0) sample_rejected eq_refl eq_refl eq_refl eq_refl)
    as (_ & _ & w' & hd & id & E & Hse & Hh & Hw & _); [discriminate|].
  exists w', hd. split; [exact E|]. split; [exact Hse|].
  split; [exact (proj1 (proj1 (Forall_cons _ _ _) Hh))|exact Hw].
Defined.
