(* ===== verification/Server.v ===== *)
(** * The WebSocket server (src/web/server.go)

    Connections, the broadcast queue and shutdown as an interleaving transition
    system on top of the run loop's: every connection's goroutine runs the
    scripts of its messages ([Web]) and has a pinger beside it, every simulator ever
    installed has its run goroutines, and the broadcaster and [Shutdown] are threads
    of their own. The sockets, their peers and the ticker are left open: a message may
    arrive on an open connection at any time, an upgrade, a read, a write or a ping
    may fail at any time. A snapshot and its offer to the broadcast queue are one step: nobody sees
    the snapshot in between. *)

From stdpp Require Import relations.
From S2P Require Import Prelude.
From S2P Require Import Float64.
From S2P Require Import Text.
From S2P Require Import Config.
From S2P Require Import Metrics.
From S2P Require Import Process.
From S2P Require Import Scheduler.
From S2P Require Import MultiLevel.
From S2P Require Import Lottery.
From S2P Require Import Simulator.
From S2P Require Import SimInvariant.
From S2P Require Import SimSteps.
From S2P Require Import SimTick.
From S2P Require Import SimReach.
From S2P Require Import SimProgress.
From S2P Require Import SimReset.
From S2P Require Import RunLoop.
From S2P Require Import Store.
From S2P Require Import Api.
From S2P Require Import Web.

(** ** State *)

(** Where a connection's goroutine is: about to be upgraded, registered and about to
    be greeted with the state, in the read loop, in a script
    with the simulator it has read, in a control method of that simulator, in its
    deferred clean-up, or gone. *)
Inductive hpc :=
| HConnected
| HGreeting
| HReading
| HScript (acts : list Act) (sim : option nat)
| HCall (p : pc) (acts : list Act) (i : nat)
| HCleanup
| HDone.

(** The pinger of a connection: not started, in its [select], about to write a ping,
    or gone. *)
Inductive ppc := PNone | PWaiting | PWriting | PGone.

(** [cOpen]: the socket has not been closed; [cReg]: it is in [s.clients]. The
    pinger's [done] is closed when the goroutine is gone. *)
Record Conn := mkConn { cPc : hpc; cOpen : bool; cReg : bool; cPing : ppc }.

(** [Shutdown], by what it does next; [SGot] has read the simulator, [SStop] is in
    its [Stop]. *)
Inductive spc :=
| SIdle | SClosing | SGot (i : nat) | SStop (p : pc) (i : nat) | SClients | SWait | SServer | SDone.

(** The broadcaster: waiting on the channel, about to list the clients, or writing
    to those it listed. *)
Inductive bpc := BIdle | BTaken | BWriting (rest : list nat).

Record Server := mkServer {
  sims : list (World (Sd := AnyScheduler));
  current : option nat;
  conns : list Conn;
  broadcast : list SimulationUpdate;
  caster : bpc;
  closed : bool;
  broadcastClosed : bool;
  shut : spc;
  httpServer : option bool;      (* set by [SetHTTPServer]; whether it is open *)
  calls : list MetricCall        (* on the metrics, in order *)
}.

(** [MaxClients] and [BroadcastBufferSize] (positive, so the channel is buffered)
    of the configuration. *)
Record ServerConfig := { maxClients : Z; bufferSize : Z }.
Definition serverConfig (c : Config) : ServerConfig :=
  {| maxClients := MaxClients c; bufferSize := BroadcastBufferSize c |}.

Definition set_sims v s := mkServer v (current s) (conns s) (broadcast s) (caster s) (closed s) (broadcastClosed s) (shut s) (httpServer s) (calls s).
Definition set_current v s := mkServer (sims s) v (conns s) (broadcast s) (caster s) (closed s) (broadcastClosed s) (shut s) (httpServer s) (calls s).
Definition set_conns v s := mkServer (sims s) (current s) v (broadcast s) (caster s) (closed s) (broadcastClosed s) (shut s) (httpServer s) (calls s).
Definition set_broadcast v s := mkServer (sims s) (current s) (conns s) v (caster s) (closed s) (broadcastClosed s) (shut s) (httpServer s) (calls s).
Definition set_caster v s := mkServer (sims s) (current s) (conns s) (broadcast s) v (closed s) (broadcastClosed s) (shut s) (httpServer s) (calls s).
Definition set_closed v s := mkServer (sims s) (current s) (conns s) (broadcast s) (caster s) v (broadcastClosed s) (shut s) (httpServer s) (calls s).
Definition set_broadcastClosed v s := mkServer (sims s) (current s) (conns s) (broadcast s) (caster s) (closed s) v (shut s) (httpServer s) (calls s).
Definition set_shut v s := mkServer (sims s) (current s) (conns s) (broadcast s) (caster s) (closed s) (broadcastClosed s) v (httpServer s) (calls s).
Definition set_httpServer v s := mkServer (sims s) (current s) (conns s) (broadcast s) (caster s) (closed s) (broadcastClosed s) (shut s) v (calls s).
Definition set_calls v s := mkServer (sims s) (current s) (conns s) (broadcast s) (caster s) (closed s) (broadcastClosed s) (shut s) (httpServer s) v.

(** The metrics are called. *)
Definition record_ (l : list MetricCall) (s : Server) : Server := set_calls (calls s ++ l) s.

(** The value of the gauge of connected clients. *)
Definition gauge (s : Server) : Z := total wsClientsGauge (calls s).

Definition NewServer : Server := mkServer [] None [] [] BIdle false false SIdle None [].

Definition set_cPc v c := mkConn v (cOpen c) (cReg c) (cPing c).
Definition set_cPing v c := mkConn (cPc c) (cOpen c) (cReg c) v.

(** The goroutine returns: out of the registry, the socket closed. *)
Definition leave (c : Conn) : Conn := mkConn HDone false false (cPing c).

(** To the read loop; the pinger is started before its first round. *)
Definition read_loop (c : Conn) : Conn :=
  mkConn HReading (cOpen c) (cReg c) (match cPing c with PNone => PWaiting | p => p end).

Definition upd_conn (i : nat) (f : Conn -> Conn) (s : Server) : Server := set_conns (alter f i (conns s)) s.
Definition put_sim (i : nat) (w : Shared AnyScheduler) (ps : list pc) (s : Server) : Server :=
  set_sims (<[i := (w, ps)]> (sims s)) s.

Definition SetHTTPServer (s : Server) : Server := set_httpServer (Some true) s.

Lemma record_upd ms i f s : record_ ms (upd_conn i f s) = upd_conn i f (record_ ms s).
Proof. done. Qed.

(** [unregisterClient]: out of the registry and closed, if it is still there. *)
Definition unregisterClient (c : Conn) : Conn := if cReg c then mkConn (cPc c) false false (cPing c) else c.

(** [len(s.clients)] *)
Definition clients (s : Server) : Z := zsum (fun c => if cReg c then 1 else 0) (conns s).

(** The goroutines [clientWg] counts. *)
Definition clientWg (s : Server) : Z :=
  zsum (fun c => match cPc c with HDone => 0 | _ => 1 end) (conns s).

(** The connections the gauge counts: greeted, and not cleaned up yet. *)
Definition counted (c : Conn) : Z :=
  match cPc c with HReading | HScript _ _ | HCall _ _ _ | HCleanup => 1 | _ => 0 end.

(** [HandleHealth]: the status and the body. *)
Inductive Health :=
| Degraded
| Healthy (clientCount : Z) (simulator : option (SimulationState * Z)).

Definition HandleHealth (s : Server) : Z * Health :=
  if closed s then (503, Degraded)
  else (200, Healthy (clients s)
    (match current s with
     | Some k => (fun x => (state (eng x.1), currentTime (eng x.1))) <$> sims s !! k
     | None => None
     end)).

(** ** Calls on a simulator

    The first locked section of a method: the shared state, the goroutines
    started, and what the caller still has to do in the method. [MStep] needs
    [stepMu]: no other caller of [Step] on that simulator. *)
Definition call `{GoSort} (m : Method) (w : Shared AnyScheduler)
    : Shared AnyScheduler * list pc * option pc :=
  match m with
  | MStart => (Start w, None)
  | MPause => (Pause w, None)
  | MResume => let '(w', t) := Resume w in (w', [], head t)
  | MStop => let '(w', t) := StopCall false w in (w', [], head t)
  | MReset => let '(w', t) := StopCall true w in (w', [], head t)
  | MStep => let '(w', t) := StepCall w in (w', [], head t)
  | MSetSpeed v => (with_eng (SetSpeed v (eng w)) w, [], None)
  | MAddProcess p => (with_eng (AddProcess p (eng w)) w, [], None)
  end.

Definition stepping (i : nat) (s : Server) : bool :=
  existsb (fun c => match cPc c with HCall p _ j => (i =? j)%nat && is_step p | _ => false end) (conns s).

(** The goroutine after a call: in the method, or back in the script. *)
Definition resume_script (o : option pc) (acts : list Act) (i : nat) : hpc :=
  match o with Some p => HCall p acts i | None => HScript acts (Some i) end.

(** What a new client is sent before the read loop. *)
Definition greeting (live : bool) : list Act := if live then [AWriteState] else [].

Section server.
Context `{GoFloatToInt} `{GoQuote} `{GoSortLaws} (cfg : ServerConfig).

(** The non-blocking [select] on [s.broadcast]: the update is queued, or dropped
    because the queue is full or [s.closed] is closed. A send on the closed
    channel is a panic, not a step ([panics]). *)
Inductive offer (u : SimulationUpdate) (s : Server) : Server -> Prop :=
| offer_queued : broadcastClosed s = false -> Z.of_nat (length (broadcast s)) < bufferSize cfg ->
    offer u s (set_broadcast (broadcast s ++ [u]) s)
| offer_full : broadcastClosed s = false -> bufferSize cfg <= Z.of_nat (length (broadcast s)) ->
    offer u s s
| offer_closed : closed s = true -> offer u s s.

(** What a step of thread [p] of simulator [w] does to the server: a thread that
    calls [sendUpdate] offers the snapshot to the queue, if there is a callback. *)
Inductive publishes (p : pc) (w : Shared AnyScheduler) (s : Server) : Server -> Prop :=
| publishes_nothing : sends p && updateCallback (eng w) = false -> publishes p w s s
| publishes_update clock s' : sends p && updateCallback (eng w) = true ->
    offer (snapshotState clock (eng w)) s s' -> publishes p w s s'.

(** One step of connection [i]'s goroutine, whose record is [c]. *)
Inductive conn_step (i : nat) (c : Conn) (s : Server) : Server -> Prop :=
| conn_upgrade_fails : cPc c = HConnected ->
    conn_step i c s (upd_conn i leave s)
| conn_refused : cPc c = HConnected -> 0 < maxClients cfg -> maxClients cfg <= clients s ->
    conn_step i c s (upd_conn i leave s)
| conn_registered : cPc c = HConnected -> maxClients cfg <= 0 \/ clients s < maxClients cfg ->
    conn_step i c s (upd_conn i (fun c => mkConn HGreeting (cOpen c) true (cPing c)) s)
| conn_greeted : cPc c = HGreeting ->
    conn_step i c s (record_ IncClient
      (upd_conn i (set_cPc (HScript (greeting (bool_decide (current s <> None))) (current s))) s))
| conn_message msg acts : cPc c = HReading -> cOpen c = true -> messageFits msg ->
    handleMessage (bool_decide (current s <> None)) msg = Some acts ->
    conn_step i c s (upd_conn i (set_cPc (HScript acts (current s))) s)
| conn_read_closed : cPc c = HReading ->
    conn_step i c s (upd_conn i (set_cPc HCleanup) s)
| conn_read_fails : cPc c = HReading ->
    conn_step i c s (record_ (IncWSError "read") (upd_conn i (set_cPc HCleanup) s))
| conn_handled sim : cPc c = HScript [] sim ->
    conn_step i c s (upd_conn i read_loop s)
| conn_write a acts sim : cPc c = HScript (a :: acts) sim -> a = AWriteState \/ isReply a = true ->
    conn_step i c s (upd_conn i (set_cPc (HScript acts sim)) s)
| conn_install e acts sim : cPc c = HScript (AInstall e :: acts) sim ->
    conn_step i c s (upd_conn i (set_cPc (HScript acts (Some (length (sims s)))))
      (set_current (Some (length (sims s))) (set_sims (sims s ++ [(mkShared e 0 false false, [])]) s)))
| conn_broadcast acts k w ps clock s' : cPc c = HScript (ABroadcastState :: acts) (Some k) ->
    sims s !! k = Some (w, ps) -> offer (snapshotState clock (eng w)) s s' ->
    conn_step i c s (upd_conn i (set_cPc (HScript acts (Some k))) s')
| conn_call m acts k w ps : cPc c = HScript (AMethod m :: acts) (Some k) ->
    sims s !! k = Some (w, ps) -> (m = MStep -> stepping k s = false) ->
    conn_step i c s (upd_conn i (set_cPc (resume_script (call m w).2 acts k))
      (put_sim k (call m w).1.1 (ps ++ (call m w).1.2) s))
| conn_in_call p acts k w ps o w' s' : cPc c = HCall p acts k ->
    sims s !! k = Some (w, ps) -> thread_step p w o w' -> publishes p w s s' ->
    conn_step i c s (upd_conn i (set_cPc (resume_script o acts k)) (put_sim k w' ps s'))
| conn_cleanup : cPc c = HCleanup ->
    conn_step i c s (record_ DecClient (upd_conn i leave s)).

(** One step of the pinger of connection [i], whose record is [c]. *)
Inductive ping_step (i : nat) (c : Conn) (s : Server) : Server -> Prop :=
| ping_gone : cPing c = PWaiting -> cReg c = false ->
    ping_step i c s (upd_conn i (set_cPing PGone) s)
| ping_tick : cPing c = PWaiting -> cReg c = true ->
    ping_step i c s (upd_conn i (set_cPing PWriting) s)
| ping_written : cPing c = PWriting ->
    ping_step i c s (upd_conn i (set_cPing PWaiting) s)
| ping_fails : cPing c = PWriting ->
    ping_step i c s (upd_conn i (set_cPing PGone) s)
| ping_done : cPing c = PWaiting -> cPc c = HDone ->
    ping_step i c s (upd_conn i (set_cPing PGone) s)
| ping_closed : cPing c = PWaiting -> closed s = true ->
    ping_step i c s (upd_conn i (set_cPing PGone) s).

(** The connections in [s.clients]. *)
Definition registered (s : Server) : list nat :=
  List.filter (fun i => match conns s !! i with Some c => cReg c | None => false end)
    (seq 0 (length (conns s))).

(** One step of the server. *)
Inductive server_step (s : Server) : Server -> Prop :=
| srv_accept :
    server_step s (set_conns (conns s ++ [mkConn HConnected true false PNone]) s)
| srv_conn i c s' : conns s !! i = Some c -> conn_step i c s s' -> server_step s s'
| srv_ping i c s' : conns s !! i = Some c -> ping_step i c s s' -> server_step s s'
| srv_set_http : server_step s (SetHTTPServer s)
| srv_run k w ps1 p ps2 o w' s' : sims s !! k = Some (w, ps1 ++ p :: ps2) ->
    thread_step p w o w' -> publishes p w s s' ->
    server_step s (put_sim k w' (ps1 ++ threads_of o ++ ps2) s')
(* handleBroadcasts *)
| srv_take u us : caster s = BIdle -> broadcast s = u :: us ->
    server_step s (set_caster BTaken (set_broadcast us s))
| srv_list : caster s = BTaken ->
    server_step s (set_caster (BWriting (registered s)) s)
| srv_written i rest : caster s = BWriting (i :: rest) ->
    server_step s (set_caster (BWriting rest) s)
| srv_write_fails i rest : caster s = BWriting (i :: rest) ->
    server_step s (set_caster (BWriting rest)
      (record_ (IncWSError "write") (upd_conn i unregisterClient s)))
| srv_written_all : caster s = BWriting [] -> server_step s (set_caster BIdle s)
(* Shutdown *)
| srv_close : shut s = SIdle -> server_step s (set_shut SClosing (set_closed true s))
| srv_no_simulator : shut s = SClosing -> current s = None ->
    server_step s (set_shut SClients s)
| srv_simulator k : shut s = SClosing -> current s = Some k ->
    server_step s (set_shut (SGot k) s)
| srv_stop_call k w ps : shut s = SGot k -> sims s !! k = Some (w, ps) ->
    server_step s (set_shut (match (call MStop w).2 with Some p => SStop p k | None => SClients end)
      (put_sim k (call MStop w).1.1 ps s))
| srv_stopping p k w ps o w' : shut s = SStop p k -> sims s !! k = Some (w, ps) ->
    thread_step p w o w' ->
    server_step s (set_shut (match o with Some p' => SStop p' k | None => SClients end)
      (put_sim k w' ps s))
| srv_close_clients : shut s = SClients ->
    server_step s (set_shut SWait (set_conns (map unregisterClient (conns s)) s))
| srv_waited : shut s = SWait -> clientWg s = 0 ->
    server_step s (set_shut SServer (set_broadcastClosed true s))
| srv_server_closed : shut s = SServer -> server_step s (set_shut SDone (set_httpServer ((fun _ => false) <$> httpServer s) s)).

(** The states of the server. *)
Inductive serving : Server -> Prop :=
| serving_new : serving NewServer
| serving_step s s' : serving s -> server_step s s' -> serving s'.

(** A run goroutine is about to offer an update to the closed channel: the
    [select] may choose the send, which panics outside every [recover]. *)
Definition panics (s : Server) : Prop :=
  exists k w ps p, sims s !! k = Some (w, ps) /\ p ∈ ps /\ is_run p = true /\
    sends p && updateCallback (eng w) = true /\ broadcastClosed s = true.
End server.

(** ** Invariant *)

(** A simulator the server holds: a reachable engine, whose wait group counts its
    run goroutines. *)
Definition sim_ok `{GoSort} (x : World (Sd := AnyScheduler)) : Prop :=
  reachable (eng x.1) /\ wg x.1 = running_threads x.2 /\ Forall (fun p => is_run p = true) x.2.

(** A simulator some goroutine refers to. *)
Definition valid_sim (s : Server) (o : option nat) : Prop :=
  match o with Some k => (k < length (sims s))%nat | None => True end.

(** A script in progress: its effects are safe, and those on a simulator have one. *)
Definition conn_ok `{GoSort} (s : Server) (c : Conn) : Prop :=
  match cPc c with
  | HScript acts sim => Forall safeAct acts /\ valid_sim s sim
  | HCall p acts k => Forall safeAct acts /\ valid_sim s (Some k) /\ is_run p = false
  | _ => True
  end.

Definition shut_ok (s : Server) : Prop :=
  match shut s with
  | SGot k => valid_sim s (Some k)
  | SStop p k => valid_sim s (Some k) /\ is_run p = false
  | _ => True
  end.

Record server_ok `{GoSort} (s : Server) : Prop := {
  ok_sims : Forall sim_ok (sims s);
  ok_current : valid_sim s (current s);
  ok_conns : Forall (conn_ok s) (conns s);
  ok_shut : shut_ok s
}.

Section preservation.
Context `{GoFloatToInt} `{GoQuote} `{GoSortLaws} (cfg : ServerConfig).
Implicit Types (s : Server) (w : Shared AnyScheduler).

Lemma thread_step_kind p w p' w' : thread_step p w (Some p') w' -> is_run p' = is_run p.
Proof. by inversion 1. Qed.

Lemma call_ok m w ps : sim_ok (w, ps) -> safeAct (AMethod m) ->
  sim_ok ((call m w).1.1, ps ++ (call m w).1.2) /\
  (forall p, (call m w).2 = Some p -> is_run p = false).
Proof.
  intros (Hr & Hw & Hk) Hs. unfold sim_ok. cbn [fst snd] in *.
  rewrite running_threads_app, Forall_app.
  destruct m; cbn [call]; unfold Start, Pause, Resume, StopCall, StepCall;
    try (destruct (state (eng w))); cbn;
    (split; [split; [|split; [lia|auto]]|try done; by intros ? [= <-]]); try done.
  all: first [by apply reach_state | by apply reach_speed | by apply reach_add | idtac].
Qed.

Lemma in_call_ok p w o w' ps : sim_ok (w, ps) -> is_run p = false -> thread_step p w o w' ->
  sim_ok (w', ps) /\ (forall p', o = Some p' -> is_run p' = false).
Proof.
  intros (Hr & Hw & Hk) Hp Hs. destruct (thread_step_safe _ _ _ _ Hs Hr) as [Hr' Hw'].
  cbn [fst snd] in *.
  assert (Ho : forall p', o = Some p' -> is_run p' = false)
    by (intros p' ->; by rewrite (thread_step_kind _ _ _ _ Hs)).
  split; [|done]. split; [done|]. split; [|done]. cbn [fst snd]. rewrite Hw', Hp, Hw.
  destruct o as [p'|]; unfold running_threads; cbn; [rewrite (Ho p' eq_refl)|]; lia.
Qed.

Lemma run_ok p w o w' ps1 ps2 : sim_ok (w, ps1 ++ p :: ps2) -> thread_step p w o w' ->
  sim_ok (w', ps1 ++ threads_of o ++ ps2).
Proof.
  intros (Hr & Hw & Hk) Hs. destruct (thread_step_safe _ _ _ _ Hs Hr) as [Hr' Hw'].
  cbn [fst snd] in *. apply Forall_app in Hk as [Hk1 [Hp Hk2]%Forall_cons].
  split; [done|]. cbn [fst snd]. split.
  - rewrite Hw', Hw, !running_threads_app. unfold running_threads at 2. cbn [zsum].
    fold (running_threads ps2). rewrite Hp. lia.
  - apply Forall_app. split; [done|]. apply Forall_app. split; [|done].
    destruct o as [p'|]; simpl; [|done]. apply Forall_singleton. by rewrite (thread_step_kind _ _ _ _ Hs).
Qed.

(** Queue changes are invisible to the invariant. *)
Lemma offer_queue u s s' : offer cfg u s s' -> exists q, s' = set_broadcast q s.
Proof. intros []; [by eexists| |]; exists (broadcast s); by destruct s. Qed.

Lemma publishes_queue p w s s' : publishes cfg p w s s' -> exists q, s' = set_broadcast q s.
Proof.
  intros [|clock s'' _ Ho]; [|by eapply offer_queue]. exists (broadcast s). by destruct s.
Qed.

Lemma conn_ok_mono s s' c : (length (sims s) <= length (sims s'))%nat -> conn_ok s c -> conn_ok s' c.
Proof.
  unfold conn_ok, valid_sim. intros Hl. destruct (cPc c) as [| | |acts [k|]|p acts k| |]; naive_solver lia.
Qed.

Lemma shut_ok_mono s s' : (length (sims s) <= length (sims s'))%nat -> shut s' = shut s ->
  shut_ok s -> shut_ok s'.
Proof.
  unfold shut_ok, valid_sim. intros Hl ->. destruct (shut s); naive_solver lia.
Qed.

(** Changes that keep the simulators' number, the current one and the shutdown. *)
Lemma server_ok_sims s s' : server_ok s ->
  Forall sim_ok (sims s') -> length (sims s') = length (sims s) ->
  current s' = current s -> conns s' = conns s -> shut s' = shut s -> server_ok s'.
Proof.
  intros [H1' H2' H3' H4'] Hs Hl Hc Hn Hh. split; [done| | |].
  - unfold valid_sim in *. rewrite Hc, Hl. done.
  - rewrite Hn. eapply Forall_impl; [exact H3'|]. intros c. apply conn_ok_mono. lia.
  - apply (shut_ok_mono s); [lia|done|done].
Qed.

Lemma put_sim_ok s k x w ps : server_ok s -> sims s !! k = Some x -> sim_ok (w, ps) ->
  server_ok (put_sim k w ps s).
Proof.
  intros Hs Hk Hw. apply (server_ok_sims s); [done| |apply length_insert|done|done|done].
  cbn. apply Forall_insert; [apply Hs|done].
Qed.

Lemma set_broadcast_ok s q : server_ok s -> server_ok (set_broadcast q s).
Proof. intros Hs. apply (server_ok_sims s); try done. apply Hs. Qed.

Lemma record_ok s ms : server_ok s -> server_ok (record_ ms s).
Proof. intros Hs. apply (server_ok_sims s); try done. apply Hs. Qed.

Lemma set_conns_ok s cs : server_ok s -> Forall (conn_ok s) cs -> server_ok (set_conns cs s).
Proof. intros [H1' H2' H3' H4'] Hc. by split. Qed.

Lemma upd_conn_ok s i f : server_ok s ->
  (forall c, conns s !! i = Some c -> conn_ok s c -> conn_ok s (f c)) -> server_ok (upd_conn i f s).
Proof. intros Hs Hf. apply set_conns_ok; [done|]. apply Forall_alter; [apply Hs|done]. Qed.

Lemma set_shut_ok s v : server_ok s -> shut_ok (set_shut v s) -> server_ok (set_shut v s).
Proof. intros [H1' H2' H3' H4'] Hv. by split. Qed.

(** Only the script changes. *)
Lemma set_cPc_ok s i v : server_ok s ->
  (forall o r p, conn_ok s (mkConn v o r p)) -> server_ok (upd_conn i (set_cPc v) s).
Proof. intros Hs Hv. apply upd_conn_ok; [done|]. intros c _ _. apply Hv. Qed.

Lemma ping_step_upd i c s s' : ping_step i c s s' -> exists v, s' = upd_conn i (set_cPing v) s.
Proof. intros []; by eexists. Qed.

Lemma sims_lookup s k w ps : server_ok s -> sims s !! k = Some (w, ps) ->
  sim_ok (w, ps) /\ (k < length (sims s))%nat.
Proof.
  intros Hs Hk. split; [|by eapply lookup_lt_Some]. eapply Forall_lookup_1; [apply Hs|done].
Qed.

(** A new idle simulator becomes the current one. *)
Lemma install_ok s e : server_ok s -> safeAct (AInstall e) ->
  server_ok (set_current (Some (length (sims s))) (set_sims (sims s ++ [(mkShared e 0 false false, [])]) s)).
Proof.
  intros [H1' H2' H3' H4'] He.
  assert (Hlen : length (sims s ++ [(mkShared e 0 false false, [])]) = S (length (sims s)))
    by (rewrite length_app; simpl; lia).
  split; cbn.
  - apply Forall_app. split; [done|]. apply Forall_singleton. by split.
  - rewrite Hlen. lia.
  - eapply Forall_impl; [exact H3'|]. intros c'. apply conn_ok_mono. cbn. rewrite Hlen. lia.
  - apply (shut_ok_mono s); [|reflexivity|exact H4']. cbn. rewrite Hlen. lia.
Qed.

Lemma conn_step_ok i c s s' : server_ok s -> conns s !! i = Some c -> conn_step cfg i c s s' ->
  server_ok s'.
Proof.
  intros Hs Hc Hstep. pose proof (Forall_lookup_1 _ _ _ _ (ok_conns _ Hs) Hc) as Hok.
  destruct Hstep as [Hp|Hp _ _|Hp _|Hp|msg acts Hp Ho Hf Hm|Hp|Hp|sim Hp|a acts sim Hp _|e acts sim Hp
    |acts k w ps clock s' Hp Hk Hoff|m acts k w ps Hp Hk Hst|p acts k w ps o w' s' Hp Hk Ht Hpub|Hp];
    unfold conn_ok in Hok; rewrite Hp in Hok.
  - by apply upd_conn_ok.
  - by apply upd_conn_ok.
  - by apply upd_conn_ok.
  - apply record_ok, set_cPc_ok; [done|]. split; [|apply (ok_current _ Hs)].
    destruct (bool_decide _); repeat constructor.
  - destruct (handleMessage_answers (bool_decide (current s <> None)) msg Hf) as (acts' & Hm' & [_ _ _ Hsafe]).
    rewrite Hm in Hm'. injection Hm' as <-. apply set_cPc_ok; [done|].
    intros o r pg. split; [done|]. apply Hs.
  - by apply set_cPc_ok.
  - by apply record_ok, set_cPc_ok.
  - by apply upd_conn_ok.
  - apply set_cPc_ok; [done|]. intros o r pg. destruct Hok as [[_ ?]%Forall_cons ?]. by split.
  - destruct Hok as [[He Ha]%Forall_cons _]. apply set_cPc_ok; [by apply install_ok|].
    intros o r pg. split; [done|]. cbn. rewrite length_app. cbn. lia.
  - destruct Hok as [[_ ?]%Forall_cons ?]. destruct (offer_queue _ _ _ Hoff) as [q ->].
    apply set_cPc_ok; [by apply set_broadcast_ok|]. intros o r. by split.
  - destruct Hok as [[Hm Ha]%Forall_cons Hv]. destruct (sims_lookup _ _ _ _ Hs Hk) as [Hw _].
    destruct (call_ok m w ps Hw Hm) as [Hw' Hcall].
    apply set_cPc_ok; [by eapply put_sim_ok|]. intros o r pg. unfold conn_ok, resume_script. cbn [cPc].
    unfold valid_sim, put_sim in *. cbn. rewrite length_insert.
    destruct (call m w).2 as [p|]; [|done]. split; [done|]. split; [done|by apply Hcall].
  - destruct Hok as (Ha & Hv & Hr). destruct (sims_lookup _ _ _ _ Hs Hk) as [Hw _].
    destruct (in_call_ok _ _ _ _ _ Hw Hr Ht) as [Hw' Hcall].
    destruct (publishes_queue _ _ _ _ Hpub) as [q ->].
    apply set_cPc_ok; [eapply put_sim_ok; [by apply set_broadcast_ok|done|done]|].
    intros o' r pg. unfold conn_ok, resume_script. cbn [cPc].
    unfold valid_sim, put_sim in *. cbn. rewrite length_insert.
    destruct o as [p'|]; [|done]. split; [done|]. split; [done|by apply Hcall].
  - by apply record_ok, upd_conn_ok.
Qed.

Lemma close_conns_ok s : server_ok s ->
  Forall (conn_ok s) (map unregisterClient (conns s)).
Proof.
  intros Hs. apply Forall_map. eapply Forall_impl; [apply Hs|]. intros c Hc. unfold unregisterClient. by destruct (cReg c).
Qed.

Lemma server_step_ok s s' : server_ok s -> server_step cfg s s' -> server_ok s'.
Proof.
  intros Hs Hstep. pose proof (ok_shut _ Hs) as Hsh. unfold shut_ok in Hsh.
  destruct Hstep as [|i c s' Hc Hstep|i c s' Hc Hping| |k w ps1 p ps2 o w' s' Hk Ht Hpub|u us _ Hq|_|i rest _|i rest _|_
    |_|_ _|k _ Hcur|k w ps Hst Hk|p k w ps o w' Hst Hk Ht|_|_ _|_].
  - apply set_conns_ok; [done|]. apply Forall_app. split; [apply Hs|]. by apply Forall_singleton.
  - by eapply conn_step_ok.
  - destruct (ping_step_upd _ _ _ _ Hping) as [v ->]. by apply upd_conn_ok.
  - destruct Hs. by split.
  - destruct (sims_lookup _ _ _ _ Hs Hk) as [Hw _].
    destruct (publishes_queue _ _ _ _ Hpub) as [q ->].
    eapply put_sim_ok; [by apply set_broadcast_ok|done|by eapply run_ok].
  - apply (set_broadcast_ok s us) in Hs. destruct Hs. by split.
  - destruct Hs. by split.
  - destruct Hs. by split.
  - assert (Hu : server_ok (upd_conn i unregisterClient s)).
    { apply upd_conn_ok; [done|]. intros c _ Hc. unfold unregisterClient. by destruct (cReg c). }
    apply (record_ok _ (IncWSError "write")) in Hu. destruct Hu. by split.
  - destruct Hs. by split.
  - destruct Hs. by split.
  - by apply set_shut_ok.
  - apply set_shut_ok; [done|]. pose proof (ok_current _ Hs) as Hv. by rewrite Hcur in Hv.
  - destruct (sims_lookup _ _ _ _ Hs Hk) as [Hw Hlt].
    destruct (call_ok MStop w ps Hw I) as [Hw' Hcall].
    assert (Hps : (call MStop w).1.2 = []) by (cbn; by destruct (StopCall false w)).
    rewrite Hps, app_nil_r in Hw'.
    apply set_shut_ok; [by eapply put_sim_ok|]. unfold shut_ok, set_shut. cbn [shut].
    destruct (call MStop w).2 as [p|]; [|done]. split; [|by apply Hcall].
    unfold valid_sim, put_sim. cbn. by rewrite length_insert.
  - rewrite Hst in Hsh. destruct Hsh as [Hv Hr].
    destruct (sims_lookup _ _ _ _ Hs Hk) as [Hw Hlt].
    destruct (in_call_ok _ _ _ _ _ Hw Hr Ht) as [Hw' Hcall].
    apply set_shut_ok; [by eapply put_sim_ok|]. unfold shut_ok, set_shut. cbn [shut].
    destruct o as [p'|]; [|done]. split; [|by apply Hcall].
    unfold valid_sim, put_sim. cbn. by rewrite length_insert.
  - apply set_shut_ok; [apply set_conns_ok; [done|by apply close_conns_ok]|done].
  - apply set_shut_ok; [|done]. destruct Hs. by split.
  - apply set_shut_ok; [by destruct Hs; split|done].
Qed.

Lemma server_ok_new : server_ok NewServer.
Proof. by split. Qed.

Lemma serving_ok s : serving cfg s -> server_ok s.
Proof.
  induction 1 as [|s s' _ IH Hstep]; [apply server_ok_new|by eapply server_step_ok].
Qed.
End preservation.

(** ** Bounds *)

Section bounds.
Context `{GoFloatToInt} `{GoQuote} `{GoSortLaws} (cfg : ServerConfig).
Implicit Types (s : Server) (w : Shared AnyScheduler).

Lemma zsum_alter {A} (f : A -> Z) (g : A -> A) b i (l : list A) :
  0 <= b -> (forall x, f (g x) <= f x + b) -> zsum f (alter g i l) <= zsum f l + b.
Proof.
  intros Hb Hg. revert i. induction l as [|x l IH]; intros [|i]; cbn [alter list_alter zsum]; try lia.
  - specialize (Hg x). lia.
  - specialize (IH i). lia.
Qed.

Lemma zsum_map_le {A} (f : A -> Z) (g : A -> A) (l : list A) :
  (forall x, f (g x) <= f x) -> zsum f (map g l) <= zsum f l.
Proof. intros Hg. induction l as [|x l IH]; cbn; [done|]. specialize (Hg x). lia. Qed.

(** Registering is the only way the number of clients grows. *)
Lemma clients_upd s0 s i f : conns s0 = conns s -> (forall c, cReg (f c) = true -> cReg c = true) ->
  clients (upd_conn i f s0) <= clients s.
Proof.
  intros E Hf. unfold clients, upd_conn, set_conns. cbn [conns]. rewrite E, <-(Z.add_0_r (zsum _ (conns s))).
  apply zsum_alter; [done|]. intros c. specialize (Hf c).
  destruct (cReg (f c)), (cReg c); lia.
Qed.

Lemma conn_step_clients i c s s' : conn_step cfg i c s s' ->
  clients s' <= clients s \/
  (clients s' <= clients s + 1 /\ (maxClients cfg <= 0 \/ clients s < maxClients cfg)).
Proof.
  intros Hstep.
  destruct Hstep as [Hp|Hp _ _|Hp Hmax|Hp|msg acts Hp Ho Hf Hm|Hp|Hp|sim Hp|a acts sim Hp _|e acts sim Hp
    |acts k w ps clock s' Hp Hk Hoff|m acts k w ps Hp Hk Hst|p acts k w ps o w' s' Hp Hk Ht Hpub|Hp];
    [left|left|right|left..].
  3: split; [|done]; apply zsum_alter; [done|]; intros [? ? [] ?]; cbn; lia.
  10: destruct (offer_queue _ _ _ _ Hoff) as [q ->].
  12: destruct (publishes_queue _ _ _ _ _ Hpub) as [q ->].
  all: by apply clients_upd.
Qed.

Lemma server_step_clients s s' : server_step cfg s s' ->
  clients s' <= clients s \/
  (clients s' <= clients s + 1 /\ (maxClients cfg <= 0 \/ clients s < maxClients cfg)).
Proof.
  intros Hstep.
  destruct Hstep as [|i c s' Hc Hstep|i c s' Hc Hping| |k w ps1 p ps2 o w' s' Hk Ht Hpub|u us _ Hq|_|i rest _|i rest _|_
    |_|_ _|k _ Hcur|k w ps Hst Hk|p k w ps o w' Hst Hk Ht|_|_ _|_]; try (left; done).
  - left. unfold clients. cbn. rewrite zsum_app. cbn. lia.
  - by eapply conn_step_clients.
  - left. destruct (ping_step_upd _ _ _ _ Hping) as [v ->]. by apply clients_upd.
  - left. by destruct (publishes_queue _ _ _ _ _ Hpub) as [q ->].
  - left. apply clients_upd; [done|]. intros c. unfold unregisterClient. by destruct (cReg c) eqn:E; cbn; rewrite ?E.
  - left. apply zsum_map_le. intros c. unfold unregisterClient. destruct (cReg c) eqn:E; cbn; rewrite ?E; lia.
Qed.

Lemma offer_bound u s s' : offer cfg u s s' ->
  Z.of_nat (length (broadcast s)) <= bufferSize cfg ->
  Z.of_nat (length (broadcast s')) <= bufferSize cfg.
Proof.
  intros [_ Hlt| |] Hb; [|done|done]. cbn [broadcast set_broadcast]. rewrite length_app. cbn. lia.
Qed.

Lemma publishes_bound p w s s' : publishes cfg p w s s' ->
  Z.of_nat (length (broadcast s)) <= bufferSize cfg ->
  Z.of_nat (length (broadcast s')) <= bufferSize cfg.
Proof. intros [|clock s'' _ Ho]; [done|by eapply offer_bound]. Qed.

Lemma server_step_queue s s' : server_step cfg s s' ->
  Z.of_nat (length (broadcast s)) <= bufferSize cfg ->
  Z.of_nat (length (broadcast s')) <= bufferSize cfg.
Proof.
  intros Hstep.
  destruct Hstep as [|i c s' Hc Hstep|i c s' Hc Hping| |k w ps1 p ps2 o w' s' Hk Ht Hpub|u us _ Hq|_|i rest _|i rest _|_
    |_|_ _|k _ Hcur|k w ps Hst Hk|p k w ps o w' Hst Hk Ht|_|_ _|_]; try done.
  - destruct Hstep as [| | | | | | | | | |? ? ? ? ? ? ? ? Hoff| |? ? ? ? ? ? ? ? ? ? ? Hpub|]; try done.
    + exact (offer_bound _ _ _ Hoff).
    + exact (publishes_bound _ _ _ _ Hpub).
  - by destruct (ping_step_upd _ _ _ _ Hping) as [v ->].
  - exact (publishes_bound _ _ _ _ Hpub).
  - rewrite Hq. cbn [length broadcast set_broadcast set_caster]. lia.
Qed.

(** *** The gauge of connected clients *)

Lemma zsum_alter_eq {A} (f : A -> Z) (g : A -> A) i (l : list A) x : l !! i = Some x ->
  zsum f (alter g i l) = zsum f l + f (g x) - f x.
Proof.
  revert i. induction l as [|y l IH]; intros [|i] E; cbn [alter list_alter zsum]; try done.
  - injection E as ->. lia.
  - rewrite (IH i E). lia.
Qed.

Definition gauge_ok s : Prop := gauge s = zsum counted (conns s).

(** The metrics record [l] while connection [i] changes by [f]. *)
Lemma gauge_upd s s0 l i f c : gauge_ok s -> conns s !! i = Some c -> conns s0 = conns s ->
  calls s0 = calls s ++ l -> counted (f c) = counted c + total wsClientsGauge l ->
  gauge_ok (upd_conn i f s0).
Proof.
  unfold gauge_ok, gauge. intros Hg Hc Ec El Eg. cbn [conns calls upd_conn set_conns].
  rewrite El, Ec, total_app, Hg, (zsum_alter_eq _ _ _ _ _ Hc). lia.
Qed.

Lemma gauge_upd_same s s0 i f c : gauge_ok s -> conns s !! i = Some c -> conns s0 = conns s ->
  calls s0 = calls s -> counted (f c) = counted c -> gauge_ok (upd_conn i f s0).
Proof.
  intros Hg Hc Ec El Eg. apply (gauge_upd s _ [] _ _ c); [done|done|done|by rewrite app_nil_r|cbn; lia].
Qed.

Lemma conn_step_gauge i c s s' : gauge_ok s -> conns s !! i = Some c -> conn_step cfg i c s s' ->
  gauge_ok s'.
Proof.
  intros Hg Hc Hstep.
  destruct Hstep as [Hp|Hp _ _|Hp Hmax|Hp|msg acts Hp Ho Hf Hm|Hp|Hp|sim Hp|a acts sim Hp _|e acts sim Hp
    |acts k w ps clock s' Hp Hk Hoff|m acts k w ps Hp Hk Hst|p acts k w ps o w' s' Hp Hk Ht Hpub|Hp];
    rewrite ?record_upd.
  11: destruct (offer_queue _ _ _ _ Hoff) as [q ->].
  13: destruct (publishes_queue _ _ _ _ _ Hpub) as [q ->].
  14: apply (gauge_upd s _ DecClient _ _ c).
  7: apply (gauge_upd s _ (IncWSError "read") _ _ c).
  4: apply (gauge_upd s _ IncClient _ _ c).
  all: try apply (gauge_upd_same s _ _ _ c); try done; unfold counted; cbn; rewrite Hp; try done.
  - unfold resume_script. by destruct (call m w).2.
  - unfold resume_script. by destruct o.
Qed.

Lemma unregister_gauge s s0 l i : gauge_ok s -> conns s0 = conns s -> calls s0 = calls s ++ l ->
  total wsClientsGauge l = 0 -> gauge_ok (upd_conn i unregisterClient s0).
Proof.
  intros Hg Ec El E0. destruct (conns s !! i) as [c|] eqn:Hc.
  - apply (gauge_upd s _ l _ _ c); try done. unfold counted, unregisterClient. destruct (cReg c); cbn; lia.
  - unfold gauge_ok, gauge, upd_conn in *. cbn [conns calls set_conns].
    rewrite El, Ec, total_app, Hg, E0, Z.add_0_r. f_equal. symmetry.
    revert i Hc. generalize (conns s). clear.
    intros l. induction l as [|x l IH]; intros [|i] E; try done. cbn. by rewrite IH.
Qed.

Lemma server_step_gauge s s' : gauge_ok s -> server_step cfg s s' -> gauge_ok s'.
Proof.
  intros Hg Hstep.
  destruct Hstep as [|i c s' Hc Hstep|i c s' Hc Hping| |k w ps1 p ps2 o w' s' Hk Ht Hpub|u us _ Hq|_|i rest _|i rest _|_
    |_|_ _|k _ Hcur|k w ps Hst Hk|p k w ps o w' Hst Hk Ht|_|_ _|_]; try done.
  - unfold gauge_ok, gauge in *. cbn [conns calls set_conns]. rewrite zsum_app, Hg. cbn. lia.
  - by eapply conn_step_gauge.
  - destruct (ping_step_upd _ _ _ _ Hping) as [v ->]. by apply (gauge_upd_same s _ _ _ c).
  - by destruct (publishes_queue _ _ _ _ _ Hpub) as [q ->].
  - by apply (unregister_gauge s (set_caster (BWriting rest) (record_ (IncWSError "write") s))
      (IncWSError "write") i).
  - unfold gauge_ok, gauge in *. cbn [conns calls set_shut set_conns]. rewrite Hg. generalize (conns s).
    intros l. induction l as [|c l IH]; [done|]. cbn. rewrite IH. f_equal.
    unfold unregisterClient. by destruct (cReg c).
Qed.

Lemma serving_gauge s : serving cfg s -> gauge_ok s.
Proof. induction 1 as [|s s' _ IH Hstep]; [done|]. by eapply server_step_gauge. Qed.

Lemma counted_le c : 0 <= counted c <= match cPc c with HDone => 0 | _ => 1 end.
Proof. unfold counted. destruct (cPc c); lia. Qed.

Lemma gauge_bounds s : serving cfg s -> 0 <= gauge s <= clientWg s.
Proof.
  intros Hs. rewrite (serving_gauge _ Hs). unfold clientWg. generalize (conns s). intros l.
  induction l as [|c l IH]; [done|]. cbn. pose proof (counted_le c). lia.
Qed.

(** The channels the shutdown has closed so far. *)
Definition phases s : Prop :=
  (closed s = true <-> shut s <> SIdle) /\
  (broadcastClosed s = true <-> shut s = SServer \/ shut s = SDone).

Lemma phases_frame s s' : closed s' = closed s -> broadcastClosed s' = broadcastClosed s ->
  shut s' = shut s -> phases s -> phases s'.
Proof. unfold phases. by intros -> -> ->. Qed.

Lemma conn_step_frame i c s s' : conn_step cfg i c s s' ->
  closed s' = closed s /\ broadcastClosed s' = broadcastClosed s /\ shut s' = shut s.
Proof.
  intros Hstep. destruct Hstep as [| | | | | | | | | |? ? ? ? ? ? ? ? Hoff| |? ? ? ? ? ? ? ? ? ? ? Hpub|]; try done.
  - by destruct (offer_queue _ _ _ _ Hoff) as [q ->].
  - by destruct (publishes_queue _ _ _ _ _ Hpub) as [q ->].
Qed.

Lemma server_step_phases s s' : phases s -> server_step cfg s s' -> phases s'.
Proof.
  intros Hph Hstep.
  destruct Hstep as [|i c s' Hc Hstep|i c s' Hc Hping| |k w ps1 p ps2 o w' s' Hk Ht Hpub|u us _ Hq|_|i rest _|i rest _|_
    |Hst|Hst _|k Hst Hcur|k w ps Hst Hk|p k w ps o w' Hst Hk Ht|Hst|Hst _|Hst]; try done.
  - destruct (conn_step_frame _ _ _ _ Hstep) as (E1 & E2 & E3). by eapply phases_frame.
  - by destruct (ping_step_upd _ _ _ _ Hping) as [v ->].
  - destruct (publishes_queue _ _ _ _ _ Hpub) as [q ->]. exact Hph.
  - destruct Hph as [H1' H2']. rewrite Hst in *. split; cbn; naive_solver.
  - destruct Hph as [H1' H2']. rewrite Hst in *. split; cbn; naive_solver.
  - destruct Hph as [H1' H2']. rewrite Hst in *. split; cbn; naive_solver.
  - destruct Hph as [H1' H2']. rewrite Hst in *.
    destruct (call MStop w).2; split; cbn; naive_solver.
  - destruct Hph as [H1' H2']. rewrite Hst in *. destruct o; split; cbn; naive_solver.
  - destruct Hph as [H1' H2']. rewrite Hst in *. split; cbn; naive_solver.
  - destruct Hph as [H1' H2']. rewrite Hst in *. split; cbn; naive_solver.
  - destruct Hph as [H1' H2']. rewrite Hst in *. split; cbn; naive_solver.
Qed.

Lemma serving_phases s : serving cfg s -> phases s.
Proof.
  induction 1 as [|s s' _ IH Hstep]; [|by eapply server_step_phases].
  split; cbn; naive_solver.
Qed.

(** The [select] on [s.broadcast] never blocks. *)
Lemma offer_total s u : phases s -> exists s', offer cfg u s s'.
Proof.
  intros [H1' H2']. destruct (broadcastClosed s) eqn:Eb.
  - exists s. apply offer_closed, H1'. intros Hi. destruct (proj1 H2' eq_refl); congruence.
  - destruct (Z.lt_ge_cases (Z.of_nat (length (broadcast s))) (bufferSize cfg)).
    + eexists. by apply offer_queued.
    + exists s. by apply offer_full.
Qed.
(** *** Calls on the metrics *)

Lemma conn_step_calls i c s s' : conn_step cfg i c s s' ->
  exists l, calls s' = calls s ++ l /\ Forall accepted l.
Proof.
  intros Hstep.
  destruct Hstep as [Hp|Hp _ _|Hp Hmax|Hp|msg acts Hp Ho Hf Hm|Hp|Hp|sim Hp|a acts sim Hp _|e acts sim Hp
    |acts k w ps clock s' Hp Hk Hoff|m acts k w ps Hp Hk Hst|p acts k w ps o w' s' Hp Hk Ht Hpub|Hp].
  11: destruct (offer_queue _ _ _ _ Hoff) as [q ->].
  13: destruct (publishes_queue _ _ _ _ _ Hpub) as [q ->].
  all: first [ by exists []; rewrite app_nil_r | eexists; split; [reflexivity|accept] ].
Qed.

Lemma server_step_calls s s' : server_step cfg s s' ->
  exists l, calls s' = calls s ++ l /\ Forall accepted l.
Proof.
  intros Hstep.
  destruct Hstep as [|i c s' Hc Hstep|i c s' Hc Hping| |k w ps1 p ps2 o w' s' Hk Ht Hpub|u us _ Hq|_|i rest _|i rest _|_
    |_|_ _|k _ Hcur|k w ps Hst Hk|p k w ps o w' Hst Hk Ht|_|_ _|_];
    try (by exists []; rewrite app_nil_r).
  - by eapply conn_step_calls.
  - destruct (ping_step_upd _ _ _ _ Hping) as [v ->]. by exists []; rewrite app_nil_r.
  - destruct (publishes_queue _ _ _ _ _ Hpub) as [q ->]. by exists []; rewrite app_nil_r.
  - exists (IncWSError "write"). split; [done|accept].
Qed.

Lemma serving_accepted s : serving cfg s -> Forall accepted (calls s).
Proof.
  induction 1 as [|s s' _ IH Hstep]; [constructor|].
  destruct (server_step_calls _ _ Hstep) as (l & -> & Hl). by apply Forall_app.
Qed.

(** *** Pingers *)

(** A goroutine that has returned is out of the registry, and a pinger is started once,
    with the read loop. *)
Record ping_ok (c : Conn) : Prop := {
  pk_left : cPc c = HDone -> cReg c = false;
  pk_late : cPing c <> PNone -> match cPc c with HConnected | HGreeting => False | _ => True end;
  pk_started : cPc c = HReading \/ cPc c = HCleanup -> cPing c <> PNone
}.

Lemma unregister_pings c : ping_ok c -> ping_ok (unregisterClient c).
Proof. unfold unregisterClient. destruct (cReg c); [|done]. intros []. by split. Qed.

(** From one place of the goroutine to another that asks no more of its pinger. *)
Lemma set_cPc_pings v c : ping_ok c -> cPc c <> HConnected ->
  match v with HScript _ _ | HCall _ _ _ => True | _ => False end -> ping_ok (set_cPc v c).
Proof. intros [] Hc Hv. split; cbn; destruct v; try done; naive_solver. Qed.

Lemma cleanup_pings c : ping_ok c -> cPc c = HReading -> ping_ok (set_cPc HCleanup c).
Proof. intros [_ _ H3'] Hc. split; cbn; [done|done|auto]. Qed.

Lemma conn_step_pings i c s s' : Forall ping_ok (conns s) -> conns s !! i = Some c ->
  conn_step cfg i c s s' -> Forall ping_ok (conns s').
Proof.
  intros Hok Hc Hstep.
  destruct Hstep as [Hp|Hp _ _|Hp Hmax|Hp|msg acts Hp Ho Hf Hm|Hp|Hp|sim Hp|a acts sim Hp _|e acts sim Hp
    |acts k w ps clock s' Hp Hk Hoff|m acts k w ps Hp Hk Hst|p acts k w ps o w' s' Hp Hk Ht Hpub|Hp];
    rewrite ?record_upd.
  11: destruct (offer_queue _ _ _ _ Hoff) as [q ->].
  13: destruct (publishes_queue _ _ _ _ _ Hpub) as [q ->].
  all: cbn; apply Forall_alter; [exact Hok|]; intros c' Hc' Hpk; rewrite Hc in Hc'; injection Hc' as <-.
  all: try (by apply cleanup_pings).
  all: try (apply set_cPc_pings; [done|congruence|try done; by first [destruct (call m w).2 | destruct o]]).
  - split; cbn; try done. intros []; done.
  - split; cbn; try done. intros []; done.
  - split; cbn; try done; [|intros []; done]. intros Hn. pose proof (pk_late _ Hpk Hn) as F. by rewrite Hp in F.
  - split; cbn; try done. intros _. by destruct (cPing c).
  - split; cbn; try done. intros []; done.
Qed.

Lemma ping_step_pings i c s s' : Forall ping_ok (conns s) -> conns s !! i = Some c ->
  ping_step i c s s' -> Forall ping_ok (conns s').
Proof.
  intros Hok Hc Hstep.
  destruct Hstep as [Hp|Hp|Hp|Hp|Hp|Hp]; cbn; (apply Forall_alter; [exact Hok|]);
    intros c' Hc' [H1' H2' H3']; rewrite Hc in Hc'; injection Hc' as <-;
    (split; cbn; [exact H1'|intros _; apply H2'; by rewrite Hp|done]).
Qed.

Lemma server_step_pings s s' : Forall ping_ok (conns s) -> server_step cfg s s' -> Forall ping_ok (conns s').
Proof.
  intros Hok Hstep.
  destruct Hstep as [|i c s' Hc Hstep|i c s' Hc Hping| |k w ps1 p ps2 o w' s' Hk Ht Hpub|u us _ Hq|_|i rest _|i rest _|_
    |_|_ _|k _ Hcur|k w ps Hst Hk|p k w ps o w' Hst Hk Ht|_|_ _|_]; try done.
  - apply Forall_app. split; [done|]. apply Forall_singleton. split; cbn; try done. intros []; done.
  - by eapply conn_step_pings.
  - by eapply ping_step_pings.
  - by destruct (publishes_queue _ _ _ _ _ Hpub) as [q ->].
  - cbn. apply Forall_alter; [done|]. intros c _. apply unregister_pings.
  - cbn. apply Forall_map. eapply Forall_impl; [exact Hok|]. exact unregister_pings.
Qed.

Lemma serving_pings s : serving cfg s -> Forall ping_ok (conns s).
Proof. induction 1 as [|s s' _ IH Hstep]; [constructor|]. by eapply server_step_pings. Qed.

(** What can never be undone: a goroutine that has returned, a pinger that is gone. *)
Record conn_evolves (c c' : Conn) : Prop := {
  ce_done : cPc c = HDone -> cPc c' = HDone;
  ce_gone : cPing c = PGone -> cPing c' = PGone
}.

Lemma conn_evolves_refl c : conn_evolves c c.
Proof. by split. Qed.

Lemma alter_evolves i j c f (l : list Conn) : l !! i = Some c ->
  (i = j -> conn_evolves c (f c)) -> exists c', alter f j l !! i = Some c' /\ conn_evolves c c'.
Proof.
  intros Hc Hf. destruct (decide (i = j)) as [->|Hne].
  - exists (f c). rewrite list_lookup_alter_eq, Hc. auto.
  - exists c. rewrite list_lookup_alter_ne by done. split; [done|apply conn_evolves_refl].
Qed.

Lemma unregister_evolves c : conn_evolves c (unregisterClient c).
Proof. unfold unregisterClient. destruct (cReg c); by split. Qed.

Lemma conn_step_evolves i j c d s s' : conns s !! i = Some c -> conns s !! j = Some d ->
  conn_step cfg j d s s' -> exists c', conns s' !! i = Some c' /\ conn_evolves c c'.
Proof.
  intros Hi Hj Hstep.
  destruct Hstep as [Hp|Hp _ _|Hp Hmax|Hp|msg acts Hp Ho Hf Hm|Hp|Hp|sim Hp|a acts sim Hp _|e acts sim Hp
    |acts k w ps clock s' Hp Hk Hoff|m acts k w ps Hp Hk Hst|p acts k w ps o w' s' Hp Hk Ht Hpub|Hp];
    rewrite ?record_upd.
  11: destruct (offer_queue _ _ _ _ Hoff) as [q ->].
  13: destruct (publishes_queue _ _ _ _ _ Hpub) as [q ->].
  all: cbn; apply alter_evolves; [done|]; intros ->; rewrite Hi in Hj; injection Hj as <-.
  all: split; cbn; try done; rewrite ?Hp; try done.
  by intros ->.
Qed.

Lemma server_step_evolves i c s s' : conns s !! i = Some c -> server_step cfg s s' ->
  exists c', conns s' !! i = Some c' /\ conn_evolves c c'.
Proof.
  intros Hi Hstep.
  destruct Hstep as [|j d s' Hc Hstep|j d s' Hc Hping| |k w ps1 p ps2 o w' s' Hk Ht Hpub|u us _ Hq|_|j rest _|j rest _|_
    |_|_ _|k _ Hcur|k w ps Hst Hk|p k w ps o w' Hst Hk Ht|_|_ _|_];
    try (by exists c; split; [exact Hi|apply conn_evolves_refl]).
  - exists c. split; [by apply lookup_app_l_Some|apply conn_evolves_refl].
  - by eapply conn_step_evolves.
  - destruct Hping as [Hp|Hp|Hp|Hp|Hp|Hp]; cbn; (apply alter_evolves; [done|]); intros ->;
      rewrite Hi in Hc; injection Hc as <-; split; cbn; try done; by rewrite Hp.
  - destruct (publishes_queue _ _ _ _ _ Hpub) as [q ->]. exists c. split; [done|apply conn_evolves_refl].
  - cbn. apply alter_evolves; [done|]. intros _. apply unregister_evolves.
  - cbn. rewrite list_lookup_fmap, Hi. eexists. split; [done|apply unregister_evolves].
Qed.

(** The steps a pinger has left at most when its connection is gone. *)
Definition ping_rank (c : Conn) : Z :=
  match cPing c with PWriting => 2 | PWaiting => 1 | PNone | PGone => 0 end.
End bounds.

(** ** Properties *)

(** C21: Whatever clients connect, send and break off, and however their handlers,
    the run goroutines, the broadcaster and a shutdown interleave: every
    simulator the server ever installed is in a reachable engine state, so all
    theorems about the engine hold of it, its wait group is the number of its live
    run goroutines, and the current simulator is one of them. *)
Theorem server_engines_safe `{GoFloatToInt} `{GoQuote} `{GoSortLaws} cfg (s : Server) :
  serving cfg s ->
  (forall k w ps, sims s !! k = Some (w, ps) ->
     reachable (eng w) /\ Forall (fun p => is_run p = true) ps /\ wg w = Z.of_nat (length ps)) /\
  (forall k, current s = Some k -> is_Some (sims s !! k)).
Proof.
  intros Hs. pose proof (serving_ok cfg s Hs) as Hok. split.
  - intros k w ps Hk. destruct (sims_lookup _ _ _ _ Hok Hk) as [(Hr & Hw & Hps) _].
    cbn [fst snd] in *. split; [done|]. split; [done|].
    rewrite Hw. clear -Hps. induction Hps as [|p ps Hp _ IH]; [done|].
    unfold running_threads in *. cbn [zsum length]. rewrite Hp. lia.
  - intros k Hk. pose proof (ok_current _ Hok) as Hc. rewrite Hk in Hc.
    by apply lookup_lt_is_Some_2.
Qed.

Lemma server_within `{GoFloatToInt} `{GoQuote} `{GoSortLaws} cfg (s : Server) :
  0 <= bufferSize cfg -> serving cfg s ->
  (0 < maxClients cfg -> clients s <= maxClients cfg) /\
  Z.of_nat (length (broadcast s)) <= bufferSize cfg.
Proof.
  intros Hb Hs. split.
  - intros Hm. induction Hs as [|s s' _ IH Hstep]; [cbn; lia|].
    destruct (server_step_clients cfg _ _ Hstep); lia.
  - induction Hs as [|s s' _ IH Hstep]; [cbn; lia|]. by apply (server_step_queue cfg _ _ Hstep).
Qed.

(** C35: Under the configuration loaded from any environment the server's limits hold
    in every state: with a client limit the number of registered clients never
    exceeds it, the broadcast queue never outgrows its buffer, and the [select] that
    publishes an update always has a case to take, so neither the engine nor a
    handler ever waits for slow clients; and the gauge of connected clients is exactly
    the number of connections between greeting and clean-up, at most that of the
    handlers a shutdown waits for, so it never drifts and ends at 0; no call on the
    metrics is one they refuse. *)
Theorem server_limits `{GoUnicode} `{GoFloatToInt} `{GoQuote} `{GoSortLaws} Getenv (s : Server) :
  let c := FromEnv Getenv in
  serving (serverConfig c) s ->
  (0 < MaxClients c -> clients s <= MaxClients c) /\
  Z.of_nat (length (broadcast s)) <= BroadcastBufferSize c /\
  (forall u, exists s', offer (serverConfig c) u s s') /\
  gauge s = zsum counted (conns s) /\ 0 <= gauge s <= clientWg s /\ Forall accepted (calls s).
Proof.
  intros c Hs. assert (Hb : 0 <= bufferSize (serverConfig c)).
  { cbn. pose proof (override_positive Atoi (Getenv "BROADCAST_BUFFER_SIZE"%string) 64 Atoi_range).
    unfold max_int in *. cbn in *. lia. }
  destruct (server_within _ s Hb Hs) as [Hm Hq]. split; [exact Hm|]. split; [exact Hq|].
  split; [intros u; apply offer_total; by apply (serving_phases (serverConfig c))|].
  split; [by apply (serving_gauge (serverConfig c))|].
  split; [by apply (gauge_bounds (serverConfig c))|].
  by apply (serving_accepted (serverConfig c)).
Qed.

(** Pingers do not leak: whatever the interleaving, a connection that reads messages
    has had its pinger started; one whose handler has returned leaves its pinger at
    most one more ping, which lets it go on its own (every step of it is one of at
    most two, and it is never blocked), and a pinger that is gone is never started
    again. *)
Theorem pinger_ends_with_its_connection `{GoFloatToInt} `{GoQuote} `{GoSortLaws} cfg (s : Server) i c :
  serving cfg s -> conns s !! i = Some c ->
  (cPc c = HReading -> cPing c <> PNone) /\
  (cPc c = HDone ->
     0 <= ping_rank c <= 2 /\ (0 < ping_rank c -> exists s', ping_step i c s s') /\
     forall s', ping_step i c s s' ->
       exists c', conns s' !! i = Some c' /\ cPc c' = HDone /\ ping_rank c' < ping_rank c) /\
  (forall s', server_step cfg s s' -> exists c', conns s' !! i = Some c' /\
     (cPing c = PGone -> cPing c' = PGone)).
Proof.
  intros Hs Hi. destruct (Forall_lookup_1 _ _ _ _ (serving_pings cfg s Hs) Hi) as [Hl _ Hst].
  split; [auto|]. split.
  - intros Hd. split; [unfold ping_rank; destruct (cPing c); lia|]. split.
    + unfold ping_rank. destruct (cPing c) eqn:Hp; try lia; intros _; eexists.
      * by apply ping_done.
      * by apply ping_fails.
    + intros s' Hstep. destruct Hstep as [Hp|Hp Hr|Hp|Hp|Hp _|Hp _];
        [..|rewrite Hl in Hr by done; done| | | |];
        (eexists; split; [cbn; rewrite list_lookup_alter_eq, Hi; reflexivity|]);
        (split; [exact Hd|unfold ping_rank; cbn; rewrite Hp; lia]).
  - intros s' Hstep. destruct (server_step_evolves cfg i c s s' Hi Hstep) as (c' & Hc' & []). eauto.
Qed.
