(* ===== verification/ServerRaces.v ===== *)
(** * Races of the WebSocket server (src/web/server.go)

    What the interleavings of [Server] allow: a simulator nobody refers to any more is
    driven by its own goroutines for ever; two clients that initialise at once leave
    such a simulator running; a start during a shutdown leaves a run that sends on a
    closed channel; a client that connects during a shutdown holds it up. *)

From stdpp Require Import relations.
From S2P Require Import Prelude.
From S2P Require Import Float64.
From S2P Require Import Text.
From S2P Require Import Config.
From S2P Require Import Metrics.
From S2P Require Import Process.
From S2P Require Import Scheduler.
From S2P Require Import MultiLevel.
From S2P Require Import Lottery.
From S2P Require Import Simulator.
From S2P Require Import SimInvariant.
From S2P Require Import SimSteps.
From S2P Require Import SimTick.
From S2P Require Import SimReach.
From S2P Require Import SimProgress.
From S2P Require Import SimReset.
From S2P Require Import RunLoop.
From S2P Require Import Store.
From S2P Require Import Api.
From S2P Require Import Web.

From S2P Require Import Server.

(** ** Forgotten simulators *)

(** Nobody refers to simulator [k] any more. *)
Definition refersTo (k : nat) (p : hpc) : Prop :=
  match p with
  | HScript _ (Some j) => j = k
  | HCall _ _ j => j = k
  | _ => False
  end.

Record forgotten (k : nat) (s : Server) : Prop := {
  fg_exists : (k < length (sims s))%nat;
  fg_current : current s <> Some k;
  fg_conns : Forall (fun c => ~ refersTo k (cPc c)) (conns s);
  fg_shut : match shut s with SGot j | SStop _ j => j <> k | _ => True end
}.

Section forgotten.
Context `{GoFloatToInt} `{GoQuote} `{GoSortLaws} (cfg : ServerConfig).
Implicit Types (s : Server) (w : Shared AnyScheduler).

(** What a step does to simulator [k]: nothing, or a step of one of its own
    goroutines. *)
Definition left_alone (k : nat) s s' : Prop :=
  forgotten k s' /\
  (sims s' !! k = sims s !! k \/
   exists x x', sims s !! k = Some x /\ sims s' !! k = Some x' /\ internal x x').

Lemma forgotten_same k s s' : forgotten k s -> sims s' = sims s -> current s' = current s ->
  Forall (fun c => ~ refersTo k (cPc c)) (conns s') ->
  match shut s' with SGot j | SStop _ j => j <> k | _ => True end -> left_alone k s s'.
Proof. intros [] Es Ec Hc Hs. split; [split|]; rewrite ?Es, ?Ec; auto. Qed.

Lemma forgotten_upd k s s0 i v : forgotten k s -> sims s0 = sims s -> current s0 = current s ->
  conns s0 = conns s -> shut s0 = shut s -> ~ refersTo k v ->
  left_alone k s (upd_conn i (set_cPc v) s0).
Proof.
  intros Hf Es Ec En Eh Hv. apply forgotten_same; [done|done|done| |cbn; rewrite Eh; apply Hf].
  cbn. rewrite En. apply Forall_alter; [apply Hf|done].
Qed.

Lemma forgotten_put k s j w ps v i : forgotten k s -> j <> k -> ~ refersTo k v ->
  left_alone k s (upd_conn i (set_cPc v) (put_sim j w ps s)).
Proof.
  intros [] Hj Hv. split; [split|left]; cbn.
  - by rewrite length_insert.
  - done.
  - by apply Forall_alter.
  - done.
  - by rewrite list_lookup_insert_ne.
Qed.

Lemma resume_refers k o acts j : j <> k -> ~ refersTo k (resume_script o acts j).
Proof. by destruct o. Qed.

Lemma forgotten_conn_step k i c s s' : forgotten k s -> conns s !! i = Some c ->
  conn_step cfg i c s s' -> left_alone k s s'.
Proof.
  intros Hf Hc Hstep. pose proof (Forall_lookup_1 _ _ _ _ (fg_conns _ _ Hf) Hc) as Hr.
  destruct Hstep as [Hp|Hp _ _|Hp Hmax|Hp|msg acts Hp Ho _ Hm|Hp|Hp|sim Hp|a acts sim Hp _|e acts sim Hp
    |acts j w ps clock s' Hp Hk Hoff|m acts j w ps Hp Hk Hst|p acts j w ps o w' s' Hp Hk Ht Hpub|Hp];
    cbn in Hr; rewrite Hp in Hr; cbn in Hr.
  - apply forgotten_same; try done; [|apply Hf]. cbn. apply Forall_alter; [apply Hf|by intros].
  - apply forgotten_same; try done; [|apply Hf]. cbn. apply Forall_alter; [apply Hf|by intros].
  - apply forgotten_same; try done; [|apply Hf]. cbn. apply Forall_alter; [apply Hf|].
    intros x. by cbn.
  - rewrite record_upd. apply forgotten_upd; try done. cbn. destruct (current s) as [j|] eqn:Ec; [|exact (fun F => F)].
    cbn. intros ->. by destruct (fg_current _ _ Hf).
  - apply forgotten_upd; try done. destruct (current s) as [j|] eqn:Ec; [|done].
    cbn. intros ->. by destruct (fg_current _ _ Hf).
  - by apply forgotten_upd.
  - rewrite record_upd. by apply forgotten_upd.
  - apply forgotten_same; try done; [|apply Hf]. cbn. apply Forall_alter; [apply Hf|by intros x _ _ F].
  - by apply forgotten_upd.
  - destruct Hf as [F1 F2 F3 F4]. split; [split|left]; cbn.
    + rewrite length_app. lia.
    + intros [= ?]. lia.
    + apply Forall_alter; [done|]. cbn. intros x _ _. lia.
    + done.
    + by rewrite lookup_app_l.
  - destruct (offer_queue _ _ _ _ Hoff) as [q ->]. by apply forgotten_upd.
  - apply forgotten_put; [done|done|by apply resume_refers].
  - destruct (publishes_queue _ _ _ _ _ Hpub) as [q ->].
    destruct (forgotten_put k s j w' ps (resume_script o acts j) i Hf Hr (resume_refers _ _ _ _ Hr))
      as [[G1 G2 G3 G4] G5]. by split.
  - apply forgotten_same; try done; [|apply Hf]. cbn. apply Forall_alter; [apply Hf|by intros].
Qed.

Lemma forgotten_step k s s' : forgotten k s -> server_step cfg s s' -> left_alone k s s'.
Proof.
  intros Hf Hstep. pose proof (fg_shut _ _ Hf) as Hs.
  destruct Hstep as [|i c s' Hc Hstep|i c s' Hc Hping| |j w ps1 p ps2 o w' s' Hk Ht Hpub|u us _ Hq|_|i rest _|i rest _|_
    |Hst|Hst _|j Hst Hcur|j w ps Hst Hk|p j w ps o w' Hst Hk Ht|Hst|Hst _|Hst].
  - apply forgotten_same; try done. cbn. apply Forall_app. split; [apply Hf|]. apply Forall_singleton. exact (fun F => F).
  - by eapply forgotten_conn_step.
  - destruct (ping_step_upd _ _ _ _ Hping) as [v ->].
    apply forgotten_same; try done. cbn. apply Forall_alter; [apply Hf|]. intros x _ F. exact F.
  - apply forgotten_same; try done; apply Hf.
  - destruct (publishes_queue _ _ _ _ _ Hpub) as [q ->]. destruct Hf as [F1 F2 F3 F4].
    split; [split|]; cbn; try done; [by rewrite length_insert|].
    destruct (decide (j = k)) as [->|Hne]; [right|left; by rewrite list_lookup_insert_ne].
    eexists _, _. split; [done|]. split; [by apply list_lookup_insert_eq|]. by apply internal_step.
  - apply forgotten_same; try done. apply Hf.
  - apply forgotten_same; try done. apply Hf.
  - apply forgotten_same; try done. apply Hf.
  - apply forgotten_same; try done. cbn. apply Forall_alter; [apply Hf|].
    intros c _ Hc. unfold unregisterClient. by destruct (cReg c).
  - apply forgotten_same; try done. apply Hf.
  - apply forgotten_same; try done. apply Hf.
  - apply forgotten_same; try done. apply Hf.
  - apply forgotten_same; try done; [apply Hf|]. cbn. intros ->. by destruct (fg_current _ _ Hf).
  - rewrite Hst in Hs. destruct Hf as [F1 F2 F3 F4]. split; [split|left];
      cbn [sims current conns shut set_shut put_sim set_sims]; try done.
    + by rewrite length_insert.
    + by destruct (call MStop w).2.
    + by rewrite list_lookup_insert_ne.
  - rewrite Hst in Hs. destruct Hf as [F1 F2 F3 F4]. split; [split|left]; cbn; try done.
    + by rewrite length_insert.
    + by destruct o.
    + by rewrite list_lookup_insert_ne.
  - apply forgotten_same; try done. cbn. apply Forall_map. eapply Forall_impl; [apply Hf|].
    intros c Hc. unfold unregisterClient. by destruct (cReg c).
  - apply forgotten_same; try done. apply Hf.
  - apply forgotten_same; try done. apply Hf.
Qed.

(** For ever: a forgotten simulator is driven by its goroutines alone. *)
Lemma forgotten_forever k s s' (x : World (Sd := AnyScheduler)) : forgotten k s -> sims s !! k = Some x ->
  rtc (server_step cfg) s s' ->
  forgotten k s' /\ exists x', sims s' !! k = Some x' /\ rtc internal x x'.
Proof.
  intros Hf Hx Hrtc. revert x Hf Hx. induction Hrtc as [s|s1 s2 s3 Hstep _ IH]; intros x Hf Hx.
  - split; [done|]. exists x. split; [done|apply rtc_refl].
  - destruct (forgotten_step _ _ _ Hf Hstep) as [Hf2 [E|(y & y' & Hy & Hy' & Hi)]].
    + apply IH; [done|by rewrite E].
    + rewrite Hx in Hy. injection Hy as <-. destruct (IH y' Hf2 Hy') as (Hf3 & x' & Hx' & Hr).
      split; [done|]. exists x'. split; [done|]. by eapply rtc_l.
Qed.
End forgotten.

(** *** Two races *)

Section races.
Context `{GoFloatToInt} `{GoQuote} `{GoSortLaws} (cfg : ServerConfig).

Lemma newSimulator_fields sched procs :
  let e := newSimulator sched procs in
  state e = SimStateIdle /\ updateCallback e = true /\ currentTime e = 0.
Proof.
  pose proof (AddProcesses_frame procs (SetUpdateCallback true (NewSimulator sched))) as E.
  cbn zeta in E. unfold newSimulator. rewrite E. done.
Qed.

(** A message that replaces the simulator. *)
Definition initMessageOk (msg : Fields) : Prop :=
  messageFits msg /\ stringField "type" msg = Some "init"%string /\ initialises msg.

Lemma init_script live msg : initMessageOk msg ->
  exists e, reachable e /\ state e = SimStateIdle /\ updateCallback e = true /\ currentTime e = 0 /\
    handleMessage live msg = Some ((if live then [AMethod MStop] else []) ++
      [AInstall e; sendSuccess "Simulator initialized"; AWriteState]).
Proof.
  intros ((Hf & _) & Ht & Hi). unfold handleMessage. rewrite Ht. cbn [String.eqb Ascii.eqb Bool.eqb].
  destruct (handleInit_cases live msg Hf) as [(_ & sched & ps & _ & _ & Hr & E)|(Hn & _)]; [|done].
  exists (newSimulator sched ps). split; [done|].
  destruct (newSimulator_fields sched ps) as (-> & -> & ->). done.
Qed.

Definition startMessage : Fields := [("type", JString "start")]%string.

Lemma startMessage_fits : messageFits startMessage.
Proof. by split; [constructor|]. Qed.

Definition fresh (e : Simulator AnyScheduler) : World := (mkShared e 0 false false, []).

#[local] Notation turns := (rtc (server_step cfg)).

Lemma alter_middle {A} (f : A -> A) (l1 l2 : list A) x :
  alter f (length l1) (l1 ++ x :: l2) = l1 ++ f x :: l2.
Proof. induction l1 as [|y l1 IH]; [done|]. cbn. by rewrite <-IH. Qed.

Lemma lookup_middle {A} (l1 l2 : list A) x : (l1 ++ x :: l2) !! length l1 = Some x.
Proof. by rewrite lookup_app_r, Nat.sub_diag by lia. Qed.

(** One step of the connection in the middle that changes its own place only. *)
Lemma turn_middle s l1 c l2 f s' t : conns s = l1 ++ c :: l2 ->
  conn_step cfg (length l1) c s (upd_conn (length l1) f s') -> conns s' = conns s ->
  set_conns (l1 ++ f c :: l2) s' = t -> turns s t.
Proof.
  intros E Hstep E' <-. apply rtc_once.
  assert (Hu : set_conns (l1 ++ f c :: l2) s' = upd_conn (length l1) f s').
  { unfold upd_conn. by rewrite E', E, alter_middle. }
  rewrite Hu. eapply srv_conn; [rewrite E; apply lookup_middle|exact Hstep].
Qed.

Section turns.
Context (q : list SimulationUpdate) (b : bpc) (cl bc : bool) (sh : spc).

Definition srv (g : list MetricCall) (ss : list World) (cur : option nat) (cs : list Conn) : Server :=
  mkServer ss cur cs q b cl bc sh None g.

(** A registered connection with its pinger. *)
Definition client (p : hpc) : Conn := mkConn p true true PWaiting.

Lemma turn_message g ss cur l1 l2 msg acts :
  messageFits msg -> handleMessage (bool_decide (cur <> None)) msg = Some acts ->
  turns (srv g ss cur (l1 ++ client HReading :: l2))
        (srv g ss cur (l1 ++ client (HScript acts cur) :: l2)).
Proof. intros Hf Hm. by eapply turn_middle; [done|by eapply conn_message|..]. Qed.

Lemma turn_write g ss cur l1 l2 a acts sim pg : a = AWriteState \/ isReply a = true ->
  turns (srv g ss cur (l1 ++ mkConn (HScript (a :: acts) sim) true true pg :: l2))
        (srv g ss cur (l1 ++ mkConn (HScript acts sim) true true pg :: l2)).
Proof. intros Ha. by eapply turn_middle; [done|by eapply conn_write|..]. Qed.

Lemma turn_handled g ss cur l1 l2 sim pg :
  turns (srv g ss cur (l1 ++ mkConn (HScript [] sim) true true pg :: l2))
        (srv g ss cur (l1 ++ read_loop (mkConn HReading true true pg) :: l2)).
Proof. by eapply turn_middle; [done|by eapply conn_handled|..]. Qed.

(** A connection is registered, counted and greeted. *)
Lemma turn_register g ss cur l1 l2 :
  maxClients cfg <= 0 \/ clients (srv g ss cur (l1 ++ mkConn HConnected true false PNone :: l2)) < maxClients cfg ->
  turns (srv g ss cur (l1 ++ mkConn HConnected true false PNone :: l2))
        (srv (g ++ IncClient) ss cur (l1 ++ client HReading :: l2)).
Proof.
  intros Hm. etrans; [by eapply turn_middle; [done|by apply conn_registered|..]|].
  etrans.
  { eapply (turn_middle _ l1 _ l2 (set_cPc (HScript (greeting (bool_decide (cur <> None))) cur))
      (record_ IncClient (srv g ss cur (l1 ++ mkConn HGreeting true true PNone :: l2))));
      [reflexivity|by apply conn_greeted|reflexivity|reflexivity]. }
  etrans; [|apply (turn_handled _ _ _ _ _ cur PNone)]. cbn. destruct (bool_decide _); [by apply turn_write; left|done].
Qed.

(** The script of a successful [init], from its installation on. *)
Lemma turn_install g ss cur l1 l2 e m sim :
  turns (srv g ss cur (l1 ++ client (HScript [AInstall e; sendSuccess m; AWriteState] sim) :: l2))
        (srv g (ss ++ [fresh e]) (Some (length ss)) (l1 ++ client HReading :: l2)).
Proof.
  etrans.
  { by eapply turn_middle; [done|by eapply conn_install|..]. }
  etrans; [by apply turn_write; right|].
  etrans; [by apply turn_write; left|]. apply turn_handled.
Qed.

(** A [start] message on the idle current simulator. *)
Lemma turn_start g ss k e l1 l2 : ss !! k = Some (fresh e) -> state e = SimStateIdle ->
  turns (srv g ss (Some k) (l1 ++ client HReading :: l2))
        (srv g (<[k := (mkShared (set_state SimStateRunning e) 1 false false, [RSelect true])]> ss)
             (Some k) (l1 ++ client HReading :: l2)).
Proof.
  intros Hk Hidle. etrans.
  { eapply (turn_message _ _ _ _ _ startMessage); [exact startMessage_fits|reflexivity]. }
  etrans.
  { by eapply turn_middle; [done|by eapply (conn_call cfg _ _ _ MStart)|..]. }
  cbn [call fresh fst snd]. unfold Start. cbn [eng state]. rewrite Hidle. cbn.
  etrans; [by apply turn_write; right|]. apply turn_handled.
Qed.

Lemma turn_accept g ss cur cs :
  turns (srv g ss cur cs) (srv g ss cur (cs ++ [mkConn HConnected true false PNone])).
Proof. apply rtc_once, srv_accept. Qed.
End turns.

Lemma serving_turns s s' : serving cfg s -> turns s s' -> serving cfg s'.
Proof. intros Hs Ht. induction Ht; [done|]. eauto using serving_step. Qed.
(** Two connections are registered, both have read [msg] while there was no
    simulator; the first one installs its simulator and starts it. *)
Lemma race_reaches msg : initMessageOk msg -> maxClients cfg <= 0 \/ 2 <= maxClients cfg ->
  exists e w, reachable e /\ updateCallback e = true /\
    w = mkShared (set_state SimStateRunning e) 1 false false /\
    serving cfg (srv [] BIdle false false SIdle (IncClient ++ IncClient) [(w, [RSelect true]); fresh e] (Some 1%nat)
      [client HReading; client HReading]).
Proof.
  intros Hmsg Hmax. destruct (init_script false msg Hmsg) as (e & Hr & Hst & Hcb & _ & Hm).
  exists e, (mkShared (set_state SimStateRunning e) 1 false false). do 3 (split; [done|]).
  eapply serving_turns; [apply serving_new|]. change NewServer with (srv [] BIdle false false SIdle [] [] None []).
  etrans; [apply turn_accept|]. cbn [app].
  etrans; [apply (turn_register _ _ _ _ _ _ _ _ [] []); cbn; lia|].
  etrans; [apply turn_accept|]. cbn [app].
  etrans; [apply (turn_register _ _ _ _ _ _ _ _ [client HReading] []); cbn; lia|].
  etrans; [by apply (turn_message _ _ _ _ _ _ [] None [] [client HReading] msg _ (proj1 Hmsg) Hm)|].
  etrans; [by apply (turn_message _ _ _ _ _ _ [] None [_] [] msg _ (proj1 Hmsg) Hm)|]. cbn [app].
  etrans; [apply (turn_install _ _ _ _ _ _ _ _ [] [_])|]. cbn [app length].
  etrans; [by apply (turn_start _ _ _ _ _ _ _ 0 e [] [_])|]. cbn [app].
  apply (turn_install _ _ _ _ _ _ [(mkShared (set_state SimStateRunning e) 1 false false, [RSelect true])]
    (Some 0%nat) [client HReading] []).
Qed.

(** One client initialises; a shutdown stops the idle simulator, then the client's
    [start] arrives and its run goroutine gets to its first [sendUpdate]. *)
Lemma shutdown_reaches msg : initMessageOk msg -> maxClients cfg <= 0 \/ 1 <= maxClients cfg ->
  exists e, updateCallback e = true /\
    serving cfg (srv [] BIdle true true SServer (IncClient ++ IncWSError "read" ++ DecClient) [(mkShared e 1 false false, [RSend])] (Some 0%nat)
      [mkConn HDone false false PWaiting]).
Proof.
  intros Hmsg Hmax. destruct (init_script false msg Hmsg) as (e & Hr & Hst & Hcb & Ht & Hm).
  assert (Hr' : reachable (set_state SimStateRunning e)) by (by apply reach_state).
  destruct (reachable_tick _ Hr') as (e' & He & _ & _).
  { change (currentTime (set_state SimStateRunning e)) with (currentTime e). by rewrite Ht. }
  exists e'. split.
  { destruct (executeTimeUnit_rewinds (f := fun _ => tt) _ _ He) as [_ _ E]. by rewrite E. }
  eapply serving_turns; [apply serving_new|]. change NewServer with (srv [] BIdle false false SIdle [] [] None []).
  etrans; [apply turn_accept|]. cbn [app].
  etrans; [apply (turn_register _ _ _ _ _ _ _ _ [] []); cbn; lia|].
  etrans; [by apply (turn_message _ _ _ _ _ _ [] None [] [] msg _ (proj1 Hmsg) Hm)|].
  etrans; [apply (turn_install _ _ _ _ _ _ _ _ [] [])|]. cbn [app length].
  etrans; [by apply rtc_once, srv_close|].
  etrans; [by apply rtc_once, (srv_simulator _ _ 0)|].
  etrans; [by apply rtc_once, (srv_stop_call _ _ 0 (mkShared e 0 false false) [])|].
  cbn [call]. unfold StopCall. cbn [eng]. rewrite Hst. cbn.
  etrans; [by apply (turn_start [] BIdle true false SClients _ [fresh e] 0 e [] [])|]. cbn.
  etrans; [eapply rtc_once, (srv_run _ _ 0 (mkShared (set_state SimStateRunning e) 1 false false) [] (RSelect true) [] (Some RTick));
    [done|by apply run_tick|by apply publishes_nothing]|]. cbn.
  etrans; [eapply rtc_once, (srv_run _ _ 0 (mkShared (set_state SimStateRunning e) 1 false false) [] RTick [] (Some RSend));
    [done|apply run_exec; [change (currentTime e < max_int); by rewrite Ht|exact He]|by apply publishes_nothing]|]. cbn.
  etrans; [by apply rtc_once, srv_close_clients|]. cbn.
  etrans; [apply rtc_once, (srv_conn _ _ 0 (mkConn HReading false false PWaiting)); [done|by apply conn_read_fails]|]. cbn.
  etrans; [apply rtc_once, (srv_conn _ _ 0 (mkConn HCleanup false false PWaiting)); [done|by apply conn_cleanup]|]. cbn.
  by apply rtc_once, srv_waited.
Qed.
(** A shutdown has closed the connections of nobody and waits for the handlers; now a
    client connects. *)
Lemma late_client_reaches : maxClients cfg <= 0 \/ 1 <= maxClients cfg ->
  serving cfg (srv [] BIdle true false SWait IncClient [] None [client HReading]).
Proof.
  intros Hmax. eapply serving_turns; [apply serving_new|].
  change NewServer with (srv [] BIdle false false SIdle [] [] None []).
  etrans; [by apply rtc_once, srv_close|].
  etrans; [by apply rtc_once, srv_no_simulator|].
  etrans; [by apply rtc_once, srv_close_clients|]. cbn.
  etrans; [apply (turn_accept [] BIdle true false SWait [] [] None [])|]. cbn [app].
  apply (turn_register [] BIdle true false SWait [] [] None [] []); cbn; lia.
Qed.

Lemma clientWg_positive (s : Server) i c : conns s !! i = Some c -> cPc c <> HDone -> 0 < clientWg s.
Proof.
  unfold clientWg. generalize (conns s). intros l. revert i.
  induction l as [|x l IH]; intros [|i] Hi Hc; try done; cbn.
  - injection Hi as ->.
    assert (0 <= zsum (fun c => match cPc c with HDone => 0 | _ => 1 end) l)
      by (clear; induction l as [|x l IH]; cbn; [lia|destruct (cPc x); lia]).
    destruct (cPc c); done || lia.
  - specialize (IH i Hi Hc). destruct (cPc x); lia.
Qed.

(** The shutdown waits for every handler that has not returned. *)
Lemma shutdown_waits i s s' : (exists c, conns s !! i = Some c /\ (cPc c = HDone \/ shut s = SWait)) ->
  server_step cfg s s' -> exists c, conns s' !! i = Some c /\ (cPc c = HDone \/ shut s' = SWait).
Proof.
  intros (c & Hi & Hd) Hstep. destruct (server_step_evolves cfg i c s s' Hi Hstep) as (c' & Hc' & [Hdone _]).
  exists c'. split; [exact Hc'|]. destruct Hd as [Hd|Hw]; [auto|].
  destruct Hstep as [|j d s' Hc Hstep|j d s' Hc Hping| |k w ps1 p ps2 o w' s' Hk Ht Hpub|u us _ Hq|_|j rest _|j rest _|_
    |Hst|Hst _|k Hst Hcur|k w ps Hst Hk|p k w ps o w' Hst Hk Ht|Hst|_ H0'|Hst]; try (right; exact Hw); try congruence.
  - right. destruct (conn_step_frame cfg _ _ _ _ Hstep) as (_ & _ & ->). exact Hw.
  - right. destruct (ping_step_upd _ _ _ _ Hping) as [v ->]. exact Hw.
  - right. destruct (publishes_queue _ _ _ _ _ Hpub) as [q ->]. exact Hw.
  - left. apply Hdone. pose proof (clientWg_positive s i c Hi) as Hp.
    destruct (cPc c); try done; exfalso; specialize (Hp ltac:(done)); lia.
Qed.

Lemma shutdown_waits_forever i s s' : (exists c, conns s !! i = Some c /\ (cPc c = HDone \/ shut s = SWait)) ->
  rtc (server_step cfg) s s' -> exists c, conns s' !! i = Some c /\ (cPc c = HDone \/ shut s' = SWait).
Proof. intros Hs Hr. induction Hr as [|s1 s2 s3 Hstep _ IH]; [done|]. eauto using shutdown_waits. Qed.
End races.

(** C31: Two clients that initialise at the same time orphan a simulation: [handleInit]
    reads the simulator to stop before it installs its own, so the second
    installation replaces, without stopping it, the simulator the first client has
    already started. In the state reached the replaced simulator runs and publishes
    to all clients, and from there on no message of any client and no shutdown ever
    touches it again: whatever happens, it changes only by its own goroutine's
    steps, and it never becomes the current simulator. *)
Theorem simultaneous_init_orphans_a_run `{GoFloatToInt} `{GoQuote} `{GoSortLaws} cfg msg :
  initMessageOk msg -> maxClients cfg <= 0 \/ 2 <= maxClients cfg ->
  exists s w, serving cfg s /\ shut s = SIdle /\ current s = Some 1%nat /\
    sims s !! 0%nat = Some (w, [RSelect true]) /\
    state (eng w) = SimStateRunning /\ updateCallback (eng w) = true /\
    forall s', rtc (server_step cfg) s s' ->
      current s' <> Some 0%nat /\
      exists x', sims s' !! 0%nat = Some x' /\ rtc internal (w, [RSelect true]) x'.
Proof.
  intros Hmsg Hmax. destruct (race_reaches cfg msg Hmsg Hmax) as (e & w & _ & Hcb & -> & Hs).
  eexists _, _. split; [exact Hs|]. do 5 (split; [done|]). intros s' Hrtc.
  match type of Hrtc with rtc _ ?s0 _ => assert (Hf : forgotten 0 s0) end.
  { split; [cbn; lia|done| |done]. cbn. repeat constructor; exact (fun F => F). }
  match type of Hrtc with rtc _ ?s0 _ =>
    destruct (forgotten_forever cfg 0 s0 s' _ Hf eq_refl Hrtc) as [Hf' Hx] end.
  split; [apply Hf'|exact Hx].
Qed.

(** C32: Shutdown can close the broadcast channel under a run: it stops the simulator
    before it closes the connections, so a [start] a client sends in between leaves
    a run goroutine that the shutdown does not wait for. In the state reached every
    handler has exited, the broadcast channel is closed and a live run goroutine is
    about to offer an update to it, where the [select] may choose the send on the
    closed channel: a panic that ends the process. *)
Theorem shutdown_closes_under_a_run `{GoFloatToInt} `{GoQuote} `{GoSortLaws} cfg msg :
  initMessageOk msg -> maxClients cfg <= 0 \/ 1 <= maxClients cfg ->
  exists s, serving cfg s /\ shut s = SServer /\ clientWg s = 0 /\ panics s.
Proof.
  intros Hmsg Hmax. destruct (shutdown_reaches cfg msg Hmsg Hmax) as (e & Hcb & Hs).
  eexists. split; [exact Hs|]. split; [done|]. split; [done|].
  exists 0%nat, (mkShared e 1 false false), [RSend], RSend.
  split; [done|]. split; [by left|]. split; [done|]. split; [|done]. cbn. exact Hcb.
Qed.

(** C33: A client that connects during a shutdown holds it up: [HandleWebSocket] does not
    look at [s.closed], and the shutdown closes the registered connections once, before
    it waits for the handlers. In the state reached the health check already reports
    the shutdown, while a client registered after that sweep is connected, counted and
    read from; whatever happens then, until its own handler returns the shutdown
    stays where it is, and neither the broadcast channel nor the HTTP server is closed. *)
Theorem late_client_holds_up_shutdown `{GoFloatToInt} `{GoQuote} `{GoSortLaws} cfg :
  maxClients cfg <= 0 \/ 1 <= maxClients cfg ->
  exists s c, serving cfg s /\ shut s = SWait /\ conns s !! 0%nat = Some c /\
    cPc c = HReading /\ cOpen c = true /\ cReg c = true /\ HandleHealth s = (503, Degraded) /\
    forall s', rtc (server_step cfg) s s' ->
      exists c', conns s' !! 0%nat = Some c' /\
        (cPc c' = HDone \/ shut s' = SWait /\ broadcastClosed s' = false).
Proof.
  intros Hmax. eexists _, _. split; [by apply late_client_reaches|].
  do 6 (split; [reflexivity|]). intros s' Hr.
  match type of Hr with rtc _ ?s0 _ =>
    destruct (shutdown_waits_forever cfg 0 s0 s') as (c' & Hc' & Hd); [|exact Hr|] end.
  { eexists. split; [reflexivity|by right]. }
  exists c'. split; [exact Hc'|]. destruct Hd as [Hd|Hd]; [by left|right]. split; [exact Hd|].
  assert (Hs : serving cfg s') by (eapply serving_turns; [by apply late_client_reaches|exact Hr]).
  destruct (serving_phases cfg s' Hs) as [_ Hb]. destruct (broadcastClosed s'); [|done].
  destruct (proj1 Hb eq_refl); congruence.
Qed.

(** *** Witnesses *)

#[local] Instance plainQuote : GoQuote := fun s => s.

Definition defaults : ServerConfig := {| maxClients := 0; bufferSize := 64 |}.

Lemma initMessage_ok : initMessageOk initMessage.
Proof.
  split; [exact initMessage_fits|]. split; [reflexivity|]. split; [|split].
  - apply (bool_decide_unpack _). vm_compute. exact I.
  - discriminate.
  - apply Forall_singleton. exists 3, 2, 5.
    repeat split; try lia; eexists; (split; [reflexivity|vm_compute; reflexivity]).
Qed.

Lemma server_engines_safe_witness :
  exists s w, serving defaults s /\ current s = Some 1%nat /\
    sims s !! 0%nat = Some (w, [RSelect true]) /\ reachable (eng w) /\ wg w = 1.
Proof.
  destruct (race_reaches defaults initMessage initMessage_ok (or_introl (Z.le_refl 0)))
    as (e & w & _ & _ & Ew & Hs).
  eexists _, w. split; [exact Hs|]. split; [reflexivity|]. split; [reflexivity|].
  destruct (server_engines_safe defaults _ Hs) as [Hk _].
  destruct (Hk 0%nat w [RSelect true] eq_refl) as (Hr & _ & Hw).
  split; [exact Hr|exact Hw].
Defined.

#[local] Instance asciiOnly : GoUnicode := {| lowerUnicode := fun s => s; trimUnicode := fun s => s |}.

Definition twoClients (name : string) : string :=
  if (name =? "MAX_CLIENTS")%string then "2"%string else ""%string.

Lemma server_limits_witness :
  exists s, serving (serverConfig (FromEnv twoClients)) s /\ clients s = 2 /\ clients s <= 2.
Proof.
  destruct (race_reaches (serverConfig (FromEnv twoClients)) initMessage initMessage_ok
    (or_intror (Z.le_refl 2))) as (e & w & _ & _ & Ew & Hs).
  eexists. split; [exact Hs|]. split; [reflexivity|].
  destruct (server_limits twoClients _ Hs) as (Hm & _). exact (Hm eq_refl).
Defined.

Lemma simultaneous_init_orphans_a_run_witness :
  exists s w, serving defaults s /\ current s = Some 1%nat /\
    sims s !! 0%nat = Some (w, [RSelect true]) /\ state (eng w) = SimStateRunning.
Proof.
  destruct (simultaneous_init_orphans_a_run defaults initMessage initMessage_ok
    (or_introl (Z.le_refl 0))) as (s & w & Hs & _ & Hc & Hk & Hst & _).
  exists s, w. split; [exact Hs|]. split; [exact Hc|]. split; [exact Hk|exact Hst].
Defined.

Lemma shutdown_closes_under_a_run_witness :
  exists s, serving defaults s /\ clientWg s = 0 /\ panics s.
Proof.
  destruct (shutdown_closes_under_a_run defaults initMessage initMessage_ok
    (or_introl (Z.le_refl 0))) as (s & Hs & _ & Hw & Hp).
  exists s. split; [exact Hs|]. split; [exact Hw|exact Hp].
Defined.

Lemma late_client_holds_up_shutdown_witness :
  exists s c, serving defaults s /\ shut s = SWait /\ conns s !! 0%nat = Some c /\ cReg c = true.
Proof.
  destruct (late_client_holds_up_shutdown defaults (or_introl (Z.le_refl 0)))
    as (s & c & Hs & Hw & Hc & _ & _ & Hr & _).
  exists s, c. split; [exact Hs|]. split; [exact Hw|]. split; [exact Hc|exact Hr].
Defined.

Lemma pinger_ends_with_its_connection_witness :
  exists s c s', serving defaults s /\ conns s !! 0%nat = Some c /\ cPc c = HDone /\
    ping_step 0 c s s' /\ server_step defaults s s'.
Proof.
  destruct (shutdown_reaches defaults initMessage initMessage_ok (or_introl (Z.le_refl 0)))
    as (e & _ & Hs).
  destruct (pinger_ends_with_its_connection defaults _ 0%nat (mkConn HDone false false PWaiting) Hs eq_refl)
    as (_ & Hd & _).
  destruct (Hd eq_refl) as (_ & Hstep & _). destruct (Hstep eq_refl) as [s' Hping].
  eexists _, _, s'. split; [exact Hs|]. split; [reflexivity|]. split; [reflexivity|].
  split; [exact Hping|]. eapply (srv_ping _ _ 0%nat); [reflexivity|exact Hping].
Defined.
