(* ===== verification/Main.v ===== *)
(** * The entry point (src/cmd/server/main.go)

    What [main] builds from the environment, how the parts are connected, the exit
    codes, and the life of the process from listening to its exit, over the transition
    system of [Server]. The HTTP library's router and client, and the resolution of a
    path, are parameters; of its listener only the documented ends of
    [ListenAndServe] are used. *)

From Stdlib Require Import Ascii.
From stdpp Require Import relations.
From S2P Require Import Prelude.
From S2P Require Import Text.
From S2P Require Import Version.
From S2P Require Import Process.
From S2P Require Import Scheduler.
From S2P Require Import Simulator.
From S2P Require Import SimInvariant.
From S2P Require Import SimSteps.
From S2P Require Import SimReach.
From S2P Require Import SimProgress.
From S2P Require Import Store.
From S2P Require Import Logging.
From S2P Require Import Config.
From S2P Require Import Middleware.
From S2P Require Import Api.
From S2P Require Import Web.
From S2P Require Import Server.

(** The handlers behind the router. *)
Inductive Endpoint :=
| EVersion | EAlgorithms | ESimulate | EList | EGet
| EStatic (dir : string)
| EWebSocket | EHealth | EMetrics | EBuildVersion.

(** [api.Handler.Register] *)
Definition Register : list (string * Endpoint) :=
  [("GET /api/version", EVersion);
   ("GET /api/algorithms", EAlgorithms);
   ("POST /api/simulate", ESimulate);
   ("GET /api/simulations", EList);
   ("GET /api/simulations/{id}", EGet)]%string.

(** The patterns of the router, in the order of their registration. *)
Definition routes (cfg : Config) (absStatic : string) : list (string * Endpoint) :=
  Register ++
  [("/", EStatic absStatic); ("/ws", EWebSocket); ("/health", EHealth)]%string ++
  (if EnableMetrics cfg then [("/metrics", EMetrics)]%string else []) ++
  [("/version", EBuildVersion)]%string.

(** The handler of [/version]: the calls on the response writer. *)
Definition quoted (s : string) : string := String "034"%char (s ++ String "034"%char EmptyString)%string.
Definition versionBody (X : string -> option string) : string :=
  ("{" ++ quoted "version" ++ ":" ++ quoted (buildVersion X) ++ "}")%string.
Definition handleBuildVersion (X : string -> option string) : list Middleware.Op :=
  [OSet "Content-Type" "application/json"; OWrite (Z.of_nat (String.length (versionBody X)))]%string.

(** The [http.Server] and what it serves. *)
Record Deployment := mkDeployment {
  dLogging : Level * Format;
  dServer : ServerConfig;
  dApi : Api.Handler;
  dRoutes : list (string * Endpoint);
  dHandler : Z -> Middleware.Handler;
  dAddr : string;
  dReadHeaderTimeout : Z;
  dReadTimeout : Z;
  dWriteTimeout : Z;
  dIdleTimeout : Z
}.

Section main.
Context `{GoUnicode}
  (Get : string -> option Z)                            (* the status, if there is a response *)
  (Abs : string -> option string)                       (* filepath.Abs *)
  (mux : list (string * Endpoint) -> Middleware.Handler).  (* http.ServeMux *)

(** The probe: the exit code. *)
Definition probe (Getenv : string -> string) : Z :=
  match Get (healthURL Getenv) with
  | None => 1
  | Some status => if negb (status =? 200) then 1 else 0
  end.

(** From the configuration to the server that listens. *)
Definition build (cfg : Config) : Deployment :=
  let absStatic := default (StaticDir cfg) (Abs (StaticDir cfg)) in
  let historyStore := New 100 in
  let table := routes cfg absStatic in
  {| dLogging := Init (LogLevel cfg) (LogFormat cfg);
     dServer := serverConfig cfg;
     dApi := NewHandler historyStore (DefaultTimeQuantum cfg) (DefaultSpeed cfg) (SimConcurrencyLimit cfg);
     dRoutes := table;
     dHandler := fun duration => serverHandler duration (WSOriginAllow cfg) (mux table);
     dAddr := Port cfg;
     dReadHeaderTimeout := ReadTimeout cfg;
     dReadTimeout := ReadTimeout cfg;
     dWriteTimeout := WriteTimeout cfg;
     dIdleTimeout := IdleTimeout cfg |}.

(** [main] up to the listening server; an exit code otherwise. *)
Definition main (Args : list string) (Getenv : string -> string) : Z + Deployment :=
  if (length Args =? 2)%nat && (default "" (Args !! 1%nat) =? "--health")%string
  then inl (probe Getenv)
  else match Validate (FromEnv Getenv) with
       | (_, Some err) => inl 1
       | (cfg, None) => inr (build cfg)
       end.
End main.

(** ** The life of the process *)

(** [main] after the listener's start: waiting for a signal, in [server.Shutdown], in
    [srv.Shutdown], or ended with an exit code. *)
Inductive mpc := MServing | MShutdown | MDraining | MExited (code : Z).

(** [mListening]: the listener's goroutine is in [ListenAndServe]. *)
Record Program := mkProgram { mPc : mpc; mServer : Server; mListening : bool }.

Definition launch : Program := mkProgram MServing (SetHTTPServer NewServer) true.

Section life.
Context `{GoFloatToInt} `{GoQuote} `{GoSortLaws} (cfg : ServerConfig).

Definition alive (p : Program) : Prop := match mPc p with MExited _ => False | _ => True end.

(** The server's steps, its shutdown only when [main] has called it. The listener ends
    with [ErrServerClosed] when the HTTP server was closed and may fail before. A panic
    of a run goroutine ends the process with the runtime's code 2. *)
Inductive program_step (p : Program) : Program -> Prop :=
| prog_server s' : alive p -> server_step cfg (mServer p) s' ->
    (shut s' = shut (mServer p) /\ httpServer s' = httpServer (mServer p)) \/
    (mPc p = MShutdown /\ shut s' <> shut (mServer p)) ->
    program_step p (mkProgram (mPc p) s' (mListening p))
| prog_listen_error : alive p -> mListening p = true -> httpServer (mServer p) = Some true ->
    program_step p (mkProgram (MExited 1) (mServer p) false)
| prog_listen_closed : alive p -> mListening p = true -> httpServer (mServer p) = Some false ->
    program_step p (mkProgram (mPc p) (mServer p) false)
| prog_signal : mPc p = MServing -> program_step p (mkProgram MShutdown (mServer p) (mListening p))
| prog_stopped : mPc p = MShutdown -> shut (mServer p) = SDone ->
    program_step p (mkProgram MDraining (mServer p) (mListening p))
| prog_drained : mPc p = MDraining -> program_step p (mkProgram (MExited 0) (mServer p) (mListening p))
| prog_panic : alive p -> panics (mServer p) -> program_step p (mkProgram (MExited 2) (mServer p) false).
End life.

(** ** Lemmas *)

Section requests.
Context `{GoSortLaws} (format : Z -> string).

(** The REST handler while it serves requests. *)
Definition request_step (h h' : Api.Handler) : Prop :=
  exists decoded start o resp, handleSimulate format h decoded start o = Some (resp, h').

(** What a request leaves alone. *)
Lemma request_frame h h' : request_step h h' ->
  defaultQuantum h' = defaultQuantum h /\ defaultSpeed h' = defaultSpeed h /\
  capacity (hStore h') = capacity (hStore h).
Proof.
  intros (decoded & start & o & resp & E). revert E. unfold handleSimulate.
  destruct (acquire h) as [h1|] eqn:Ea; [|by intros [= <- <-]].
  assert (E1 : defaultQuantum h1 = defaultQuantum h /\ defaultSpeed h1 = defaultSpeed h /\
    capacity (hStore h1) = capacity (hStore h)).
  { unfold acquire in Ea. destruct (simSem h) as [[cap n]|]; [destruct (n <? cap)|]; by simplify_eq. }
  destruct E1 as (<- & <- & <-). clear Ea h.
  assert (Er : forall x, defaultQuantum (release x) = defaultQuantum x /\
    defaultSpeed (release x) = defaultSpeed x /\ capacity (hStore (release x)) = capacity (hStore x))
    by (intros x; unfold release; by destruct (simSem x) as [[? ?]|]).
  unfold simulate. destruct (prepare h1 decoded) as [[e|[[sim name] req]]|]; [..|done];
    cbn [mbind option_bind].
  - intros [= _ <-]. apply Er.
  - destruct o as [fuel clock dur| |]; cbn [mbind option_bind].
    + destruct (runToCompletion fuel _) as [final|]; [|done]. cbn [mbind option_bind].
      intros [= _ <-]. exact (Er _).
    + intros [= _ <-]. exact (Er _).
    + intros [= _ <-]. exact (Er _).
Qed.

Lemma request_store h h' : request_step h h' -> store_ok (hStore h) -> store_ok (hStore h').
Proof.
  intros (decoded & start & o & resp & E) Hs.
  destruct (handleSimulate_cases _ _ _ _ _ _ _ E) as [(_ & -> & _)|(? & ? & ? & _ & -> & _)]; [done|].
  by apply Save_ok.
Qed.

Lemma requests_frame h h' : rtc request_step h h' -> store_ok (hStore h) ->
  defaultQuantum h' = defaultQuantum h /\ defaultSpeed h' = defaultSpeed h /\
  capacity (hStore h') = capacity (hStore h) /\ store_ok (hStore h').
Proof.
  induction 1 as [|h h1 h2 Hstep _ IH]; intros Hs; [done|].
  destruct (request_frame _ _ Hstep) as (<- & <- & <-). by apply IH, (request_store h).
Qed.
End requests.

Lemma routes_distinct cfg dir : NoDup (map fst (routes cfg dir)).
Proof.
  unfold routes, Register. destruct (EnableMetrics cfg); apply (bool_decide_unpack _); vm_compute; exact I.
Qed.

Lemma routes_metrics cfg dir : EMetrics ∈ map snd (routes cfg dir) <-> EnableMetrics cfg = true.
Proof.
  unfold routes, Register. rewrite list_elem_of_In. destruct (EnableMetrics cfg); cbn; [tauto|].
  split; [|done]. intros Hin. repeat destruct Hin as [Hin|Hin]; done.
Qed.

Section exits.
Context `{GoFloatToInt} `{GoQuote} `{GoSortLaws} (cfg : ServerConfig).

(** The HTTP server is closed by the last step of the shutdown. *)
Lemma server_step_http s s' : server_step cfg s s' -> shut s' <> shut s ->
  shut s <> SDone /\
  httpServer s' = match shut s' with SDone => (fun _ => false) <$> httpServer s | _ => httpServer s end.
Proof.
  intros Hstep Hne.
  destruct Hstep as [|i c s' Hc Hstep|i c s' Hc Hping| |k w ps1 p ps2 o w' s' Hk Ht Hpub|u us _ Hq|_|i rest _|i rest _|_
    |Hst|Hst _|k Hst Hcur|k w ps Hst Hk|p k w ps o w' Hst Hk Ht|Hst|Hst _|Hst]; try done.
  - destruct (conn_step_frame cfg _ _ _ _ Hstep) as (_ & _ & E). congruence.
  - by destruct (ping_step_upd _ _ _ _ Hping) as [v ->].
  - by destruct (publishes_queue _ _ _ _ _ Hpub) as [q ->].
  - split; [congruence|done].
  - split; [congruence|done].
  - split; [congruence|done].
  - split; [congruence|]. cbn [shut set_shut]. by destruct (call MStop w).2.
  - split; [congruence|]. cbn. by destruct o.
  - split; [congruence|done].
  - split; [congruence|done].
Qed.

(** How far the process is and how far the shutdown is. *)
Record in_phase (p : Program) : Prop := {
  ip_serving : serving cfg (mServer p);
  ip_http : httpServer (mServer p) = Some match shut (mServer p) with SDone => false | _ => true end;
  ip_pc : match mPc p with
          | MServing => shut (mServer p) = SIdle
          | MShutdown => True
          | MDraining => shut (mServer p) = SDone
          | MExited code => code = 0 /\ shut (mServer p) = SDone \/
              code = 1 /\ shut (mServer p) <> SDone \/ code = 2 /\ panics (mServer p)
          end
}.

Lemma launch_in_phase : in_phase launch.
Proof. split; [|done|done]. eapply serving_step; [apply serving_new|apply srv_set_http]. Qed.

Lemma program_step_in_phase p p' : in_phase p -> program_step cfg p p' -> in_phase p'.
Proof.
  intros [Hs Hh Hp] Hstep.
  destruct Hstep as [s' Ha Hstep Hcase|Ha Hl Hc|Ha Hl Hc|Hm|Hm Hd|Hm|Ha Hpan]; split; cbn; try done.
  - by eapply serving_step.
  - destruct Hcase as [[-> ->]|[_ Hne]]; [done|].
    destruct (server_step_http _ _ Hstep Hne) as [Hd ->]. rewrite Hh. destruct (shut (mServer p)); try done; by destruct (shut s').
  - destruct Hcase as [[E _]|[E _]]; [|by rewrite E].
    revert Hp. rewrite E. unfold alive in Ha. by destruct (mPc p).
  - right. left. split; [done|]. intros E. rewrite E in Hh. congruence.
  - rewrite Hm in Hp. by left.
  - right. by right.
Qed.

Lemma programs_in_phase p : rtc (program_step cfg) launch p -> in_phase p.
Proof.
  assert (Hall : forall q, rtc (program_step cfg) q p -> in_phase q -> in_phase p).
  { intros q Hr. induction Hr as [q|q q1 p Hstep _ IH]; [done|]. eauto using program_step_in_phase. }
  intros Hr. by eapply Hall, launch_in_phase.
Qed.
End exits.

(** A server that started, after any requests. *)
Record serves `{GoSortLaws} (format : Z -> string) (cfg : Config) (d : Deployment) : Prop := {
  sv_addr : dAddr d = Port cfg;
  sv_routes : NoDup (map fst (dRoutes d)) /\ (EMetrics ∈ map snd (dRoutes d) <-> EnableMetrics cfg = true);
  sv_timeouts : 0 < dReadTimeout d /\ 0 < dWriteTimeout d /\ 0 < dIdleTimeout d;
  sv_guard : guarded (SimConcurrencyLimit cfg) (dApi d, 0);
  sv_history : forall h, rtc (request_step format) (dApi d) h ->
    capacity (hStore h) = 100 /\ Z.of_nat (length (records (hStore h))) <= 100;
  sv_requests : forall h req, rtc (request_step format) (dApi d) h ->
    Forall decodable (rqProcesses req) -> acceptable req ->
    exists sim name req', prepare h (inr req) = Some (inr (sim, name, req')) /\ reachable sim /\
      0 < rqTimeQuantum req' /\ 0 < rqSpeed req'
}.

Lemma build_serves `{GoUnicode} `{GoSortLaws} format Abs mux Getenv :
  serves format (FromEnv Getenv) (build Abs mux (FromEnv Getenv)).
Proof.
  destruct (FromEnv_ranges Getenv) as ((Hsp & Htq & _) & _ & Ht).
  set (cfg := FromEnv Getenv) in *.
  repeat apply Forall_cons in Ht as [?Ht Ht].
  split; cbn [build dAddr dRoutes dReadTimeout dWriteTimeout dIdleTimeout dApi].
  - done.
  - split; [apply routes_distinct|apply routes_metrics].
  - lia.
  - constructor.
  - intros h Hh. apply requests_frame in Hh as (_ & _ & Hc & [_ Hl]); [|apply New_ok].
    change (capacity (hStore _)) with 100 in Hc at 2. split; [exact Hc|lia].
  - intros h req Hh Hd Ha. apply requests_frame in Hh as (Hq & Hs & _ & _); [|apply New_ok].
    destruct (prepare_accepts h req Hd Ha) as (sched & qs & Hok & Hqs & E).
    exists (setup qs sched), (sched_Name sched), (with_defaults h req). split; [done|].
    split.
    { apply setup_spec; [done|]. eapply (built_Forall2 (fun _ => True)); [exact Hqs|by apply Forall_true|].
      by intros p q []. }
    unfold with_defaults. cbn [rqTimeQuantum rqSpeed]. rewrite Hq, Hs.
    cbn [NewHandler defaultQuantum defaultSpeed].
    destruct (Z.leb_spec (rqTimeQuantum req) 0), (Z.leb_spec (rqSpeed req) 0); lia.
Qed.

(** ** Properties *)

(** C26: Whatever the environment holds: with [--health] the program exits with 0
    exactly if the port it would listen on answers 200, and with 1 otherwise. Started
    in any other way it exits with 1 exactly if its configuration is invalid (so for
    every [PORT] of the form HOST:PORT), and serves otherwise: on the configured port,
    with a router without duplicate patterns that offers the metrics exactly if they are
    enabled, with positive timeouts, a guard of exactly the configured limit, a history
    of the last 100 simulations after any requests (no variable changes that number), and
    every acceptable request, whatever came before it, is prepared as a reachable engine
    state with a positive quantum and speed. *)
Theorem main_serves_under_any_environment `{GoUnicode} `{GoSortLaws} format Get Abs mux Getenv :
  let cfg := FromEnv Getenv in
  (forall prog, exists code, main Get Abs mux [prog; "--health"%string] Getenv = inl code /\
     (code = 0 <-> Get ("http://localhost" ++ Port cfg ++ "/health")%string = Some 200) /\
     (code = 0 \/ code = 1)) /\
  (forall Args, (forall prog, Args <> [prog; "--health"%string]) ->
     match (Validate cfg).2 with
     | Some _ => main Get Abs mux Args Getenv = inl 1
     | None => exists d, main Get Abs mux Args Getenv = inr d /\ serves format cfg d
     end /\
     (forall host port, host <> ""%string -> Getenv "PORT"%string = (host ++ ":" ++ port)%string ->
        main Get Abs mux Args Getenv = inl 1)).
Proof.
  intros cfg. split.
  - intros prog. eexists. split; [reflexivity|]. unfold probe.
    rewrite (proj1 (health_probe_asks_the_port Getenv)). fold cfg.
    destruct (Get _) as [st|]; [|split; [done|by right]].
    destruct (Z.eqb_spec st 200) as [->|Hne]; cbn [negb]; (split; [|tauto]); [done|].
    split; [done|]. intros [= ->]. done.
  - intros Args Ha. unfold main.
    assert (E : (length Args =? 2)%nat && (default "" (Args !! 1%nat) =? "--health")%string = false).
    { destruct Args as [|a [|b [|c Args]]]; try done. cbn. destruct (String.eqb_spec b "--health"); [|done].
      subst b. by destruct (Ha a). }
    rewrite E. fold cfg. split.
    2:{ intros host port Hne Hp. pose proof (host_port_refused Getenv host port Hne Hp) as Hv. fold cfg in Hv.
        destruct (Validate cfg) as [c' err]. cbn [snd] in Hv. by subst err. }
    destruct (Validate cfg) as [c' [err|]] eqn:Ev; cbn [snd]; [done|].
    pose proof (Validate_same cfg) as Es. rewrite Ev in Es. cbn in Es. subst c'.
    eexists. split; [reflexivity|]. apply build_serves.
Qed.

#[local] Existing Instance plainUnicode.

Lemma main_serves_under_any_environment_witness :
  exists d, main (fun _ => None) (fun _ => None) (fun _ _ w => (w, false)) ["server"%string]
      (fun _ => ""%string) = inr d /\ dAddr d = ":8082"%string /\
    serves (fun _ => "t"%string) Default d.
Proof.
  destruct (main_serves_under_any_environment (fun _ => "t"%string) (fun _ => None) (fun _ => None)
    (fun _ _ w => (w, false)) (fun _ => ""%string)) as [_ Hs].
  destruct (Hs ["server"%string] (fun prog => ltac:(discriminate))) as [Hs1 _]. clear Hs. rename Hs1 into Hs.
  assert (Hv : (Validate (FromEnv (fun _ => ""%string))).2 = None) by (vm_compute; reflexivity).
  rewrite Hv in Hs. destruct Hs as (d & E & Hd). exists d. split; [exact E|].
  split; [apply Hd|exact Hd].
Defined.

(** C27: The process ends in good order: in every interleaving of the server with signals,
    a failing listener and panics, as long as no signal came no shutdown has begun; it
    exits with 0 only after the whole shutdown, with every channel and the HTTP server
    closed; with 1 only while the HTTP server was open, and with 2 only from a panic.
    The HTTP server is already closed when [main] gets to draining it, so the
    drain finds nothing to wait for. *)
Theorem exit_follows_shutdown `{GoFloatToInt} `{GoQuote} `{GoSortLaws} cfg p :
  rtc (program_step cfg) launch p ->
  let s := mServer p in
  serving cfg s /\
  match mPc p with
  | MServing => shut s = SIdle /\ closed s = false /\ httpServer s = Some true
  | MShutdown => True
  | MDraining => shut s = SDone /\ httpServer s = Some false
  | MExited code =>
      (code = 0 -> shut s = SDone /\ closed s = true /\ broadcastClosed s = true /\ httpServer s = Some false) /\
      (code = 1 -> httpServer s = Some true) /\ (code = 2 -> panics s) /\ 0 <= code <= 2
  end.
Proof.
  intros Hr s. destruct (programs_in_phase cfg p Hr) as [Hs Hh Hp]. fold s in Hs, Hh, Hp.
  split; [exact Hs|]. destruct (serving_phases cfg s Hs) as [Hc Hb].
  destruct (mPc p) as [| | |code]; [..|split; [|split; [|split]]].
  - rewrite Hp in Hh. split; [done|]. split; [|done]. destruct (closed s); [|done].
    by destruct (proj1 Hc eq_refl).
  - done.
  - by rewrite Hp in Hh.
  - intros ->. destruct Hp as [[_ E]|[[? _]|[? _]]]; [|done|done]. rewrite E in Hh.
    split; [done|]. split; [apply Hc; by rewrite E|]. split; [apply Hb; by right|done].
  - intros ->. destruct Hp as [[? _]|[[_ E]|[? _]]]; [done| |done]. rewrite Hh. by destruct (shut s).
  - intros ->. by destruct Hp as [[? _]|[[? _]|[_ ?]]].
  - destruct Hp as [[-> _]|[[-> _]|[-> _]]]; lia.
Qed.

#[local] Instance quotePlain : GoQuote := fun s => s.

(** A signal on an idle server. *)
Lemma orderly_exit cfg : exists p, rtc (program_step cfg) launch p /\ mPc p = MExited 0.
Proof.
  assert (Hshut : forall s s' l, server_step cfg s s' -> shut s' <> shut s ->
    program_step cfg (mkProgram MShutdown s l) (mkProgram MShutdown s' l)).
  { intros s s' l Hs Hne. apply (prog_server cfg (mkProgram MShutdown s l)); [exact I|exact Hs|]. by right. }
  eexists. split.
  - eapply rtc_l; [by apply prog_signal|]. cbn.
    eapply rtc_l; [apply Hshut; [by apply srv_close|done]|]. cbn.
    eapply rtc_l; [apply Hshut; [by apply srv_no_simulator|done]|]. cbn.
    eapply rtc_l; [apply Hshut; [by apply srv_close_clients|done]|]. cbn.
    eapply rtc_l; [apply Hshut; [by apply srv_waited|done]|]. cbn.
    eapply rtc_l; [apply Hshut; [by apply srv_server_closed|done]|]. cbn.
    eapply rtc_l; [by apply prog_stopped|]. cbn.
    eapply rtc_l; [by apply prog_drained|]. apply rtc_refl.
  - reflexivity.
Qed.

Lemma exit_follows_shutdown_witness :
  exists p, rtc (program_step {| maxClients := 0; bufferSize := 64 |}) launch p /\
    mPc p = MExited 0 /\ httpServer (mServer p) = Some false.
Proof.
  destruct (orderly_exit {| maxClients := 0; bufferSize := 64 |}) as (p & Hr & Hp).
  pose proof (exit_follows_shutdown {| maxClients := 0; bufferSize := 64 |} p Hr) as [_ H].
  rewrite Hp in H. destruct H as [H0 _]. destruct (H0 eq_refl) as (_ & _ & _ & Hh).
  exists p. split; [exact Hr|]. split; [exact Hp|exact Hh].
Defined.
